(* ===== verification/_CoqProject ===== *)
-Q . S2P
Prelude.v
CInt.v
Double.v
Queue.v
RingBuffer.v
RingBufferSPSC.v
MemoryPool.v
Order.v
CppMap.v
OrderBook.v
OrderBookInv.v
OrderBookMatch.v
OrderBookSide.v
OrderBookOps.v
OrderBookSpec.v
OrderBookQueue.v
OrderBookProps.v
SourceTests.v
Printf.v
RiskEngine.v
RiskProps.v
Crc32.v
Bytes.v
Journal.v
JournalLemmas.v
JournalProps.v
TwoQueues.v
Handoff.v
Logger.v
DoubleBounds.v
FeedHandler.v
FeedProps.v
FeedQueue.v
FeedThreads.v
Gateway.v
GatewayProps.v
Pipeline.v
PipelineHot.v
PipelineProps.v
PipelineSymbols.v
PipelineIO.v
PipelineSpec.v
PipelineOrders.v
PipelineSafe.v
PipelineCount.v
PipelineThreads.v
Main.v
MainReport.v
