(* ===== verification/Prelude.v ===== *)
(** * Aspira trading engine: a verification library

    The program under src/ is an electronic trading engine in C and C++: a
    simulated market data feed puts messages into a ring buffer; one thread (the
    hot path) turns each message into two orders, checks them against risk
    limits and matches them in a limit order book; what happened is passed over
    a second ring buffer to an I/O thread, which writes a journal and a log and
    sends the orders on.  This library models the parts of the program as
    executable Rocq functions, translated operation by operation from the
    source, and proves what makes them correct.

    ** The parts and their files

    - Machine model.  CInt.v: fixed-width integers as [Z] ([u8] ... [u64], [i32]
      write the wrap-around out).  Double.v: IEEE binary64 by the standard
      library's [SpecFloat].  Printf.v: the conversions of [printf] the program
      uses.  CppMap.v: [std::map] over doubles with its comparator contract as a
      type class.  Bytes.v: packed structures as little-endian bytes.
    - Ring buffer (include/ring_buffer.h, src/ring_buffer.c).  RingBuffer.v: every
      function on the record [ring_buffer_t] of head, tail, mask and slots.
      RingBufferSPSC.v: push and pop split at their loads and stores, one
      producer and one consumer interleaved as the step relation [spsc_step],
      where the load of the other thread's index may be stale as RELAXED and
      ACQUIRE allow.  Queue.v: the type class [BoundedQueue], what a ring buffer
      promises to its users; RingBuffer.v gives the instance.
    - Memory pool (include/memory_pool.h, src/memory_pool.c).  MemoryPool.v: the
      free stack, sequentially ([mempool_alloc], [mempool_free]) and as atomic
      steps of any number of threads ([mt_step]).
    - Orders (include/order.h).  Order.v.
    - Order book (include/order_book.h, src/order_book.cpp).  OrderBook.v: one
      definition per member function; a [std::list] iterator is the address of a
      node, so that the index of iterators and its aliasing with the levels are
      in the model, and erasing through a dead iterator is undefined ([None]).
      OrderBookInv.v: the invariant [book_wf].  OrderBookMatch.v,
      OrderBookSide.v, OrderBookOps.v: what the loops compute and that every
      member function keeps the invariant.  OrderBookSpec.v: the abstract book of
      price-time priority ([pt_match], [pt_rest], [pt_add]) and the abstraction
      [abs].  OrderBookQueue.v, OrderBookProps.v: the theorems.
    - Risk engine (include/risk_engine.h, src/risk_engine.cpp).  RiskEngine.v: one
      definition per member function, reject messages included; RiskProps.v.
    - Journal (include/journal.h, src/journal.c).  Crc32.v: the table and the
      update loop against bit-by-bit division.  Journal.v: opening, appending,
      extending and closing in both modes, down to the bytes of the file, with the
      results of the system calls as arguments.  JournalLemmas.v: records as bytes
      and a replay; JournalProps.v.
    - Execution gateway (include/execution_gateway.h, src/execution_gateway.c).
      Gateway.v, GatewayProps.v: connection states, the simulated order log and
      its acknowledgements, order messages.
    - Events between two threads (in src/logger.c and src/event_pipeline.cpp).
      TwoQueues.v: a pool of objects with a queue of free and a queue of filled
      ones, over any [BoundedQueue].  Handoff.v: its writer and its reader
      interleaved, a step for each access to a queue, to an object or to the
      running flag, with a stop at any point.
    - Logger (include/logger.h, src/logger.c).  Logger.v: opening, log calls and
      the logger thread as an instance of Handoff.v; two logging threads at once.
    - Feed handler (include/feed_handler.h, src/feed_handler.c).  FeedHandler.v:
      the generator, the simulated messages in binary64, the receive thread in
      either mode ([recv_thread_func], whose rounds are [sim_round] and
      [udp_datagram]), the consumer's side and the handle.  DoubleBounds.v: bounds of
      rounded arithmetic.  FeedProps.v: the range of a simulated message.
      FeedQueue.v: the handler as a queue of messages, [feed_spec].  FeedThreads.v:
      the receive thread and the consumer interleaved at every access to the pool.
    - Event pipeline (include/event_pipeline.h, src/event_pipeline.cpp).
      Pipeline.v: the hot path ([process_market_data] on top of order book, risk
      engine, feed and gateway texts), the I/O stage ([process_io_event] on top of
      journal, gateway and logger), its threads, initialisation, start, stop and
      destruction.  PipelineHot.v, PipelineProps.v: the hot path over whole runs.
      PipelineSymbols.v: which symbols are printed, and that they are terminated.
      PipelineIO.v: the two threads at the granularity of Handoff.v.
      PipelineSpec.v: the pipeline without memory, [pipeline_spec], and that rounds
      of all three threads refine it.  PipelineOrders.v: what becomes of an order.
      PipelineSafe.v: runs of the whole pipeline.  PipelineCount.v: what its
      counters and its journal say about a run.  PipelineThreads.v: all three threads
      at once, by their accesses to what they share.
    - Main program (src/main.cpp).  Main.v: options, everything printed, journal,
      main loop, signals, the pipeline's destruction at each return.  MainReport.v: a whole run up to its final report.
    - Tests (tests/).  SourceTests.v: the program's own sequential tests, evaluated
      on the definitions; all of them pass.

    ** How state and operations correspond

    A struct or class is a [Record] with the fields of the source; an operation
    takes and returns it, under the name it has in the source.  Undefined
    behaviour and failure are values: a [None] result is an access the language
    does not define (out of bounds, dead iterator, [MAP_FAILED], an unbounded [%s] of
    an array without a NUL, freed memory a thread still uses); error codes are
    the integers the source returns.  What the program asks of the operating
    system (clocks, [calloc], [fopen], [fwrite], [ftruncate], [mmap]) comes as
    arguments, so that theorems quantify over every answer.  Signed overflow,
    which C leaves undefined, has the two's-complement value in the definitions;
    the theorems state the ranges in which none happens, except where the point
    is that one does.  Loops are structural: over the levels and nodes of the
    book, the bytes of a block, the requests of a trace.  Three loops have fuel:
    [replay] the length of the file, of which every record it reads takes some;
    [feed_drain] and [drain_queue] the capacity of the ring buffer, which holds
    fewer elements than that.  The loops of the threads are their rounds, and a
    theorem is about every number of them; it bounds that number only where a
    counter of the program would overflow (order ids are [int32_t] and two are used
    for each message, so [2 ^ 30] messages; offsets of a mapped journal).

    Concurrency comes in three grains.  RingBufferSPSC.v and [mt_step] interleave
    single loads and stores; Handoff.v interleaves whole pushes and pops, which the
    ring buffer's theorems justify for one producer and one consumer each, and the
    accesses to objects and to the running flag, and FeedThreads.v whole pushes and
    pops and the single accesses to the pool; [pipeline_step] interleaves whole
    rounds of the three threads.  The threads share only the two event queues and
    their objects (in Handoff.v's grain in PipelineIO.v) and the feed's queue and
    pool (in FeedThreads.v's); PipelineThreads.v puts the two together, so that each
    step of the pipeline is one access of one thread to what it shares.

    ** What the theorems show

    - Order book: refinement of abstract price-time priority, no undefined
      behaviour and the invariant over all sequences of calls, no trade-through,
      conservation of quantity, trades handed out exactly once, exact cancel,
      modify, depth and top of book.
    - Risk engine: position and exposure never exceed their limits over whole
      runs, [validate] decides exactly its limits, at most [max_orders_per_sec]
      in every second, positions are sums of executions.
    - Journal: every appended record is recovered by a replay, in both payload
      types; in the bytes of an appended record any single corrupted byte fails the
      checksum test; the CRC is IEEE 802.3's; a mapped append writes its record and
      nothing else.
    - Ring buffer and pool: refinement of a bounded FIFO queue, sequentially and
      under every interleaving of one producer and one consumer with stale loads;
      the pool's objects are disjoint and counted exactly, and LIFO.
    - Gateway: sends are logged and acknowledged once and in order; messages
      determine the order they describe.
    - Logger: the file gets the lines of the calls in order and whole, at most a
      queue behind, and all of them after a shutdown, which ends.
    - Feed handler: refinement of a bounded queue of messages; every simulated
      message is in range and no cast from [double] is undefined; its capacity; a
      whole run of the receive thread delivers what it received; sharing the pool
      with the consumer is harmless as long as no message waits.
    - Event pipeline: refinement of a pipeline that has lists of messages and
      events instead of pools, ring buffers and reused objects, in every order of
      rounds; no undefined behaviour, no leaked message or event, and the
      invariants of every component over whole runs; under every interleaving of
      hot path and I/O thread the events are journaled, logged and sent as the hot
      path made them, in order, and the journal replays to exactly them; order
      texts fit their buffer; every event is processed, on its way or counted as
      dropped; and all of this holds access by access as long as the hot path keeps
      up with the feed.
    - Main: the program ends when its time is up, its pipeline destroyed, and its
      report says how many events were processed.
    - Where the code falls short of what it says, a theorem says so: the pool
      under concurrency, alone and in the feed that shares it, mapped journals that cannot be replayed (the only kind
      main opens), torn headers, prices that are not numbers, duplicate ids, a
      missing order log, two threads that log at once, events lost by a stop,
      fills of resting orders that the risk engine never sees, symbols that fill
      their array, a program that a signal does not end.

    The theorems about the I/O stage and about whole runs are for a symbol of at most
    fifteen characters ([symbol_fits]), which main does not enforce: the trades of a
    book with a longer one have no NUL in their [char symbol[16]], and printing one is
    undefined ([long_symbol_trade_undefined]).  [pipeline_refines_spec] holds for any
    symbol, and says that the specification is undefined where the pipeline is.

    ** What is not modelled

    Memory orders weaker than the stale index loads of RingBufferSPSC.v; what two
    of the pipeline's threads logging at once do to the rest (Logger.v has it for
    the logger alone); main's reads of the statistics while the hot path writes
    them, which are a data race (main sees them between rounds here); the rounds of
    the feed's thread before it is stopped again when [start] fails.  The waiting of
    the loops (spinning, [usleep], [nanosleep]) and [fflush] change no state here.
    The calls that set up sockets and epoll are their results, and [getopt_long] is
    the list of options it returns.  A signal comes between two wake-ups of main,
    not within a call of [printf] or of [stop].  The threaded tests, the build files
    and [MarketDataEvent] of include/order.h, which nothing uses, are left out.  The
    gateway's socket mode and retries do not exist in the source. *)

From stdpp Require Export prelude gmap strings list fin_maps.
From Stdlib Require Export ZArith Lia.
From Stdlib Require Export Sorting.Sorted.

#[global] Open Scope Z_scope.

(** ** Automation *)

Create HintDb aspira discriminated.

(** [zbool] turns the boolean comparisons of the code into propositions. *)
Ltac zbool :=
  repeat match goal with
  | H : _ && _ = true |- _ => apply andb_true_iff in H; destruct H
  | H : _ || _ = false |- _ => apply orb_false_iff in H; destruct H
  | H : negb _ = true |- _ => apply negb_true_iff in H
  | H : negb _ = false |- _ => apply negb_false_iff in H
  | H : (_ <? _) = true |- _ => apply Z.ltb_lt in H
  | H : (_ <? _) = false |- _ => apply Z.ltb_ge in H
  | H : (_ <=? _) = true |- _ => apply Z.leb_le in H
  | H : (_ <=? _) = false |- _ => apply Z.leb_gt in H
  | H : (_ =? _) = true |- _ => apply Z.eqb_eq in H
  | H : (_ =? _) = false |- _ => apply Z.eqb_neq in H
  end.

(** [zcases] splits on the boolean integer comparisons of the goal. *)
Ltac zcases :=
  repeat match goal with
  | |- context [?a <? ?b] => destruct (Z.ltb_spec a b)
  | |- context [?a <=? ?b] => destruct (Z.leb_spec a b)
  | |- context [?a =? ?b] => destruct (Z.eqb_spec a b)
  end.

(** ** Sums of integers over lists *)

Definition Zsum (l : list Z) : Z := foldr Z.add 0 l.

Lemma Zsum_app l1 l2 : Zsum (l1 ++ l2) = Zsum l1 + Zsum l2.
Proof. induction l1 as [|x l1 IH]; simpl; lia. Qed.

Lemma Zsum_nonneg l : Forall (λ x, 0 <= x) l → 0 <= Zsum l.
Proof. induction 1; simpl; lia. Qed.

(** ** Sorted lists *)

Section sorted.
Context {A : Type} (R : A → A → Prop).

Lemma StronglySorted_app_iff l1 l2 :
  StronglySorted R (l1 ++ l2) ↔
  StronglySorted R l1 ∧ StronglySorted R l2 ∧
  (∀ x y, x ∈ l1 → y ∈ l2 → R x y).
Proof.
  induction l1 as [|x l1 IH]; simpl.
  - split; [intros H; split_and!; [constructor|done|]|tauto].
    intros x y []%not_elem_of_nil.
  - split.
    + intros [(S1&S2&H)%IH F]%StronglySorted_inv. clear IH.
      apply Forall_app in F as [F1 F2]. rewrite Forall_forall in F2.
      split_and!; [by constructor|done|].
      intros a b [->|Ha]%elem_of_cons Hb; eauto.
    + intros ([S1 F]%StronglySorted_inv & S2 & H). constructor.
      * apply IH. split_and!; [done..|]. intros a b Ha. apply H. by right.
      * apply Forall_app; split; [done|]. apply Forall_forall.
        intros y. apply H. by left.
Qed.
End sorted.

Lemma sublist_Forall {A} (P : A → Prop) l k :
  l `sublist_of` k → Forall P k → Forall P l.
Proof.
  induction 1; intros Hk; [constructor| |]; apply Forall_cons in Hk as [??]; auto.
Qed.

Section filter.
Context {A : Type} (P : A → Prop) `{∀ x, Decision (P x)}.

Lemma filter_true l : Forall P l → filter P l = l.
Proof. induction 1; [done|]. rewrite filter_cons_True by done. by f_equal. Qed.

Lemma filter_false l : Forall (λ x, ¬ P x) l → filter P l = [].
Proof. induction 1; [done|]. by rewrite filter_cons_False. Qed.
End filter.

Lemma filter_fmap {A B} (f : A → B) (P : B → Prop) `{!∀ x, Decision (P x)} (l : list A) :
  filter P (f <$> l) = f <$> filter (λ x, P (f x)) l.
Proof.
  induction l as [|x l IH]; [done|].
  rewrite fmap_cons, !filter_cons, IH. by case_decide.
Qed.

(** ** C arrays

    [arr_get] and [arr_set] are the loads and stores of a C array of
    [length l] elements.  [None] is undefined behaviour: the access is out of
    bounds.  The same reading of [None] is used by every partial operation of
    the library. *)

Section arrays.
Context {A : Type}.
Implicit Types (l : list A) (i : Z) (v : A).

Definition arr_get l i : option A :=
  if decide (0 <= i) then l !! Z.to_nat i else None.
Definition arr_set l i v : option (list A) :=
  if decide (0 <= i < Z.of_nat (length l)) then Some (<[Z.to_nat i:=v]> l)
  else None.

Lemma arr_get_Some l i :
  0 <= i < Z.of_nat (length l) → is_Some (arr_get l i).
Proof.
  intros ?. unfold arr_get. rewrite decide_True by lia.
  apply lookup_lt_is_Some. lia.
Qed.

Lemma arr_get_inv l i v :
  arr_get l i = Some v → 0 <= i < Z.of_nat (length l).
Proof.
  unfold arr_get. case_decide; [|done]. intros ?%lookup_lt_Some. lia.
Qed.

Lemma arr_set_Some l i v :
  0 <= i < Z.of_nat (length l) → arr_set l i v = Some (<[Z.to_nat i:=v]> l).
Proof. intros ?. unfold arr_set. by rewrite decide_True by lia. Qed.

Lemma arr_set_length l l' i v : arr_set l i v = Some l' → length l' = length l.
Proof. unfold arr_set. case_decide; intros [= <-]. apply length_insert. Qed.

Lemma arr_set_get_eq l l' i v : arr_set l i v = Some l' → arr_get l' i = Some v.
Proof.
  unfold arr_set, arr_get. case_decide; intros [= <-].
  rewrite decide_True by lia. apply list_lookup_insert_eq. lia.
Qed.

Lemma arr_set_get_ne l l' i j v :
  arr_set l i v = Some l' → i ≠ j → arr_get l' j = arr_get l j.
Proof.
  unfold arr_set, arr_get. case_decide; intros [= <-] ?.
  case_decide; [|done]. apply list_lookup_insert_ne. lia.
Qed.
End arrays.

(** Unsigned division; dividing by zero is undefined. *)
Definition c_div (a b : Z) : option Z := if b =? 0 then None else Some (a / b).

(** Distinct offsets below the modulus stay distinct after a rotation. *)
Lemma mod_offset_ne t i j n :
  0 <= i < n → 0 <= j < n → i ≠ j → (t + i) mod n ≠ (t + j) mod n.
Proof.
  intros Hi Hj Hne Heq.
  pose proof (Z.div_mod (t + i) n ltac:(lia)) as E1.
  pose proof (Z.div_mod (t + j) n ltac:(lia)) as E2.
  rewrite Heq in E1.
  assert (i - j = n * ((t + i) / n - (t + j) / n)) as E by lia.
  assert ((t + i) / n - (t + j) / n = 0) by nia. nia.
Qed.
