(* ===== verification/Double.v ===== *)
(** * IEEE 754 binary64

    The program's [double]s are the standard library's executable
    specification of binary64 ([SpecFloat], precision 53, largest exponent
    1024): the arithmetic is correctly rounded to nearest even, there are
    signed zeros, infinities and a NaN (all NaNs are one value, so the payload
    and sign bit of a NaN are not represented).  The comparisons [d_lt],
    [d_le], [d_eq] are C's [<], [<=] and [==]: false on NaN.  The order lemmas
    go through [d_key], which embeds the values other than NaN in a
    lexicographic order of integers.  *)

From Stdlib Require Import Floats.SpecFloat.
From S2P Require Export CInt.

Abbreviation double := spec_float.

Definition d_add : double → double → double := SFadd 53 1024.
Definition d_sub : double → double → double := SFsub 53 1024.
Definition d_mul : double → double → double := SFmul 53 1024.
Definition d_div : double → double → double := SFdiv 53 1024.
Definition d_abs : double → double := SFabs.
Definition d_lt : double → double → bool := SFltb.
Definition d_le : double → double → bool := SFleb.
Definition d_eq : double → double → bool := SFeqb.

(** [(double)n] for an integer [n], rounded to nearest. *)
Definition d_of_Z (n : Z) : double := binary_normalize 53 1024 n 0 false.

(** The decimal literal [m / 10 ^ k]: both operands are exact in the uses
    below, so the quotient is the correctly rounded value of the literal. *)
Definition d_lit (m : Z) (k : Z) : double := d_div (d_of_Z m) (d_of_Z (10 ^ k)).

Definition d_zero : double := S754_zero false.

Definition is_nan (x : double) : bool :=
  match x with S754_nan => true | _ => false end.

#[export] Instance double_eq_dec : EqDecision double.
Proof. solve_decision. Defined.

(** ** The order on values other than NaN *)

Definition d_key (x : double) : Z * Z * Z :=
  match x with
  | S754_infinity true => (-2, 0, 0)
  | S754_finite true m e => (-1, - e, Zneg m)
  | S754_zero _ => (0, 0, 0)
  | S754_finite false m e => (1, e, Zpos m)
  | S754_infinity false => (2, 0, 0)
  | S754_nan => (3, 0, 0)
  end.

Definition lex_lt (a b : Z * Z * Z) : Prop :=
  let '(a1, a2, a3) := a in let '(b1, b2, b3) := b in
  a1 < b1 ∨ a1 = b1 ∧ (a2 < b2 ∨ a2 = b2 ∧ a3 < b3).

Lemma lex_lt_irrefl a : ¬ lex_lt a a.
Proof. destruct a as [[??]?]. simpl. lia. Qed.
Lemma lex_lt_trans a b c : lex_lt a b → lex_lt b c → lex_lt a c.
Proof. destruct a as [[??]?], b as [[??]?], c as [[??]?]. simpl. lia. Qed.
Lemma lex_lt_total a b : lex_lt a b ∨ a = b ∨ lex_lt b a.
Proof.
  destruct a as [[a1 a2] a3], b as [[b1 b2] b3]. simpl.
  destruct (Z.lt_trichotomy a1 b1) as [?|[->|?]]; [lia| |lia].
  destruct (Z.lt_trichotomy a2 b2) as [?|[->|?]]; [lia| |lia].
  destruct (Z.lt_trichotomy a3 b3) as [?|[->|?]]; [lia| |lia]. auto.
Qed.

Lemma SFcompare_spec x y :
  is_nan x = false → is_nan y = false →
  match SFcompare x y with
  | Some Lt => lex_lt (d_key x) (d_key y)
  | Some Eq => d_key x = d_key y
  | Some Gt => lex_lt (d_key y) (d_key x)
  | None => False
  end.
Proof.
  intros Hx Hy. destruct x as [[]|[]| |[] mx ex], y as [[]|[]| |[] my ey];
    try discriminate; simpl; try lia; try reflexivity;
    destruct (Z.compare_spec ex ey); simpl; try lia;
    change (Pos.compare_cont Eq mx my) with (Pos.compare mx my);
    destruct (Pos.compare_spec mx my); simpl; subst; try lia; reflexivity.
Qed.

Lemma SFcompare_nan x y :
  is_nan x = true ∨ is_nan y = true → SFcompare x y = None.
Proof. destruct x, y; simpl; intros [?|?]; congruence. Qed.

Ltac d_cmp x y :=
  let Hx := fresh "Hx" in let Hy := fresh "Hy" in
  unfold d_lt, d_le, d_eq, SFltb, SFleb, SFeqb;
  destruct (is_nan x) eqn:Hx;
  [ rewrite (SFcompare_nan x y) by auto
  | destruct (is_nan y) eqn:Hy;
    [ rewrite (SFcompare_nan x y) by auto
    | pose proof (SFcompare_spec x y Hx Hy);
      destruct (SFcompare x y) as [[]|] ] ].

Ltac d_absurd :=
  exfalso;
  repeat match goal with H : d_key _ = d_key _ |- _ => rewrite H in * end;
  solve [ eapply lex_lt_irrefl; eassumption
        | eapply lex_lt_irrefl, lex_lt_trans; eassumption ].

Lemma d_lt_spec x y :
  d_lt x y = true ↔
  is_nan x = false ∧ is_nan y = false ∧ lex_lt (d_key x) (d_key y).
Proof.
  d_cmp x y; split; intros; destruct_and?; try congruence; try done;
    d_absurd.
Qed.

Lemma d_eq_spec x y :
  d_eq x y = true ↔ is_nan x = false ∧ is_nan y = false ∧ d_key x = d_key y.
Proof.
  d_cmp x y; split; intros; destruct_and?; try congruence; try done;
    d_absurd.
Qed.

Lemma d_le_spec x y : d_le x y = d_lt x y || d_eq x y.
Proof.
  unfold d_le, d_lt, d_eq, SFleb, SFltb, SFeqb. by destruct (SFcompare x y) as [[]|].
Qed.

Lemma d_lt_irrefl x : d_lt x x = false.
Proof. apply not_true_is_false. rewrite d_lt_spec. intros (_&_&[]%lex_lt_irrefl). Qed.

Lemma d_lt_trans x y z : d_lt x y = true → d_lt y z = true → d_lt x z = true.
Proof. rewrite !d_lt_spec. intros (?&?&?) (?&?&?). eauto using lex_lt_trans. Qed.

Lemma d_lt_asym x y : d_lt x y = true → d_lt y x = false.
Proof.
  intros H. apply not_true_is_false. intros H'.
  by generalize (d_lt_trans _ _ _ H H'); rewrite d_lt_irrefl.
Qed.

Lemma d_trichotomy x y :
  is_nan x = false → is_nan y = false →
  d_lt x y = true ∨ d_eq x y = true ∨ d_lt y x = true.
Proof.
  intros. rewrite d_eq_spec, !d_lt_spec.
  destruct (lex_lt_total (d_key x) (d_key y)) as [?|[?|?]]; auto.
Qed.

Lemma d_eq_refl x : is_nan x = false → d_eq x x = true.
Proof. rewrite d_eq_spec. auto. Qed.
Lemma d_eq_sym x y : d_eq x y = true → d_eq y x = true.
Proof. rewrite !d_eq_spec. intros (?&?&?); auto. Qed.
Lemma d_eq_trans x y z : d_eq x y = true → d_eq y z = true → d_eq x z = true.
Proof. rewrite !d_eq_spec. intros (?&?&?) (?&?&?). split_and!; congruence. Qed.

(** [d_eq] is a congruence for the comparisons. *)
Lemma d_lt_eq_l x x' y : d_eq x x' = true → d_lt x y = d_lt x' y.
Proof.
  rewrite d_eq_spec. intros (?&?&Hk). apply eq_bool_prop_intro.
  rewrite !Is_true_true, !d_lt_spec, Hk. split; intros (?&?&?); auto.
Qed.
Lemma d_lt_eq_r x y y' : d_eq y y' = true → d_lt x y = d_lt x y'.
Proof.
  rewrite d_eq_spec. intros (?&?&Hk). apply eq_bool_prop_intro.
  rewrite !Is_true_true, !d_lt_spec, Hk. split; intros (?&?&?); auto.
Qed.

Lemma d_eq_not_lt x y : d_eq x y = true → d_lt x y = false.
Proof. intros H. rewrite (d_lt_eq_l _ _ _ H). apply d_lt_irrefl. Qed.

Lemma d_lt_nan_l x y : is_nan x = true → d_lt x y = false.
Proof. intros H. apply not_true_is_false. rewrite d_lt_spec. intros (?&?&_). congruence. Qed.
Lemma d_lt_nan_r x y : is_nan y = true → d_lt x y = false.
Proof. intros H. apply not_true_is_false. rewrite d_lt_spec. intros (?&?&_). congruence. Qed.

Lemma d_lt_not_nan x y :
  d_lt x y = true → is_nan x = false ∧ is_nan y = false.
Proof. rewrite d_lt_spec. intros (?&?&_). auto. Qed.

(** For values other than NaN, [not <] is [>=]. *)
Lemma d_not_lt x y :
  is_nan x = false → is_nan y = false → d_lt x y = negb (d_le y x).
Proof.
  intros Hx Hy. rewrite d_le_spec.
  destruct (d_trichotomy x y Hx Hy) as [H|[H|H]].
  - rewrite H, (d_lt_asym _ _ H). simpl.
    destruct (d_eq y x) eqn:E; [|done].
    apply d_eq_sym, d_eq_not_lt in E. congruence.
  - by rewrite (d_eq_not_lt _ _ H), (d_eq_sym _ _ H), orb_true_r.
  - by rewrite H, (d_lt_asym _ _ H).
Qed.

Lemma d_le_trans x y z : d_le x y = true → d_le y z = true → d_le x z = true.
Proof.
  rewrite !d_le_spec, !orb_true_iff. intros [Hxy|Hxy] [Hyz|Hyz].
  - left. eauto using d_lt_trans.
  - left. by rewrite <- (d_lt_eq_r x y z).
  - left. by rewrite (d_lt_eq_l x y z).
  - right. eauto using d_eq_trans.
Qed.
