(* ===== verification/Queue.v ===== *)
(** * The interface of a bounded queue

    What the ring buffer promises to the components that use it (the feed
    handler's output queue, the two I/O queues of the pipeline, the two queues
    of the logger): pushes and pops refine a FIFO queue of at most [n]
    elements.  Clients are verified against [BoundedQueue]; RingBuffer.v gives
    the instance. *)

From S2P Require Export CInt.

(** The specification: a list, oldest element first. *)
Definition queue_push {A} (n : nat) (l : list (option A)) (x : option A)
    : list (option A) * bool :=
  if decide (length l < n)%nat then (l ++ [x], true) else (l, false).

Definition queue_pop {A} (l : list (option A)) : list (option A) * option A :=
  match l with [] => ([], None) | x :: l => (l, x) end.

Class QueueOps (A Q : Type) := {
  q_push : Q → option A → option (Q * bool);
  q_pop : Q → option (Q * option A);
}.

(** [q_rep q n l]: [q] is a valid queue of at most [n] elements holding [l]. *)
Class BoundedQueue (A Q : Type) `{QueueOps A Q} := {
  q_rep : Q → nat → list (option A) → Prop;
  q_push_rep q n l x :
    q_rep q n l →
    ∃ q', q_push q x = Some (q', (queue_push n l x).2) ∧
          q_rep q' n (queue_push n l x).1;
  q_pop_rep q n l :
    q_rep q n l →
    ∃ q', q_pop q = Some (q', (queue_pop l).2) ∧ q_rep q' n (queue_pop l).1;
}.

(** ** Sequences of operations *)

Inductive queue_op (A : Type) :=
  | Push (x : option A)
  | Pop.
Arguments Push {A} _.
Arguments Pop {A}.

(** The result of a push is its boolean, the result of a pop its pointer. *)
Definition queue_result (A : Type) : Type := bool + option A.

Fixpoint run_spec {A} (n : nat) (l : list (option A)) (ops : list (queue_op A))
    : list (option A) * list (queue_result A) :=
  match ops with
  | [] => (l, [])
  | Push x :: ops =>
    let '(l, b) := queue_push n l x in
    let '(l, rs) := run_spec n l ops in (l, inl b :: rs)
  | Pop :: ops =>
    let '(l, r) := queue_pop l in
    let '(l, rs) := run_spec n l ops in (l, inr r :: rs)
  end.

Section clients.
Context {A Q : Type} `{BoundedQueue A Q}.

Fixpoint run_ops (q : Q) (ops : list (queue_op A))
    : option (Q * list (queue_result A)) :=
  match ops with
  | [] => Some (q, [])
  | Push x :: ops =>
    '(q, b) ← q_push q x; '(q, rs) ← run_ops q ops; Some (q, inl b :: rs)
  | Pop :: ops =>
    '(q, r) ← q_pop q; '(q, rs) ← run_ops q ops; Some (q, inr r :: rs)
  end.

Lemma run_ops_rep q n l ops :
  q_rep q n l →
  ∃ q', run_ops q ops = Some (q', (run_spec n l ops).2) ∧
        q_rep q' n (run_spec n l ops).1.
Proof.
  revert q l. induction ops as [|[x|] ops IH]; intros q l Hq; simpl.
  - eauto.
  - destruct (q_push_rep q n l x Hq) as (q1 & -> & Hq1).
    destruct (queue_push n l x) as [l1 b]. simpl.
    destruct (IH q1 l1 Hq1) as (q2 & -> & Hq2).
    destruct (run_spec n l1 ops). simpl. eauto.
  - destruct (q_pop_rep q n l Hq) as (q1 & -> & Hq1).
    destruct (queue_pop l) as [l1 r]. simpl.
    destruct (IH q1 l1 Hq1) as (q2 & -> & Hq2).
    destruct (run_spec n l1 ops). simpl. eauto.
Qed.
End clients.
