(* ===== verification/RingBuffer.v ===== *)
(** * SPSC ring buffer (include/ring_buffer.h, src/ring_buffer.c)

    The sequential meaning of the ring buffer: one record per
    [ring_buffer_t], one definition per function, and the refinement to a
    bounded FIFO queue of [capacity - 1] elements.  A slot holds a [void *],
    modelled as [option A] with [None] for [NULL]; a pointer argument that the
    C code tests against [NULL] is an [option] too.  A [None] result of
    [ring_buffer_push] or [ring_buffer_pop] is an out-of-bounds access.  The
    interleavings of the two threads are in RingBufferSPSC.v. *)

From S2P Require Export Queue.

Section ring_buffer.
Context {A : Type}.

Record ring_buffer_t := RingBuffer {
  rb_head : Z;
  rb_tail : Z;
  rb_buffer : option (list (option A));  (* [None] is a NULL buffer *)
  rb_capacity : Z;
  rb_mask : Z;
}.

Definition is_power_of_two (n : Z) : bool :=
  (0 <? n) && (Z.land n (u32 (n - 1)) =? 0).

(** One line [n |= n >> s]. *)
Definition smear (s n : Z) : Z := Z.lor n (Z.shiftr n s).

Definition next_power_of_two (n : Z) : Z :=
  if n =? 0 then 1 else
  let n := u32 (n - 1) in
  let n := smear 1 n in
  let n := smear 2 n in
  let n := smear 4 n in
  let n := smear 8 n in
  let n := smear 16 n in
  u32 (n + 1).

(** [calloc_ok] is whether [calloc] returns a block; the block is zeroed. *)
Definition ring_buffer_init (calloc_ok : bool) (rb : option ring_buffer_t)
    (capacity : Z) : option ring_buffer_t * Z :=
  match rb with
  | None => (None, -1)
  | Some rb =>
    if capacity =? 0 then (Some rb, -1) else
    let capacity := if negb (is_power_of_two capacity)
                    then next_power_of_two capacity else capacity in
    if calloc_ok then
      (Some {| rb_buffer := Some (replicate (Z.to_nat capacity) None);
               rb_capacity := capacity;
               rb_mask := u32 (capacity - 1);
               rb_head := 0; rb_tail := 0 |}, 0)
    else
      (Some {| rb_buffer := None; rb_capacity := rb_capacity rb;
               rb_mask := rb_mask rb; rb_head := rb_head rb;
               rb_tail := rb_tail rb |}, -1)
  end.

Definition ring_buffer_destroy (rb : option ring_buffer_t) : option ring_buffer_t :=
  match rb with
  | None => None
  | Some rb => Some {| rb_buffer := None; rb_capacity := 0; rb_mask := 0;
                       rb_head := rb_head rb; rb_tail := rb_tail rb |}
  end.

Definition set_head (rb : ring_buffer_t) buf h : ring_buffer_t :=
  {| rb_head := h; rb_tail := rb_tail rb; rb_buffer := Some buf;
     rb_capacity := rb_capacity rb; rb_mask := rb_mask rb |}.
Definition set_tail (rb : ring_buffer_t) t : ring_buffer_t :=
  {| rb_head := rb_head rb; rb_tail := t; rb_buffer := rb_buffer rb;
     rb_capacity := rb_capacity rb; rb_mask := rb_mask rb |}.

Definition ring_buffer_push (rb : ring_buffer_t) (data : option A)
    : option (ring_buffer_t * bool) :=
  let head := u32 (rb_head rb) in
  let tail := u32 (rb_tail rb) in
  let next := Z.land (u32 (head + 1)) (rb_mask rb) in
  if next =? tail then Some (rb, false) else
  buf ← rb_buffer rb;
  buf ← arr_set buf head data;
  Some (set_head rb buf next, true).

Definition ring_buffer_pop (rb : ring_buffer_t)
    : option (ring_buffer_t * option A) :=
  let tail := u32 (rb_tail rb) in
  let head := u32 (rb_head rb) in
  if tail =? head then Some (rb, None) else
  buf ← rb_buffer rb;
  data ← arr_get buf tail;
  Some (set_tail rb (Z.land (u32 (tail + 1)) (rb_mask rb)), data).

Definition ring_buffer_count (rb : option ring_buffer_t) : Z :=
  match rb with
  | None => 0
  | Some rb => Z.land (u32 (u32 (rb_head rb) - u32 (rb_tail rb))) (rb_mask rb)
  end.

Definition ring_buffer_empty (rb : option ring_buffer_t) : bool :=
  match rb with
  | None => true
  | Some rb => u32 (rb_head rb) =? u32 (rb_tail rb)
  end.

Definition ring_buffer_full (rb : option ring_buffer_t) : bool :=
  match rb with
  | None => false
  | Some rb => Z.land (u32 (u32 (rb_head rb) + 1)) (rb_mask rb) =? u32 (rb_tail rb)
  end.

(** ** Well-formed buffers and their contents *)

Record rb_wf (rb : ring_buffer_t) (buf : list (option A)) (k : Z) : Prop := {
  wf_k : 0 <= k <= 31;
  wf_capacity : rb_capacity rb = 2 ^ k;
  wf_mask : rb_mask rb = 2 ^ k - 1;
  wf_buffer : rb_buffer rb = Some buf;
  wf_length : Z.of_nat (length buf) = 2 ^ k;
  wf_head : 0 <= rb_head rb < 2 ^ k;
  wf_tail : 0 <= rb_tail rb < 2 ^ k;
}.

(** The [n] slots from index [t] on, around the end of the array. *)
Definition slots_from (buf : list (option A)) (cap t : Z) (n : nat) : list (option A) :=
  (λ i, default None (arr_get buf ((t + Z.of_nat i) mod cap))) <$> seq 0 n.

(** The elements in the queue, oldest first. *)
Definition rb_contents (rb : ring_buffer_t) : list (option A) :=
  match rb_buffer rb with
  | None => []
  | Some buf =>
    slots_from buf (rb_capacity rb) (rb_tail rb)
      (Z.to_nat ((rb_head rb - rb_tail rb) mod rb_capacity rb))
  end.

(** ** Powers of two *)

Lemma testbit_high n i : 0 <= n → Z.log2 n < i → Z.testbit n i = false.
Proof.
  intros. destruct (decide (n = 0)) as [->|]; [apply Z.bits_0|].
  apply Z.bits_above_log2; lia.
Qed.

Lemma is_power_of_two_spec n :
  is_u32 n → is_power_of_two n = true ↔ ∃ k, 0 <= k < 32 ∧ n = 2 ^ k.
Proof.
  intros Hn. unfold is_power_of_two, is_u32 in *. split.
  - intros H. zbool.
    assert (0 <= Z.log2 n < 32) as HL.
    { split; [apply Z.log2_nonneg|]. apply Z.log2_lt_pow2; lia. }
    exists (Z.log2 n). split; [done|].
    pose proof (Z.log2_spec n ltac:(lia)) as [Hlo Hhi].
    destruct (decide (n = 2 ^ Z.log2 n)) as [|Hne]; [done|]. exfalso.
    assert (Z.log2 (n - 1) = Z.log2 n) as HL1.
    { apply Z.log2_unique; lia. }
    assert (Z.testbit (Z.land n (u32 (n - 1))) (Z.log2 n) = true) as Hb.
    { rewrite u32_id by (unfold is_u32; lia).
      rewrite Z.land_spec, Z.bit_log2 by lia.
      rewrite <- HL1, Z.bit_log2; [done|].
      destruct (decide (n = 1)) as [->|]; [|lia]. by exfalso; apply Hne. }
    rewrite H0, Z.bits_0 in Hb. done.
  - intros (k & Hk & ->). apply andb_true_iff. split.
    + apply Z.ltb_lt. lia.
    + apply Z.eqb_eq.
      assert (2 ^ k < 2 ^ 32) by (apply Z.pow_lt_mono_r; lia).
      rewrite u32_id by (unfold is_u32; lia).
      rewrite land_mask by lia. by apply Z.mod_same; lia.
Qed.

(** [smeared x y s]: bit [i] of [y] is the disjunction of the bits
    [i .. i + s - 1] of [x]. *)
Definition smeared (x y s : Z) : Prop :=
  ∀ i, 0 <= i →
    Z.testbit y i = true ↔ ∃ j, 0 <= j < s ∧ Z.testbit x (i + j) = true.

Lemma smeared_1 x : smeared x x 1.
Proof.
  intros i Hi. split.
  - intros ?. exists 0. rewrite Z.add_0_r. split; [lia|done].
  - intros (j & Hj & Hb). replace (i + j) with i in Hb by lia. done.
Qed.

Lemma smeared_smear x y s : 0 < s → smeared x y s → smeared x (smear s y) (2 * s).
Proof.
  intros Hs H i Hi. unfold smear.
  rewrite Z.lor_spec, Z.shiftr_spec, orb_true_iff by lia.
  rewrite (H i), (H (i + s)) by lia. split.
  - intros [(j&?&?)|(j&?&Hb)]; [exists j; split; [lia|done]|].
    exists (s + j). split; [lia|]. by rewrite Z.add_assoc.
  - intros (j & Hj & Hb). destruct (Z.lt_ge_cases j s).
    + left. exists j. auto with lia.
    + right. exists (j - s). split; [lia|].
      by replace (i + s + (j - s)) with (i + j) by lia.
Qed.

Lemma smeared_32 x y :
  0 < x < 2 ^ 32 → 0 <= y → smeared x y 32 → y = 2 ^ (Z.log2 x + 1) - 1.
Proof.
  intros Hx Hy H.
  assert (0 <= Z.log2 x < 32) as HL.
  { split; [apply Z.log2_nonneg|]. apply Z.log2_lt_pow2; lia. }
  replace (2 ^ (Z.log2 x + 1) - 1) with (Z.ones (Z.log2 x + 1))
    by (rewrite Z.ones_equiv; lia).
  apply Z.bits_inj'. intros i Hi.
  destruct (Z.le_gt_cases i (Z.log2 x)).
  - rewrite Z.ones_spec_low by lia. apply H; [done|].
    exists (Z.log2 x - i). split; [lia|].
    replace (i + (Z.log2 x - i)) with (Z.log2 x) by lia.
    apply Z.bit_log2. lia.
  - rewrite Z.ones_spec_high by lia. apply not_true_is_false.
    rewrite (H i Hi). intros (j & Hj & Hb).
    rewrite testbit_high in Hb by lia. done.
Qed.

Lemma smear_nonneg s n : 0 <= n → 0 <= smear s n.
Proof.
  intros. unfold smear. apply Z.lor_nonneg. split; [done|].
  by apply Z.shiftr_nonneg.
Qed.

(** The five [smear] lines set every bit below the leading one. *)
Lemma next_power_of_two_u32 n :
  2 <= n < 2 ^ 32 → next_power_of_two n = u32 (2 ^ (Z.log2 (n - 1) + 1)).
Proof.
  intros Hn. unfold next_power_of_two.
  rewrite (proj2 (Z.eqb_neq n 0)) by lia. cbv zeta.
  rewrite (u32_id (n - 1)) by (unfold is_u32; lia).
  set (y := smear 16 _).
  assert (y = 2 ^ (Z.log2 (n - 1) + 1) - 1) as ->; [|f_equal; lia].
  apply smeared_32; [lia|repeat apply smear_nonneg; lia|].
  subst y. apply (smeared_smear _ _ 16); [lia|].
  apply (smeared_smear _ _ 8); [lia|]. apply (smeared_smear _ _ 4); [lia|].
  apply (smeared_smear _ _ 2); [lia|]. apply (smeared_smear _ _ 1); [lia|].
  apply smeared_1.
Qed.

Lemma next_power_of_two_log2_up n :
  1 <= n <= 2 ^ 31 → next_power_of_two n = 2 ^ Z.log2_up n.
Proof.
  intros Hn. destruct (decide (n = 1)) as [->|Hn1]; [reflexivity|].
  rewrite next_power_of_two_u32 by lia.
  assert (0 <= Z.log2 (n - 1) < 31).
  { split; [apply Z.log2_nonneg|]. apply Z.log2_lt_pow2; lia. }
  assert (2 ^ (Z.log2 (n - 1) + 1) <= 2 ^ 31) by (apply Z.pow_le_mono_r; lia).
  rewrite u32_id by (unfold is_u32; lia).
  rewrite Z.log2_up_eqn by lia. by rewrite Z.sub_1_r.
Qed.

(** ** Well-formedness and the queue *)

Lemma wf_cap_bound rb buf k : rb_wf rb buf k → 1 <= 2 ^ k <= 2 ^ 31.
Proof.
  intros [Hk _ _ _ _ _ _]. split.
  - change 1 with (2 ^ 0). apply Z.pow_le_mono_r; lia.
  - apply Z.pow_le_mono_r; lia.
Qed.

Lemma wf_index rb buf k :
  rb_wf rb buf k →
  u32 (rb_head rb) = rb_head rb ∧ u32 (rb_tail rb) = rb_tail rb.
Proof.
  intros Hwf. pose proof (wf_cap_bound _ _ _ Hwf).
  destruct Hwf. split; apply u32_id; unfold is_u32; lia.
Qed.

(** The successor of an index: the mask is the remainder by the capacity. *)
Lemma wf_next rb buf k i :
  rb_wf rb buf k → Z.land (u32 i) (rb_mask rb) = i mod 2 ^ k.
Proof.
  intros [Hk _ -> _ _ _ _]. rewrite land_mask by lia. apply u32_mod_pow2. lia.
Qed.

Lemma slots_from_length buf cap t n : length (slots_from buf cap t n) = n.
Proof. unfold slots_from. by rewrite length_fmap, length_seq. Qed.

Lemma rb_contents_length rb buf k :
  rb_wf rb buf k →
  Z.of_nat (length (rb_contents rb)) = (rb_head rb - rb_tail rb) mod 2 ^ k.
Proof.
  intros Hwf. pose proof (wf_cap_bound _ _ _ Hwf). destruct Hwf.
  unfold rb_contents. rewrite wf_buffer0, slots_from_length, wf_capacity0.
  rewrite Z2Nat.id; [done|]. apply Z.mod_pos_bound. lia.
Qed.

Lemma slots_from_cons buf cap t n :
  0 < cap → 0 <= t < cap →
  slots_from buf cap t (S n) =
  default None (arr_get buf t) :: slots_from buf cap ((t + 1) mod cap) n.
Proof.
  intros Hcap Ht. unfold slots_from. cbn [seq fmap list_fmap]. f_equal.
  - rewrite Z.add_0_r, Z.mod_small by lia. done.
  - rewrite <- fmap_S_seq, <- list_fmap_compose. apply list_fmap_ext.
    intros i x _. cbn. do 2 f_equal. rewrite Zplus_mod_idemp_l. f_equal. lia.
Qed.

Lemma slots_from_snoc buf cap t n :
  slots_from buf cap t (S n) =
  slots_from buf cap t n ++ [default None (arr_get buf ((t + Z.of_nat n) mod cap))].
Proof. unfold slots_from. by rewrite seq_S, fmap_app. Qed.

Lemma slots_from_set buf buf' cap t n i v :
  arr_set buf i v = Some buf' →
  (∀ j, (j < n)%nat → (t + Z.of_nat j) mod cap ≠ i) →
  slots_from buf' cap t n = slots_from buf cap t n.
Proof.
  intros Hset Hne. apply list_fmap_ext. intros j x Hj.
  apply lookup_seq in Hj as [-> Hj]. f_equal.
  eapply arr_set_get_ne; [done|]. apply not_eq_sym, Hne. lia.
Qed.

(** The empty and the full test in terms of the distance of the indices. *)
Lemma mod_diff_zero h t n :
  0 < n → 0 <= h < n → 0 <= t < n → h = t ↔ (h - t) mod n = 0.
Proof.
  intros Hn Hh Ht. split; [intros ->; by rewrite Z.sub_diag|]. intros Hz.
  pose proof (Z.div_mod (h - t) n ltac:(lia)) as E.
  assert ((h - t) / n = 0) by nia. nia.
Qed.

Lemma mod_diff_full h t n :
  0 < n → 0 <= h < n → 0 <= t < n →
  (h + 1) mod n = t ↔ (h - t) mod n = n - 1.
Proof.
  intros Hn Hh Ht. split.
  - intros <-. rewrite Zminus_mod_idemp_r.
    replace (h - (h + 1)) with (n - 1 + (-1) * n) by lia.
    rewrite Z.mod_add by lia. apply Z.mod_small. lia.
  - intros He. pose proof (Z.div_mod (h - t) n ltac:(lia)) as E. rewrite He in E.
    replace (h + 1) with (t + ((h - t) / n + 1) * n) by lia.
    rewrite Z.mod_add by lia. apply Z.mod_small. lia.
Qed.

(** Length of the contents in terms of the two indices. *)
Lemma mod_diff_next h t n :
  0 < n → 0 <= h < n → 0 <= t < n → (h + 1) mod n ≠ t →
  ((h + 1) mod n - t) mod n = (h - t) mod n + 1.
Proof.
  intros Hn Hh Ht Hne. rewrite Zminus_mod_idemp_l.
  pose proof (Z.mod_pos_bound (h - t) n Hn) as Hb.
  assert ((h - t) mod n ≠ n - 1) by (by rewrite <- mod_diff_full).
  replace (h + 1 - t) with (h - t + 1) by lia.
  rewrite <- Zplus_mod_idemp_l. apply Z.mod_small. lia.
Qed.

Lemma push_rep rb buf k x :
  rb_wf rb buf k →
  ∃ rb' buf',
    ring_buffer_push rb x =
      Some (rb', (queue_push (Z.to_nat (2 ^ k - 1)) (rb_contents rb) x).2) ∧
    rb_wf rb' buf' k ∧
    rb_contents rb' = (queue_push (Z.to_nat (2 ^ k - 1)) (rb_contents rb) x).1.
Proof.
  intros Hwf. pose proof (wf_cap_bound _ _ _ Hwf) as Hc.
  pose proof (rb_contents_length _ _ _ Hwf) as Hlen.
  pose proof (wf_index _ _ _ Hwf) as [Hh Ht].
  pose proof Hwf as [_ Hcap _ Hbuf Hbl Hhb Htb].
  unfold ring_buffer_push, queue_push.
  rewrite Hh, Ht, (wf_next _ _ _ _ Hwf).
  destruct (Z.eqb_spec ((rb_head rb + 1) mod 2 ^ k) (rb_tail rb)) as [Hfull|Hroom].
  - apply mod_diff_full in Hfull as Hd; [|lia..].
    rewrite Hd in Hlen. rewrite decide_False by lia. simpl. eauto.
  - pose proof (mod_diff_next _ _ (2 ^ k) ltac:(lia) Hhb Htb Hroom) as Hd.
    pose proof (Z.mod_pos_bound ((rb_head rb + 1) mod 2 ^ k - rb_tail rb) (2 ^ k)
      ltac:(lia)) as Hb.
    rewrite decide_True by (revert Hlen Hd Hb; generalize (rb_contents rb); lia).
    simpl. rewrite Hbuf. simpl. rewrite arr_set_Some by lia. simpl.
    set (buf' := <[_:=_]> buf).
    assert (arr_set buf (rb_head rb) x = Some buf') as Hset
      by (apply arr_set_Some; lia).
    pose proof (Z.mod_pos_bound (rb_head rb + 1) (2 ^ k) ltac:(lia)).
    eexists _, buf'. split_and!; [done| |].
    + destruct Hwf. split; simpl; try done.
      by rewrite (arr_set_length _ _ _ _ Hset).
    + unfold rb_contents at 1. simpl. rewrite Hcap, Hd.
      assert (Z.to_nat ((rb_head rb - rb_tail rb) mod 2 ^ k + 1) =
              S (length (rb_contents rb))) as -> by lia.
      rewrite slots_from_snoc, Hlen, Zplus_mod_idemp_r.
      replace (rb_tail rb + (rb_head rb - rb_tail rb)) with (rb_head rb) by lia.
      rewrite (Z.mod_small (rb_head rb)) by lia.
      rewrite (arr_set_get_eq _ _ _ _ Hset). simpl. f_equal.
      rewrite (slots_from_set _ _ _ _ _ _ _ Hset).
      * unfold rb_contents. rewrite Hbuf, Hcap, slots_from_length. done.
      * intros j Hj He. revert He.
        replace (rb_head rb) with
          ((rb_tail rb + (rb_head rb - rb_tail rb) mod 2 ^ k) mod 2 ^ k) at 1.
        2:{ rewrite Zplus_mod_idemp_r, Z.mod_small by lia. lia. }
        apply mod_offset_ne; lia.
Qed.

Lemma pop_rep rb buf k :
  rb_wf rb buf k →
  ∃ rb',
    ring_buffer_pop rb = Some (rb', (queue_pop (rb_contents rb)).2) ∧
    rb_wf rb' buf k ∧
    rb_contents rb' = (queue_pop (rb_contents rb)).1.
Proof.
  intros Hwf. pose proof (wf_cap_bound _ _ _ Hwf) as Hc.
  pose proof (wf_index _ _ _ Hwf) as [Hh Ht].
  pose proof Hwf as [_ Hcap _ Hbuf Hbl Hhb Htb].
  unfold ring_buffer_pop. rewrite Hh, Ht, (wf_next _ _ _ _ Hwf).
  destruct (Z.eqb_spec (rb_tail rb) (rb_head rb)) as [He|Hne].
  - assert (rb_contents rb = []) as Hnil.
    { unfold rb_contents. rewrite Hbuf, Hcap, He, Z.sub_diag. done. }
    rewrite Hnil. simpl. eauto.
  - assert ((rb_head rb - rb_tail rb) mod 2 ^ k ≠ 0) as Hd
      by (rewrite <- mod_diff_zero by lia; congruence).
    pose proof (Z.mod_pos_bound (rb_head rb - rb_tail rb) (2 ^ k) ltac:(lia)).
    rewrite Hbuf. simpl.
    destruct (arr_get_Some buf (rb_tail rb)) as [v Hv]; [lia|].
    pose proof (Z.mod_pos_bound (rb_tail rb + 1) (2 ^ k) ltac:(lia)).
    assert (rb_contents rb =
      v :: slots_from buf (2 ^ k) ((rb_tail rb + 1) mod 2 ^ k)
             (Z.to_nat ((rb_head rb - rb_tail rb) mod 2 ^ k - 1))) as ->.
    { unfold rb_contents. rewrite Hbuf, Hcap.
      replace (Z.to_nat ((rb_head rb - rb_tail rb) mod 2 ^ k)) with
        (S (Z.to_nat ((rb_head rb - rb_tail rb) mod 2 ^ k - 1))) by lia.
      rewrite slots_from_cons by lia. by rewrite Hv. }
    rewrite Hv. simpl. eexists. split_and!; [done| |].
    + destruct Hwf. by split.
    + unfold rb_contents. simpl. rewrite Hbuf, Hcap. f_equal. f_equal.
      rewrite Zminus_mod_idemp_r.
      replace (rb_head rb - (rb_tail rb + 1)) with (rb_head rb - rb_tail rb - 1) by lia.
      rewrite <- Zminus_mod_idemp_l. rewrite Z.mod_small; lia.
Qed.

End ring_buffer.
Arguments ring_buffer_t : clear implicits.

(** ** The ring buffer implements the queue interface *)

#[export] Instance ring_buffer_ops {A} : QueueOps A (ring_buffer_t A) := {
  q_push := ring_buffer_push;
  q_pop := ring_buffer_pop;
}.

#[export] Program Instance ring_buffer_queue {A} : BoundedQueue A (ring_buffer_t A) := {
  q_rep rb n l :=
    ∃ buf k, rb_wf rb buf k ∧ n = Z.to_nat (2 ^ k - 1) ∧ rb_contents rb = l;
}.
Next Obligation.
  intros A q n l x (buf & k & Hwf & -> & <-).
  destruct (push_rep q buf k x Hwf) as (q' & buf' & Hp & ? & ?). eauto 10.
Qed.
Next Obligation.
  intros A q n l (buf & k & Hwf & -> & <-).
  destruct (pop_rep q buf k Hwf) as (q' & Hp & ? & ?). eauto 10.
Qed.

Lemma ring_buffer_init_wf {A} (rb : ring_buffer_t A) cap :
  1 <= cap <= 2 ^ 31 →
  ∃ rb', ring_buffer_init true (Some rb) cap = (Some rb', 0) ∧
         rb_wf rb' (replicate (Z.to_nat (2 ^ Z.log2_up cap)) None) (Z.log2_up cap) ∧
         rb_contents rb' = [].
Proof.
  intros Hcap. unfold ring_buffer_init.
  rewrite (proj2 (Z.eqb_neq cap 0)) by lia. cbv zeta.
  assert (0 <= Z.log2_up cap <= 31) as Hk.
  { split; [apply Z.log2_up_nonneg|]. apply Z.log2_up_le_pow2; lia. }
  assert (2 ^ Z.log2_up cap <= 2 ^ 31) by (apply Z.pow_le_mono_r; lia).
  assert (1 <= 2 ^ Z.log2_up cap).
  { change 1 with (2 ^ 0). apply Z.pow_le_mono_r; lia. }
  assert ((if negb (is_power_of_two cap) then next_power_of_two cap else cap) =
          2 ^ Z.log2_up cap) as ->.
  { destruct (is_power_of_two cap) eqn:E; simpl;
      [|by apply next_power_of_two_log2_up].
    apply is_power_of_two_spec in E as (k & ? & ->); [|unfold is_u32; lia].
    by rewrite Z.log2_up_pow2 by lia. }
  eexists. split_and!; [done| |].
  - split; simpl; try done; try lia.
    + rewrite u32_id; [done|]. unfold is_u32. lia.
    + rewrite length_replicate. lia.
  - unfold rb_contents. simpl. by rewrite Zmod_0_l.
Qed.

(** ** Properties *)

(** C10 -- A ring buffer initialised with any capacity from 1 to [2 ^ 31]
    behaves, over every sequence of pushes and pops, as a bounded FIFO queue
    of (capacity rounded up to a power of two) - 1 elements: the same
    successes, the same pointers in the same order, and no access outside the
    slot array. *)
Theorem ring_buffer_refines_fifo {A} (rb : ring_buffer_t A) cap ops :
  1 <= cap <= 2 ^ 31 →
  let n := Z.to_nat (2 ^ Z.log2_up cap - 1) in
  ∃ rb0 rb',
    ring_buffer_init true (Some rb) cap = (Some rb0, 0) ∧
    run_ops rb0 ops = Some (rb', (run_spec n [] ops).2) ∧
    rb_contents rb' = (run_spec n [] ops).1.
Proof.
  intros Hcap n. destruct (ring_buffer_init_wf rb cap Hcap) as (rb0 & Hi & Hwf & Hnil).
  destruct (run_ops_rep rb0 n [] ops) as (rb' & Hr & _ & _ & _ & _ & Hc).
  - eexists _, _. eauto.
  - eauto.
Qed.

Lemma ring_buffer_refines_fifo_witness :
  ∃ rb0 rb',
    ring_buffer_init true (Some (RingBuffer 7 7 None 7 7)) 4 = (Some rb0, 0) ∧
    run_ops rb0 [Push (Some 1); Push (Some 2); Push (Some 3); Push (Some 4); Pop] =
      Some (rb', [inl true; inl true; inl true; inl false; inr (Some 1)]) ∧
    rb_contents rb' = [Some 2; Some 3].
Proof.
  apply (ring_buffer_refines_fifo (RingBuffer 7 7 None 7 7) 4
    [Push (Some 1); Push (Some 2); Push (Some 3); Push (Some 4); Pop]).
  lia.
Defined.

(** On a well-formed buffer the snapshot queries are exact: the count is
    the number of queued elements, empty means none, full means that a push
    would be refused ([capacity - 1] elements). *)
Theorem ring_buffer_queries_exact {A} (rb : ring_buffer_t A) buf k :
  rb_wf rb buf k →
  ring_buffer_count (Some rb) = Z.of_nat (length (rb_contents rb)) ∧
  (ring_buffer_empty (Some rb) = true ↔ rb_contents rb = []) ∧
  (ring_buffer_full (Some rb) = true ↔
   Z.of_nat (length (rb_contents rb)) = rb_capacity rb - 1) ∧
  (ring_buffer_full (Some rb) = true ↔
   ∀ x, ring_buffer_push rb x = Some (rb, false)).
Proof.
  intros Hwf. pose proof (wf_cap_bound _ _ _ Hwf) as Hc.
  pose proof (rb_contents_length _ _ _ Hwf) as Hlen.
  pose proof (wf_index _ _ _ Hwf) as [Hh Ht].
  pose proof Hwf as [_ Hcap _ Hbuf _ Hhb Htb]. simpl.
  rewrite Hh, Ht, Hcap, !(wf_next _ _ _ _ Hwf).
  rewrite !Z.eqb_eq, Hlen. split_and!; [done| | |].
  - rewrite (mod_diff_zero _ _ (2 ^ k)), <- Hlen by lia.
    by destruct (rb_contents rb); simpl; split; try lia.
  - apply mod_diff_full; lia.
  - split.
    + intros Hz x. unfold ring_buffer_push.
      by rewrite Hh, Ht, (wf_next _ _ _ _ Hwf), (proj2 (Z.eqb_eq _ _) Hz).
    + intros Hp. specialize (Hp None). revert Hp. unfold ring_buffer_push.
      rewrite Hh, Ht, (wf_next _ _ _ _ Hwf).
      destruct (Z.eqb_spec ((rb_head rb + 1) mod 2 ^ k) (rb_tail rb)); [done|].
      rewrite Hbuf. simpl. destruct (arr_set _ _ _); simpl; congruence.
Qed.

Lemma q_rep_count {A} (rb : ring_buffer_t A) n l :
  q_rep rb n l → ring_buffer_count (Some rb) = Z.of_nat (length l).
Proof. intros (buf & k & Hwf & _ & <-). by apply (ring_buffer_queries_exact rb buf k). Qed.

Lemma ring_buffer_queries_exact_witness :
  let rb := RingBuffer 1 3 (Some [Some 5; None; None; Some 4]) 4 3 in
  ring_buffer_count (Some rb) = 2 ∧ ring_buffer_empty (Some rb) = false ∧
  ring_buffer_full (Some rb) = false.
Proof.
  intros rb.
  assert (rb_wf rb [Some 5; None; None; Some 4] 2) as Hwf by (split; simpl; lia || done).
  pose proof (ring_buffer_queries_exact rb _ 2 Hwf) as (Hc & He & Hf & _).
  split_and!; [exact Hc| |]; apply not_true_is_false.
  - intros H. apply He in H. discriminate H.
  - intros H. apply Hf in H. discriminate H.
Defined.

(** A capacity above [2 ^ 31] that is not a power of two rounds to
    [2 ^ 32], which wraps to zero: the initialisation still reports success,
    with a buffer of no slots and a mask of all ones, and the first push
    writes out of bounds. *)
Theorem ring_buffer_init_overflow {A} (rb : ring_buffer_t A) cap x :
  2 ^ 31 < cap < 2 ^ 32 →
  ∃ rb', ring_buffer_init true (Some rb) cap = (Some rb', 0) ∧
         rb_capacity rb' = 0 ∧ rb_mask rb' = 2 ^ 32 - 1 ∧
         ring_buffer_push rb' x = None.
Proof.
  intros Hcap. unfold ring_buffer_init.
  rewrite (proj2 (Z.eqb_neq cap 0)) by lia. cbv zeta.
  assert (is_power_of_two cap = false) as ->.
  { apply not_true_is_false. rewrite is_power_of_two_spec by (unfold is_u32; lia).
    intros (k & Hk & ->). assert (2 ^ k <= 2 ^ 31) by (apply Z.pow_le_mono_r; lia). lia. }
  assert (next_power_of_two cap = 0) as ->.
  { rewrite next_power_of_two_u32 by lia.
    assert (Z.log2 (cap - 1) = 31) as ->; [|done]. apply Z.log2_unique; lia. }
  simpl. eexists. split_and!; reflexivity.
Qed.

Lemma ring_buffer_init_overflow_witness :
  ∃ rb', ring_buffer_init true (Some (RingBuffer 0 0 None 0 0)) (2 ^ 31 + 1) =
           (Some rb', 0) ∧
         rb_capacity rb' = 0 ∧ rb_mask rb' = 2 ^ 32 - 1 ∧
         ring_buffer_push rb' (Some tt) = None.
Proof. apply (ring_buffer_init_overflow (RingBuffer 0 0 None 0 0)). lia. Defined.
