(* ===== verification/RingBufferSPSC.v ===== *)
(** * The ring buffer under concurrency (include/ring_buffer.h)

    [ring_buffer_push] and [ring_buffer_pop] are split at their memory
    accesses and interleaved: one producer thread, one consumer thread.  The
    index loads are as weak as the code asks for.  A thread reads the index it
    owns exactly, but the load of the other thread's index ([tail] in push,
    RELAXED; [head] in pop, ACQUIRE) may return any value stored so far that
    is not older than the last one this thread has read (coherence), so stale
    indices are part of the model.  The histories of the two indices are kept
    for this.  A slot is written before the RELEASE store of [head] and read
    after the ACQUIRE load of [head] that returned it or a later one, so the
    consumer sees the slot's contents; the model has one current value per
    slot.  [pushed] and [popped] are the pointers published by the producer
    and taken by the consumer so far. *)

From S2P Require Export RingBuffer.

Section spsc.
Context {A : Type}.

(** Where the producer is in [ring_buffer_push], with the locals it has. *)
Inductive push_pc :=
  | PIdle
  | PHead (data : option A) (head : Z)
  | PTail (data : option A) (head tail : Z)
  | PStored (data : option A) (next : Z).

(** Where the consumer is in [ring_buffer_pop]. *)
Inductive pop_pc :=
  | CIdle
  | CTail (tail : Z)
  | CHead (tail head : Z)
  | CRead (tail : Z) (data : option A).

Record spsc := Spsc {
  slots : list (option A);
  head_hist : list Z;
  tail_hist : list Z;
  seen_tail : nat;  (* position in [tail_hist] of the producer's last read *)
  seen_head : nat;  (* position in [head_hist] of the consumer's last read *)
  ppc : push_pc;
  cpc : pop_pc;
  pushed : list (option A);
  popped : list (option A);
}.

Definition set_ppc s pc := Spsc (slots s) (head_hist s) (tail_hist s)
  (seen_tail s) (seen_head s) pc (cpc s) (pushed s) (popped s).
Definition set_cpc s pc := Spsc (slots s) (head_hist s) (tail_hist s)
  (seen_tail s) (seen_head s) (ppc s) pc (pushed s) (popped s).
Definition see_tail s i := Spsc (slots s) (head_hist s) (tail_hist s)
  i (seen_head s) (ppc s) (cpc s) (pushed s) (popped s).
Definition see_head s i := Spsc (slots s) (head_hist s) (tail_hist s)
  (seen_tail s) i (ppc s) (cpc s) (pushed s) (popped s).
Definition set_slots s buf := Spsc buf (head_hist s) (tail_hist s)
  (seen_tail s) (seen_head s) (ppc s) (cpc s) (pushed s) (popped s).
(** [__atomic_store_n(&rb->head, next, RELEASE)], publishing [data]. *)
Definition publish_head s next data := Spsc (slots s) (head_hist s ++ [next])
  (tail_hist s) (seen_tail s) (seen_head s) PIdle (cpc s) (pushed s ++ [data]) (popped s).
(** [__atomic_store_n(&rb->tail, next, RELEASE)], handing out [data]. *)
Definition publish_tail s next data := Spsc (slots s) (head_hist s)
  (tail_hist s ++ [next]) (seen_tail s) (seen_head s) (ppc s) CIdle (pushed s)
  (popped s ++ [data]).

Context (mask : Z).

Inductive spsc_step : spsc → spsc → Prop :=
  | push_load_head s data h :
      ppc s = PIdle → last (head_hist s) = Some h →
      spsc_step s (set_ppc s (PHead data (u32 h)))
  | push_load_tail s data h i t :
      ppc s = PHead data h →
      (seen_tail s <= i)%nat → tail_hist s !! i = Some t →
      spsc_step s (set_ppc (see_tail s i) (PTail data h (u32 t)))
  | push_full s data h t :
      ppc s = PTail data h t → Z.land (u32 (h + 1)) mask = t →
      spsc_step s (set_ppc s PIdle)
  | push_store s data h t buf :
      ppc s = PTail data h t → Z.land (u32 (h + 1)) mask ≠ t →
      arr_set (slots s) h data = Some buf →
      spsc_step s (set_ppc (set_slots s buf)
                     (PStored data (Z.land (u32 (h + 1)) mask)))
  | push_publish s data next :
      ppc s = PStored data next → spsc_step s (publish_head s next data)
  | pop_load_tail s t :
      cpc s = CIdle → last (tail_hist s) = Some t →
      spsc_step s (set_cpc s (CTail (u32 t)))
  | pop_load_head s t i h :
      cpc s = CTail t →
      (seen_head s <= i)%nat → head_hist s !! i = Some h →
      spsc_step s (set_cpc (see_head s i) (CHead t (u32 h)))
  | pop_empty s t h :
      cpc s = CHead t h → t = h →
      spsc_step s (set_cpc s CIdle)
  | pop_read s t h data :
      cpc s = CHead t h → t ≠ h →
      arr_get (slots s) t = Some data →
      spsc_step s (set_cpc s (CRead t data))
  | pop_publish s t data :
      cpc s = CRead t data →
      spsc_step s (publish_tail s (Z.land (u32 (t + 1)) mask) data).

(** A freshly initialised buffer of [n] slots, both threads outside. *)
Definition spsc_init (n : nat) : spsc :=
  Spsc (replicate n None) [0] [0] 0 0 PIdle CIdle [] [].

(** ** Invariant *)

Context (k : Z) (Hk : 0 <= k <= 31) (Hmask : mask = 2 ^ k - 1).

(** A history is the sequence of indices [0, 1, ..., n] modulo the capacity. *)
Definition counts_to (hist : list Z) (n : nat) : Prop :=
  length hist = S n ∧ ∀ i v, hist !! i = Some v → v = Z.of_nat i mod 2 ^ k.

Definition push_ok (s : spsc) : Prop :=
  let H := Z.of_nat (length (pushed s)) in
  match ppc s with
  | PIdle => True
  | PHead _ h => h = H mod 2 ^ k
  | PTail _ h t => h = H mod 2 ^ k ∧ t = Z.of_nat (seen_tail s) mod 2 ^ k
  | PStored data next =>
      next = (H + 1) mod 2 ^ k ∧
      H + 1 - Z.of_nat (seen_tail s) <= 2 ^ k - 1 ∧
      arr_get (slots s) (H mod 2 ^ k) = Some data
  end.

Definition pop_ok (s : spsc) : Prop :=
  let T := Z.of_nat (length (popped s)) in
  match cpc s with
  | CIdle => True
  | CTail t => t = T mod 2 ^ k
  | CHead t h => t = T mod 2 ^ k ∧ h = Z.of_nat (seen_head s) mod 2 ^ k
  | CRead t data =>
      t = T mod 2 ^ k ∧ (length (popped s) < seen_head s)%nat ∧
      pushed s !! length (popped s) = Some data
  end.

Record spsc_inv (s : spsc) : Prop := {
  inv_slots : Z.of_nat (length (slots s)) = 2 ^ k;
  inv_head : counts_to (head_hist s) (length (pushed s));
  inv_tail : counts_to (tail_hist s) (length (popped s));
  inv_seen_tail : (seen_tail s <= length (popped s))%nat;
  inv_popped_seen : (length (popped s) <= seen_head s)%nat;
  inv_seen_head : (seen_head s <= length (pushed s))%nat;
  inv_room : Z.of_nat (length (pushed s)) - Z.of_nat (seen_tail s) <= 2 ^ k - 1;
  inv_fifo : popped s = take (length (popped s)) (pushed s);
  inv_live : ∀ i x, (length (popped s) <= i)%nat → pushed s !! i = Some x →
    arr_get (slots s) (Z.of_nat i mod 2 ^ k) = Some x;
  inv_push : push_ok s;
  inv_pop : pop_ok s;
}.

Lemma cap_pos : 1 <= 2 ^ k.
Proof. change 1 with (2 ^ 0). apply Z.pow_le_mono_r; lia. Qed.
Lemma cap_le : 2 ^ k <= 2 ^ 31.
Proof. apply Z.pow_le_mono_r; lia. Qed.

Lemma u32_idx i : u32 (i mod 2 ^ k) = i mod 2 ^ k.
Proof.
  pose proof cap_pos. pose proof cap_le.
  pose proof (Z.mod_pos_bound i (2 ^ k) ltac:(lia)).
  apply u32_id. unfold is_u32. lia.
Qed.

Lemma next_idx i : Z.land (u32 (i mod 2 ^ k + 1)) mask = (i + 1) mod 2 ^ k.
Proof.
  rewrite Hmask, land_mask by lia. rewrite u32_mod_pow2 by lia.
  by rewrite Zplus_mod_idemp_l.
Qed.

Lemma idx_inj i j :
  i < j → j < i + 2 ^ k → i mod 2 ^ k ≠ j mod 2 ^ k.
Proof.
  intros ? ?. pose proof (mod_offset_ne i 0 (j - i) (2 ^ k)) as Hne.
  rewrite Z.add_0_r in Hne. replace (i + (j - i)) with j in Hne by lia.
  apply Hne; lia.
Qed.

Lemma counts_to_last hist n v :
  counts_to hist n → last hist = Some v → v = Z.of_nat n mod 2 ^ k.
Proof.
  intros [Hl Hi] Hv. apply Hi. rewrite last_lookup, Hl in Hv. done.
Qed.

Lemma counts_to_snoc hist n v :
  counts_to hist n → v = (Z.of_nat n + 1) mod 2 ^ k → counts_to (hist ++ [v]) (S n).
Proof.
  intros [Hl Hi] ->. split.
  - rewrite length_app, Hl. simpl. lia.
  - intros i v [[_ ?]|[-> <-]]%lookup_snoc_Some; [eauto|].
    rewrite Hl. f_equal. lia.
Qed.

Lemma init_inv : spsc_inv (spsc_init (Z.to_nat (2 ^ k))).
Proof.
  pose proof cap_pos.
  split; simpl; try done; try lia.
  - rewrite length_replicate. lia.
  - split; [done|]. intros [|i] v; [|done]. intros [= <-]. by rewrite Zmod_0_l.
  - split; [done|]. intros [|i] v; [|done]. intros [= <-]. by rewrite Zmod_0_l.
Qed.

(** Publishing the slot at [head] touches no element still in the queue. *)
Lemma store_live s h t buf data :
  spsc_inv s → ppc s = PTail data h t → (Z.land (u32 (h + 1)) mask) ≠ t →
  arr_set (slots s) h data = Some buf →
  Z.of_nat (length (pushed s)) + 1 - Z.of_nat (seen_tail s) <= 2 ^ k - 1 ∧
  ∀ i x, (length (popped s) <= i)%nat → pushed s !! i = Some x →
    arr_get buf (Z.of_nat i mod 2 ^ k) = Some x.
Proof.
  intros [] Hpc Hne Hset. unfold push_ok in *. rewrite Hpc in *.
  destruct inv_push0 as [-> ->]. rewrite next_idx in Hne.
  set (H := Z.of_nat (length (pushed s))) in *.
  assert (H + 1 - Z.of_nat (seen_tail s) <= 2 ^ k - 1) as Hroom.
  { destruct (decide (H + 1 - Z.of_nat (seen_tail s) = 2 ^ k)); [|lia].
    exfalso. apply Hne.
    replace (H + 1) with (Z.of_nat (seen_tail s) + 1 * 2 ^ k) by lia.
    rewrite Z.mod_add by (pose proof cap_pos; lia). done. }
  split; [done|]. intros i x Hi Hx.
  pose proof (lookup_lt_Some _ _ _ Hx).
  rewrite (arr_set_get_ne _ _ _ _ _ Hset); [eauto|].
  apply not_eq_sym, idx_inj; lia.
Qed.

Lemma push_step_inv s s' :
  spsc_inv s → spsc_step s s' → cpc s' = cpc s → popped s' = popped s →
  spsc_inv s'.
Proof.
  intros Hinv Hstep Hc Hp.
  inversion Hstep as [? data h Hpc Hl | ? data h i t Hpc Hi Hl | ? data h t Hpc Hn
    | ? data h t buf Hpc Hn Hset | ? data next Hpc | | | | | ]; subst; clear Hstep.
  all: simpl in *; try congruence.
  - destruct Hinv. split; simpl; try done. unfold push_ok. simpl.
    rewrite (counts_to_last _ _ _ inv_head0 Hl). apply u32_idx.
  - pose proof Hinv as [].
    pose proof (proj2 inv_tail0 _ _ Hl) as Ht.
    pose proof (lookup_lt_Some _ _ _ Hl) as Hlt. rewrite (proj1 inv_tail0) in Hlt.
    split; simpl; try done; try lia.
    unfold push_ok in *. rewrite Hpc in *. simpl. split; [done|].
    rewrite Ht. apply u32_idx.
  - destruct Hinv. by split.
  - destruct (store_live s h t buf data Hinv Hpc Hn Hset) as [Hroom Hlive].
    pose proof Hinv as [].
    split; simpl; try done.
    + by rewrite (arr_set_length _ _ _ _ Hset).
    + unfold push_ok in *. rewrite Hpc in *. simpl.
      destruct inv_push0 as [-> _]. split_and!; [apply next_idx|done|].
      by apply arr_set_get_eq in Hset.
  - pose proof Hinv as []. unfold push_ok in *. rewrite Hpc in *.
    destruct inv_push0 as (-> & Hroom & Hslot).
    split; simpl; rewrite ?length_app; simpl; try done; try lia.
    + rewrite Nat.add_1_r. by apply counts_to_snoc.
    + rewrite take_app_le by lia. done.
    + intros i x Hi [[_ ?]|[-> <-]]%lookup_snoc_Some; eauto.
    + unfold pop_ok in *. simpl. destruct (cpc s); try done.
      destruct inv_pop0 as (?&?&Hx). split_and!; [done..|].
      by apply lookup_app_l_Some.
Qed.

Lemma pop_step_inv s s' :
  spsc_inv s → spsc_step s s' → ppc s' = ppc s → pushed s' = pushed s →
  spsc_inv s'.
Proof.
  intros Hinv Hstep Hc Hp.
  inversion Hstep as [ | | | | | ? t Hpc Hl | ? t i h Hpc Hi Hl | ? t h Hpc He
    | ? t h data Hpc Hne Hget | ? t data Hpc ]; subst; clear Hstep.
  all: simpl in *; try congruence.
  - destruct Hinv. split; simpl; try done. unfold pop_ok. simpl.
    rewrite (counts_to_last _ _ _ inv_tail0 Hl). apply u32_idx.
  - pose proof Hinv as [].
    pose proof (proj2 inv_head0 _ _ Hl) as Hh.
    pose proof (lookup_lt_Some _ _ _ Hl) as Hlt. rewrite (proj1 inv_head0) in Hlt.
    split; simpl; try done; try lia.
    unfold pop_ok in *. rewrite Hpc in *. simpl. split; [done|].
    rewrite Hh. apply u32_idx.
  - destruct Hinv. by split.
  - pose proof Hinv as []. split; simpl; try done.
    unfold pop_ok in *. rewrite Hpc in *. simpl. destruct inv_pop0 as [-> ->].
    assert (length (popped s) < seen_head s)%nat.
    { destruct (decide (length (popped s) = seen_head s)) as [He|]; [|lia].
      by rewrite He in Hne. }
    destruct (lookup_lt_is_Some_2 (pushed s) (length (popped s))) as [x Hx]; [lia|].
    rewrite (inv_live0 _ _ (le_n _) Hx) in Hget. injection Hget as <-. done.
  - pose proof Hinv as []. unfold pop_ok in *. rewrite Hpc in *.
    destruct inv_pop0 as (-> & Hlt & Hx).
    split; simpl; rewrite ?length_app; simpl; try done; try lia.
    + rewrite Nat.add_1_r. apply counts_to_snoc; [done|]. apply next_idx.
    + rewrite Nat.add_1_r, (take_S_r _ _ _ Hx), <- inv_fifo0. done.
    + intros i y Hi Hy. apply inv_live0; [lia|done].
Qed.

Lemma spsc_step_inv s s' : spsc_inv s → spsc_step s s' → spsc_inv s'.
Proof.
  intros Hinv Hstep. pose proof Hstep as Hs.
  inversion Hs; subst; simpl in *;
    (eapply push_step_inv; [done|done|reflexivity|reflexivity]) ||
    (eapply pop_step_inv; [done|done|reflexivity|reflexivity]).
Qed.

Lemma spsc_reachable_inv s :
  rtc spsc_step (spsc_init (Z.to_nat (2 ^ k))) s → spsc_inv s.
Proof.
  intros Hr. revert s Hr. apply rtc_ind_r; [apply init_inv|].
  eauto using spsc_step_inv.
Qed.

(** Before its store the producer owns a slot the consumer cannot be reading. *)
Lemma inv_disjoint s data h t t' h' :
  spsc_inv s →
  ppc s = PTail data h t → (Z.land (u32 (h + 1)) mask) ≠ t →
  cpc s = CHead t' h' → t' ≠ h' → h ≠ t'.
Proof.
  intros Hinv Hp Hn Hc Hne. pose proof Hinv as [].
  unfold push_ok, pop_ok in *. rewrite Hp, Hc in *.
  destruct inv_push0 as [-> ->], inv_pop0 as [-> ->].
  rewrite next_idx in Hn. apply not_eq_sym.
  assert (length (popped s) ≠ seen_head s) by (intros He; by rewrite He in Hne).
  apply idx_inj; [lia|].
  destruct (decide (Z.of_nat (length (pushed s)) = Z.of_nat (seen_tail s) + 2 ^ k - 1));
    [|lia].
  exfalso. apply Hn.
  replace (Z.of_nat (length (pushed s)) + 1) with
    (Z.of_nat (seen_tail s) + 1 * 2 ^ k) by lia.
  rewrite Z.mod_add by (pose proof cap_pos; lia). done.
Qed.

(** A thread that is inside its operation can always take its next step. *)
Lemma push_progress s :
  spsc_inv s → ppc s ≠ PIdle →
  ∃ s', spsc_step s s' ∧ cpc s' = cpc s ∧ popped s' = popped s.
Proof.
  intros Hinv Hp. pose proof Hinv as []. destruct (ppc s) as [|d h|d h t|d n] eqn:Hpc; [done| | |].
  - destruct (lookup_lt_is_Some_2 (tail_hist s) (seen_tail s)) as [t Ht].
    { rewrite (proj1 inv_tail0). lia. }
    eexists. split_and!; [eapply push_load_tail; [done|reflexivity|done]|done..].
  - destruct (decide ((Z.land (u32 (h + 1)) mask) = t)).
    + eexists. split_and!; [by eapply push_full|done..].
    + unfold push_ok in *. rewrite Hpc in *. destruct inv_push0 as [-> _].
      pose proof (Z.mod_pos_bound (Z.of_nat (length (pushed s))) (2 ^ k)
        ltac:(pose proof cap_pos; lia)).
      eexists. split_and!;
        [eapply push_store; [done..|]; apply arr_set_Some; lia|done..].
  - eexists. split_and!; [by eapply push_publish|done..].
Qed.

Lemma pop_progress s :
  spsc_inv s → cpc s ≠ CIdle →
  ∃ s', spsc_step s s' ∧ ppc s' = ppc s ∧ pushed s' = pushed s.
Proof.
  intros Hinv Hp. pose proof Hinv as []. destruct (cpc s) as [|t|t h|t d] eqn:Hpc; [done| | |].
  - destruct (lookup_lt_is_Some_2 (head_hist s) (seen_head s)) as [h Hh].
    { rewrite (proj1 inv_head0). lia. }
    eexists. split_and!; [eapply pop_load_head; [done|reflexivity|done]|done..].
  - destruct (decide (t = h)).
    + eexists. split_and!; [by eapply pop_empty|done..].
    + unfold pop_ok in *. rewrite Hpc in *. destruct inv_pop0 as [-> _].
      pose proof (Z.mod_pos_bound (Z.of_nat (length (popped s))) (2 ^ k)
        ltac:(pose proof cap_pos; lia)).
      destruct (arr_get_Some (slots s) (Z.of_nat (length (popped s)) mod 2 ^ k)); [lia|].
      eexists. split_and!; [by eapply pop_read|done..].
  - eexists. split_and!; [by eapply pop_publish|done..].
Qed.

End spsc.
Arguments spsc : clear implicits.

(** ** Properties *)

(** C17 -- Under every interleaving of one producer and one consumer, and
    with stale loads of the other side's index, the consumer receives exactly
    the published pointers, in order and without loss or duplication, and at
    most [capacity - 1] of them are in flight. *)
Theorem spsc_fifo {A} k (s : spsc A) :
  0 <= k <= 31 →
  rtc (spsc_step (2 ^ k - 1)) (spsc_init (Z.to_nat (2 ^ k))) s →
  popped s = take (length (popped s)) (pushed s) ∧
  Z.of_nat (length (pushed s)) - Z.of_nat (length (popped s)) <= 2 ^ k - 1.
Proof.
  intros Hk Hr. apply spsc_reachable_inv in Hr as []; [|done..].
  split; [done|lia].
Qed.

(** In every reachable state a producer about to fill a slot and a
    consumer about to read one are at different slots, and neither thread can
    be blocked or leave the array: a thread inside push or pop always has a
    step of its own to take (wait-freedom). *)
Theorem spsc_safe {A} k (s : spsc A) :
  0 <= k <= 31 →
  rtc (spsc_step (2 ^ k - 1)) (spsc_init (Z.to_nat (2 ^ k))) s →
  (∀ data h t t' h',
    ppc s = PTail data h t → Z.land (u32 (h + 1)) (2 ^ k - 1) ≠ t →
    cpc s = CHead t' h' → t' ≠ h' → h ≠ t') ∧
  (ppc s ≠ PIdle →
   ∃ s', spsc_step (2 ^ k - 1) s s' ∧ cpc s' = cpc s ∧ popped s' = popped s) ∧
  (cpc s ≠ CIdle →
   ∃ s', spsc_step (2 ^ k - 1) s s' ∧ ppc s' = ppc s ∧ pushed s' = pushed s).
Proof.
  intros Hk Hr. eapply spsc_reachable_inv in Hr; [|done..]. split_and!.
  - intros. eapply inv_disjoint; eauto.
  - eapply push_progress; eauto.
  - eapply pop_progress; eauto.
Qed.

(** A concrete interleaving: the consumer enters its pop before the producer
    publishes, and reads [head] afterwards. *)
Definition spsc_demo : spsc Z :=
  Spsc [Some 7; None] [0; 1] [0] 0 1 PIdle (CHead 0 1) [Some 7] [].

Lemma spsc_demo_reachable :
  rtc (spsc_step (2 ^ 1 - 1)) (spsc_init (Z.to_nat (2 ^ 1))) spsc_demo.
Proof.
  eapply rtc_l; [eapply (push_load_head _ _ (Some 7)); reflexivity|].
  eapply rtc_l; [eapply (push_load_tail _ _ _ _ 0); reflexivity|].
  eapply rtc_l; [eapply pop_load_tail; reflexivity|].
  eapply rtc_l; [eapply push_store; [reflexivity|discriminate|reflexivity]|].
  eapply rtc_l; [eapply push_publish; reflexivity|].
  eapply rtc_l; [eapply (pop_load_head _ _ _ 1); [reflexivity|simpl; lia|reflexivity]|].
  apply rtc_refl.
Qed.

Lemma spsc_fifo_witness :
  popped spsc_demo = take 0 (pushed spsc_demo) ∧
  Z.of_nat (length (pushed spsc_demo)) - Z.of_nat (length (popped spsc_demo)) <= 2 ^ 1 - 1.
Proof. apply (spsc_fifo 1); [lia|apply spsc_demo_reachable]. Defined.

Lemma spsc_safe_witness :
  ∃ s', spsc_step (2 ^ 1 - 1) spsc_demo s' ∧
        ppc s' = ppc spsc_demo ∧ pushed s' = pushed spsc_demo.
Proof.
  apply (spsc_safe 1); [lia|apply spsc_demo_reachable|discriminate].
Defined.
