(* ===== verification/MemoryPool.v ===== *)
(** * Memory pool (include/memory_pool.h, src/memory_pool.c)

    The pool hands out fixed-size objects by index from a stack of free
    indices.  Pointers are [Z] addresses; the block returned by [calloc] is
    the base address [mp_pool].  [mempool_alloc] and [mempool_free] are
    defined twice in the repository, once inline in the header and once in
    the .c file with an extra NULL test; the model is the .c version, whose
    NULL arguments are [None].  A [None] result is an access outside
    [free_list].

    The first part is the sequential meaning.  The second part splits the two
    operations at their atomic accesses and interleaves any number of
    threads. *)

From S2P Require Export CInt.

Record mempool_t := Mempool {
  free_top : Z;
  mp_pool : Z;                 (* base address, 0 is NULL *)
  object_size : Z;
  mp_capacity : Z;
  free_list : list Z;
}.

Definition set_free_top (mp : mempool_t) (t : Z) : mempool_t :=
  Mempool t (mp_pool mp) (object_size mp) (mp_capacity mp) (free_list mp).
Definition set_free_list (mp : mempool_t) (l : list Z) : mempool_t :=
  Mempool (free_top mp) (mp_pool mp) (object_size mp) (mp_capacity mp) l.

(** The initial stack: [free_list[i] = capacity - 1 - i]. *)
Definition initial_free_list (capacity : Z) : list Z :=
  (λ i, u32 (capacity - 1 - Z.of_nat i)) <$> seq 0 (Z.to_nat capacity).

(** [pool] and [malloc_ok] are the results of the two allocations: the address
    [calloc] returned (0 on failure) and whether [malloc] succeeded. *)
Definition mempool_init (pool : Z) (malloc_ok : bool) (mp : option mempool_t)
    (size capacity : Z) : option mempool_t * Z :=
  match mp with
  | None => (None, -1)
  | Some mp =>
    if (size =? 0) || (capacity =? 0) then (Some mp, -1) else
    let size := if size <? 4 then 4 else size in
    if pool =? 0 then
      (Some (Mempool (free_top mp) 0 (object_size mp) (mp_capacity mp) (free_list mp)), -1)
    else if negb malloc_ok then
      (Some (Mempool (free_top mp) 0 (object_size mp) (mp_capacity mp) []), -1)
    else
      (Some {| free_top := capacity; mp_pool := pool; object_size := u32 size;
               mp_capacity := capacity; free_list := initial_free_list capacity |}, 0)
  end.

Definition mempool_destroy (mp : option mempool_t) : option mempool_t :=
  match mp with
  | None => None
  | Some mp => Some (Mempool (free_top mp) 0 0 0 [])
  end.

(** The address of object [idx]. *)
Definition object_addr (mp : mempool_t) (idx : Z) : Z :=
  mp_pool mp + idx * object_size mp.

Definition mempool_alloc (mp : mempool_t) : option (mempool_t * Z) :=
  let old_top := free_top mp in
  let mp := set_free_top mp (u32 (old_top - 1)) in
  if old_top =? 0 then
    Some (set_free_top mp (u32 (free_top mp + 1)), 0)
  else
    idx ← arr_get (free_list mp) (u32 (old_top - 1));
    Some (mp, object_addr mp idx).

(** The index [mempool_free] computes from a pointer. *)
Definition object_index (mp : mempool_t) (ptr : Z) : option Z :=
  let offset := u64 (ptr - mp_pool mp) in
  i ← c_div offset (object_size mp);
  Some (u32 i).

Definition mempool_free (mp : mempool_t) (ptr : Z) : option mempool_t :=
  if ptr =? 0 then Some mp else
  idx ← object_index mp ptr;
  if mp_capacity mp <=? idx then Some mp else
  let slot := free_top mp in
  let mp := set_free_top mp (u32 (slot + 1)) in
  if mp_capacity mp <=? slot then
    Some (set_free_top mp (u32 (free_top mp - 1)))
  else
    l ← arr_set (free_list mp) slot idx;
    Some (set_free_list mp l).

(** *** The accesses

    What [mempool_alloc] and [mempool_free] do one atomic access at a time; the two
    functions are the accesses in a row. *)

Definition pool_fetch_sub (mp : mempool_t) : mempool_t * Z :=
  (set_free_top mp (u32 (free_top mp - 1)), free_top mp).
Definition pool_fetch_add (mp : mempool_t) : mempool_t * Z :=
  (set_free_top mp (u32 (free_top mp + 1)), free_top mp).
Definition pool_load (mp : mempool_t) (old_top : Z) : option Z :=
  idx ← arr_get (free_list mp) (u32 (old_top - 1)); Some (object_addr mp idx).
Definition pool_store (mp : mempool_t) (slot idx : Z) : option mempool_t :=
  l ← arr_set (free_list mp) slot idx; Some (set_free_list mp l).

(** Where a call of [mempool_free] stands: done, to undo, or to store. *)
Inductive free_pc := FreeDone | FreeUndo | FreeStore (idx slot : Z).

Definition free_begin (mp : mempool_t) (ptr : Z) : option (mempool_t * free_pc) :=
  if ptr =? 0 then Some (mp, FreeDone) else
  idx ← object_index mp ptr;
  if mp_capacity mp <=? idx then Some (mp, FreeDone) else
  let '(mp, slot) := pool_fetch_add mp in
  Some (mp, if mp_capacity mp <=? slot then FreeUndo else FreeStore idx slot).

Definition free_next (mp : mempool_t) (pc : free_pc) : option mempool_t :=
  match pc with
  | FreeDone => Some mp
  | FreeUndo => Some (pool_fetch_sub mp).1
  | FreeStore idx slot => pool_store mp slot idx
  end.

Lemma alloc_accesses mp :
  mempool_alloc mp =
  let '(mp, old_top) := pool_fetch_sub mp in
  if old_top =? 0 then Some ((pool_fetch_add mp).1, 0)
  else p ← pool_load mp old_top; Some (mp, p).
Proof.
  unfold mempool_alloc, pool_fetch_sub, pool_fetch_add, pool_load. cbv zeta beta match.
  destruct (free_top mp =? 0); [done|]. by destruct (arr_get _ _).
Qed.

Lemma free_accesses mp ptr :
  mempool_free mp ptr = '(mp, pc) ← free_begin mp ptr; free_next mp pc.
Proof.
  unfold mempool_free, free_begin, free_next, pool_fetch_add, pool_store.
  destruct (ptr =? 0); [done|]. destruct (object_index mp ptr) as [idx|]; [|done].
  cbn [mbind option_bind]. destruct (mp_capacity mp <=? idx); [done|].
  cbv zeta beta match. cbn [mbind option_bind mp_capacity set_free_top].
  by destruct (mp_capacity mp <=? free_top mp).
Qed.

Definition mempool_available (mp : option mempool_t) : Z :=
  match mp with None => 0 | Some mp => free_top mp end.

Definition mempool_capacity (mp : option mempool_t) : Z :=
  match mp with None => 0 | Some mp => mp_capacity mp end.

(** ** Invariant

    [used] are the indices of the objects currently handed out.  Together
    with the free part of the stack they are a permutation of all indices. *)
Definition free_indices (mp : mempool_t) : list Z :=
  take (Z.to_nat (free_top mp)) (free_list mp).

Definition all_indices (mp : mempool_t) : list Z :=
  Z.of_nat <$> seq 0 (Z.to_nat (mp_capacity mp)).

Record pool_inv (mp : mempool_t) (used : list Z) : Prop := {
  pool_capacity_pos : 0 < mp_capacity mp < 2 ^ 32;
  pool_size_pos : 0 < object_size mp < 2 ^ 32;
  pool_base : 0 < mp_pool mp;
  pool_end : mp_pool mp + mp_capacity mp * object_size mp <= 2 ^ 64;
  pool_list : Z.of_nat (length (free_list mp)) = mp_capacity mp;
  pool_top : 0 <= free_top mp <= mp_capacity mp;
  pool_perm : free_indices mp ++ used ≡ₚ all_indices mp;
}.

Lemma initial_free_list_perm cap :
  0 <= cap < 2 ^ 32 →
  initial_free_list cap ≡ₚ Z.of_nat <$> seq 0 (Z.to_nat cap).
Proof.
  intros Hcap. assert (initial_free_list cap =
    reverse (Z.of_nat <$> seq 0 (Z.to_nat cap))) as ->; [|by rewrite reverse_Permutation].
  apply list_eq. intros i. unfold initial_free_list.
  rewrite list_lookup_fmap.
  destruct (decide (i < Z.to_nat cap)%nat) as [Hi|Hi].
  - rewrite reverse_lookup by (rewrite length_fmap, length_seq; lia).
    rewrite length_fmap, length_seq, list_lookup_fmap.
    rewrite !lookup_seq_lt by lia. simpl. f_equal.
    rewrite u32_id; unfold is_u32; lia.
  - rewrite !lookup_ge_None_2; [done| |].
    + rewrite length_reverse, length_fmap, length_seq. lia.
    + rewrite length_seq. lia.
Qed.

Lemma elem_of_all_indices mp i :
  i ∈ all_indices mp ↔ 0 <= i < mp_capacity mp.
Proof.
  unfold all_indices. rewrite list_elem_of_fmap. split.
  - intros (n & -> & Hn%elem_of_seq). lia.
  - intros Hi. exists (Z.to_nat i). rewrite elem_of_seq. lia.
Qed.

Lemma all_indices_NoDup mp : NoDup (all_indices mp).
Proof. apply (NoDup_fmap_2 Z.of_nat), NoDup_seq. Qed.

Lemma pool_inv_used mp used i :
  pool_inv mp used → i ∈ used → 0 <= i < mp_capacity mp.
Proof.
  intros [] Hi. apply elem_of_all_indices. rewrite <- pool_perm0. set_solver.
Qed.

Lemma pool_inv_NoDup mp used : pool_inv mp used → NoDup (free_indices mp ++ used).
Proof. intros []. rewrite pool_perm0. apply all_indices_NoDup. Qed.

(** Addresses and indices are inverse to each other inside the pool. *)
Lemma object_index_addr mp used i :
  pool_inv mp used → 0 <= i < mp_capacity mp →
  object_index mp (object_addr mp i) = Some i.
Proof.
  intros [] Hi. unfold object_index, object_addr, c_div.
  rewrite (proj2 (Z.eqb_neq _ _)) by lia. simpl.
  assert (0 <= i * object_size mp < 2 ^ 64) by nia.
  rewrite u64_id by (unfold is_u64; lia).
  replace (mp_pool mp + i * object_size mp - mp_pool mp) with (i * object_size mp) by lia.
  rewrite Z.div_mul by lia. f_equal. apply u32_id. unfold is_u32. lia.
Qed.

Lemma object_addr_inj mp used i j :
  pool_inv mp used → 0 <= i < mp_capacity mp → 0 <= j < mp_capacity mp →
  object_addr mp i = object_addr mp j → i = j.
Proof.
  intros Hinv Hi Hj He.
  apply (object_index_addr _ _ i Hinv) in Hi. rewrite He in Hi.
  rewrite (object_index_addr _ _ j Hinv Hj) in Hi. congruence.
Qed.

(** ** The operations preserve the invariant *)

Lemma mempool_init_inv mp pool size cap :
  0 < cap < 2 ^ 32 → 0 < size < 2 ^ 32 → 0 < pool →
  pool + cap * Z.max size 4 <= 2 ^ 64 →
  ∃ mp', mempool_init pool true (Some mp) size cap = (Some mp', 0) ∧
         mp_capacity mp' = cap ∧ object_size mp' = Z.max size 4 ∧ mp_pool mp' = pool ∧
         free_top mp' = cap ∧ pool_inv mp' [].
Proof.
  intros Hc Hs Hp He. unfold mempool_init.
  rewrite !(proj2 (Z.eqb_neq _ _)) by lia. simpl.
  assert ((if size <? 4 then 4 else size) = Z.max size 4) as -> by (zcases; lia).
  rewrite u32_id by (unfold is_u32; lia).
  eexists. split_and!; [done..|].
  assert (length (initial_free_list cap) = Z.to_nat cap) as Hl
    by (unfold initial_free_list; by rewrite length_fmap, length_seq).
  split; simpl; try lia.
  rewrite app_nil_r. unfold free_indices, all_indices. simpl.
  rewrite firstn_all2 by lia. apply initial_free_list_perm. lia.
Qed.

Lemma alloc_exhausted mp : free_top mp = 0 → mempool_alloc mp = Some (mp, 0).
Proof. intros H. unfold mempool_alloc. rewrite H. destruct mp. simpl in *. by subst. Qed.

Lemma alloc_inv mp used :
  pool_inv mp used → free_top mp ≠ 0 →
  ∃ mp' i, mempool_alloc mp = Some (mp', object_addr mp i) ∧
    0 <= i < mp_capacity mp ∧ i ∉ used ∧
    mp' = set_free_top mp (free_top mp - 1) ∧ pool_inv mp' (i :: used).
Proof.
  intros Hinv Hne. pose proof Hinv as []. unfold mempool_alloc.
  rewrite (proj2 (Z.eqb_neq _ _)) by done.
  rewrite u32_id by (unfold is_u32; lia). simpl.
  destruct (arr_get_Some (free_list mp) (free_top mp - 1)) as [i Hi]; [lia|].
  rewrite Hi. simpl.
  assert (free_indices mp = take (Z.to_nat (free_top mp - 1)) (free_list mp) ++ [i]) as Hf.
  { unfold free_indices. replace (Z.to_nat (free_top mp)) with
      (S (Z.to_nat (free_top mp - 1))) by lia.
    apply take_S_r. unfold arr_get in Hi. by rewrite decide_True in Hi by lia. }
  pose proof (pool_inv_NoDup _ _ Hinv) as Hnd. rewrite Hf, <- app_assoc in Hnd.
  apply NoDup_app in Hnd as (_ & _ & Hnd). apply NoDup_cons in Hnd as [Hnu _].
  assert (0 <= i < mp_capacity mp) as Hib
    by (apply elem_of_all_indices; rewrite <- pool_perm0, Hf; set_solver).
  exists (set_free_top mp (free_top mp - 1)), i.
  do 4 (split; [done|]). split; simpl; try done; try lia.
  unfold all_indices in *. simpl. rewrite <- pool_perm0, Hf.
  unfold free_indices. simpl. rewrite <- app_assoc. done.
Qed.

Lemma free_inv mp used i :
  pool_inv mp (i :: used) →
  ∃ mp', mempool_free mp (object_addr mp i) = Some mp' ∧
    mp' = set_free_list (set_free_top mp (free_top mp + 1))
            (<[Z.to_nat (free_top mp):=i]> (free_list mp)) ∧
    pool_inv mp' used.
Proof.
  intros Hinv. pose proof Hinv as [].
  assert (0 <= i < mp_capacity mp) as Hi by (eapply pool_inv_used; [done|set_solver]).
  assert (free_top mp < mp_capacity mp) as Htop.
  { pose proof (Permutation_length pool_perm0) as Hl. revert Hl.
    unfold free_indices, all_indices.
    rewrite length_app, length_take, length_fmap, length_seq. simpl. lia. }
  unfold mempool_free. rewrite (proj2 (Z.eqb_neq _ _)) by (unfold object_addr; nia).
  rewrite (object_index_addr _ _ _ Hinv Hi). simpl.
  rewrite !(proj2 (Z.leb_gt _ _)) by lia.
  rewrite arr_set_Some by lia. simpl. rewrite u32_id by (unfold is_u32; lia).
  eexists. split_and!; [done..|].
  split; simpl; try done; try lia.
  - by rewrite length_insert.
  - unfold all_indices in *. simpl. rewrite <- pool_perm0. unfold free_indices. simpl.
    replace (Z.to_nat (free_top mp + 1)) with (S (Z.to_nat (free_top mp))) by lia.
    rewrite (take_S_r _ _ i) by (apply list_lookup_insert_eq; lia).
    rewrite take_insert_ge by lia. by rewrite <- app_assoc.
Qed.

(** Freeing at a full stack, a NULL pointer or a pointer whose index is out of
    range changes nothing. *)
Lemma free_ignored mp ptr idx :
  is_u32 (free_top mp) → object_index mp ptr = Some idx →
  ptr = 0 ∨ mp_capacity mp <= idx ∨ mp_capacity mp <= free_top mp →
  mempool_free mp ptr = Some mp.
Proof.
  intros Htop Hidx Hc. unfold mempool_free.
  destruct (Z.eqb_spec ptr 0); [done|]. rewrite Hidx. simpl.
  destruct (Z.leb_spec (mp_capacity mp) idx); [done|].
  rewrite (proj2 (Z.leb_le _ _)) by lia. simpl.
  unfold u32. rewrite Zminus_mod_idemp_l.
  replace (free_top mp + 1 - 1) with (free_top mp) by lia.
  rewrite (Z.mod_small (free_top mp)) by done. by destruct mp.
Qed.

(** ** Clients: allocate, and free an object that is held *)

(** [pool_trace mp mp' held]: a client that started from [mp] reached [mp']
    and holds the pointers [held]. *)
Inductive pool_trace (mp0 : mempool_t) : mempool_t → list Z → Prop :=
  | trace_start : pool_trace mp0 mp0 []
  | trace_alloc mp held mp' p :
      pool_trace mp0 mp held → mempool_alloc mp = Some (mp', p) → p ≠ 0 →
      pool_trace mp0 mp' (p :: held)
  | trace_exhausted mp held mp' :
      pool_trace mp0 mp held → mempool_alloc mp = Some (mp', 0) →
      pool_trace mp0 mp' held
  | trace_free mp held1 p held2 mp' :
      pool_trace mp0 mp (held1 ++ p :: held2) → mempool_free mp p = Some mp' →
      pool_trace mp0 mp' (held1 ++ held2).

(** The objects behind [held], with the pool invariant. *)
Definition holds (mp : mempool_t) (held : list Z) : Prop :=
  ∃ used, held = object_addr mp <$> used ∧ pool_inv mp used.

Lemma object_addr_pos mp used i :
  pool_inv mp used → 0 <= i → 0 < object_addr mp i.
Proof. intros [] ?. unfold object_addr. nia. Qed.

Lemma pool_inv_permute mp used used' :
  used ≡ₚ used' → pool_inv mp used → pool_inv mp used'.
Proof. intros Hp []. split; try done. by rewrite <- Hp. Qed.

Lemma pool_trace_holds mp0 mp held :
  pool_inv mp0 [] → pool_trace mp0 mp held → holds mp held.
Proof.
  intros H0. induction 1 as [|mp held mp' p _ (used&->&Hinv) Ha Hp
    |mp held mp' _ (used&->&Hinv) Ha|mp held1 p held2 mp' _ (used&Heq&Hinv) Hf].
  - by exists [].
  - destruct (decide (free_top mp = 0)) as [Hz|Hz].
    + rewrite alloc_exhausted in Ha by done. congruence.
    + destruct (alloc_inv mp used Hinv Hz) as (mp1&i&Ha'&_&_&->&Hinv').
      rewrite Ha in Ha'. injection Ha' as -> ->. by exists (i :: used).
  - destruct (decide (free_top mp = 0)) as [Hz|Hz].
    + rewrite alloc_exhausted in Ha by done. injection Ha as <-. by exists used.
    + destruct (alloc_inv mp used Hinv Hz) as (mp1&i&Ha'&Hi&_).
      rewrite Ha in Ha'. injection Ha' as _ He.
      pose proof (object_addr_pos mp used i Hinv ltac:(lia)). lia.
  - symmetry in Heq. apply fmap_app_inv in Heq as (u1 & u2' & -> & Heq & ->).
    symmetry in Heq. apply fmap_cons_inv in Heq as (i & u2 & -> & Heq & ->).
    apply (pool_inv_permute _ _ (i :: u1 ++ u2)) in Hinv;
      [|by rewrite Permutation_middle].
    destruct (free_inv mp _ _ Hinv) as (mp1 & Hf' & -> & Hinv').
    rewrite Hf in Hf'. injection Hf' as ->.
    exists (u1 ++ u2). split; [by rewrite fmap_app, Heq|done].
Qed.

(** The operations do not touch the configuration. *)
Lemma alloc_config mp mp' p :
  mempool_alloc mp = Some (mp', p) →
  mp_capacity mp' = mp_capacity mp ∧ object_size mp' = object_size mp ∧
  mp_pool mp' = mp_pool mp.
Proof.
  unfold mempool_alloc. destruct (_ =? _); [by intros [= <- _]|].
  destruct (arr_get _ _); simpl; [|done]. by intros [= <- _].
Qed.

Lemma free_config mp mp' p :
  mempool_free mp p = Some mp' →
  mp_capacity mp' = mp_capacity mp ∧ object_size mp' = object_size mp ∧
  mp_pool mp' = mp_pool mp.
Proof.
  unfold mempool_free. destruct (_ =? _); [by intros [= <-]|].
  destruct (object_index _ _); simpl; [|done].
  destruct (_ <=? _); [by intros [= <-]|]. destruct (_ <=? _); [by intros [= <-]|].
  destruct (arr_set _ _ _); simpl; [|done]. by intros [= <-].
Qed.

Lemma pool_trace_config mp0 mp held :
  pool_trace mp0 mp held →
  mp_capacity mp = mp_capacity mp0 ∧ object_size mp = object_size mp0 ∧
  mp_pool mp = mp_pool mp0.
Proof.
  induction 1 as [|mp held mp' p _ IH Ha|mp held mp' _ IH Ha|mp ? p ? mp' _ IH Ha];
    [done| | |];
    (apply alloc_config in Ha || apply free_config in Ha);
    destruct IH as (?&?&?), Ha as (?&?&?); split_and!; congruence.
Qed.

Lemma pool_inv_length mp used :
  pool_inv mp used → Z.of_nat (length used) + free_top mp = mp_capacity mp.
Proof.
  intros []. pose proof (Permutation_length pool_perm0) as Hl. revert Hl.
  unfold free_indices, all_indices.
  rewrite length_app, length_take, length_fmap, length_seq. lia.
Qed.

Lemma held_NoDup mp used : pool_inv mp used → NoDup (object_addr mp <$> used).
Proof.
  intros Hinv. pose proof (pool_inv_NoDup _ _ Hinv) as Hnd.
  apply NoDup_app in Hnd as (_ & _ & Hnd).
  assert (Forall (λ i, 0 <= i < mp_capacity mp) used) as Hall
    by (apply Forall_forall; intros i; by apply pool_inv_used).
  clear -Hinv Hnd Hall. generalize (object_addr_inj mp used). intros Hinj.
  specialize (λ i j, Hinj i j Hinv). clear Hinv.
  induction used as [|i used IH]; simpl; [constructor|].
  apply NoDup_cons in Hnd as [Hi Hnd]. apply Forall_cons in Hall as [Hib Hall].
  constructor; [|by apply IH]. intros (j & He & Hj)%list_elem_of_fmap.
  rewrite Forall_forall in Hall. apply Hinj in He as ->; auto.
Qed.

(** ** Interleaved threads

    The atomic accesses of [mempool_alloc] and [mempool_free] one by one:
    [fetch_sub] or [fetch_add] claims a slot of the stack, the slot itself is
    read or written by a later step. *)

Inductive mt_pc :=
  | MIdle
  | MAllocClaimed (old_top : Z)      (* fetch_sub done, slot not read yet *)
  | MAllocUndo                       (* pool exhausted, fetch_add pending *)
  | MFreeClaimed (idx slot : Z)      (* fetch_add done, slot not written yet *)
  | MFreeUndo.                       (* stack full, fetch_sub pending *)

Record mt_state := MtState {
  mt_pool : mempool_t;
  mt_pcs : list mt_pc;
  mt_held : list Z;                  (* indices handed out and not freed *)
}.

Inductive mt_action :=
  | ActAlloc                         (* call mempool_alloc *)
  | ActFree (idx : Z)                (* call mempool_free on a held object *)
  | ActNext.                         (* the next atomic access of the call *)

Inductive mt_outcome :=
  | MtOk (s : mt_state)
  | MtOutOfBounds
  | MtDisabled.

(** Remove one occurrence. *)
Fixpoint remove_one (i : Z) (l : list Z) : option (list Z) :=
  match l with
  | [] => None
  | j :: l => if i =? j then Some l else l' ← remove_one i l; Some (j :: l')
  end.

Definition mt_step (s : mt_state) (tid : nat) (act : mt_action) : mt_outcome :=
  let mp := mt_pool s in
  let top := free_top mp in
  let go mp pc held := MtOk (MtState mp (<[tid:=pc]> (mt_pcs s)) held) in
  match mt_pcs s !! tid, act with
  | Some MIdle, ActAlloc =>
      go (set_free_top mp (u32 (top - 1)))
         (if top =? 0 then MAllocUndo else MAllocClaimed top) (mt_held s)
  | Some MAllocUndo, ActNext => go (set_free_top mp (u32 (top + 1))) MIdle (mt_held s)
  | Some (MAllocClaimed old_top), ActNext =>
      match arr_get (free_list mp) (u32 (old_top - 1)) with
      | Some idx => go mp MIdle (idx :: mt_held s)
      | None => MtOutOfBounds
      end
  | Some MIdle, ActFree idx =>
      match remove_one idx (mt_held s) with
      | Some held =>
          go (set_free_top mp (u32 (top + 1)))
             (if mp_capacity mp <=? top then MFreeUndo else MFreeClaimed idx top) held
      | None => MtDisabled
      end
  | Some MFreeUndo, ActNext => go (set_free_top mp (u32 (top - 1))) MIdle (mt_held s)
  | Some (MFreeClaimed idx slot), ActNext =>
      match arr_set (free_list mp) slot idx with
      | Some l => go (set_free_list mp l) MIdle (mt_held s)
      | None => MtOutOfBounds
      end
  | _, _ => MtDisabled
  end.

Fixpoint mt_run (s : mt_state) (sched : list (nat * mt_action)) : mt_outcome :=
  match sched with
  | [] => MtOk s
  | (tid, act) :: sched =>
    match mt_step s tid act with
    | MtOk s => mt_run s sched
    | o => o
    end
  end.

(** [n] idle threads on a fresh pool of [cap] objects of 64 bytes. *)
Definition mt_init (cap : Z) (n : nat) : mt_state :=
  match mempool_init 4096 true (Some (Mempool 0 0 0 0 [])) 64 cap with
  | (Some mp, _) => MtState mp (replicate n MIdle) []
  | (None, _) => MtState (Mempool 0 0 0 0 []) (replicate n MIdle) []
  end.

(** ** Properties *)

(** C18 -- Along every sequence of allocations and frees of held objects that
    starts from an initialised pool, the held pointers are pairwise distinct
    addresses of whole objects inside the block (so no two objects overlap),
    the number held plus [mempool_available] is the capacity, and an
    allocation fails exactly when all objects are held. *)
Theorem pool_trace_sound mp0 mp size cap pool mp1 held :
  0 < cap < 2 ^ 32 → 0 < size < 2 ^ 32 → 0 < pool →
  pool + cap * Z.max size 4 <= 2 ^ 64 →
  mempool_init pool true (Some mp) size cap = (Some mp0, 0) →
  pool_trace mp0 mp1 held →
  NoDup held ∧
  Forall (λ p, ∃ i, p = pool + i * Z.max size 4 ∧ 0 <= i < cap) held ∧
  Z.of_nat (length held) + mempool_available (Some mp1) = cap ∧
  (∃ mp2 p, mempool_alloc mp1 = Some (mp2, p) ∧
            (p = 0 ↔ Z.of_nat (length held) = cap)).
Proof.
  intros Hc Hs Hp He Hi Ht.
  destruct (mempool_init_inv mp pool size cap) as (mp' & Hi' & HC & HS & HP & _ & Hinv0);
    [done..|].
  rewrite Hi in Hi'. injection Hi' as <-.
  destruct (pool_trace_holds _ _ _ Hinv0 Ht) as (used & -> & Hinv).
  destruct (pool_trace_config _ _ _ Ht) as (HC' & HS' & HP').
  rewrite HC in HC'. rewrite HS in HS'. rewrite HP in HP'.
  assert (Z.of_nat (length used) + free_top mp1 = cap) as Hlen
    by (rewrite <- HC'; by apply pool_inv_length).
  split_and!.
  - eapply held_NoDup; eauto.
  - apply Forall_fmap, Forall_forall. intros i Hiu.
    pose proof (pool_inv_used _ _ _ Hinv Hiu) as Hib. exists i.
    unfold object_addr. rewrite HP', HS'. split; [done|lia].
  - rewrite length_fmap. done.
  - rewrite length_fmap. destruct (decide (free_top mp1 = 0)) as [Hz|Hz].
    + rewrite alloc_exhausted by done. eexists _, _. split; [done|]. split; [lia|done].
    + destruct (alloc_inv _ _ Hinv Hz) as (mp2 & i & -> & Hib & _).
      eexists _, _. split; [done|].
      pose proof (object_addr_pos _ _ i Hinv ltac:(lia)). lia.
Qed.

(** A pool of four 64-byte objects from which two were taken and the first
    given back. *)
Definition demo_pool0 : mempool_t := Mempool 4 4096 64 4 [3; 2; 1; 0].
Definition demo_pool1 : mempool_t := Mempool 3 4096 64 4 [3; 2; 0; 0].

Lemma demo_trace : pool_trace demo_pool0 demo_pool1 [4160].
Proof.
  apply (trace_free _ (Mempool 2 4096 64 4 [3; 2; 1; 0]) [4160] 4096 []); [|reflexivity].
  eapply (trace_alloc _ (Mempool 3 4096 64 4 [3; 2; 1; 0])); [|reflexivity|done].
  eapply (trace_alloc _ demo_pool0); [|reflexivity|done].
  apply trace_start.
Qed.

Lemma pool_trace_sound_witness :
  NoDup [4160] ∧ 1 + mempool_available (Some demo_pool1) = 4.
Proof.
  pose proof (pool_trace_sound demo_pool0 (Mempool 0 0 0 0 []) 64 4 4096 demo_pool1 [4160]
    ltac:(lia) ltac:(lia) ltac:(lia) ltac:(lia) eq_refl demo_trace) as (Hnd & _ & Hlen & _).
  split; [exact Hnd|exact Hlen].
Defined.

(** Freeing a held object and allocating again returns the same
    pointer (the pool is a LIFO stack) with the pool otherwise as it was
    before the free. *)
Theorem free_then_alloc mp used i :
  pool_inv mp (i :: used) →
  ∃ mp1 mp2,
    mempool_free mp (object_addr mp i) = Some mp1 ∧
    mempool_alloc mp1 = Some (mp2, object_addr mp i) ∧
    free_top mp2 = free_top mp ∧ free_indices mp2 = free_indices mp ∧
    pool_inv mp1 used ∧ pool_inv mp2 (i :: used).
Proof.
  intros Hinv. destruct (free_inv _ _ _ Hinv) as (mp1 & Hf & Heq & Hinv1).
  pose proof Hinv as []. pose proof (pool_inv_length _ _ Hinv1) as Hl1.
  assert (free_top mp1 = free_top mp + 1) as Ht1 by by subst mp1.
  destruct (alloc_inv mp1 used Hinv1) as (mp2 & j & Ha & Hj & Hju & Heq2 & Hinv2); [lia|].
  assert (j = i) as ->.
  { assert (i ∈ j :: used) as Hin.
    { pose proof (pool_perm _ _ Hinv) as P1. pose proof (pool_perm _ _ Hinv2) as P2.
      assert (free_indices mp2 = free_indices mp) as Hfi.
      { subst mp1 mp2. unfold free_indices. simpl.
        rewrite Z.add_simpl_r. apply take_insert_ge. lia. }
      assert (all_indices mp2 = all_indices mp) as Hai by by subst mp1 mp2.
      rewrite Hfi, Hai, <- P1 in P2. apply Permutation_app_inv_l in P2.
      rewrite P2. by left. }
    apply elem_of_cons in Hin as [->|Hin]; [done|]. exfalso.
    pose proof (pool_inv_NoDup _ _ Hinv) as Hnd.
    apply NoDup_app in Hnd as (_ & _ & Hnd). by apply NoDup_cons in Hnd as [? _]. }
  exists mp1, mp2. split_and!; try done.
  - rewrite Ha. by subst mp1.
  - subst mp2. simpl. lia.
  - subst mp1 mp2. unfold free_indices. simpl.
    rewrite Z.add_simpl_r. apply take_insert_ge. lia.
Qed.

Lemma demo_inv : pool_inv (Mempool 3 4096 64 4 [3; 2; 1; 0]) [0].
Proof.
  split; simpl; try lia; try done. unfold free_indices, all_indices. simpl.
  apply (Permutation_rev [3; 2; 1; 0]).
Qed.

Lemma free_then_alloc_witness :
  ∃ mp1 mp2,
    mempool_free (Mempool 3 4096 64 4 [3; 2; 1; 0]) 4096 = Some mp1 ∧
    mempool_alloc mp1 = Some (mp2, 4096) ∧ free_top mp2 = 3.
Proof.
  destruct (free_then_alloc _ _ _ demo_inv) as (mp1 & mp2 & Hf & Ha & Ht & _).
  exists mp1, mp2. split_and!; [exact Hf|exact Ha|exact Ht].
Defined.

(** The pool is not safe for concurrent callers, although its header
    calls it thread-safe; schedules of the atomic steps show three failures.
    With two objects, an allocation between a free's claim of its slot and its
    store reads the old entry and hands out an object that is already in use.
    With one object, an allocation on the empty pool has decremented the
    counter and not restored it: a free then sees the wrapped counter, takes
    the pool for full and drops the object for good; and a second allocation
    takes the wrapped counter for a position and reads [free_list] out of
    bounds. *)
Theorem mempool_not_thread_safe :
  (∃ sched s, mt_run (mt_init 2 2) sched = MtOk s ∧
     mt_pcs s = [MIdle; MIdle] ∧ mt_held s = [1; 1] ∧ free_top (mt_pool s) = 0) ∧
  (∃ sched s, mt_run (mt_init 1 2) sched = MtOk s ∧
     mt_pcs s = [MIdle; MIdle] ∧ mt_held s = [] ∧
     mempool_available (Some (mt_pool s)) = 0 ∧
     mempool_alloc (mt_pool s) = Some (mt_pool s, 0)) ∧
  (∃ sched, mt_run (mt_init 1 3) sched = MtOutOfBounds).
Proof.
  split_and!.
  - exists [(0%nat, ActAlloc); (0%nat, ActNext); (0%nat, ActAlloc); (0%nat, ActNext);
            (0%nat, ActFree 0);
            (1%nat, ActAlloc); (1%nat, ActNext);
            (0%nat, ActNext)].
    eexists. split; [vm_compute; reflexivity|]. split_and!; vm_compute; reflexivity.
  - exists [(0%nat, ActAlloc); (0%nat, ActNext);
            (1%nat, ActAlloc); (0%nat, ActFree 0);
            (1%nat, ActNext); (0%nat, ActNext)].
    eexists. split; [vm_compute; reflexivity|]. split_and!; vm_compute; reflexivity.
  - exists [(0%nat, ActAlloc); (0%nat, ActNext);
            (1%nat, ActAlloc); (2%nat, ActAlloc); (2%nat, ActNext)].
    reflexivity.
Qed.
