(* ===== verification/Order.v ===== *)
(** * Orders and trades (include/order.h)

    A [char symbol[16]] is modelled by the characters before its first NUL, at most
    sixteen; with sixteen there is no NUL in it ([read_symbol]).  Padding fields are
    left out. *)

From S2P Require Export Double.

(** The C string in the first [n] bytes at [s]: what [strnlen], [strncpy] and
    a bounded [%s] read. *)
Fixpoint strn (n : nat) (s : string) : string :=
  match n, s with
  | S n, String c s => if decide (c = Ascii.zero) then EmptyString else String c (strn n s)
  | _, _ => EmptyString
  end.

#[global] Arguments strn : simpl never.

(** A C string cut to a size fits the size. *)
Lemma strn_length n s : (String.length (strn n s) <= n)%nat.
Proof.
  revert s. induction n as [|n IH]; intros s; [simpl; lia|].
  destruct s as [|c s]; simpl; [lia|]. unfold strn; fold strn. case_decide; simpl; [lia|].
  specialize (IH s). lia.
Qed.

(** The symbols that leave room for a NUL in a [char symbol[16]]. *)
Definition symbol_fits (s : string) : Prop := (String.length s <= 15)%nat.

#[export] Instance symbol_fits_dec s : Decision (symbol_fits s).
Proof. unfold symbol_fits. apply _. Defined.

(** What an unbounded [%s] reads from a [char symbol[16]]: if all sixteen characters
    are used there is no NUL in the array and the read goes on behind it, which is
    undefined. *)
Definition read_symbol (s : string) : option string :=
  if decide (symbol_fits s) then Some s else None.

Lemma read_symbol_fits s : symbol_fits s → read_symbol s = Some s.
Proof. intros H. unfold read_symbol. by rewrite decide_True. Qed.

(** Copying bounds no symbol that fits. *)
Lemma strn_le n s : (String.length (strn n s) <= String.length s)%nat.
Proof.
  revert s. induction n as [|n IH]; intros s; [simpl; lia|].
  destruct s as [|c s]; simpl; [lia|]. unfold strn; fold strn. case_decide; simpl; [lia|].
  specialize (IH s). lia.
Qed.

Lemma strn_fits n s : symbol_fits s → symbol_fits (strn n s).
Proof. pose proof (strn_le n s). unfold symbol_fits. lia. Qed.

Definition INVALID_ORDER_ID : Z := -1.

Inductive Side := BUY | SELL.
Inductive OrderType := LIMIT | MARKET.
Inductive OrderStatus := NEW | PARTIAL | FILLED | CANCELLED | REJECTED.

#[export] Instance Side_eq_dec : EqDecision Side.
Proof. solve_decision. Defined.
#[export] Instance OrderType_eq_dec : EqDecision OrderType.
Proof. solve_decision. Defined.
#[export] Instance OrderStatus_eq_dec : EqDecision OrderStatus.
Proof. solve_decision. Defined.

(** The [uint8_t] values of the enumerations. *)
Definition side_code (s : Side) : Z := match s with BUY => 0 | SELL => 1 end.
Definition type_code (t : OrderType) : Z := match t with LIMIT => 0 | MARKET => 1 end.
Definition status_code (s : OrderStatus) : Z :=
  match s with NEW => 0 | PARTIAL => 1 | FILLED => 2 | CANCELLED => 3 | REJECTED => 4 end.

Record Order := MkOrder {
  o_id : Z;
  o_account_id : Z;
  o_price : double;
  o_quantity : Z;
  o_filled_qty : Z;
  o_timestamp_ns : Z;
  o_side : Side;
  o_type : OrderType;
  o_status : OrderStatus;
  o_symbol : string;
}.

#[export] Instance Order_eq_dec : EqDecision Order.
Proof. solve_decision. Defined.

(** The default constructor [Order()]. *)
Definition default_order : Order :=
  MkOrder INVALID_ORDER_ID 0 d_zero 0 0 0 BUY LIMIT NEW "".

Definition remaining (o : Order) : Z := i32 (o_quantity o - o_filled_qty o).
Definition is_filled (o : Order) : bool := o_quantity o <=? o_filled_qty o.
Definition is_buy (o : Order) : bool := bool_decide (o_side o = BUY).
Definition is_sell (o : Order) : bool := bool_decide (o_side o = SELL).
Definition is_limit (o : Order) : bool := bool_decide (o_type o = LIMIT).

Definition set_status (o : Order) st : Order :=
  MkOrder (o_id o) (o_account_id o) (o_price o) (o_quantity o) (o_filled_qty o)
    (o_timestamp_ns o) (o_side o) (o_type o) st (o_symbol o).
Definition set_filled (o : Order) f : Order :=
  MkOrder (o_id o) (o_account_id o) (o_price o) (o_quantity o) f
    (o_timestamp_ns o) (o_side o) (o_type o) (o_status o) (o_symbol o).
Definition set_price (o : Order) p : Order :=
  MkOrder (o_id o) (o_account_id o) p (o_quantity o) (o_filled_qty o)
    (o_timestamp_ns o) (o_side o) (o_type o) (o_status o) (o_symbol o).
Definition set_quantity (o : Order) q : Order :=
  MkOrder (o_id o) (o_account_id o) (o_price o) q (o_filled_qty o)
    (o_timestamp_ns o) (o_side o) (o_type o) (o_status o) (o_symbol o).
Definition set_type (o : Order) t : Order :=
  MkOrder (o_id o) (o_account_id o) (o_price o) (o_quantity o) (o_filled_qty o)
    (o_timestamp_ns o) (o_side o) t (o_status o) (o_symbol o).
Definition set_id (o : Order) i : Order :=
  MkOrder i (o_account_id o) (o_price o) (o_quantity o) (o_filled_qty o)
    (o_timestamp_ns o) (o_side o) (o_type o) (o_status o) (o_symbol o).

(** [order.filled_qty += qty] *)
Definition fill (o : Order) (qty : Z) : Order :=
  set_filled o (i32 (o_filled_qty o + qty)).

Record Trade := MkTrade {
  t_trade_id : Z;
  t_buy_order_id : Z;
  t_sell_order_id : Z;
  t_quantity : Z;
  t_timestamp_ns : Z;
  t_price : double;
  t_symbol : string;
}.

#[export] Instance Trade_eq_dec : EqDecision Trade.
Proof. solve_decision. Defined.

(** ** Quantities that do not overflow *)

(** The quantity and the filled part of an order leave [remaining] exact. *)
Definition qty_ok (o : Order) : Prop :=
  is_i32 (o_quantity o) ∧ 0 <= o_filled_qty o ∧
  o_filled_qty o <= Z.max (o_quantity o) 0.

#[export] Instance qty_ok_dec o : Decision (qty_ok o).
Proof. unfold qty_ok. apply _. Defined.

Lemma remaining_exact o : qty_ok o → remaining o = o_quantity o - o_filled_qty o.
Proof. intros (?&?&?). apply i32_id. unfold is_i32 in *. lia. Qed.

Lemma is_filled_remaining o : qty_ok o → is_filled o = (remaining o <=? 0).
Proof. intros Ho. rewrite remaining_exact by done. unfold is_filled. zcases; lia. Qed.

Lemma fill_exact o q :
  qty_ok o → 0 <= q <= Z.max (remaining o) 0 →
  fill o q = set_filled o (o_filled_qty o + q) ∧ qty_ok (fill o q) ∧
  remaining (fill o q) = remaining o - q.
Proof.
  intros Ho Hq. pose proof (remaining_exact o Ho) as Hr. rewrite Hr in Hq |- *.
  destruct Ho as (?&?&?). unfold fill, is_i32 in *.
  rewrite i32_id by (unfold is_i32; lia).
  assert (qty_ok (set_filled o (o_filled_qty o + q))) as Hok
    by (unfold qty_ok, is_i32; simpl; lia).
  split_and!; [done|done|]. rewrite remaining_exact by done. simpl. lia.
Qed.
