(* ===== verification/CppMap.v ===== *)
(** * [std::map<double, V, Compare>]

    The ordered map of the C++ standard library, as the order book uses it: a
    list of key/value pairs in the order of the comparator.  [KeyOrder] is
    what the standard asks of the comparator, on keys other than NaN; a NaN
    key breaks the comparator's contract (undefined behaviour of the library),
    so the lemmas exclude it.  Two keys are the same to the map when neither
    comes before the other, which for doubles identifies the two zeros. *)

From S2P Require Export Double.

Class KeyOrder (before : double → double → bool) := {
  before_irrefl x : before x x = false;
  before_trans x y z : before x y = true → before y z = true → before x z = true;
  before_total x y :
    is_nan x = false → is_nan y = false →
    before x y = true ∨ d_eq x y = true ∨ before y x = true;
  before_eq_l x x' y : d_eq x x' = true → before x y = before x' y;
  before_eq_r x y y' : d_eq y y' = true → before x y = before x y';
  before_not_nan x y : before x y = true → is_nan x = false ∧ is_nan y = false;
}.

(** [std::less<double>] and [std::greater<double>] *)
Definition d_less (x y : double) : bool := d_lt x y.
Definition d_greater (x y : double) : bool := d_lt y x.

#[export] Program Instance d_less_order : KeyOrder d_less := {}.
Next Obligation. apply d_lt_irrefl. Qed.
Next Obligation. apply d_lt_trans. Qed.
Next Obligation. apply d_trichotomy. Qed.
Next Obligation. apply d_lt_eq_l. Qed.
Next Obligation. apply d_lt_eq_r. Qed.
Next Obligation. apply d_lt_not_nan. Qed.

#[export] Program Instance d_greater_order : KeyOrder d_greater := {}.
Next Obligation. intros x. apply d_lt_irrefl. Qed.
Next Obligation. intros x y z. unfold d_greater. eauto using d_lt_trans. Qed.
Next Obligation.
  intros x y Hx Hy. destruct (d_trichotomy x y Hx Hy) as [?|[?|?]]; auto.
Qed.
Next Obligation. intros x x' y. apply d_lt_eq_r. Qed.
Next Obligation. intros x y y'. apply d_lt_eq_l. Qed.
Next Obligation. intros x y [??]%d_lt_not_nan. done. Qed.

Section cpp_map.
Context (before : double → double → bool) {V : Type}.
Implicit Types (m : list (double * V)) (k : double) (v : V).

(** [m.find(k)] *)
Fixpoint map_find k m : option V :=
  match m with
  | [] => None
  | (p, v) :: m =>
    if before p k then map_find k m else if before k p then None else Some v
  end.

(** [m[k]], default-constructing a missing value, then [f] applied in place. *)
Fixpoint map_upsert (dflt : V) (f : V → V) k m : list (double * V) :=
  match m with
  | [] => [(k, f dflt)]
  | (p, v) :: m' =>
    if before p k then (p, v) :: map_upsert dflt f k m'
    else if before k p then (k, f dflt) :: (p, v) :: m'
    else (p, f v) :: m'
  end.

(** Assignment through the iterator returned by [m.find(k)]. *)
Fixpoint map_set k v m : list (double * V) :=
  match m with
  | [] => []
  | (p, w) :: m' =>
    if before p k then (p, w) :: map_set k v m'
    else if before k p then (p, w) :: m' else (p, v) :: m'
  end.

(** [m.erase(m.find(k))] *)
Fixpoint map_erase k m : list (double * V) :=
  match m with
  | [] => []
  | (p, w) :: m' =>
    if before p k then (p, w) :: map_erase k m'
    else if before k p then (p, w) :: m' else m'
  end.

Definition map_sorted m : Prop :=
  StronglySorted (λ x y, before x.1 y.1 = true) m ∧ Forall (λ x, is_nan x.1 = false) m.

Context `{!KeyOrder before}.

Lemma before_asym x y : before x y = true → before y x = false.
Proof.
  intros H. apply not_true_is_false. intros H'.
  by generalize (before_trans x y x H H'); rewrite before_irrefl.
Qed.

Lemma before_antisym x y :
  is_nan x = false → is_nan y = false →
  before x y = false → before y x = false → d_eq x y = true.
Proof. intros Hx Hy H1 H2. destruct (before_total x y Hx Hy) as [?|[?|?]]; congruence. Qed.

Lemma before_eq_false x y : d_eq x y = true → before x y = false.
Proof. intros H. rewrite (before_eq_l x y y H). apply before_irrefl. Qed.

Lemma map_sorted_cons p v m :
  map_sorted ((p, v) :: m) ↔
  is_nan p = false ∧ map_sorted m ∧ Forall (λ x, before p x.1 = true) m.
Proof.
  unfold map_sorted. rewrite Forall_cons. simpl. split.
  - intros [[? ?]%StronglySorted_inv [? ?]]. done.
  - intros (? & [? ?] & ?). split_and!; [by constructor|done..].
Qed.

Lemma map_sorted_nil : map_sorted [].
Proof. split; constructor. Qed.

(** A map with the key [k] at a known position: what the traversals do. *)
Lemma map_split k m :
  map_sorted m → is_nan k = false →
  ∃ m1 m2, Forall (λ x, before x.1 k = true) m1 ∧
    ((m = m1 ++ m2 ∧ Forall (λ x, before k x.1 = true) m2) ∨
     ∃ p v, m = m1 ++ (p, v) :: m2 ∧ d_eq p k = true ∧
            Forall (λ x, before k x.1 = true) m2).
Proof.
  intros Hs Hk. induction m as [|[p v] m IH].
  - exists [], []. split; [constructor|]. left. split; [done|constructor].
  - apply map_sorted_cons in Hs as (Hp & Hs & Hall).
    destruct (before_total p k Hp Hk) as [Hb|[He|Ha]].
    + destruct (IH Hs) as (m1 & m2 & H1 & H2). exists ((p, v) :: m1), m2.
      split; [by constructor|]. destruct H2 as [(->&?)|(q&w&->&?&?)]; eauto 10.
    + exists [], m. split; [constructor|]. right. exists p, v.
      split_and!; [done..|]. eapply Forall_impl; [done|]. simpl. intros x.
      by rewrite (before_eq_l p k).
    + exists [], ((p, v) :: m). split; [constructor|]. left. split; [done|].
      constructor; [done|]. eapply Forall_impl; [done|]. simpl. eauto using before_trans.
Qed.

Lemma map_find_skip k m1 m2 :
  Forall (λ x, before x.1 k = true) m1 → map_find k (m1 ++ m2) = map_find k m2.
Proof. induction 1 as [|[p v] m1 Hp _ IH]; simpl in *; [done|]. by rewrite Hp. Qed.
Lemma map_upsert_skip d f k m1 m2 :
  Forall (λ x, before x.1 k = true) m1 →
  map_upsert d f k (m1 ++ m2) = m1 ++ map_upsert d f k m2.
Proof. induction 1 as [|[p v] m1 Hp _ IH]; simpl in *; [done|]. by rewrite Hp, IH. Qed.
Lemma map_set_skip k v m1 m2 :
  Forall (λ x, before x.1 k = true) m1 → map_set k v (m1 ++ m2) = m1 ++ map_set k v m2.
Proof. induction 1 as [|[p w] m1 Hp _ IH]; simpl in *; [done|]. by rewrite Hp, IH. Qed.
Lemma map_erase_skip k m1 m2 :
  Forall (λ x, before x.1 k = true) m1 → map_erase k (m1 ++ m2) = m1 ++ map_erase k m2.
Proof. induction 1 as [|[p v] m1 Hp _ IH]; simpl in *; [done|]. by rewrite Hp, IH. Qed.

(** The operations at a key that is present ... *)
Lemma map_at_present k m1 p v m2 :
  Forall (λ x, before x.1 k = true) m1 → d_eq p k = true →
  let m := m1 ++ (p, v) :: m2 in
  map_find k m = Some v ∧
  (∀ d f, map_upsert d f k m = m1 ++ (p, f v) :: m2) ∧
  (∀ w, map_set k w m = m1 ++ (p, w) :: m2) ∧
  map_erase k m = m1 ++ m2.
Proof.
  intros H1 He. simpl.
  rewrite map_find_skip, map_erase_skip by done. simpl.
  rewrite (before_eq_false p k), (before_eq_false k p) by eauto using d_eq_sym.
  split_and!; [done| | |done]; intros;
    rewrite ?map_upsert_skip, ?map_set_skip by done; simpl;
    by rewrite (before_eq_false p k), (before_eq_false k p) by eauto using d_eq_sym.
Qed.

(** ... and at one that is not. *)
Lemma map_at_absent k m1 m2 :
  Forall (λ x, before x.1 k = true) m1 → Forall (λ x, before k x.1 = true) m2 →
  map_find k (m1 ++ m2) = None ∧
  (∀ d f, map_upsert d f k (m1 ++ m2) = m1 ++ (k, f d) :: m2).
Proof.
  intros H1 H2. rewrite map_find_skip by done. split.
  - destruct H2 as [|[p v] m2 Hp _]; simpl in *; [done|].
    by rewrite (before_asym k p), Hp.
  - intros. rewrite map_upsert_skip by done. f_equal.
    destruct H2 as [|[p v] m2 Hp _]; simpl in *; [done|].
    by rewrite (before_asym k p), Hp.
Qed.

Lemma map_sorted_app m1 m2 :
  map_sorted (m1 ++ m2) ↔
  map_sorted m1 ∧ map_sorted m2 ∧
  (∀ x y, x ∈ m1 → y ∈ m2 → before x.1 y.1 = true).
Proof.
  unfold map_sorted. rewrite StronglySorted_app_iff, Forall_app. naive_solver.
Qed.
End cpp_map.
