(* ===== verification/OrderBook.v ===== *)
(** * The order book (include/order_book.h, src/order_book.cpp): definitions

    One definition per member function of [OrderBook].

    The price levels are [std::map]s of [std::list]s.  A list node has an
    address, which is what the iterators stored in [order_index_] hold: the
    index maps an order id to the address of a node, and the node's order is
    found by looking the address up among the nodes that exist ([deref]).
    Updating or erasing through an iterator therefore acts on the one copy of
    the order that the level list holds, and using an iterator whose node is
    gone is undefined behaviour, the [None] of [cancel_order] and
    [modify_order].  [ob_next_addr] is the allocator: every [push_back]
    takes a new address.

    [clock] is the sequence of results of [clock_gettime(CLOCK_REALTIME)], as
    (seconds, nanoseconds), and [ob_clock] counts the calls made. *)

From S2P Require Export Order CppMap.

Record Node := MkNode { n_addr : nat; n_order : Order }.

Notation OrderList := (list Node).
Notation LevelMap := (list (double * OrderList)).

#[export] Instance Node_eq_dec : EqDecision Node.
Proof. solve_decision. Defined.

(** Which of the two trade buffers [active_trades_] points to. *)
Inductive trade_buffer := BufA | BufB.

Record OrderBook := MkBook {
  ob_symbol : string;
  ob_bids : LevelMap;
  ob_asks : LevelMap;
  ob_trades_a : list Trade;
  ob_trades_b : list Trade;
  ob_active : trade_buffer;
  ob_index : gmap Z nat;
  ob_next_trade_id : Z;
  ob_next_addr : nat;
  ob_clock : nat;
}.

(** [OrderBook::OrderBook] *)
Definition new_book (symbol : string) : OrderBook :=
  MkBook symbol [] [] [] [] BufA ∅ 1 0 0.

Definition set_bids bk l := MkBook (ob_symbol bk) l (ob_asks bk) (ob_trades_a bk)
  (ob_trades_b bk) (ob_active bk) (ob_index bk) (ob_next_trade_id bk)
  (ob_next_addr bk) (ob_clock bk).
Definition set_asks bk l := MkBook (ob_symbol bk) (ob_bids bk) l (ob_trades_a bk)
  (ob_trades_b bk) (ob_active bk) (ob_index bk) (ob_next_trade_id bk)
  (ob_next_addr bk) (ob_clock bk).
Definition set_index bk ix := MkBook (ob_symbol bk) (ob_bids bk) (ob_asks bk)
  (ob_trades_a bk) (ob_trades_b bk) (ob_active bk) ix (ob_next_trade_id bk)
  (ob_next_addr bk) (ob_clock bk).

(** [order_index_.erase(id)] *)
Definition index_erase bk (id : Z) : OrderBook := set_index bk (delete id (ob_index bk)).

Definition get_buffer bk (b : trade_buffer) : list Trade :=
  match b with BufA => ob_trades_a bk | BufB => ob_trades_b bk end.
Definition set_buffer bk (b : trade_buffer) (l : list Trade) : OrderBook :=
  MkBook (ob_symbol bk) (ob_bids bk) (ob_asks bk)
    (match b with BufA => l | BufB => ob_trades_a bk end)
    (match b with BufA => ob_trades_b bk | BufB => l end)
    (ob_active bk) (ob_index bk) (ob_next_trade_id bk) (ob_next_addr bk) (ob_clock bk).
Definition set_active bk (b : trade_buffer) : OrderBook :=
  MkBook (ob_symbol bk) (ob_bids bk) (ob_asks bk) (ob_trades_a bk) (ob_trades_b bk)
    b (ob_index bk) (ob_next_trade_id bk) (ob_next_addr bk) (ob_clock bk).

(** [*active_trades_] *)
Definition active_trades bk : list Trade := get_buffer bk (ob_active bk).

(** [next_trade_id_++], one reading of the clock, [push_back]. *)
Definition push_trade bk (t : Trade) : OrderBook :=
  let bk := set_buffer bk (ob_active bk) (active_trades bk ++ [t]) in
  MkBook (ob_symbol bk) (ob_bids bk) (ob_asks bk) (ob_trades_a bk) (ob_trades_b bk)
    (ob_active bk) (ob_index bk) (i32 (ob_next_trade_id bk + 1))
    (ob_next_addr bk) (S (ob_clock bk)).

Section order_book.
Context (clock : nat → Z * Z).

Definition timestamp_ns (ts : Z * Z) : Z := u64 (u64 (u64 ts.1 * 1000000000) + u64 ts.2).

Definition generate_trade bk (buy sell : Order) (qty : Z) (price : double) : OrderBook :=
  push_trade bk {|
    t_trade_id := ob_next_trade_id bk;
    t_buy_order_id := o_id buy;
    t_sell_order_id := o_id sell;
    t_price := price;
    t_quantity := qty;
    t_timestamp_ns := timestamp_ns (clock (ob_clock bk));
    t_symbol := strn 16 (ob_symbol bk);
  |}.

(** The inner [while] of [match_limit_order]: [order] against one level. *)
Fixpoint match_level bk (order : Order) (price : double) (level : OrderList)
    : OrderBook * Order * OrderList :=
  match level with
  | [] => (bk, order, [])
  | entry :: level' =>
    if 0 <? remaining order then
      let resting := n_order entry in
      let match_qty := Z.min (remaining order) (remaining resting) in
      let resting := fill resting match_qty in
      let order := fill order match_qty in
      let bk := if is_buy order then generate_trade bk order resting match_qty price
                else generate_trade bk resting order match_qty price in
      if is_filled resting then
        match_level (index_erase bk (o_id resting)) order price level'
      else
        let '(bk, order, level') := match_level bk order price level' in
        (bk, order, MkNode (n_addr entry) (set_status resting PARTIAL) :: level')
    else (bk, order, level)
  end.

(** The outer [while]; [stops price] is the test that ends it. *)
Fixpoint match_levels (stops : double → bool) bk (order : Order) (levels : LevelMap)
    : OrderBook * Order * LevelMap :=
  match levels with
  | [] => (bk, order, [])
  | (price, level) :: levels' =>
    if 0 <? remaining order then
      if stops price then (bk, order, levels) else
      let '(bk, order, level) := match_level bk order price level in
      let '(bk, order, levels') := match_levels stops bk order levels' in
      (bk, order, match level with [] => levels' | _ => (price, level) :: levels' end)
    else (bk, order, levels)
  end.

Definition ask_stops (order : Order) (ask_price : double) : bool :=
  is_limit order && d_lt (o_price order) ask_price.
Definition bid_stops (order : Order) (bid_price : double) : bool :=
  is_limit order && d_lt bid_price (o_price order).

Definition match_limit_order bk (order : Order) : OrderBook * Order :=
  let '(bk, order) :=
    if is_buy order then
      let '(bk, order', asks) := match_levels (ask_stops order) bk order (ob_asks bk) in
      (set_asks bk asks, order')
    else
      let '(bk, order', bids) := match_levels (bid_stops order) bk order (ob_bids bk) in
      (set_bids bk bids, order') in
  (bk, if is_filled order then set_status order FILLED
       else if 0 <? o_filled_qty order then set_status order PARTIAL
       else order).

Definition match_market_order bk (order : Order) : OrderBook * Order :=
  match_limit_order bk (set_price order d_zero).

(** [level_list->push_back(entry)] and [order_index_[id] = list_it] *)
Definition rest_order bk (entry : Order) : OrderBook :=
  let addr := ob_next_addr bk in
  let push level := level ++ [MkNode addr entry] in
  MkBook (ob_symbol bk)
    (if is_buy entry then map_upsert d_greater [] push (o_price entry) (ob_bids bk)
     else ob_bids bk)
    (if is_buy entry then ob_asks bk
     else map_upsert d_less [] push (o_price entry) (ob_asks bk))
    (ob_trades_a bk) (ob_trades_b bk) (ob_active bk)
    (<[o_id entry := addr]> (ob_index bk))
    (ob_next_trade_id bk) (S addr) (ob_clock bk).

Definition add_order bk (order : Order) : OrderBook * Order :=
  let '(bk, result) := match_limit_order bk order in
  if negb (is_filled result) && is_limit result then
    let partial := 0 <? o_filled_qty result in
    (rest_order bk (set_status result (if partial then PARTIAL else NEW)),
     if partial then set_status result PARTIAL else result)
  else (bk, result).

Definition add_market_order bk (order : Order) : OrderBook * Order :=
  match_market_order bk (set_type order MARKET).

(** Every node of the book, bids first. *)
Definition level_nodes (levels : LevelMap) : list Node := concat (levels.*2).
Definition book_nodes bk : list Node := level_nodes (ob_bids bk) ++ level_nodes (ob_asks bk).

(** Dereferencing a stored list iterator. *)
Definition find_node (addr : nat) (l : list Node) : option Node :=
  list_find (λ n, n_addr n = addr) l ≫= λ p, Some p.2.
Definition deref bk (addr : nat) : option Order :=
  n ← find_node addr (book_nodes bk); Some (n_order n).

(** [level.erase(list_it)]: the iterator has to be one of this list. *)
Fixpoint list_erase (addr : nat) (level : OrderList) : option OrderList :=
  match level with
  | [] => None
  | n :: level => if decide (n_addr n = addr) then Some level
                  else level' ← list_erase addr level; Some (n :: level')
  end.

(** Writing to the order of a node through its iterator. *)
Definition update_node (addr : nat) (f : Order → Order) (levels : LevelMap) : LevelMap :=
  let upd n := if decide (n_addr n = addr) then MkNode addr (f (n_order n)) else n in
  (λ l : double * list Node, (l.1, upd <$> l.2)) <$> levels.

(** Find the level of [price], erase the node, drop the level if empty.  The
    [status = CANCELLED] written to the node before is seen only if there is
    no such level, since otherwise the node goes away. *)
Definition erase_from_side (before : double → double → bool) (price : double)
    (addr : nat) (levels : LevelMap) : option LevelMap :=
  match map_find before price levels with
  | None => Some (update_node addr (λ o, set_status o CANCELLED) levels)
  | Some level =>
    level' ← list_erase addr level;
    Some (match level' with
          | [] => map_erase before price levels
          | _ => map_set before price level' levels
          end)
  end.

Definition cancel_order bk (order_id : Z) : option (OrderBook * bool) :=
  match ob_index bk !! order_id with
  | None => Some (bk, false)
  | Some addr =>
    o ← deref bk addr;
    bk' ← (if is_buy o then
             bids ← erase_from_side d_greater (o_price o) addr (ob_bids bk);
             Some (set_bids bk bids)
           else
             asks ← erase_from_side d_less (o_price o) addr (ob_asks bk);
             Some (set_asks bk asks));
    Some (index_erase bk' order_id, true)
  end.

Definition modify_order bk (order_id : Z) (new_price : double) (new_qty : Z)
    : option (OrderBook * Order) :=
  match ob_index bk !! order_id with
  | None => Some (bk, set_status (set_id default_order INVALID_ORDER_ID) REJECTED)
  | Some addr =>
    modified ← deref bk addr;
    '(bk, _) ← cancel_order bk order_id;
    Some (add_order bk
      (set_status (set_filled (set_quantity (set_price modified new_price) new_qty) 0) NEW))
  end.

(** ** Queries; [symbol()] is the field [ob_symbol]. *)

Definition best_bid bk : double :=
  match ob_bids bk with [] => d_zero | (p, _) :: _ => p end.
Definition best_ask bk : double :=
  match ob_asks bk with [] => d_zero | (p, _) :: _ => p end.

(** [total += entry.order.remaining()] over a level, in [int32_t]. *)
Definition level_size (level : OrderList) : Z :=
  foldl (λ total n, i32 (total + remaining (n_order n))) 0 level.

Definition bid_size bk : Z :=
  match ob_bids bk with [] => 0 | (_, l) :: _ => level_size l end.
Definition ask_size bk : Z :=
  match ob_asks bk with [] => 0 | (_, l) :: _ => level_size l end.

Definition mid_price bk : double :=
  let bb := best_bid bk in
  let ba := best_ask bk in
  if d_eq bb d_zero || d_eq ba d_zero then d_zero
  else d_div (d_add bb ba) (d_of_Z 2).

Definition spread bk : double :=
  let bb := best_bid bk in
  let ba := best_ask bk in
  if d_eq bb d_zero || d_eq ba d_zero then d_zero else d_sub ba bb.

Definition bid_levels bk : nat := length (ob_bids bk).
Definition ask_levels bk : nat := length (ob_asks bk).
Definition order_count bk : nat := size (ob_index bk).

Definition trades bk : list Trade := active_trades bk.
Definition trade_count bk : nat := length (active_trades bk).

(** Swap the active pointer, clear the new active buffer, move the contents
    of the old one out. *)
Definition drain_trades bk : OrderBook * list Trade :=
  let old_active := ob_active bk in
  let bk := set_active bk (match old_active with BufA => BufB | BufB => BufA end) in
  let bk := set_buffer bk (ob_active bk) [] in
  (set_buffer bk old_active [], get_buffer bk old_active).

Definition get_bid_levels (depth : nat) bk : list (double * Z) :=
  (λ l, (l.1, level_size l.2)) <$> take depth (ob_bids bk).
Definition get_ask_levels (depth : nat) bk : list (double * Z) :=
  (λ l, (l.1, level_size l.2)) <$> take depth (ob_asks bk).

(** Erase the index entries of a level that goes away. *)
Definition index_erase_level (ix : gmap Z nat) (level : OrderList) : gmap Z nat :=
  foldl (λ ix n, delete (o_id (n_order n)) ix) ix level.

Definition update_level bk (side : Side) (price : double) (size : Z) : OrderBook :=
  if size =? 0 then
    match side with
    | BUY =>
      match map_find d_greater price (ob_bids bk) with
      | Some level => set_bids (set_index bk (index_erase_level (ob_index bk) level))
                        (map_erase d_greater price (ob_bids bk))
      | None => bk
      end
    | SELL =>
      match map_find d_less price (ob_asks bk) with
      | Some level => set_asks (set_index bk (index_erase_level (ob_index bk) level))
                        (map_erase d_less price (ob_asks bk))
      | None => bk
      end
    end
  else bk.

End order_book.
