(* ===== verification/OrderBookInv.v ===== *)
(** * The order book: invariant and index

    [book_wf] is the invariant of [OrderBook]: levels sorted by the
    comparator and never empty, every resting order on its side and price with
    a positive open quantity, node addresses unique and below the allocator,
    [order_index_] exactly the map from the ids of the resting orders to their
    nodes, and the best bid below the best ask. *)

From S2P Require Export OrderBook.

(** ** The index *)

Definition node_entry (n : Node) : Z * nat := (o_id (n_order n), n_addr n).
Definition node_id (n : Node) : Z := o_id (n_order n).

Definition index_ok (ix : gmap Z nat) (nodes : list Node) : Prop :=
  NoDup (node_id <$> nodes) ∧ ix = list_to_map (node_entry <$> nodes).

Lemma node_entry_fst nodes : (node_entry <$> nodes).*1 = node_id <$> nodes.
Proof. by rewrite <- list_fmap_compose. Qed.

Lemma index_ok_perm ix l1 l2 : l1 ≡ₚ l2 → index_ok ix l1 → index_ok ix l2.
Proof.
  intros Hp [Hnd ->]. split; [by rewrite <- Hp|].
  apply list_to_map_proper; [by rewrite node_entry_fst|]. by rewrite Hp.
Qed.

Lemma index_ok_entries ix l1 l2 :
  node_entry <$> l1 = node_entry <$> l2 → index_ok ix l1 → index_ok ix l2.
Proof.
  intros He [Hnd ->]. split; [|by rewrite He].
  by rewrite <- node_entry_fst, <- He, node_entry_fst.
Qed.

Lemma index_ok_erase ix n l :
  index_ok ix (n :: l) → index_ok (delete (node_id n) ix) l.
Proof.
  intros [Hnd ->]. rewrite fmap_cons in Hnd. apply NoDup_cons in Hnd as [Hn Hnd].
  split; [done|]. simpl. rewrite delete_insert_id; [done|].
  apply not_elem_of_list_to_map_1. by rewrite node_entry_fst.
Qed.

Lemma index_ok_insert ix n l :
  index_ok ix l → node_id n ∉ node_id <$> l →
  index_ok (<[node_id n := n_addr n]> ix) (n :: l).
Proof.
  intros [Hnd ->] Hn. split; [|done]. rewrite fmap_cons. by apply NoDup_cons.
Qed.

Lemma index_ok_lookup ix l id a :
  index_ok ix l →
  ix !! id = Some a ↔ ∃ n, n ∈ l ∧ node_id n = id ∧ n_addr n = a.
Proof.
  intros [Hnd ->].
  rewrite <- elem_of_list_to_map by by rewrite node_entry_fst.
  rewrite list_elem_of_fmap. unfold node_entry. split.
  - intros (n & [= -> ->] & Hn). eauto.
  - intros (n & ? & <- & <-). eauto.
Qed.

Lemma index_ok_None ix l id :
  index_ok ix l → ix !! id = None ↔ id ∉ node_id <$> l.
Proof.
  intros [Hnd ->]. rewrite <- node_entry_fst. symmetry. apply not_elem_of_list_to_map.
Qed.

Lemma index_ok_size ix l : index_ok ix l → size ix = length l.
Proof.
  intros [Hnd ->]. rewrite map_size_list_to_map by by rewrite node_entry_fst.
  apply length_fmap.
Qed.

Lemma index_ok_erase_level ix level l :
  index_ok ix (level ++ l) → index_ok (index_erase_level ix level) l.
Proof.
  revert ix. induction level as [|n level IH]; intros ix H; simpl; [done|].
  apply IH. by apply (index_ok_erase _ n).
Qed.

(** ** One side of the book *)

Definition resting_ok (sd : Side) (p : double) (o : Order) : Prop :=
  o_side o = sd ∧ o_type o = LIMIT ∧ d_eq (o_price o) p = true ∧
  qty_ok o ∧ 0 < remaining o.

#[export] Instance resting_ok_dec sd p o : Decision (resting_ok sd p o).
Proof. unfold resting_ok. apply _. Defined.

Definition level_ok (sd : Side) (l : double * OrderList) : Prop :=
  l.2 ≠ [] ∧ Forall (λ n, resting_ok sd l.1 (n_order n)) l.2.

Definition side_wf (before : double → double → bool) (sd : Side) (m : LevelMap) : Prop :=
  map_sorted before m ∧ Forall (level_ok sd) m.

Lemma side_wf_cons before `{!KeyOrder before} sd p l m :
  side_wf before sd ((p, l) :: m) ↔
  is_nan p = false ∧ level_ok sd (p, l) ∧ side_wf before sd m ∧
  Forall (λ x, before p x.1 = true) m.
Proof.
  unfold side_wf. rewrite map_sorted_cons, Forall_cons by done. naive_solver.
Qed.

Lemma side_wf_app before sd m1 m2 :
  side_wf before sd (m1 ++ m2) ↔
  side_wf before sd m1 ∧ side_wf before sd m2 ∧
  (∀ x y, x ∈ m1 → y ∈ m2 → before x.1 y.1 = true).
Proof.
  unfold side_wf. rewrite map_sorted_app, Forall_app. naive_solver.
Qed.

Lemma level_nodes_app m1 m2 : level_nodes (m1 ++ m2) = level_nodes m1 ++ level_nodes m2.
Proof. unfold level_nodes. by rewrite fmap_app, concat_app. Qed.

Lemma level_nodes_cons p l m : level_nodes ((p, l) :: m) = l ++ level_nodes m.
Proof. done. Qed.

(** Every node of a well-formed side is in a level at its price. *)
Lemma side_wf_nodes before sd m n :
  side_wf before sd m → n ∈ level_nodes m →
  ∃ p l, (p, l) ∈ m ∧ n ∈ l ∧ resting_ok sd p (n_order n).
Proof.
  intros [_ Hl] Hn. unfold level_nodes in Hn.
  apply list_elem_of_In, in_concat in Hn as (l & Hl1 & Hn).
  apply list_elem_of_In in Hl1, Hn.
  apply list_elem_of_fmap in Hl1 as ([p l'] & -> & Hin). simpl in *.
  rewrite Forall_forall in Hl. destruct (Hl _ Hin) as [_ Hok]. simpl in Hok.
  rewrite Forall_forall in Hok. eauto 10.
Qed.

(** ** The invariant of the book *)

Definition uncrossed bk : Prop :=
  ∀ b a, b ∈ ob_bids bk → a ∈ ob_asks bk → d_lt b.1 a.1 = true.

Record book_wf (bk : OrderBook) : Prop := {
  wf_bids : side_wf d_greater BUY (ob_bids bk);
  wf_asks : side_wf d_less SELL (ob_asks bk);
  wf_index_ok : index_ok (ob_index bk) (book_nodes bk);
  wf_addrs : NoDup (n_addr <$> book_nodes bk);
  wf_alloc : Forall (λ n, (n_addr n < ob_next_addr bk)%nat) (book_nodes bk);
  wf_uncrossed : uncrossed bk;
}.

Lemma new_book_wf symbol : book_wf (new_book symbol).
Proof.
  split; simpl; try by repeat constructor.
  - intros b a Hb. by apply not_elem_of_nil in Hb.
Qed.

(** ** Dereferencing stored iterators *)

Lemma find_node_Some l n :
  NoDup (n_addr <$> l) → n ∈ l → find_node (n_addr n) l = Some n.
Proof.
  unfold find_node. induction l as [|m l IH]; intros Hnd Hn; [by apply not_elem_of_nil in Hn|].
  rewrite fmap_cons in Hnd. apply NoDup_cons in Hnd as [Hm Hnd]. simpl.
  apply elem_of_cons in Hn as [<-|Hn].
  - by rewrite decide_True.
  - rewrite decide_False.
    + specialize (IH Hnd Hn). by destruct (list_find _ l) as [[]|].
    + intros He. apply Hm. rewrite He. by apply list_elem_of_fmap_2.
Qed.

Lemma deref_node bk n :
  book_wf bk → n ∈ book_nodes bk → deref bk (n_addr n) = Some (n_order n).
Proof. intros [] Hn. unfold deref. by rewrite find_node_Some. Qed.

Lemma index_lookup_node bk id :
  book_wf bk →
  match ob_index bk !! id with
  | Some a => ∃ n, n ∈ book_nodes bk ∧ node_id n = id ∧ n_addr n = a
  | None => id ∉ node_id <$> book_nodes bk
  end.
Proof.
  intros []. destruct (ob_index bk !! id) eqn:E.
  - by apply (index_ok_lookup _ _ _ _ wf_index_ok0).
  - by apply (index_ok_None _ _ _ wf_index_ok0).
Qed.

Lemma list_erase_split l1 n l2 :
  n_addr n ∉ n_addr <$> l1 → list_erase (n_addr n) (l1 ++ n :: l2) = Some (l1 ++ l2).
Proof.
  induction l1 as [|m l1 IH]; simpl; intros Hn.
  - by rewrite decide_True.
  - apply not_elem_of_cons in Hn as [Hne Hn].
    rewrite decide_False by congruence. by rewrite IH.
Qed.
