(* ===== verification/OrderBookMatch.v ===== *)
(** * The order book: what the matching loops compute

    The two nested loops of [match_limit_order] are related to one pass over
    the queue of resting orders, best price first and oldest first within a
    price: [consume] computes the fills and what is left of the queue from the
    open quantity alone, and [apply_fill] is the effect of one fill on the
    book's trade buffer and index and on the incoming order. *)

From S2P Require Export OrderBookInv.

(** A fill: level price, resting order before the fill, quantity. *)
Notation Fill := (double * Order * Z)%type.

(** A side as a queue of nodes tagged with the price of their level. *)
Definition tagged (m : LevelMap) : list (double * Node) :=
  concat ((λ l : double * list Node, pair l.1 <$> l.2) <$> m).

Definition after_fill (n : Node) (m : Z) : Node :=
  MkNode (n_addr n) (set_status (fill (n_order n) m) PARTIAL).

Fixpoint consume (stops : double → bool) (q : Z) (l : list (double * Node))
    : list Fill * list (double * Node) :=
  match l with
  | [] => ([], [])
  | (p, n) :: l' =>
    if (0 <? q) && negb (stops p) then
      let m := Z.min q (remaining (n_order n)) in
      let '(fs, rest) := consume stops (q - m) l' in
      ((p, n_order n, m) :: fs,
       if is_filled (fill (n_order n) m) then rest else (p, after_fill n m) :: rest)
    else ([], l)
  end.

Definition fill_qty (f : Fill) : Z := f.2.
Definition fills_total (fs : list Fill) : Z := Zsum (fill_qty <$> fs).

Lemma fills_total_nil : fills_total [] = 0.
Proof. done. Qed.
Lemma fills_total_cons p r m fs : fills_total ((p, r, m) :: fs) = m + fills_total fs.
Proof. done. Qed.
Lemma fills_total_app f1 f2 : fills_total (f1 ++ f2) = fills_total f1 + fills_total f2.
Proof. unfold fills_total. by rewrite fmap_app, Zsum_app. Qed.

Lemma tagged_cons p l m : tagged ((p, l) :: m) = (pair p <$> l) ++ tagged m.
Proof. done. Qed.

Lemma tagged_nodes m : (tagged m).*2 = level_nodes m.
Proof.
  induction m as [|[p l] m IH]; [done|].
  rewrite tagged_cons, level_nodes_cons, fmap_app, IH. f_equal.
  rewrite <- list_fmap_compose. apply list_fmap_id.
Qed.

Lemma consume_done stops q l : q <= 0 → consume stops q l = ([], l).
Proof. intros. destruct l as [|[p n] l]; simpl; [done|]. by rewrite (proj2 (Z.ltb_ge _ _)). Qed.

(** Levels are consumed one after the other. *)
Lemma consume_level stops q p level l :
  stops p = false →
  consume stops q ((pair p <$> level) ++ l) =
  let '(f1, r1) := consume (λ _, false) q (pair p <$> level) in
  let '(f2, r2) := consume stops (q - fills_total f1) l in
  (f1 ++ f2, r1 ++ r2).
Proof.
  intros Hs. revert q. induction level as [|n level IH]; intros q; simpl.
  - rewrite fills_total_nil, Z.sub_0_r. by destruct (consume stops q l).
  - rewrite Hs. simpl. rewrite andb_true_r.
    destruct (Z.ltb_spec 0 q) as [Hq|Hq]; simpl.
    + rewrite IH. set (m := Z.min _ _).
      destruct (consume (λ _, false) (q - m) _) as [f1 r1].
      rewrite fills_total_cons, Z.sub_add_distr.
      destruct (consume stops _ l) as [f2 r2]. by destruct (is_filled _).
    + rewrite fills_total_nil, Z.sub_0_r, consume_done by done. done.
Qed.

Section effects.
Context (clock : nat → Z * Z).

Definition apply_fill (st : OrderBook * Order) (f : Fill) : OrderBook * Order :=
  let '(bk, order) := st in
  let '(p, r, m) := f in
  let resting := fill r m in
  let order := fill order m in
  let bk := if is_buy order then generate_trade clock bk order resting m p
            else generate_trade clock bk resting order m p in
  (if is_filled resting then index_erase bk (o_id resting) else bk, order).

Definition queue_ok (sd : Side) (l : list (double * Node)) : Prop :=
  Forall (λ x, resting_ok sd x.1 (n_order x.2)) l.

Lemma tagged_ok before sd m : side_wf before sd m → queue_ok sd (tagged m).
Proof.
  intros [_ H]. unfold queue_ok. induction H as [|[p l] m [_ Hl] _ IH]; [constructor|].
  rewrite tagged_cons. apply Forall_app. split; [|done]. by apply Forall_fmap.
Qed.

Lemma resting_fill sd p o q :
  resting_ok sd p o → 0 < q →
  let m := Z.min q (remaining o) in
  0 < m ∧ qty_ok (fill o m) ∧ remaining (fill o m) = remaining o - m ∧
  (is_filled (fill o m) = true ↔ m = remaining o).
Proof.
  intros (_&_&_&Hq&Hr) Hp m.
  destruct (fill_exact o m Hq) as (_&Hok&Hrem); [lia|].
  split_and!; [lia|done|done|]. rewrite is_filled_remaining, Hrem by done.
  rewrite Z.leb_le. lia.
Qed.

(** The fills use up exactly the open quantity, unless the queue ends. *)
Lemma consume_total sd stops q l fs rest :
  queue_ok sd l → consume stops q l = (fs, rest) →
  Forall (λ f, 0 < fill_qty f) fs ∧ 0 <= fills_total fs ∧ fills_total fs <= Z.max q 0 ∧
  (0 < q - fills_total fs → rest = [] ∨ ∃ p n rest', rest = (p, n) :: rest' ∧ stops p = true).
Proof.
  intros Hq. revert q fs rest. induction Hq as [|[p n] l Hn _ IH]; intros q fs rest; simpl.
  - intros [= <- <-]. rewrite fills_total_nil. split_and!; [constructor|lia|lia|auto].
  - destruct (Z.ltb_spec 0 q) as [Hpos|]; simpl.
    2:{ intros [= <- <-]. rewrite fills_total_nil. split_and!; [constructor|lia..]. }
    destruct (stops p) eqn:Hs; simpl.
    { intros [= <- <-]. rewrite fills_total_nil. split_and!; [constructor|lia|lia|]. eauto 10. }
    destruct (resting_fill _ _ _ _ Hn Hpos) as (Hm & _ & _ & Hfull). simpl in *.
    set (m := Z.min q _) in *.
    destruct (consume stops (q - m) l) as [fs' rest'] eqn:E.
    destruct (IH _ _ _ E) as (Hall & H0 & H1 & Hend). intros [= <- <-].
    rewrite fills_total_cons. split_and!; [by constructor|lia|lia|]. intros Hlt.
    destruct (is_filled (fill (n_order n) m)) eqn:Hf; [apply Hend; lia|].
    assert (m ≠ remaining (n_order n)) by (rewrite <- Hfull; congruence). lia.
Qed.

Lemma consume_queue_ok sd stops q l fs rest :
  queue_ok sd l → consume stops q l = (fs, rest) → queue_ok sd rest.
Proof.
  intros Hq. revert q fs rest. induction Hq as [|[p n] l Hn Hl IH]; intros q fs rest; simpl.
  - intros [= <- <-]. constructor.
  - destruct (Z.ltb_spec 0 q) as [Hpos|]; simpl; [|intros [= <- <-]; by constructor].
    destruct (stops p); simpl; [intros [= <- <-]; by constructor|].
    destruct (resting_fill _ _ _ _ Hn Hpos) as (Hm & Hok & Hrem & Hfull). simpl in *.
    set (m := Z.min q _) in *.
    destruct (consume stops (q - m) l) as [fs' rest'] eqn:E. intros [= <- <-].
    specialize (IH _ _ _ E).
    destruct (is_filled (fill (n_order n) m)) eqn:Hf; [done|]. constructor; [|done].
    assert (m ≠ remaining (n_order n)) by (rewrite <- Hfull; congruence).
    destruct Hn as (?&?&?&?&?). split_and!; try done.
    change (0 < remaining (fill (n_order n) m)). lia.
Qed.

(** ** The loops compute [consume] *)

Lemma match_level_consume sd bk order p level :
  Forall (λ n, resting_ok sd p (n_order n)) level → qty_ok order →
  let '(fs, rest) := consume (λ _, false) (remaining order) (pair p <$> level) in
  let '(bk', order') := foldl apply_fill (bk, order) fs in
  match_level clock bk order p level = (bk', order', rest.*2) ∧
  rest = pair p <$> rest.*2 ∧ qty_ok order' ∧
  remaining order' = remaining order - fills_total fs.
Proof.
  intros Hl. revert bk order. induction Hl as [|n level Hn Hl IH]; intros bk order Ho; simpl.
  - rewrite fills_total_nil. split_and!; [done..|lia].
  - destruct (Z.ltb_spec 0 (remaining order)) as [Hpos|Hneg]; simpl.
    2:{ rewrite fills_total_nil, <- list_fmap_compose. simpl.
        change (snd ∘ pair p) with (@id Node). rewrite list_fmap_id.
        split_and!; [done..|lia]. }
    destruct (resting_fill _ _ _ _ Hn Hpos) as (Hm & Hok & Hrem & Hfull). simpl in *.
    set (m := Z.min (remaining order) _) in *.
    destruct (fill_exact order m Ho) as (_ & Ho' & Hr'); [lia|].
    specialize (λ bk, IH bk _ Ho'). rewrite Hr' in IH.
    destruct (consume (λ _, false) (remaining order - m) _) as [fs rest] eqn:E. simpl.
    rewrite fills_total_cons.
    destruct (is_filled (fill (n_order n) m));
      match goal with
      | |- context [foldl apply_fill (?b, fill order m) fs] => specialize (IH b)
      end;
      destruct (foldl apply_fill _ fs) as [bk' order'];
      destruct IH as (IH & Hrest & Hoo & Hrr); rewrite IH;
      split_and!; try done; try lia.
    by rewrite !fmap_cons, <- Hrest.
Qed.

Lemma keys_kept (m : LevelMap) x : x ∈ m → ∃ l, (x.1, l) ∈ m.
Proof. destruct x as [p l]. by exists l. Qed.

Lemma match_levels_consume before `{!KeyOrder before} sd stops bk order m :
  side_wf before sd m → qty_ok order →
  let '(fs, rest) := consume stops (remaining order) (tagged m) in
  let '(bk', order') := foldl apply_fill (bk, order) fs in
  ∃ m', match_levels clock stops bk order m = (bk', order', m') ∧
    tagged m' = rest ∧ side_wf before sd m' ∧
    (∀ x, x ∈ m' → ∃ l, (x.1, l) ∈ m) ∧
    qty_ok order' ∧ remaining order' = remaining order - fills_total fs.
Proof.
  revert bk order. induction m as [|[p level] m IH]; intros bk order Hm Ho; simpl.
  - rewrite fills_total_nil. exists []. split_and!; try done; [apply keys_kept|lia].
  - apply side_wf_cons in Hm as (Hp & [Hne Hl] & Hm & Hall); [|done]. simpl in *.
    destruct (Z.ltb_spec 0 (remaining order)) as [Hpos|Hneg].
    2:{ rewrite consume_done by done. simpl. exists ((p, level) :: m).
        rewrite fills_total_nil. split_and!; [done..| |apply keys_kept|done|lia].
        by apply side_wf_cons; [|split_and!]. }
    destruct (stops p) eqn:Hs.
    { destruct level as [|n level]; [done|]. rewrite tagged_cons. simpl. rewrite Hs.
      rewrite andb_false_r. simpl. exists ((p, n :: level) :: m).
      rewrite fills_total_nil. split_and!; [done..| |apply keys_kept|done|lia].
      by apply side_wf_cons; [|split_and!]. }
    rewrite tagged_cons, consume_level by done.
    pose proof (match_level_consume sd bk order p level Hl Ho) as Hlev.
    pose proof (consume_queue_ok sd (λ _, false) (remaining order) (pair p <$> level)) as Hok.
    destruct (consume (λ _, false) (remaining order) (pair p <$> level)) as [f1 r1] eqn:E1.
    specialize (Hok f1 r1 ltac:(by apply Forall_fmap) eq_refl).
    destruct (foldl apply_fill (bk, order) f1) as [bk1 order1] eqn:F1.
    destruct Hlev as (Hlev & Hr1 & Ho1 & Hrem1). rewrite Hlev.
    specialize (IH bk1 order1 Hm Ho1). rewrite Hrem1 in IH.
    destruct (consume stops (remaining order - fills_total f1) (tagged m)) as [f2 r2] eqn:E2.
    rewrite foldl_app, F1.
    destruct (foldl apply_fill (bk1, order1) f2) as [bk2 order2] eqn:F2.
    destruct IH as (m' & -> & Ht & Hwf & Hsub & Ho2 & Hrem2).
    assert (remaining order2 = remaining order - fills_total (f1 ++ f2)) as Hrem.
    { rewrite Hrem2, fills_total_app. lia. }
    destruct (r1.*2) as [|n lev'] eqn:Er.
    + exists m'. rewrite Hr1. simpl. split_and!; try done.
      intros x Hx. destruct (Hsub x Hx) as [l ?]. exists l. by right.
    + exists ((p, n :: lev') :: m'). rewrite tagged_cons, Ht, <- Hr1.
      split_and!; try done.
      * apply side_wf_cons; [done|]. split_and!; [done| |done|].
        -- split; [done|]. simpl. rewrite Hr1 in Hok. by apply Forall_fmap in Hok.
        -- apply Forall_forall. intros x Hx. destruct (Hsub x Hx) as [l Hx'].
           rewrite Forall_forall in Hall. by apply (Hall (x.1, l)).
      * intros x [->|Hx]%elem_of_cons; [exists level; by left|].
        destruct (Hsub x Hx) as [l ?]. exists l. by right.
Qed.

End effects.
