(* ===== verification/OrderBookSide.v ===== *)
(** * The order book: one side under insertion, erasure and matching

    What [push_back] at a price, [erase] through an iterator and the matching
    loops do to the levels, the nodes and the index, for either side of the
    book. *)

From S2P Require Export OrderBookMatch.

Section side.
Context (before : double → double → bool) `{!KeyOrder before} (sd : Side).

(** A map whose keys all come from [m] or are the same to the map as [k]. *)
Definition keys_from (m m' : LevelMap) : Prop := ∀ x, x ∈ m' → ∃ l, (x.1, l) ∈ m.

(** ** [bids_[price].push_back(entry)] *)

Definition push_node (n : Node) (level : OrderList) : OrderList := level ++ [n].

(** The orders of the levels on either side of a price. *)
Lemma nodes_after k m :
  is_nan k = false → Forall (λ x, before k x.1 = true) m → side_wf before sd m →
  Forall (λ r, before k (o_price (n_order r)) = true) (level_nodes m).
Proof.
  intros Hk H Hw. apply Forall_forall. intros r Hr.
  destruct (side_wf_nodes _ _ _ _ Hw Hr) as (p & l & Hin & _ & (_&_&He&_)).
  rewrite Forall_forall in H. rewrite (before_eq_r k _ p) by done. by apply (H (p, l)).
Qed.

Lemma nodes_before k m :
  is_nan k = false → Forall (λ x, before x.1 k = true) m → side_wf before sd m →
  Forall (λ r, before k (o_price (n_order r)) = false) (level_nodes m).
Proof.
  intros Hk H Hw. apply Forall_forall. intros r Hr.
  destruct (side_wf_nodes _ _ _ _ Hw Hr) as (p & l & Hin & _ & (_&_&He&_)).
  rewrite Forall_forall in H. rewrite (before_eq_r k _ p) by done.
  apply before_asym; [done|]. by apply (H (p, l)).
Qed.

(** Where an order goes among the nodes of a side, and the prices there are after. *)
Definition upserted (m : list (double * list Node)) (n : Node) (m' : list (double * list Node))
    : Prop :=
  side_wf before sd m' ∧
  (∃ l1 l2, level_nodes m = l1 ++ l2 ∧ level_nodes m' = l1 ++ n :: l2 ∧
     Forall (λ r, before (o_price (n_order n)) (o_price (n_order r)) = false) l1 ∧
     Forall (λ r, before (o_price (n_order n)) (o_price (n_order r)) = true) l2) ∧
  (∀ x, x ∈ m' → d_eq x.1 (o_price (n_order n)) = true ∨ ∃ l, (x.1, l) ∈ m).

Lemma new_level_side m1 m2 n :
  let k := o_price (n_order n) in
  side_wf before sd (m1 ++ m2) → resting_ok sd k (n_order n) → is_nan k = false →
  Forall (λ x, before x.1 k = true) m1 → Forall (λ x, before k x.1 = true) m2 →
  upserted (m1 ++ m2) n (m1 ++ (k, [n]) :: m2).
Proof.
  intros k Hm Hn Hk H1 H2. apply side_wf_app in Hm as (W1 & W2 & W12).
  pose proof (nodes_before k m1 Hk H1 W1) as Hb. pose proof (nodes_after k m2 Hk H2 W2) as Ha.
  rewrite Forall_forall in H1, H2. split_and!.
  - apply side_wf_app. split_and!; [done| |].
    + apply side_wf_cons; [done|]. split_and!; [done| |done|].
      * split; [done|]. by apply Forall_singleton.
      * by apply Forall_forall.
    + intros x y Hx [->|Hy]%elem_of_cons; [by apply H1|eauto].
  - exists (level_nodes m1), (level_nodes m2). by rewrite !level_nodes_app, level_nodes_cons.
  - intros x [Hx|[->|Hx]%elem_of_cons]%elem_of_app; [right|left|right].
    + exists x.2. destruct x. apply elem_of_app. by left.
    + by apply d_eq_refl.
    + exists x.2. destruct x. apply elem_of_app. by right.
Qed.

Lemma old_level_side m1 m2 p level n :
  let k := o_price (n_order n) in
  side_wf before sd (m1 ++ (p, level) :: m2) → resting_ok sd k (n_order n) → is_nan k = false →
  Forall (λ x, before x.1 k = true) m1 → d_eq p k = true → Forall (λ x, before k x.1 = true) m2 →
  upserted (m1 ++ (p, level) :: m2) n (m1 ++ (p, push_node n level) :: m2).
Proof.
  intros k Hm Hn Hk H1 He H2. apply side_wf_app in Hm as (W1 & W2 & W12).
  apply side_wf_cons in W2 as (Hp & [Hne Hl] & W2 & Hall); [|done].
  simpl in *. unfold upserted. split_and!.
  - apply side_wf_app. split_and!; [done| |].
    + apply side_wf_cons; [done|]. split_and!; [done| |done|done].
      split; simpl; [by destruct level|]. apply Forall_app. split; [done|].
      apply Forall_singleton. destruct Hn as (?&?&_&?&?).
      split_and!; try done. by apply d_eq_sym.
    + intros x y Hx [->|Hy]%elem_of_cons.
      * apply (W12 x (p, level) Hx). by left.
      * apply W12; [done|]. by right.
  - exists (level_nodes m1 ++ level), (level_nodes m2).
    rewrite !level_nodes_app, !level_nodes_cons. unfold push_node.
    rewrite <- !app_assoc. split_and!; [done|done| |by apply nodes_after].
    apply Forall_app. split; [by apply nodes_before|].
    eapply Forall_impl; [done|]. intros r (_&_&Hr&_). simpl in Hr.
    apply before_eq_false; [done|]. eapply d_eq_trans; eauto using d_eq_sym.
  - intros x Hx. right. apply elem_of_app in Hx as [Hx|[->|Hx]%elem_of_cons].
    + exists x.2. destruct x. apply elem_of_app. by left.
    + exists level. apply elem_of_app. right. by left.
    + exists x.2. destruct x. apply elem_of_app. right. by right.
Qed.

Lemma upsert_side m n :
  side_wf before sd m → resting_ok sd (o_price (n_order n)) (n_order n) →
  upserted m n (map_upsert before [] (push_node n) (o_price (n_order n)) m).
Proof.
  set (k := o_price (n_order n)). intros Hm Hn.
  assert (is_nan k = false) as Hk.
  { destruct Hn as (_&_&He&_). by apply d_eq_spec in He as (?&_). }
  destruct (map_split before k m (proj1 Hm) Hk) as (m1 & m2 & H1 & [[-> H2]|(p & level & -> & He & H2)]).
  - destruct (map_at_absent before k m1 m2 H1 H2) as [_ ->]. by apply new_level_side.
  - destruct (map_at_present before k m1 p level m2 H1 He) as (_ & -> & _). by apply old_level_side.
Qed.

(** ** Erasing a node through its iterator *)

Lemma nodes_nodup_before m1 p l1 n l2 m2 :
  NoDup (n_addr <$> level_nodes (m1 ++ (p, l1 ++ n :: l2) :: m2)) →
  n_addr n ∉ n_addr <$> l1.
Proof.
  rewrite level_nodes_app, level_nodes_cons, !fmap_app, fmap_cons.
  intros (_ & _ & Hnd)%NoDup_app. rewrite <- app_assoc in Hnd.
  apply NoDup_app in Hnd as (_ & Hnd & _). intros Ha. apply (Hnd _ Ha). by left.
Qed.

Lemma erase_side m n :
  side_wf before sd m → NoDup (n_addr <$> level_nodes m) → n ∈ level_nodes m →
  ∃ m' l1 l2,
    erase_from_side before (o_price (n_order n)) (n_addr n) m = Some m' ∧
    side_wf before sd m' ∧
    level_nodes m = l1 ++ n :: l2 ∧ level_nodes m' = l1 ++ l2 ∧ keys_from m m'.
Proof.
  intros Hm Hnd Hn.
  destruct (side_wf_nodes _ _ _ _ Hm Hn) as (p & level & Hin & Hnl & Hok).
  apply list_elem_of_split in Hin as (m1 & m2 & ->).
  apply list_elem_of_split in Hnl as (l1 & l2 & ->).
  set (k := o_price (n_order n)).
  assert (d_eq p k = true) as He by (destruct Hok as (_&_&He&_); by apply d_eq_sym).
  pose proof Hm as (W1 & W2 & W12)%side_wf_app.
  apply side_wf_cons in W2 as (Hp & [Hne Hl] & W2 & Hall); [|done]. simpl in *.
  assert (Forall (λ x, before x.1 k = true) m1) as H1.
  { apply Forall_forall. intros x Hx. rewrite <- (before_eq_r x.1 p) by done.
    apply (W12 x (p, l1 ++ n :: l2) Hx). by left. }
  destruct (map_at_present before k m1 p (l1 ++ n :: l2) m2 H1 He) as (Hf & _ & Hs & Her).
  unfold erase_from_side. rewrite Hf. simpl.
  rewrite list_erase_split by (by apply (nodes_nodup_before m1 p l1 n l2 m2)); simpl.
  rewrite Hs, Her. destruct (l1 ++ l2) as [|n' l'] eqn:El.
  - apply app_eq_nil in El as [-> ->].
    exists (m1 ++ m2), (level_nodes m1), (level_nodes m2).
    rewrite !level_nodes_app, level_nodes_cons. split_and!; try done.
    + apply side_wf_app. split_and!; [done..|]. intros x y Hx Hy.
      apply W12; [done|]. by right.
    + intros x Hx. exists x.2. destruct x. apply elem_of_app.
      apply elem_of_app in Hx as [?|?]; [by left|]. right. by right.
  - exists (m1 ++ (p, n' :: l') :: m2), (level_nodes m1 ++ l1), (l2 ++ level_nodes m2).
    rewrite !level_nodes_app, !level_nodes_cons, <- El, <- !app_assoc.
    split_and!; try done.
    + apply side_wf_app. split_and!; [done| |].
      * apply side_wf_cons; [done|]. split_and!; [done| |done|done].
        split; simpl; [by rewrite El|]. apply Forall_app in Hl as [? Hl].
        apply Forall_app. split; [done|]. by inversion Hl.
      * intros x y Hx [->|Hy]%elem_of_cons.
        -- by apply (W12 x (p, l1 ++ n :: l2) Hx); left.
        -- apply W12; [done|]. by right.
    + intros x [Hx|[->|Hx]%elem_of_cons]%elem_of_app.
      * exists x.2. destruct x. apply elem_of_app. by left.
      * exists (l1 ++ n :: l2). apply elem_of_app. right. by left.
      * exists x.2. destruct x. apply elem_of_app. right. by right.
Qed.

(** ** Dropping a whole level *)

Lemma erase_level_side m k level :
  side_wf before sd m → is_nan k = false → map_find before k m = Some level →
  ∃ l1 l2,
    level_nodes m = l1 ++ level ++ l2 ∧
    level_nodes (map_erase before k m) = l1 ++ l2 ∧
    side_wf before sd (map_erase before k m) ∧ keys_from m (map_erase before k m) ∧
    Forall (λ n, d_eq (o_price (n_order n)) k = true) level ∧
    Forall (λ n, d_eq (o_price (n_order n)) k = false) (l1 ++ l2).
Proof.
  intros Hm Hk Hf.
  destruct (map_split before k m (proj1 Hm) Hk) as (m1 & m2 & H1 & [[-> H2]|(p&lv&->&He&H2)]).
  { destruct (map_at_absent before k m1 m2 H1 H2) as [Hn _]. congruence. }
  destruct (map_at_present before k m1 p lv m2 H1 He) as (Hf' & _ & _ & Her).
  rewrite Hf' in Hf. injection Hf as ->. rewrite Her.
  apply side_wf_app in Hm as (W1 & W2 & W12).
  apply side_wf_cons in W2 as (Hp & [Hne Hl] & W2 & Hall); [|done]. simpl in *.
  exists (level_nodes m1), (level_nodes m2).
  rewrite !level_nodes_app, level_nodes_cons. split_and!; try done.
  - apply side_wf_app. split_and!; [done..|]. intros x y Hx Hy.
    apply W12; [done|]. by right.
  - intros x Hx. exists x.2. destruct x. apply elem_of_app.
    apply elem_of_app in Hx as [?|?]; [by left|]. right. by right.
  - eapply Forall_impl; [done|]. intros r (_&_&Hr&_). eapply d_eq_trans; eauto.
  - apply Forall_app. split; apply Forall_forall; intros r Hr; apply not_true_is_false; intros Hrk.
    + destruct (side_wf_nodes _ _ _ _ W1 Hr) as (q & l & Hin & _ & (_&_&Hq&_)).
      rewrite Forall_forall in H1. specialize (H1 _ Hin). simpl in H1.
      rewrite before_eq_false in H1; [done..|]. eauto using d_eq_trans, d_eq_sym.
    + destruct (side_wf_nodes _ _ _ _ W2 Hr) as (q & l & Hin & _ & (_&_&Hq&_)).
      rewrite Forall_forall in H2. specialize (H2 _ Hin). simpl in H2.
      rewrite before_eq_false in H2; [done..|]. eauto using d_eq_trans, d_eq_sym.
Qed.
Lemma no_level_side m k :
  side_wf before sd m → is_nan k = false → map_find before k m = None →
  Forall (λ n, d_eq (o_price (n_order n)) k = false) (level_nodes m).
Proof.
  intros Hm Hk Hf.
  destruct (map_split before k m (proj1 Hm) Hk) as (m1 & m2 & H1 & [[-> H2]|(p&lv&->&He&H2)]).
  2:{ destruct (map_at_present before k m1 p lv m2 H1 He) as (Hf' & _). congruence. }
  apply Forall_forall. intros r Hr. apply not_true_is_false. intros Hrk.
  destruct (side_wf_nodes _ _ _ _ Hm Hr) as (q & l & Hin & _ & (_&_&Hq&_)).
  rewrite Forall_forall in H1, H2.
  assert (d_eq q k = true) by eauto using d_eq_trans, d_eq_sym.
  apply elem_of_app in Hin as [Hin|Hin].
  - specialize (H1 _ Hin). simpl in H1. by rewrite before_eq_false in H1.
  - specialize (H2 _ Hin). simpl in H2.
    rewrite before_eq_false in H2; [done..|]. eauto using d_eq_sym.
Qed.
End side.

(** ** Matching: what becomes of the nodes and of the index *)

Definition fill_index (ix : gmap Z nat) (f : Fill) : gmap Z nat :=
  if is_filled (fill f.1.2 f.2) then delete (o_id f.1.2) ix else ix.

Lemma consume_index stops q l fs rest ix other :
  index_ok ix (other ++ l.*2) → consume stops q l = (fs, rest) →
  index_ok (foldl fill_index ix fs) (other ++ rest.*2).
Proof.
  revert q fs rest ix other. induction l as [|[p n] l IH]; intros q fs rest ix other Hix; simpl.
  - intros [= <- <-]. done.
  - destruct ((0 <? q) && negb (stops p)); [|intros [= <- <-]; done].
    set (m := Z.min q _). destruct (consume stops (q - m) l) as [fs' rest'] eqn:E.
    intros [= <- <-]. simpl. unfold fill_index at 2. simpl.
    destruct (is_filled (fill (n_order n) m)).
    + eapply (IH _ _ _ _ other); [|done].
      apply (index_ok_erase ix n). eapply index_ok_perm; [|done]. simpl.
      by rewrite Permutation_middle.
    + simpl. assert (index_ok ix ((other ++ [after_fill n m]) ++ l.*2)) as Hix'.
      { eapply index_ok_entries; [|done]. by rewrite <- app_assoc, !fmap_app. }
      specialize (IH _ _ _ _ _ Hix' E). by rewrite <- app_assoc in IH.
Qed.

Lemma consume_addrs stops q l fs rest :
  consume stops q l = (fs, rest) →
  (n_addr <$> rest.*2) `sublist_of` (n_addr <$> l.*2).
Proof.
  revert q fs rest. induction l as [|[p n] l IH]; intros q fs rest; simpl.
  - intros [= <- <-]. done.
  - destruct ((0 <? q) && negb (stops p)); [|intros [= <- <-]; done].
    set (m := Z.min q _). destruct (consume stops (q - m) l) as [fs' rest'] eqn:E.
    intros [= <- <-]. specialize (IH _ _ _ E).
    destruct (is_filled _); [by apply sublist_cons|]. by apply sublist_skip.
Qed.

(** The same two facts for levels instead of tagged queues. *)
Lemma consume_index_nodes stops q m m' fs ix other :
  consume stops q (tagged m) = (fs, tagged m') →
  index_ok ix (other ++ level_nodes m) →
  index_ok (foldl fill_index ix fs) (other ++ level_nodes m').
Proof. rewrite <- !tagged_nodes. intros. by eapply consume_index. Qed.

Lemma consume_addrs_nodes stops q m m' fs :
  consume stops q (tagged m) = (fs, tagged m') →
  (n_addr <$> level_nodes m') `sublist_of` (n_addr <$> level_nodes m).
Proof. rewrite <- !tagged_nodes. apply consume_addrs. Qed.
