(* ===== verification/OrderBookOps.v ===== *)
(** * The order book: every operation preserves the invariant

    For each member function: what it returns and does to the levels, and
    that [book_wf] is kept.  The side of the incoming order selects one of two
    symmetric lemmas; what the two share is stated for a match result. *)

From S2P Require Export OrderBookSide.

(** The trades of a list of fills against [taker], numbered from [id] and
    stamped with the clock readings from [ck] on. *)
Fixpoint fill_trades (clock : nat → Z * Z) (sym : string) (taker : Order)
    (id : Z) (ck : nat) (fs : list Fill) : list Trade :=
  match fs with
  | [] => []
  | (p, r, m) :: fs =>
    MkTrade id
      (if is_buy taker then o_id taker else o_id r)
      (if is_buy taker then o_id r else o_id taker)
      m (timestamp_ns (clock ck)) p (strn 16 sym)
    :: fill_trades clock sym taker (i32 (id + 1)) (S ck) fs
  end.

Lemma fill_trades_taker clock sym o o' id ck fs :
  o_id o = o_id o' → is_buy o = is_buy o' →
  fill_trades clock sym o id ck fs = fill_trades clock sym o' id ck fs.
Proof.
  intros Hi Hb. revert id ck. induction fs as [|[[p r] m] fs IH]; intros id ck; simpl; [done|].
  by rewrite Hi, Hb, IH.
Qed.

Section ops.
Context (clock : nat → Z * Z).

(** Orders that may be added: quantities in range, a number for a price if the
    order can rest, a fresh id. *)
Definition add_ok bk (o : Order) : Prop :=
  qty_ok o ∧ (o_type o = LIMIT → is_nan (o_price o) = false) ∧
  ob_index bk !! o_id o = None.

(** [o'] is [o] after fills of [q] in total. *)
Definition filled_by (o o' : Order) (q : Z) : Prop :=
  o' = set_filled o (o_filled_qty o + q) ∧ qty_ok o' ∧ remaining o' = remaining o - q.

Lemma active_trades_push bk t :
  active_trades (push_trade bk t) = active_trades bk ++ [t].
Proof.
  destruct bk as [????? b ????]. by destruct b.
Qed.

(** The buffer that [active_trades_] does not point to. *)
Definition inactive_trades bk : list Trade :=
  get_buffer bk (match ob_active bk with BufA => BufB | BufB => BufA end).

(** [next_trade_id_] after [n] trades. *)
Fixpoint ids_after (id : Z) (n : nat) : Z :=
  match n with O => id | S n => ids_after (i32 (id + 1)) n end.

(** [n] trades went to the active buffer and took [n] ids. *)
Definition traded (bk bk' : OrderBook) (n : nat) : Prop :=
  ob_next_trade_id bk' = ids_after (ob_next_trade_id bk) n ∧
  inactive_trades bk' = inactive_trades bk.

Lemma traded_generate bk bk1 bk' n buy sell q p :
  ob_next_trade_id bk1 = ob_next_trade_id (generate_trade clock bk buy sell q p) →
  inactive_trades bk1 = inactive_trades (generate_trade clock bk buy sell q p) →
  traded bk1 bk' n → traded bk bk' (S n).
Proof.
  unfold traded. intros -> -> [-> ->]. split; [done|].
  destruct bk as [????? b ????]. by destruct b.
Qed.

(** The effect of a list of fills on everything but the levels. *)
Lemma apply_fills_effect bk o fs :
  qty_ok o → Forall (λ f, 0 < fill_qty f) fs → fills_total fs <= Z.max (remaining o) 0 →
  let '(bk', o') := foldl (apply_fill clock) (bk, o) fs in
  filled_by o o' (fills_total fs) ∧
  ob_bids bk' = ob_bids bk ∧ ob_asks bk' = ob_asks bk ∧
  ob_next_addr bk' = ob_next_addr bk ∧
  ob_index bk' = foldl fill_index (ob_index bk) fs ∧
  active_trades bk' = active_trades bk ++
    fill_trades clock (ob_symbol bk) o (ob_next_trade_id bk) (ob_clock bk) fs ∧
  traded bk bk' (length fs).
Proof.
  revert bk o. induction fs as [|[[p r] m] fs IH]; intros bk o Ho Hpos Htot; simpl.
  - rewrite fills_total_nil, app_nil_r. split_and!; try done. split_and!; [|done|lia].
    destruct o. unfold set_filled. simpl. by rewrite Z.add_0_r.
  - rewrite fills_total_cons in Htot |- *.
    apply Forall_cons in Hpos as [Hm Hpos]. unfold fill_qty in Hm. simpl in Hm.
    assert (0 <= fills_total fs) as Hnn.
    { apply Zsum_nonneg, Forall_fmap. eapply Forall_impl; [done|]. simpl. lia. }
    destruct (fill_exact o m Ho) as (He & Ho1 & Hr1); [lia|].
    match goal with |- context [foldl _ (?b, fill o m) fs] =>
      specialize (IH b (fill o m) Ho1 Hpos ltac:(lia)) end.
    destruct (foldl (apply_fill clock) _ fs) as [bk' o'].
    destruct IH as ((Hf & Hq & Hrem) & Hb & Ha & Hn & Hix & Ht & Htr).
    assert (is_buy (fill o m) = is_buy o) as Hbuy by done. rewrite Hbuy in *.
    split_and!.
    + split_and!; [|done|lia]. rewrite Hf, He. unfold set_filled. simpl. f_equal. lia.
    + rewrite Hb. by destruct (is_filled _), (is_buy o).
    + rewrite Ha. by destruct (is_filled _), (is_buy o).
    + rewrite Hn. by destruct (is_filled _), (is_buy o).
    + rewrite Hix. unfold fill_index at 3. simpl.
      by destruct (is_filled _), (is_buy o).
    + rewrite Ht, (fill_trades_taker _ _ (fill o m) o) by done.
      assert (∀ b id, active_trades (index_erase b id) = active_trades b) as Hie by done.
      destruct (is_filled _), (is_buy o); rewrite ?Hie; unfold generate_trade;
        rewrite active_trades_push, <- app_assoc; done.
    + destruct (is_filled _), (is_buy o); eapply traded_generate; try exact Htr; done.
Qed.

(** The status that [match_limit_order] gives the incoming order. *)
Definition final_status (o : Order) : Order :=
  if is_filled o then set_status o FILLED
  else if 0 <? o_filled_qty o then set_status o PARTIAL else o.

(** [match_result stops opp opp' bk o bk' o']: matching [o] of book [bk]
    against the opposite side [opp] left [opp'], and [bk'] is the book up to
    that side. *)
Record match_result (sd : Side) (stops : double → bool) (opp opp' : LevelMap)
    (bk : OrderBook) (o : Order) (bk' : OrderBook) (o' : Order) (fs : list Fill) : Prop := {
  mr_consume : consume stops (remaining o) (tagged opp) = (fs, tagged opp');
  mr_filled : filled_by o o' (fills_total fs);
  mr_positive : Forall (λ f, 0 < fill_qty f) fs;
  mr_total : 0 <= fills_total fs <= Z.max (remaining o) 0;
  mr_keys : keys_from opp opp';
  mr_bids : ob_bids bk' = ob_bids bk;
  mr_asks : ob_asks bk' = ob_asks bk;
  mr_index : ob_index bk' = foldl fill_index (ob_index bk) fs;
  mr_alloc : ob_next_addr bk' = ob_next_addr bk;
  mr_trades : active_trades bk' = active_trades bk ++
    fill_trades clock (ob_symbol bk) o (ob_next_trade_id bk) (ob_clock bk) fs;
  mr_traded : traded bk bk' (length fs);
  mr_stopped : 0 < remaining o' → tagged opp' = [] ∨
    ∃ p n l, tagged opp' = (p, n) :: l ∧ stops p = true;
}.

Lemma match_levels_result before `{!KeyOrder before} sd stops bk o opp :
  side_wf before sd opp → qty_ok o →
  ∃ bk' o' opp' fs,
    match_levels clock stops bk o opp = (bk', o', opp') ∧
    side_wf before sd opp' ∧ match_result sd stops opp opp' bk o bk' o' fs.
Proof.
  intros Hm Ho.
  pose proof (match_levels_consume clock before sd stops bk o opp Hm Ho) as H.
  destruct (consume stops (remaining o) (tagged opp)) as [fs rest] eqn:E.
  destruct (consume_total sd stops _ _ _ _ (tagged_ok _ _ _ Hm) E) as (Hpos & H0 & H1 & Hend).
  pose proof (apply_fills_effect bk o fs Ho Hpos H1) as Heff.
  destruct (foldl (apply_fill clock) (bk, o) fs) as [bk' o'] eqn:F.
  destruct H as (opp' & Hml & Ht & Hwf & Hkeys & Hq & Hrem).
  destruct Heff as (Hf & Hb & Ha & Hn & Hix & Htr & Htd).
  exists bk', o', opp', fs. split_and!; [done..|]. subst rest. split; try done; try lia.
  rewrite Hrem. done.
Qed.

(** ** Matching *)

Lemma sublist_Forall_addr (P : nat → Prop) (l k : list Node) :
  (n_addr <$> l) `sublist_of` (n_addr <$> k) →
  Forall (λ n, P (n_addr n)) k → Forall (λ n, P (n_addr n)) l.
Proof.
  intros Hs Hk. apply (Forall_fmap n_addr P). apply (Forall_fmap n_addr P) in Hk.
  by eapply sublist_Forall.
Qed.

Lemma match_buy bk o :
  book_wf bk → qty_ok o → is_buy o = true →
  ∃ bk' o' asks' fs,
    match_limit_order clock bk o = (set_asks bk' asks', final_status o') ∧
    match_result SELL (ask_stops o) (ob_asks bk) asks' bk o bk' o' fs ∧
    book_wf (set_asks bk' asks').
Proof.
  intros Hwf Ho Hbuy. pose proof Hwf as [].
  destruct (match_levels_result d_less SELL (ask_stops o) bk o (ob_asks bk)
    wf_asks Ho) as (bk' & o' & asks' & fs & Hml & Hside & Hres).
  exists bk', o', asks', fs. unfold match_limit_order. rewrite Hbuy, Hml.
  split_and!; [done|done|]. pose proof Hres as [].
  pose proof (consume_addrs_nodes _ _ _ _ _ mr_consume0) as Hsub.
  assert ((n_addr <$> book_nodes (set_asks bk' asks')) `sublist_of`
          (n_addr <$> book_nodes bk)) as Hsub'.
  { unfold book_nodes. simpl. rewrite mr_bids0, !fmap_app.
    by apply sublist_app. }
  split; simpl.
  - by rewrite mr_bids0.
  - done.
  - unfold book_nodes. simpl. rewrite mr_bids0, mr_index0.
    by eapply consume_index_nodes.
  - by eapply sublist_NoDup.
  - rewrite mr_alloc0. by eapply (sublist_Forall_addr (λ a, a < _)%nat).
  - intros b a Hb Ha. simpl in *. rewrite mr_bids0 in Hb.
    destruct (mr_keys0 a Ha) as [l Hl]. by apply (wf_uncrossed b (a.1, l)).
Qed.

Lemma match_sell bk o :
  book_wf bk → qty_ok o → is_buy o = false →
  ∃ bk' o' bids' fs,
    match_limit_order clock bk o = (set_bids bk' bids', final_status o') ∧
    match_result BUY (bid_stops o) (ob_bids bk) bids' bk o bk' o' fs ∧
    book_wf (set_bids bk' bids').
Proof.
  intros Hwf Ho Hbuy. pose proof Hwf as [].
  destruct (match_levels_result d_greater BUY (bid_stops o) bk o (ob_bids bk)
    wf_bids Ho) as (bk' & o' & bids' & fs & Hml & Hside & Hres).
  exists bk', o', bids', fs. unfold match_limit_order. rewrite Hbuy, Hml.
  split_and!; [done|done|]. pose proof Hres as [].
  pose proof (consume_addrs_nodes _ _ _ _ _ mr_consume0) as Hsub.
  assert ((n_addr <$> book_nodes (set_bids bk' bids')) `sublist_of`
          (n_addr <$> book_nodes bk)) as Hsub'.
  { unfold book_nodes. simpl. rewrite mr_asks0, !fmap_app.
    by apply sublist_app. }
  split; simpl.
  - done.
  - by rewrite mr_asks0.
  - unfold book_nodes. simpl. rewrite mr_asks0, mr_index0.
    eapply index_ok_perm; [apply Permutation_app_comm|].
    eapply consume_index_nodes; [done|].
    eapply index_ok_perm; [apply Permutation_app_comm|done].
  - by eapply sublist_NoDup.
  - rewrite mr_alloc0. by eapply (sublist_Forall_addr (λ a, a < _)%nat).
  - intros b a Hb Ha. simpl in *. rewrite mr_asks0 in Ha.
    destruct (mr_keys0 b Hb) as [l Hl]. by apply (wf_uncrossed (b.1, l) a).
Qed.

(** Ids still in the book after matching were there before. *)
Lemma match_fresh sd stops opp opp' bk o bk' o' fs id :
  match_result sd stops opp opp' bk o bk' o' fs →
  ob_index bk !! id = None → ob_index bk' !! id = None.
Proof.
  intros [] Hid. rewrite mr_index0. clear -Hid. revert Hid.
  generalize (ob_index bk). induction fs as [|f fs IH]; intros ix Hid; [done|].
  simpl. apply IH. unfold fill_index. destruct (is_filled _); [|done].
  apply lookup_delete_None. by right.
Qed.

(** ** Resting an order *)

(** Adding a node with a fresh id and a fresh address, wherever it goes. *)
Lemma insert_node_wf bk n nodes :
  book_wf bk → n_addr n = ob_next_addr bk → ob_index bk !! node_id n = None →
  nodes ≡ₚ n :: book_nodes bk →
  index_ok (<[node_id n := n_addr n]> (ob_index bk)) nodes ∧
  NoDup (n_addr <$> nodes) ∧
  Forall (λ m, (n_addr m < S (ob_next_addr bk))%nat) nodes.
Proof.
  intros [_ _ Hix Hnd Hal _] Ha Hid Hp. split_and!.
  - eapply index_ok_perm; [by symmetry|]. apply index_ok_insert; [done|].
    by apply (index_ok_None _ _ _ Hix).
  - rewrite Hp, fmap_cons. apply NoDup_cons. split; [|done].
    rewrite Ha. intros (m & He & Hm)%list_elem_of_fmap.
    rewrite Forall_forall in Hal. specialize (Hal _ Hm). lia.
  - rewrite Hp. apply Forall_cons. split; [lia|].
    eapply Forall_impl; [done|]. simpl. lia.
Qed.

Lemma rest_buy_wf bk e :
  book_wf bk → resting_ok BUY (o_price e) e → ob_index bk !! o_id e = None →
  (∀ a, a ∈ ob_asks bk → d_lt (o_price e) a.1 = true) →
  book_wf (rest_order bk e).
Proof.
  intros Hwf He Hid Hx. pose proof Hwf as [Wb Wa Wi Wn Wal Wu].
  unfold rest_order.
  assert (is_buy e = true) as -> by (apply bool_decide_eq_true; apply He).
  set (n := MkNode (ob_next_addr bk) e).
  destruct (upsert_side d_greater BUY (ob_bids bk) n Wb He)
    as (W' & (l1 & l2 & E1 & E2 & _) & Hk). simpl in *.
  change (λ level, level ++ [n]) with (push_node n).
  set (bids' := map_upsert _ _ _ _ _) in *.
  destruct (insert_node_wf bk n (level_nodes bids' ++ level_nodes (ob_asks bk)))
    as (Hix & Hnd & Hal); [done..| |].
  { unfold book_nodes. rewrite E1, E2, <- !app_assoc. simpl.
    by rewrite <- Permutation_middle. }
  split; simpl; try done.
  intros b a Hb Ha. simpl in *. destruct (Hk b Hb) as [Heq|[l Hl]].
  - rewrite (d_lt_eq_l _ _ _ Heq). by apply Hx.
  - by apply (Wu (b.1, l)).
Qed.

Lemma rest_sell_wf bk e :
  book_wf bk → resting_ok SELL (o_price e) e → ob_index bk !! o_id e = None →
  (∀ b, b ∈ ob_bids bk → d_lt b.1 (o_price e) = true) →
  book_wf (rest_order bk e).
Proof.
  intros Hwf He Hid Hx. pose proof Hwf as [Wb Wa Wi Wn Wal Wu].
  unfold rest_order.
  assert (is_buy e = false) as ->.
  { apply bool_decide_eq_false. destruct He as [-> _]. done. }
  set (n := MkNode (ob_next_addr bk) e).
  destruct (upsert_side d_less SELL (ob_asks bk) n Wa He)
    as (W' & (l1 & l2 & E1 & E2 & _) & Hk). simpl in *.
  change (λ level, level ++ [n]) with (push_node n).
  set (asks' := map_upsert _ _ _ _ _) in *.
  destruct (insert_node_wf bk n (level_nodes (ob_bids bk) ++ level_nodes asks'))
    as (Hix & Hnd & Hal); [done..| |].
  { unfold book_nodes. rewrite E1, E2, app_assoc, <- Permutation_middle.
    by rewrite <- app_assoc. }
  split; simpl; try done.
  intros b a Hb Ha. simpl in *. destruct (Hk a Ha) as [Heq|[l Hl]].
  - rewrite (d_lt_eq_r _ _ _ Heq). by apply Hx.
  - by apply (Wu b (a.1, l)).
Qed.

(** ** Adding an order *)

(** The order as it goes into the book after matching. *)
Definition rested (o : Order) : Order :=
  set_status o (if 0 <? o_filled_qty o then PARTIAL else NEW).

Lemma final_status_filled o : is_filled (final_status o) = is_filled o.
Proof. unfold final_status. by repeat case_match. Qed.
Lemma final_status_limit o : is_limit (final_status o) = is_limit o.
Proof. unfold final_status. by repeat case_match. Qed.

(** [add_order] after the matching step. *)
Lemma add_order_after bk o bk' o' :
  match_limit_order clock bk o = (bk', final_status o') →
  o_status o' = o_status o →
  add_order clock bk o =
  if negb (is_filled o') && is_limit o' then (rest_order bk' (rested o'), final_status o')
  else (bk', final_status o').
Proof.
  intros Hm Hst. unfold add_order. rewrite Hm.
  rewrite final_status_filled, final_status_limit.
  destruct (is_filled o') eqn:Hf; [done|]. simpl. destruct (is_limit o'); [|done].
  unfold final_status, rested. rewrite Hf.
  by destruct (0 <? o_filled_qty o') eqn:E; simpl; rewrite E.
Qed.

(** If the queue was left because of its price, every level left is worse. *)
Lemma stopped_levels before `{!KeyOrder before} sd stops m :
  side_wf before sd m →
  (∀ x y, before x y = true → stops x = true → stops y = true) →
  (tagged m = [] ∨ ∃ p n l, tagged m = (p, n) :: l ∧ stops p = true) →
  ∀ x, x ∈ m → stops x.1 = true.
Proof.
  intros Hm Hmono Ht x Hx. destruct m as [|[p level] m]; [by apply not_elem_of_nil in Hx|].
  apply side_wf_cons in Hm as (Hp & [Hne Hl] & Hm & Hall); [|done]. simpl in *.
  destruct level as [|n level]; [done|]. rewrite tagged_cons in Ht. simpl in Ht.
  destruct Ht as [?|(p' & n' & l & [= -> -> _] & Hs)]; [done|].
  apply elem_of_cons in Hx as [->|Hx]; [done|].
  rewrite Forall_forall in Hall. eauto.
Qed.

Lemma ask_stops_mono o x y :
  d_less x y = true → ask_stops o x = true → ask_stops o y = true.
Proof.
  unfold ask_stops, d_less. intros Hxy [-> H]%andb_true_iff. simpl.
  eauto using d_lt_trans.
Qed.
Lemma bid_stops_mono o x y :
  d_greater x y = true → bid_stops o x = true → bid_stops o y = true.
Proof.
  unfold bid_stops, d_greater. intros Hxy [-> H]%andb_true_iff. simpl.
  eauto using d_lt_trans.
Qed.

Lemma rested_ok o o' q :
  filled_by o o' q → 0 < remaining o' → o_type o = LIMIT → is_nan (o_price o) = false →
  resting_ok (o_side o) (o_price (rested o')) (rested o').
Proof.
  intros (-> & Hq & _) Hr Ht Hn. split_and!; try done. by apply d_eq_refl.
Qed.

Lemma add_order_wf_lemma bk o :
  book_wf bk → add_ok bk o → book_wf (add_order clock bk o).1.
Proof.
  intros Hwf (Hq & Hnan & Hid).
  destruct (is_buy o) eqn:Hb.
  - destruct (match_buy bk o Hwf Hq Hb) as (bk' & o' & asks' & fs & Hm & Hr & Hw).
    pose proof Hr as []. destruct mr_filled0 as (Ho' & Hq' & Hrem).
    rewrite (add_order_after _ _ _ _ Hm) by by subst o'.
    destruct (negb (is_filled o') && is_limit o') eqn:Hrest; [|done].
    apply andb_true_iff in Hrest as [Hf Hl]. apply negb_true_iff in Hf.
    rewrite is_filled_remaining in Hf by done. zbool.
    assert (o_type o = LIMIT) as Hlim by (subst o'; by apply bool_decide_eq_true in Hl).
    assert (o_side o = BUY) as Hsd by by apply bool_decide_eq_true in Hb.
    simpl. apply rest_buy_wf; [done| | |].
    + rewrite <- Hsd. eapply rested_ok; [by split|done..|auto].
    + simpl. assert (o_id o' = o_id o) as -> by by subst o'.
      by eapply match_fresh.
    + simpl. intros a Ha.
      assert (ask_stops o a.1 = true) as Hs.
      { eapply (stopped_levels d_less SELL _ asks'); eauto using ask_stops_mono.
        apply (wf_asks _ Hw). }
      unfold ask_stops in Hs. apply andb_true_iff in Hs as [_ Hs]. by subst o'.
  - destruct (match_sell bk o Hwf Hq Hb) as (bk' & o' & bids' & fs & Hm & Hr & Hw).
    pose proof Hr as []. destruct mr_filled0 as (Ho' & Hq' & Hrem).
    rewrite (add_order_after _ _ _ _ Hm) by by subst o'.
    destruct (negb (is_filled o') && is_limit o') eqn:Hrest; [|done].
    apply andb_true_iff in Hrest as [Hf Hl]. apply negb_true_iff in Hf.
    rewrite is_filled_remaining in Hf by done. zbool.
    assert (o_type o = LIMIT) as Hlim by (subst o'; by apply bool_decide_eq_true in Hl).
    assert (o_side o = SELL) as Hsd.
    { apply bool_decide_eq_false in Hb. by destruct (o_side o). }
    simpl. apply rest_sell_wf; [done| | |].
    + rewrite <- Hsd. eapply rested_ok; [by split|done..|auto].
    + simpl. assert (o_id o' = o_id o) as -> by by subst o'.
      by eapply match_fresh.
    + simpl. intros b Hbb.
      assert (bid_stops o b.1 = true) as Hs.
      { eapply (stopped_levels d_greater BUY _ bids'); eauto using bid_stops_mono.
        apply (wf_bids _ Hw). }
      unfold bid_stops in Hs. apply andb_true_iff in Hs as [_ Hs]. by subst o'.
Qed.

Lemma add_market_order_wf_lemma bk o :
  book_wf bk → qty_ok o → book_wf (add_market_order clock bk o).1.
Proof.
  intros Hwf Hq. unfold add_market_order, match_market_order.
  set (o1 := set_price _ _). assert (qty_ok o1) as Hq1 by done.
  destruct (is_buy o1) eqn:Hb.
  - by destruct (match_buy bk o1 Hwf Hq1 Hb) as (bk' & o' & asks' & fs & -> & _ & Hw).
  - by destruct (match_sell bk o1 Hwf Hq1 Hb) as (bk' & o' & bids' & fs & -> & _ & Hw).
Qed.

(** ** Cancelling *)

(** Removing one node, wherever it was, with its index entry. *)
Lemma remove_node_wf bk n nodes :
  book_wf bk → book_nodes bk ≡ₚ n :: nodes →
  index_ok (delete (node_id n) (ob_index bk)) nodes ∧
  NoDup (n_addr <$> nodes) ∧
  Forall (λ m, (n_addr m < ob_next_addr bk)%nat) nodes.
Proof.
  intros [_ _ Hix Hnd Hal _] Hp. split_and!.
  - apply index_ok_erase. by eapply index_ok_perm.
  - rewrite Hp, fmap_cons in Hnd. by apply NoDup_cons in Hnd as [_ ?].
  - rewrite Hp in Hal. by apply Forall_cons in Hal as [_ ?].
Qed.

Lemma node_side bk n :
  book_wf bk → n ∈ book_nodes bk →
  (is_buy (n_order n) = true ∧ n ∈ level_nodes (ob_bids bk)) ∨
  (is_buy (n_order n) = false ∧ n ∈ level_nodes (ob_asks bk)).
Proof.
  intros [Wb Wa _ _ _ _] [Hn|Hn]%elem_of_app; [left|right]; (split; [|done]).
  - destruct (side_wf_nodes _ _ _ _ Wb Hn) as (p & l & _ & _ & (Hs & _)).
    by apply bool_decide_eq_true.
  - destruct (side_wf_nodes _ _ _ _ Wa Hn) as (p & l & _ & _ & (Hs & _)).
    apply bool_decide_eq_false. by rewrite Hs.
Qed.

(** Cancelling the order of a node removes that node and nothing else. *)
Lemma cancel_order_node bk n :
  book_wf bk → n ∈ book_nodes bk →
  ∃ bk' l1 l2,
    cancel_order bk (node_id n) = Some (bk', true) ∧ book_wf bk' ∧
    book_nodes bk = l1 ++ n :: l2 ∧ book_nodes bk' = l1 ++ l2 ∧
    ob_index bk' = delete (node_id n) (ob_index bk) ∧
    active_trades bk' = active_trades bk.
Proof.
  intros Hwf Hn. pose proof Hwf as [Wb Wa Wi Wn Wal Wu].
  assert (ob_index bk !! node_id n = Some (n_addr n)) as Hix
    by (apply (index_ok_lookup _ _ _ _ Wi); eauto).
  unfold cancel_order. rewrite Hix, deref_node by done. simpl.
  unfold book_nodes in Wn. rewrite fmap_app in Wn. apply NoDup_app in Wn as (Nb & _ & Na).
  destruct (node_side bk n Hwf Hn) as [[-> Hin]|[-> Hin]].
  - destruct (erase_side d_greater BUY (ob_bids bk) n Wb Nb Hin)
      as (m' & l1 & l2 & -> & W' & E & E' & Hk). simpl.
    assert (book_nodes bk ≡ₚ n :: level_nodes m' ++ level_nodes (ob_asks bk)) as Hp.
    { unfold book_nodes. rewrite E, E', <- !app_assoc. simpl.
      by rewrite <- Permutation_middle. }
    destruct (remove_node_wf bk n _ Hwf Hp) as (Hix' & Hnd & Hal).
    eexists _, l1, (l2 ++ level_nodes (ob_asks bk)). split; [done|]. split_and!.
    + split; try done. intros b a Hb Ha. simpl in *. destruct (Hk b Hb) as [l Hl].
      by apply (Wu (b.1, l)).
    + unfold book_nodes. rewrite E, <- app_assoc. done.
    + unfold book_nodes. simpl. rewrite E', <- app_assoc. done.
    + done.
    + done.
  - destruct (erase_side d_less SELL (ob_asks bk) n Wa Na Hin)
      as (m' & l1 & l2 & -> & W' & E & E' & Hk). simpl.
    assert (book_nodes bk ≡ₚ n :: level_nodes (ob_bids bk) ++ level_nodes m') as Hp.
    { unfold book_nodes. rewrite E, E', app_assoc, <- Permutation_middle.
      by rewrite <- app_assoc. }
    destruct (remove_node_wf bk n _ Hwf Hp) as (Hix' & Hnd & Hal).
    eexists _, (level_nodes (ob_bids bk) ++ l1), l2. split; [done|]. split_and!.
    + split; try done. intros b a Hb Ha. simpl in *. destruct (Hk a Ha) as [l Hl].
      by apply (Wu b (a.1, l)).
    + unfold book_nodes. rewrite E, <- app_assoc. done.
    + unfold book_nodes. simpl. rewrite E', <- app_assoc. done.
    + done.
    + done.
Qed.

Lemma cancel_order_absent bk id :
  book_wf bk → id ∉ node_id <$> book_nodes bk → cancel_order bk id = Some (bk, false).
Proof.
  intros [_ _ Wi _ _ _] Hid. unfold cancel_order.
  by rewrite (proj2 (index_ok_None _ _ _ Wi) Hid).
Qed.

(** ** Modifying *)

Definition modified_order (o : Order) (new_price : double) (new_qty : Z) : Order :=
  set_status (set_filled (set_quantity (set_price o new_price) new_qty) 0) NEW.

Lemma modify_order_node bk n new_price new_qty :
  book_wf bk → n ∈ book_nodes bk → is_nan new_price = false → is_i32 new_qty →
  ∃ bk1 l1 l2,
    modify_order clock bk (node_id n) new_price new_qty =
      Some (add_order clock bk1 (modified_order (n_order n) new_price new_qty)) ∧
    book_nodes bk = l1 ++ n :: l2 ∧ book_nodes bk1 = l1 ++ l2 ∧
    book_wf bk1 ∧ add_ok bk1 (modified_order (n_order n) new_price new_qty).
Proof.
  intros Hwf Hn Hp Hq. pose proof Hwf as [Wb Wa Wi Wn Wal Wu].
  assert (ob_index bk !! node_id n = Some (n_addr n)) as Hix
    by (apply (index_ok_lookup _ _ _ _ Wi); eauto).
  destruct (cancel_order_node bk n Hwf Hn) as (bk1 & l1 & l2 & Hc & Hw & E & E1 & Hi & _).
  exists bk1, l1, l2. unfold modify_order. rewrite Hix, deref_node by done. simpl.
  rewrite Hc. simpl. split_and!; try done.
  split_and!; simpl; [|done|].
  - unfold qty_ok. simpl. unfold is_i32 in *. lia.
  - rewrite Hi. apply lookup_delete_eq.
Qed.

Lemma modify_order_absent bk id new_price new_qty :
  book_wf bk → id ∉ node_id <$> book_nodes bk →
  modify_order clock bk id new_price new_qty = Some (bk, set_status default_order REJECTED).
Proof.
  intros [_ _ Wi _ _ _] Hid. unfold modify_order.
  by rewrite (proj2 (index_ok_None _ _ _ Wi) Hid).
Qed.

(** ** Market-data updates *)

Definition off_level (sd : Side) (price : double) (n : Node) : Prop :=
  ¬ (o_side (n_order n) = sd ∧ d_eq (o_price (n_order n)) price = true).

#[export] Instance off_level_dec sd price n : Decision (off_level sd price n).
Proof. unfold off_level. apply _. Defined.

Lemma off_level_side before sd sd' m price :
  side_wf before sd' m → sd ≠ sd' → filter (off_level sd price) (level_nodes m) = level_nodes m.
Proof.
  intros Hm Hne. apply filter_true, Forall_forall. intros r Hr [Hs _].
  destruct (side_wf_nodes _ _ _ _ Hm Hr) as (p & l & _ & _ & (Hs' & _)). congruence.
Qed.

Lemma off_level_other sd price l :
  Forall (λ n, d_eq (o_price (n_order n)) price = false) l → filter (off_level sd price) l = l.
Proof.
  intros H. apply filter_true. eapply Forall_impl; [done|]. intros n Hn [_ Hp].
  simpl in Hn. congruence.
Qed.

Lemma off_level_same before sd m price level :
  side_wf before sd m → (∀ n, n ∈ level → n ∈ level_nodes m) →
  Forall (λ n, d_eq (o_price (n_order n)) price = true) level →
  filter (off_level sd price) level = [].
Proof.
  intros Hm Hin Hp. apply filter_false, Forall_forall. intros r Hr Hoff.
  rewrite Forall_forall in Hp. apply Hoff. split; [|by apply Hp].
  by destruct (side_wf_nodes _ _ _ _ Hm (Hin r Hr)) as (p & l & _ & _ & (Hs' & _)).
Qed.

(** Erasing a block of nodes with their index entries. *)
Lemma remove_level_wf bk level nodes :
  book_wf bk → book_nodes bk ≡ₚ level ++ nodes →
  index_ok (index_erase_level (ob_index bk) level) nodes ∧
  NoDup (n_addr <$> nodes) ∧
  Forall (λ m, (n_addr m < ob_next_addr bk)%nat) nodes.
Proof.
  intros [_ _ Hix Hnd Hal _] Hp. split_and!.
  - apply index_ok_erase_level. by eapply index_ok_perm.
  - rewrite Hp, fmap_app in Hnd. by apply NoDup_app in Hnd as (_ & _ & ?).
  - rewrite Hp in Hal. by apply Forall_app in Hal as [_ ?].
Qed.

Lemma update_level_buy bk price :
  book_wf bk → is_nan price = false →
  book_wf (update_level bk BUY price 0) ∧
  book_nodes (update_level bk BUY price 0) = filter (off_level BUY price) (book_nodes bk).
Proof.
  intros Hwf Hp. pose proof Hwf as [Wb Wa Wi Wn Wal Wu].
  unfold update_level. simpl. unfold book_nodes at 2. rewrite filter_app.
  rewrite (off_level_side d_less BUY SELL (ob_asks bk) price) by done.
  destruct (map_find d_greater price (ob_bids bk)) as [level|] eqn:Hf.
  - destruct (erase_level_side d_greater BUY _ price level Wb Hp Hf)
      as (l1 & l2 & E & E' & W' & Hk & Hin & Hout).
    destruct (remove_level_wf bk level (level_nodes (map_erase d_greater price (ob_bids bk))
      ++ level_nodes (ob_asks bk)) Hwf) as (Hix & Hnd & Hal).
    { unfold book_nodes. rewrite E, E', !app_assoc.
      by rewrite (Permutation_app_comm l1 level). }
    split.
    + split; try done. intros b a Hb Ha. simpl in *. destruct (Hk b Hb) as [l Hl].
      by apply (Wu (b.1, l)).
    + unfold book_nodes. simpl. f_equal. rewrite E, E', !filter_app.
      apply Forall_app in Hout as [Ho1 Ho2].
      rewrite (off_level_same d_greater BUY (ob_bids bk) price level), !off_level_other;
        [done..| |done].
      intros n Hn. rewrite E. set_solver.
  - split; [done|]. unfold book_nodes. f_equal. symmetry. apply off_level_other.
    by apply (no_level_side d_greater BUY).
Qed.

Lemma update_level_sell bk price :
  book_wf bk → is_nan price = false →
  book_wf (update_level bk SELL price 0) ∧
  book_nodes (update_level bk SELL price 0) = filter (off_level SELL price) (book_nodes bk).
Proof.
  intros Hwf Hp. pose proof Hwf as [Wb Wa Wi Wn Wal Wu].
  unfold update_level. simpl. unfold book_nodes at 2. rewrite filter_app.
  rewrite (off_level_side d_greater SELL BUY (ob_bids bk) price) by done.
  destruct (map_find d_less price (ob_asks bk)) as [level|] eqn:Hf.
  - destruct (erase_level_side d_less SELL _ price level Wa Hp Hf)
      as (l1 & l2 & E & E' & W' & Hk & Hin & Hout).
    destruct (remove_level_wf bk level (level_nodes (ob_bids bk) ++
      level_nodes (map_erase d_less price (ob_asks bk))) Hwf) as (Hix & Hnd & Hal).
    { unfold book_nodes. rewrite E, E'. rewrite (Permutation_app_comm l1 (level ++ l2)).
      rewrite <- app_assoc, Permutation_app_swap_app. do 2 f_equiv.
      apply Permutation_app_comm. }
    split.
    + split; try done. intros b a Hb Ha. simpl in *. destruct (Hk a Ha) as [l Hl].
      by apply (Wu b (a.1, l)).
    + unfold book_nodes. simpl. f_equal. rewrite E, E', !filter_app.
      apply Forall_app in Hout as [Ho1 Ho2].
      rewrite (off_level_same d_less SELL (ob_asks bk) price level), !off_level_other;
        [done..| |done].
      intros n Hn. rewrite E. set_solver.
  - split; [done|]. unfold book_nodes. f_equal. symmetry. apply off_level_other.
    by apply (no_level_side d_less SELL).
Qed.

Lemma update_level_nodes bk sd price size :
  book_wf bk → is_nan price = false →
  book_wf (update_level bk sd price size) ∧
  book_nodes (update_level bk sd price size) =
    if size =? 0 then filter (off_level sd price) (book_nodes bk) else book_nodes bk.
Proof.
  intros Hwf Hp. destruct (Z.eqb_spec size 0) as [->|Hne].
  - destruct sd; [by apply update_level_buy|by apply update_level_sell].
  - unfold update_level. by rewrite (proj2 (Z.eqb_neq _ _) Hne).
Qed.

End ops.
