(* ===== verification/OrderBookSpec.v ===== *)
(** * The order book: price-time priority, abstractly

    The promise of [OrderBook] without levels, iterators, an index or
    addresses: each side is one queue of orders, best price first and first
    come first served within a price.  An incoming order takes from the front
    of the opposite queue while the front is acceptable to it, and what is
    left of a limit order is inserted behind every order of its side that is
    not strictly worse.  [abs] reads such a pair of queues off a book. *)

From S2P Require Export OrderBookOps.

Record pt_book := PtBook { pt_bids : list Order; pt_asks : list Order }.

(** The open quantity, without a bound on the width. *)
Definition open (o : Order) : Z := o_quantity o - o_filled_qty o.

(** May [taker] trade with the resting order [r]? *)
Definition acceptable (taker r : Order) : bool :=
  negb (is_limit taker) ||
  (if is_buy taker then d_le (o_price r) (o_price taker)
   else d_le (o_price taker) (o_price r)).

(** Take up to [q] from the front of the queue: the orders met, each with the
    quantity taken from it, and the queue that is left. *)
Fixpoint pt_match (taker : Order) (q : Z) (queue : list Order)
    : list (Order * Z) * list Order :=
  match queue with
  | [] => ([], [])
  | r :: queue' =>
    if (0 <? q) && acceptable taker r then
      let m := Z.min q (open r) in
      let '(taken, rest) := pt_match taker (q - m) queue' in
      ((r, m) :: taken,
       if m =? open r then rest
       else set_status (set_filled r (o_filled_qty r + m)) PARTIAL :: rest)
    else ([], queue)
  end.

(** Behind every order that [e] is not strictly before. *)
Fixpoint pt_insert (before : double → double → bool) (e : Order) (queue : list Order)
    : list Order :=
  match queue with
  | [] => [e]
  | r :: queue' =>
    if before (o_price e) (o_price r) then e :: queue else r :: pt_insert before e queue'
  end.

Definition taken_total (taken : list (Order * Z)) : Z := Zsum (taken.*2).

Definition pt_cross (b : pt_book) (o : Order) : list (Order * Z) * pt_book :=
  if is_buy o then
    let '(taken, asks) := pt_match o (open o) (pt_asks b) in (taken, PtBook (pt_bids b) asks)
  else
    let '(taken, bids) := pt_match o (open o) (pt_bids b) in (taken, PtBook bids (pt_asks b)).

Definition pt_rest (b : pt_book) (e : Order) : pt_book :=
  if is_buy e then PtBook (pt_insert d_greater e (pt_bids b)) (pt_asks b)
  else PtBook (pt_bids b) (pt_insert d_less e (pt_asks b)).

(** What is reported back for [o] when [q] of it has been filled. *)
Definition pt_result (o : Order) (q : Z) : Order :=
  let o' := set_filled o (o_filled_qty o + q) in
  if open o' <=? 0 then set_status o' FILLED
  else if 0 <? o_filled_qty o' then set_status o' PARTIAL else o'.

Definition pt_add (b : pt_book) (o : Order) : pt_book * Order * list (Order * Z) :=
  let '(taken, b') := pt_cross b o in
  let o' := set_filled o (o_filled_qty o + taken_total taken) in
  (if (0 <? open o') && is_limit o then
     pt_rest b' (set_status o' (if 0 <? o_filled_qty o' then PARTIAL else NEW))
   else b',
   pt_result o (taken_total taken), taken).

Definition abs_side (m : LevelMap) : list Order := n_order <$> level_nodes m.
Definition abs (bk : OrderBook) : pt_book :=
  PtBook (abs_side (ob_bids bk)) (abs_side (ob_asks bk)).

(** The trade [t] reports that [taker] took [rm.2] from the order [rm.1], at
    the price of that order. *)
Definition reports (taker : Order) (rm : Order * Z) (t : Trade) : Prop :=
  t_buy_order_id t = (if is_buy taker then o_id taker else o_id rm.1) ∧
  t_sell_order_id t = (if is_buy taker then o_id rm.1 else o_id taker) ∧
  t_quantity t = rm.2 ∧ d_eq (t_price t) (o_price rm.1) = true.

(** ** Matching refines [pt_match] *)

Definition fill_taken (f : Fill) : Order * Z := (f.1.2, f.2).

Lemma taken_fills fs : taken_total (fill_taken <$> fs) = fills_total fs.
Proof. unfold taken_total, fills_total. by rewrite <- list_fmap_compose. Qed.

Lemma consume_pt_match sd taker stops q l fs rest :
  queue_ok sd l →
  (∀ p n, (p, n) ∈ l → stops p = negb (acceptable taker (n_order n))) →
  consume stops q l = (fs, rest) →
  pt_match taker q (n_order <$> l.*2) = (fill_taken <$> fs, n_order <$> rest.*2) ∧
  Forall (λ f, d_eq f.1.1 (o_price f.1.2) = true ∧ acceptable taker f.1.2 = true) fs.
Proof.
  intros Hl. revert q fs rest.
  induction Hl as [|[p n] l Hn Hl IH]; intros q fs rest Hs; simpl.
  - intros [= <- <-]. done.
  - rewrite (Hs p n) by by left. rewrite negb_involutive.
    assert (∀ p n, (p, n) ∈ l → stops p = negb (acceptable taker (n_order n))) as Hs'
      by (intros ???; apply Hs; by right).
    destruct (Z.ltb_spec 0 q) as [Hq|Hq]; simpl; [|intros [= <- <-]; done].
    destruct (acceptable taker (n_order n)) eqn:Hacc; [|intros [= <- <-]; done].
    destruct (resting_fill _ _ _ _ Hn Hq) as (Hm & Hok & Hrem & Hfull). simpl in *.
    pose proof Hn as (_ & _ & Hp & Hqo & Hr0).
    assert (open (n_order n) = remaining (n_order n)) as Hopen
      by (symmetry; by apply remaining_exact).
    rewrite Hopen. set (m := Z.min q _) in *.
    destruct (consume stops (q - m) l) as [fs' rest'] eqn:E.
    destruct (IH _ _ _ Hs' E) as [Heq Hall].
    change (list_fmap Node Order n_order (list_fmap _ Node snd l)) with (n_order <$> l.*2).
    rewrite Heq. intros [= <- <-]. split.
    + simpl. f_equal. unfold after_fill. destruct (fill_exact (n_order n) m Hqo) as [He _]; [lia|].
      destruct (is_filled _); zcases; simpl; try done; try by (rewrite He).
      all: naive_solver lia.
    + constructor; [|done]. simpl. split; [by apply d_eq_sym|done].
Qed.

Lemma abs_tagged m : n_order <$> (tagged m).*2 = abs_side m.
Proof. by rewrite tagged_nodes. Qed.

(** The price tests of the loops are [acceptable], level by level. *)
Lemma stops_acceptable sd (m : LevelMap) taker stops :
  queue_ok sd (tagged m) → (o_type taker = LIMIT → is_nan (o_price taker) = false) →
  stops = (if is_buy taker then ask_stops taker else bid_stops taker) →
  ∀ p n, (p, n) ∈ tagged m → stops p = negb (acceptable taker (n_order n)).
Proof.
  intros Hq Hnan -> p n Hin. unfold queue_ok in Hq. rewrite Forall_forall in Hq.
  destruct (Hq _ Hin) as (_ & _ & He & _). simpl in He.
  pose proof He as (Hn & _ & _)%d_eq_spec.
  unfold acceptable, ask_stops, bid_stops. destruct (is_limit taker) eqn:Hl.
  2:{ by destruct (is_buy taker). }
  apply bool_decide_eq_true in Hl. specialize (Hnan Hl). simpl.
  destruct (is_buy taker); simpl.
  - rewrite <- (d_lt_eq_r (o_price taker) (o_price (n_order n)) p) by done. by apply d_not_lt.
  - rewrite <- (d_lt_eq_l (o_price (n_order n)) p (o_price taker)) by done. by apply d_not_lt.
Qed.

Section refinement.
Context (clock : nat → Z * Z).

Definition price_ok (o : Order) : Prop := o_type o = LIMIT → is_nan (o_price o) = false.

(** What [match_limit_order] does, for either side: [bk'] is the book after
    it, [o'] the order before its status is set. *)
Record match_ok (bk : OrderBook) (o : Order) (bk' : OrderBook) (o' : Order)
    (fs : list Fill) : Prop := {
  mo_wf : book_wf bk';
  mo_filled : filled_by o o' (fills_total fs);
  mo_positive : Forall (λ f, 0 < fill_qty f) fs;
  mo_total : 0 <= fills_total fs <= Z.max (remaining o) 0;
  mo_price : Forall (λ f, d_eq f.1.1 (o_price f.1.2) = true ∧
                          acceptable o f.1.2 = true) fs;
  mo_cross : pt_cross (abs bk) o = (fill_taken <$> fs, abs bk');
  mo_trades : active_trades bk' = active_trades bk ++
    fill_trades clock (ob_symbol bk) o (ob_next_trade_id bk) (ob_clock bk) fs;
  mo_traded : traded bk bk' (length fs);
  mo_index : ob_index bk' = foldl fill_index (ob_index bk) fs;
}.

Lemma match_limit_order_spec bk o :
  book_wf bk → qty_ok o → price_ok o →
  ∃ bk' o' fs, match_limit_order clock bk o = (bk', final_status o') ∧ match_ok bk o bk' o' fs.
Proof.
  intros Hwf Ho Hp. pose proof (remaining_exact o Ho) as Hopen.
  destruct (is_buy o) eqn:Hb.
  - destruct (match_buy clock bk o Hwf Ho Hb) as (bk' & o' & asks' & fs & -> & Hr & Hw).
    destruct Hr. pose proof (tagged_ok _ _ _ (wf_asks _ Hwf)) as Hq.
    destruct (consume_pt_match SELL o (ask_stops o) _ _ _ _ Hq
      (stops_acceptable SELL _ o _ Hq Hp ltac:(by rewrite Hb)) mr_consume) as [Hpt Hall].
    rewrite !abs_tagged in Hpt.
    exists (set_asks bk' asks'), o', fs. split; [done|]. split; try done.
    unfold pt_cross. rewrite Hb. unfold open. rewrite <- Hopen. simpl. rewrite Hpt.
    unfold abs. simpl. by rewrite mr_bids.
  - destruct (match_sell clock bk o Hwf Ho Hb) as (bk' & o' & bids' & fs & -> & Hr & Hw).
    destruct Hr. pose proof (tagged_ok _ _ _ (wf_bids _ Hwf)) as Hq.
    destruct (consume_pt_match BUY o (bid_stops o) _ _ _ _ Hq
      (stops_acceptable BUY _ o _ Hq Hp ltac:(by rewrite Hb)) mr_consume) as [Hpt Hall].
    rewrite !abs_tagged in Hpt.
    exists (set_bids bk' bids'), o', fs. split; [done|]. split; try done.
    unfold pt_cross. rewrite Hb. unfold open. rewrite <- Hopen. simpl. rewrite Hpt.
    unfold abs. simpl. by rewrite mr_asks.
Qed.

(** ** Resting refines [pt_rest] *)

Lemma pt_insert_split before e l1 l2 :
  Forall (λ r, before (o_price e) (o_price r) = false) l1 →
  Forall (λ r, before (o_price e) (o_price r) = true) l2 →
  pt_insert before e (l1 ++ l2) = l1 ++ e :: l2.
Proof.
  intros H1 H2. induction H1 as [|r l1 Hr H1 IH]; simpl; [|by rewrite Hr, IH].
  destruct H2 as [|r l2 Hr H2]; simpl; [done|]. by rewrite Hr.
Qed.

Lemma upsert_abs before `{!KeyOrder before} sd m n :
  side_wf before sd m → resting_ok sd (o_price (n_order n)) (n_order n) →
  abs_side (map_upsert before [] (push_node n) (o_price (n_order n)) m) =
  pt_insert before (n_order n) (abs_side m).
Proof.
  intros Hm Hn. destruct (upsert_side before sd m n Hm Hn) as (_ & (l1 & l2 & E1 & E2 & H1 & H2) & _).
  unfold abs_side. rewrite E2, E1, !fmap_app, fmap_cons.
  by rewrite pt_insert_split by by apply Forall_fmap.
Qed.

Lemma rest_order_abs bk e :
  book_wf bk → resting_ok (o_side e) (o_price e) e → abs (rest_order bk e) = pt_rest (abs bk) e.
Proof.
  intros Hwf He. unfold pt_rest, rest_order, abs, is_buy in *. simpl.
  destruct (bool_decide_reflect (o_side e = BUY)) as [Hs|Hs].
  - f_equal. rewrite Hs in He.
    apply (upsert_abs d_greater BUY _ (MkNode (ob_next_addr bk) e)); [apply Hwf|done].
  - f_equal. assert (o_side e = SELL) as Hs' by by destruct (o_side e). rewrite Hs' in He.
    apply (upsert_abs d_less SELL _ (MkNode (ob_next_addr bk) e)); [apply Hwf|done].
Qed.

(** ** [add_order] refines [pt_add] *)

Lemma final_status_pt o o' q : filled_by o o' q → final_status o' = pt_result o q.
Proof.
  intros (-> & Hq & _). unfold final_status, pt_result, open.
  rewrite is_filled_remaining, remaining_exact by done. done.
Qed.

Record add_result (bk : OrderBook) (o : Order) (bk2 : OrderBook) (r : Order)
    (fs : list Fill) : Prop := {
  ar_wf : book_wf bk2;
  ar_result : r = pt_result o (fills_total fs);
  ar_abs : pt_add (abs bk) o = (abs bk2, r, fill_taken <$> fs);
  ar_price : Forall (λ f, d_eq f.1.1 (o_price f.1.2) = true ∧
                          acceptable o f.1.2 = true) fs;
  ar_positive : Forall (λ f, 0 < fill_qty f) fs;
  ar_total : 0 <= fills_total fs <= Z.max (remaining o) 0;
  ar_trades : active_trades bk2 = active_trades bk ++
    fill_trades clock (ob_symbol bk) o (ob_next_trade_id bk) (ob_clock bk) fs;
  ar_traded : traded bk bk2 (length fs);
}.

Lemma match_ok_add bk o bk1 o' fs bk2 r :
  match_ok bk o bk1 o' fs →
  book_wf bk2 →
  r = final_status o' →
  active_trades bk2 = active_trades bk1 → traded bk1 bk2 0 →
  abs bk2 = (if (0 <? open o') && is_limit o then pt_rest (abs bk1) (rested o') else abs bk1) →
  add_result bk o bk2 r fs.
Proof.
  intros [] Hwf -> Ht Htd Habs. pose proof (final_status_pt _ _ _ mo_filled0) as Hr.
  split; try done.
  - unfold pt_add. rewrite mo_cross0, taken_fills, Habs, Hr.
    by destruct mo_filled0 as (-> & _).
  - congruence.
  - destruct mo_traded0 as [H1 H2], Htd as [H3 H4]. split; simpl in *; congruence.
Qed.

Lemma add_order_spec bk o :
  book_wf bk → add_ok bk o →
  ∃ bk2 r fs, add_order clock bk o = (bk2, r) ∧ add_result bk o bk2 r fs.
Proof.
  intros Hwf Hok. pose proof (add_order_wf_lemma clock bk o Hwf Hok) as Hwf2.
  destruct Hok as (Hq & Hp & Hid).
  destruct (match_limit_order_spec bk o Hwf Hq Hp) as (bk1 & o' & fs & Hm & Hok).
  pose proof (mo_filled _ _ _ _ _ Hok) as (Ho' & Hq' & Hrem).
  rewrite (add_order_after clock _ _ _ _ Hm) in Hwf2 |- * by by rewrite Ho'.
  assert (is_limit o' = is_limit o) as Hlim by by rewrite Ho'.
  assert (negb (is_filled o') = (0 <? open o')) as Hfil.
  { rewrite is_filled_remaining by done. rewrite remaining_exact by done.
    unfold open. zcases; simpl; lia. }
  rewrite Hlim, Hfil in Hwf2 |- *.
  destruct ((0 <? open o') && is_limit o) eqn:Hrest; eexists _, _, fs; (split; [done|]);
    eapply match_ok_add; try done; rewrite Hrest; [|done].
  apply andb_true_iff in Hrest as [Ho%Z.ltb_lt Hl%bool_decide_eq_true].
  apply rest_order_abs; [apply Hok|].
  assert (o_side (rested o') = o_side o) as -> by by rewrite Ho'.
  eapply rested_ok; [done| |done|by apply Hp]. by rewrite remaining_exact.
Qed.

Lemma add_market_order_spec bk o :
  book_wf bk → qty_ok o →
  let o1 := set_price (set_type o MARKET) d_zero in
  ∃ bk2 r fs, add_market_order clock bk o = (bk2, r) ∧ add_result bk o1 bk2 r fs.
Proof.
  intros Hwf Hq o1. unfold add_market_order, match_market_order. fold o1.
  destruct (match_limit_order_spec bk o1 Hwf Hq) as (bk1 & o' & fs & Hm & Hok); [done|].
  rewrite Hm. eexists _, _, fs. split; [done|]. eapply match_ok_add; try done.
  - apply Hok.
  - by rewrite andb_false_r.
Qed.

Lemma reports_fills bk o id ck fs :
  Forall (λ f, d_eq f.1.1 (o_price f.1.2) = true ∧ acceptable o f.1.2 = true) fs →
  Forall2 (reports o) (fill_taken <$> fs) (fill_trades clock (ob_symbol bk) o id ck fs).
Proof.
  intros H. revert id ck.
  induction H as [|[[p r] m] fs [He Ha] H IH]; intros id ck; simpl; constructor; [|apply IH].
  by split_and!.
Qed.

End refinement.
