(* ===== verification/OrderBookQueue.v ===== *)
(** * The order book: facts about the abstract queues

    How much [pt_match] takes, that it takes the best prices first, and that
    the queues of a well-formed book are in price order; [cancel_order] and
    [update_level] read as filters of the queues. *)

From S2P Require Export OrderBookSpec.

Definition queue_open (queue : list Order) : Z := Zsum (open <$> queue).

(** Orders as they rest: something is open. *)
Definition queue_live (queue : list Order) : Prop := Forall (λ r, 0 < open r) queue.

Lemma queue_open_cons r queue : queue_open (r :: queue) = open r + queue_open queue.
Proof. done. Qed.
Lemma taken_total_cons r m taken : taken_total ((r, m) :: taken) = m + taken_total taken.
Proof. done. Qed.
Lemma taken_total_nil : taken_total [] = 0.
Proof. done. Qed.

(** Filling [m] of an order closes [m]. *)
Lemma open_filled r m st : open (set_status (set_filled r (o_filled_qty r + m)) st) = open r - m.
Proof. unfold open. simpl. lia. Qed.

Lemma queue_open_nonneg queue : queue_live queue → 0 <= queue_open queue.
Proof.
  intros H. apply Zsum_nonneg, Forall_fmap. eapply Forall_impl; [done|]. simpl. lia.
Qed.

(** What is taken leaves the queue, and nothing else. *)
Lemma pt_match_open taker q queue taken rest :
  queue_live queue → pt_match taker q queue = (taken, rest) →
  queue_open rest = queue_open queue - taken_total taken.
Proof.
  intros H. revert q taken rest. induction H as [|r queue Hr H IH]; intros q taken rest; simpl.
  - by intros [= <- <-].
  - destruct ((0 <? q) && acceptable taker r).
    2:{ intros [= <- <-]. rewrite taken_total_nil. lia. }
    destruct (pt_match taker _ queue) as [taken' rest'] eqn:E. specialize (IH _ _ _ E).
    intros [= <- <-]. rewrite taken_total_cons, queue_open_cons.
    case_match; rewrite ?queue_open_cons, ?open_filled; zbool; lia.
Qed.

(** An order without a limit takes all there is, up to its size. *)
Lemma pt_match_market taker q queue taken rest :
  queue_live queue → (∀ r, acceptable taker r = true) → 
  pt_match taker q queue = (taken, rest) →
  taken_total taken = Z.min (Z.max q 0) (queue_open queue).
Proof.
  intros H Hacc. revert q taken rest.
  induction H as [|r queue Hr H IH]; intros q taken rest; simpl.
  - intros [= <- <-]. rewrite taken_total_nil. unfold queue_open. simpl. lia.
  - pose proof (queue_open_nonneg _ H). rewrite Hacc, andb_true_r.
    destruct (Z.ltb_spec 0 q).
    2:{ intros [= <- <-]. rewrite taken_total_nil, queue_open_cons. lia. }
    destruct (pt_match taker _ queue) as [taken' rest'] eqn:E. specialize (IH _ _ _ E).
    intros [= <- <-]. rewrite taken_total_cons, queue_open_cons. lia.
Qed.

Lemma pt_match_done taker q queue : q <= 0 → pt_match taker q queue = ([], queue).
Proof. intros. destruct queue; simpl; [done|]. by rewrite (proj2 (Z.ltb_ge _ _)). Qed.

(** Everything taken was acceptable. *)
Lemma pt_match_acceptable taker q queue taken rest :
  pt_match taker q queue = (taken, rest) → Forall (λ rm, acceptable taker rm.1 = true) taken.
Proof.
  revert q taken rest. induction queue as [|r queue IH]; intros q taken rest; simpl.
  - intros [= <- <-]. constructor.
  - destruct ((0 <? q) && acceptable taker r) eqn:Hc; [|intros [= <- <-]; constructor].
    apply andb_true_iff in Hc as [_ Hacc].
    destruct (pt_match taker _ queue) as [taken' rest'] eqn:E.
    intros [= <- <-]. constructor; eauto.
Qed.

(** Everything taken was in the queue. *)
Lemma pt_match_taken taker q queue taken rest rm :
  pt_match taker q queue = (taken, rest) → rm ∈ taken → rm.1 ∈ queue.
Proof.
  revert q taken rest. induction queue as [|r queue IH]; intros q taken rest; simpl.
  - intros [= <- _] H. by apply not_elem_of_nil in H.
  - destruct (_ && _); [|intros [= <- _] H; by apply not_elem_of_nil in H].
    destruct (pt_match taker _ queue) as [taken' rest'] eqn:E.
    intros [= <- _] [->|H]%elem_of_cons; [by left|right]. by eapply IH.
Qed.

(** Only prices that were in the queue are left in it. *)
Lemma pt_match_prices taker q queue taken rest r :
  pt_match taker q queue = (taken, rest) → r ∈ rest →
  ∃ r', r' ∈ queue ∧ o_price r' = o_price r.
Proof.
  revert q taken rest. induction queue as [|r0 queue IH]; intros q taken rest; simpl.
  - intros [= <- <-]. eauto.
  - destruct ((0 <? q) && acceptable taker r0); [|intros [= <- <-]; eauto].
    destruct (pt_match taker _ queue) as [taken' rest'] eqn:E. intros [= <- <-] Hr.
    assert (r ∈ rest' → ∃ r', r' ∈ r0 :: queue ∧ o_price r' = o_price r) as Htl.
    { intros Hr'. destruct (IH _ _ _ E Hr') as (r' & Hr'' & ?). exists r'. split; [by right|done]. }
    destruct (_ =? _); [by apply Htl|].
    apply elem_of_cons in Hr as [->|Hr]; [|by apply Htl].
    exists r0. split; [by left|done].
Qed.

(** Nothing is left at a better price than one that was taken. *)
Lemma pt_match_best (P : double → double → Prop) taker q queue taken rest :
  (∀ r, r ∈ queue → P (o_price r) (o_price r)) →
  StronglySorted (λ a b, P (o_price a) (o_price b)) queue →
  pt_match taker q queue = (taken, rest) →
  ∀ rm r, rm ∈ taken → r ∈ rest → P (o_price rm.1) (o_price r).
Proof.
  intros Hrefl Hs. revert q taken rest.
  induction Hs as [|r0 queue Hs IH Hall]; intros q taken rest; simpl.
  - intros [= <- <-] rm r Hrm. by apply not_elem_of_nil in Hrm.
  - destruct ((0 <? q) && acceptable taker r0).
    2:{ intros [= <- <-] rm r Hrm. by apply not_elem_of_nil in Hrm. }
    rewrite Forall_forall in Hall.
    destruct (Z.eqb_spec (Z.min q (open r0)) (open r0)) as [Hm|Hm].
    + destruct (pt_match taker _ queue) as [taken' rest'] eqn:E.
      intros [= <- <-] rm r [->|Hrm]%elem_of_cons Hr; simpl.
      * destruct (pt_match_prices _ _ _ _ _ _ E Hr) as (r' & Hr' & <-). by apply Hall.
      * eapply IH; try done. intros. apply Hrefl. by right.
    + rewrite pt_match_done by lia.
      intros [= <- <-] rm r ->%list_elem_of_singleton [->|Hr]%elem_of_cons; simpl.
      * apply Hrefl. by left.
      * by apply Hall.
Qed.

(** If something of the order is left, no order left is acceptable. *)
Lemma pt_match_exhausted (P : double → double → Prop) taker q queue taken rest :
  queue_live queue →
  (∀ r, r ∈ queue → P (o_price r) (o_price r)) →
  StronglySorted (λ a b, P (o_price a) (o_price b)) queue →
  (∀ a b, P (o_price a) (o_price b) → acceptable taker b = true → acceptable taker a = true) →
  pt_match taker q queue = (taken, rest) →
  taken_total taken < q → ∀ r, r ∈ rest → acceptable taker r = false.
Proof.
  intros Hlive Hrefl Hs Hmono. revert q taken rest.
  induction Hs as [|r0 queue Hs IH Hall]; intros q taken rest; simpl.
  - intros [= <- <-] _ r Hr. by apply not_elem_of_nil in Hr.
  - apply Forall_cons in Hlive as [Hr0 Hlive]. rewrite Forall_forall in Hall.
    destruct (Z.ltb_spec 0 q); simpl.
    2:{ intros [= <- <-]. rewrite taken_total_nil. lia. }
    destruct (acceptable taker r0) eqn:Hacc.
    + destruct (pt_match taker _ queue) as [taken' rest'] eqn:E.
      destruct (Z.eqb_spec (Z.min q (open r0)) (open r0)) as [Hm|Hm]; intros [= <- <-].
      * rewrite taken_total_cons. intros Hlt r Hr.
        eapply IH; try done; [|lia]. intros. apply Hrefl. by right.
      * rewrite pt_match_done in E by lia. injection E as <- <-.
        rewrite taken_total_cons, taken_total_nil. lia.
    + intros [= <- <-] _ r [->|Hr]%elem_of_cons; [done|].
      apply not_true_is_false. intros Hr'. specialize (Hmono _ _ (Hall r Hr) Hr'). congruence.
Qed.

(** Resting adds what is open. *)
Lemma pt_insert_perm before e queue : pt_insert before e queue ≡ₚ e :: queue.
Proof.
  induction queue as [|r queue IH]; simpl; [done|]. destruct (before _ _); [done|].
  rewrite IH. apply Permutation_swap.
Qed.

#[export] Instance Zsum_proper : Proper (Permutation ==> eq) Zsum.
Proof. induction 1; simpl; lia. Qed.

Lemma pt_insert_open before e queue :
  queue_open (pt_insert before e queue) = open e + queue_open queue.
Proof. unfold queue_open. by rewrite pt_insert_perm. Qed.

(** ** The queues of a well-formed book *)

Section side_queue.
Context (before : double → double → bool) `{!KeyOrder before} (sd : Side).

(** At least as good a price. *)
Definition not_after (p q : double) : Prop := before p q = true ∨ d_eq p q = true.

Lemma abs_side_orders m r :
  side_wf before sd m → r ∈ abs_side m →
  ∃ p l, (p, l) ∈ m ∧ resting_ok sd p r.
Proof.
  intros Hm Hr. unfold abs_side in Hr. apply list_elem_of_fmap in Hr as (n & -> & Hn).
  destruct (side_wf_nodes _ _ _ _ Hm Hn) as (p & l & ? & _ & ?). eauto.
Qed.

Lemma abs_side_live m : side_wf before sd m → queue_live (abs_side m).
Proof.
  intros Hm. apply Forall_forall. intros r Hr.
  destruct (abs_side_orders m r Hm Hr) as (p & l & _ & (_ & _ & _ & Hq & Hr0)).
  by rewrite remaining_exact in Hr0.
Qed.

Lemma abs_side_refl m r : side_wf before sd m → r ∈ abs_side m → not_after (o_price r) (o_price r).
Proof.
  intros Hm Hr. destruct (abs_side_orders m r Hm Hr) as (p & l & _ & (_ & _ & He & _)).
  right. apply d_eq_spec in He as (?&_). by apply d_eq_refl.
Qed.

Lemma abs_side_sorted m :
  side_wf before sd m →
  StronglySorted (λ a b, not_after (o_price a) (o_price b)) (abs_side m).
Proof.
  induction m as [|[p level] m IH]; intros Hm; [constructor|].
  apply side_wf_cons in Hm as (Hp & [_ Hl] & Hm & Hall); [|done]. simpl in *.
  assert (∀ n n', n ∈ level → n' ∈ level_nodes m →
    not_after (o_price (n_order n)) (o_price (n_order n'))) as Hacross.
  { intros n n' Hn Hn'. left. rewrite Forall_forall in Hl. rewrite Forall_forall in Hall.
    destruct (Hl _ Hn) as (_ & _ & He & _).
    destruct (side_wf_nodes _ _ _ _ Hm Hn') as (p' & l' & Hin & _ & (_ & _ & He' & _)).
    rewrite (before_eq_r _ _ _ He'), (before_eq_l _ _ _ He). by apply (Hall (p', l')). }
  unfold abs_side. rewrite level_nodes_cons, fmap_app.
  apply StronglySorted_app_iff. split_and!; [|by apply IH|].
  - clear -Hl. induction Hl as [|n level Hn Hl IH]; simpl; constructor; [done|].
    apply Forall_fmap. eapply Forall_impl; [exact Hl|]. intros n' Hn'. right.
    destruct Hn as (_&_&He&_), Hn' as (_&_&He'&_). eauto using d_eq_trans, d_eq_sym.
  - intros a b (n & -> & Hn)%list_elem_of_fmap (n' & -> & Hn')%list_elem_of_fmap. by apply Hacross.
Qed.

End side_queue.

Lemma le_before_asks p q : not_after d_less p q ↔ d_le p q = true.
Proof. unfold not_after, d_less. by rewrite d_le_spec, orb_true_iff. Qed.

Lemma le_before_bids p q : not_after d_greater p q ↔ d_le q p = true.
Proof.
  unfold not_after, d_greater. rewrite d_le_spec, orb_true_iff.
  naive_solver eauto using d_eq_sym.
Qed.

(** ** The two sides are told apart by the orders *)

Lemma level_nodes_side before sd m :
  side_wf before sd m → Forall (λ n, o_side (n_order n) = sd) (level_nodes m).
Proof.
  intros Hm. apply Forall_forall. intros n Hn.
  by destruct (side_wf_nodes _ _ _ _ Hm Hn) as (p & l & _ & _ & (? & _)).
Qed.

Definition on_side (sd : Side) (nodes : list Node) : list Node :=
  filter (λ n, o_side (n_order n) = sd) nodes.

Lemma book_sides bk :
  book_wf bk →
  level_nodes (ob_bids bk) = on_side BUY (book_nodes bk) ∧
  level_nodes (ob_asks bk) = on_side SELL (book_nodes bk).
Proof.
  intros Hwf. pose proof (level_nodes_side _ _ _ (wf_bids _ Hwf)) as Hb.
  pose proof (level_nodes_side _ _ _ (wf_asks _ Hwf)) as Ha.
  unfold on_side, book_nodes. rewrite !filter_app. split.
  - rewrite filter_true by done. rewrite filter_false; [by rewrite app_nil_r|].
    eapply Forall_impl; [exact Ha|]. simpl. congruence.
  - rewrite (filter_true _ (level_nodes (ob_asks bk))) by done.
    rewrite filter_false; [done|]. eapply Forall_impl; [exact Hb|]. simpl. congruence.
Qed.

(** A book that keeps some of the nodes keeps the same part of both queues. *)
Definition pt_keep (P : Order → Prop) `{!∀ o, Decision (P o)} (b : pt_book) : pt_book :=
  PtBook (filter P (pt_bids b)) (filter P (pt_asks b)).

Lemma filter_abs (P : Order → Prop) `{!∀ o, Decision (P o)} bk bk' :
  book_wf bk → book_wf bk' →
  book_nodes bk' = filter (λ n, P (n_order n)) (book_nodes bk) →
  abs bk' = pt_keep P (abs bk).
Proof.
  intros Hwf Hwf' Hn. destruct (book_sides bk Hwf) as [Hb Ha].
  destruct (book_sides bk' Hwf') as [Hb' Ha'].
  unfold abs, pt_keep, abs_side. simpl.
  rewrite !filter_fmap, Hb', Ha', Hn, Hb, Ha. unfold on_side. simpl.
  f_equal; f_equal; rewrite !list_filter_filter; apply list_filter_iff; naive_solver.
Qed.

(** Taking a node out is keeping the other ids. *)
Lemma filter_other_ids nodes l1 n l2 :
  NoDup (node_id <$> nodes) → nodes = l1 ++ n :: l2 →
  filter (λ m, o_id (n_order m) ≠ node_id n) nodes = l1 ++ l2.
Proof.
  intros Hnd ->. rewrite fmap_app, fmap_cons in Hnd.
  apply NoDup_app in Hnd as (_ & Hd & [Hn _]%NoDup_cons).
  rewrite filter_app, filter_cons_False by (intros H; by apply H).
  rewrite !filter_true; [done|..]; apply Forall_forall; intros m Hm He.
  - apply Hn. change (node_id m = node_id n) in He. rewrite <- He.
    by apply list_elem_of_fmap_2.
  - apply (Hd (node_id m)); [by apply list_elem_of_fmap_2|].
    rewrite <- He. left.
Qed.

Definition without_id (id : Z) (b : pt_book) : pt_book := pt_keep (λ o, o_id o ≠ id) b.
Definition pt_orders (b : pt_book) : list Order := pt_bids b ++ pt_asks b.

Lemma abs_orders bk : pt_orders (abs bk) = n_order <$> book_nodes bk.
Proof. unfold pt_orders, abs, abs_side, book_nodes. by rewrite fmap_app. Qed.

Lemma node_ids bk : node_id <$> book_nodes bk = o_id <$> pt_orders (abs bk).
Proof. rewrite abs_orders, <- list_fmap_compose. done. Qed.

Lemma cancel_order_abs bk id :
  book_wf bk →
  ∃ bk', cancel_order bk id = Some (bk', bool_decide (id ∈ o_id <$> pt_orders (abs bk))) ∧
    book_wf bk' ∧ abs bk' = without_id id (abs bk) ∧
    ob_index bk' = delete id (ob_index bk) ∧ active_trades bk' = active_trades bk.
Proof.
  intros Hwf. rewrite <- node_ids. case_bool_decide as Hid.
  - apply list_elem_of_fmap in Hid as (n & -> & Hn).
    destruct (cancel_order_node bk n Hwf Hn) as (bk' & l1 & l2 & Hc & Hw & E & E' & Hi & Ht).
    exists bk'. split_and!; try done. apply filter_abs; [done..|].
    rewrite E'. symmetry. apply filter_other_ids; [apply Hwf|done].
  - exists bk. rewrite cancel_order_absent by done. split_and!; try done.
    + symmetry. unfold without_id. rewrite <- (filter_abs (λ o, o_id o ≠ id) bk bk); try done.
      symmetry. apply filter_true, Forall_forall. intros n Hn He. apply Hid.
      change (node_id n = id) in He. rewrite <- He. by apply list_elem_of_fmap_2.
    + symmetry. apply delete_id. by apply (index_ok_None _ _ _ (wf_index_ok _ Hwf)).
Qed.
