(* ===== verification/OrderBookProps.v ===== *)
(** * The order book: its properties

    The claims about [OrderBook], stated for any book that satisfies the
    invariant [book_wf]; [book_reach_safe] shows that every book the member
    functions can produce does. *)

From S2P Require Export OrderBookQueue.

(** ** Sequences of calls *)

Inductive book_op :=
  | OpAdd (o : Order)
  | OpMarket (o : Order)
  | OpCancel (id : Z)
  | OpModify (id : Z) (price : double) (qty : Z)
  | OpUpdate (sd : Side) (price : double) (size : Z)
  | OpDrain.

Section run.
Context (clock : nat → Z * Z).

(** One call: the book after it and the trades it handed out; [None] is
    undefined behaviour. *)
Definition book_step (bk : OrderBook) (op : book_op) : option (OrderBook * list Trade) :=
  match op with
  | OpAdd o => Some ((add_order clock bk o).1, [])
  | OpMarket o => Some ((add_market_order clock bk o).1, [])
  | OpCancel id => r ← cancel_order bk id; Some (r.1, [])
  | OpModify id p q => r ← modify_order clock bk id p q; Some (r.1, [])
  | OpUpdate sd p size => Some (update_level bk sd p size, [])
  | OpDrain => Some (drain_trades bk)
  end.

(** What the callers owe: ids not in use, prices that are numbers and
    quantities of their width. *)
Definition op_ok (bk : OrderBook) (op : book_op) : Prop :=
  match op with
  | OpAdd o => add_ok bk o
  | OpMarket o => qty_ok o
  | OpCancel _ | OpDrain => True
  | OpModify _ p q => is_nan p = false ∧ is_i32 q
  | OpUpdate _ p _ => is_nan p = false
  end.

(** The books that calls can lead to, with all the trades handed out. *)
Inductive book_reach (sym : string) : OrderBook → list Trade → Prop :=
  | reach_new : book_reach sym (new_book sym) []
  | reach_step bk log op bk' out :
      book_reach sym bk log → op_ok bk op → book_step bk op = Some (bk', out) →
      book_reach sym bk' (log ++ out).

(** What a call does to the trades: [ts] is new in the active buffer and
    [out] was handed out of it. *)
Definition trade_flow (bk bk' : OrderBook) (out : list Trade) : Prop :=
  inactive_trades bk' = [] ∧
  ∃ ts, out ++ active_trades bk' = active_trades bk ++ ts ∧
    ob_next_trade_id bk' = ids_after (ob_next_trade_id bk) (length ts) ∧
    ∀ i t, ts !! i = Some t → t_trade_id t = ids_after (ob_next_trade_id bk) i.

Lemma fill_trades_length sym o id ck fs : length (fill_trades clock sym o id ck fs) = length fs.
Proof. revert id ck. induction fs as [|[[p r] m] fs IH]; intros; simpl; [done|]. by rewrite IH. Qed.

Lemma fill_trades_ids sym o id ck fs i t :
  fill_trades clock sym o id ck fs !! i = Some t → t_trade_id t = ids_after id i.
Proof.
  revert id ck i. induction fs as [|[[p r] m] fs IH]; intros id ck i; simpl; [done|].
  destruct i; simpl; [by intros [= <-]|]. apply IH.
Qed.

Lemma add_result_flow bk o bk2 r fs :
  inactive_trades bk = [] → add_result clock bk o bk2 r fs → trade_flow bk bk2 [].
Proof.
  intros Hi []. destruct ar_traded as [Hid Hin]. split; [congruence|].
  eexists. split; [exact ar_trades|]. rewrite fill_trades_length. split; [done|].
  intros i t. apply fill_trades_ids.
Qed.

(** Calls that leave the trades alone. *)
Lemma quiet_flow bk bk' :
  inactive_trades bk = [] → inactive_trades bk' = inactive_trades bk →
  active_trades bk' = active_trades bk → ob_next_trade_id bk' = ob_next_trade_id bk →
  trade_flow bk bk' [].
Proof.
  intros Hi H1 H2 H3. split; [congruence|]. exists []. rewrite app_nil_r. split_and!; try done.
Qed.

Lemma cancel_order_quiet bk id bk' b :
  cancel_order bk id = Some (bk', b) →
  inactive_trades bk' = inactive_trades bk ∧ active_trades bk' = active_trades bk ∧
  ob_next_trade_id bk' = ob_next_trade_id bk.
Proof.
  unfold cancel_order. intros H. destruct (ob_index bk !! id); [|by injection H as <- <-].
  destruct (deref bk _) as [o|]; [|done]. simpl in H.
  destruct (is_buy o); destruct (erase_from_side _ _ _ _); simpl in H; try done;
    by injection H as <- <-.
Qed.

Lemma update_level_quiet bk sd p size :
  inactive_trades (update_level bk sd p size) = inactive_trades bk ∧
  active_trades (update_level bk sd p size) = active_trades bk ∧
  ob_next_trade_id (update_level bk sd p size) = ob_next_trade_id bk.
Proof. unfold update_level. by repeat case_match. Qed.

Lemma drain_trades_flow bk :
  inactive_trades bk = [] → trade_flow bk (drain_trades bk).1 (drain_trades bk).2.
Proof.
  intros Hi. destruct bk as [????? b ????]. unfold trade_flow.
  destruct b; simpl in *; (split; [done|]); exists []; rewrite !app_nil_r; split_and!; done.
Qed.

Lemma drain_trades_wf bk : book_wf bk → book_wf (drain_trades bk).1.
Proof. intros []. by split. Qed.

Lemma modify_add_ok bk id p q :
  book_wf bk → is_nan p = false → is_i32 q →
  ∃ bk1 o b, cancel_order bk id = Some (bk1, b) ∧ book_wf bk1 ∧
    abs bk1 = without_id id (abs bk) ∧ b = bool_decide (id ∈ o_id <$> pt_orders (abs bk)) ∧
    if b then
      o ∈ pt_orders (abs bk) ∧ o_id o = id ∧ add_ok bk1 (modified_order o p q) ∧
      modify_order clock bk id p q = Some (add_order clock bk1 (modified_order o p q))
    else bk1 = bk ∧ modify_order clock bk id p q = Some (bk, set_status default_order REJECTED).
Proof.
  intros Hwf Hp Hq. destruct (cancel_order_abs bk id Hwf) as (bk' & Hc & Hw & Ha & Hi & _).
  destruct (decide (id ∈ node_id <$> book_nodes bk)) as [Hid|Hid].
  - pose proof Hid as Hid'. apply list_elem_of_fmap in Hid as (n & -> & Hn).
    destruct (modify_order_node clock bk n p q Hwf Hn Hp Hq) as (bk1 & _ & _ & Hm & _ & _ & _ & _).
    exists bk', (n_order n), true. rewrite node_ids in Hid'.
    rewrite bool_decide_true in Hc |- * by done. split_and!; try done.
    + rewrite abs_orders. by apply list_elem_of_fmap_2.
    + split_and!; simpl; [|done|]; [unfold qty_ok, is_i32 in *; simpl; lia|].
      rewrite Hi. apply lookup_delete_eq.
    + unfold modify_order.
      rewrite (proj2 (index_ok_lookup _ _ _ (n_addr n) (wf_index_ok _ Hwf))) by eauto.
      rewrite deref_node by done. simpl. by rewrite Hc.
  - pose proof Hid as Hid'. rewrite node_ids in Hid'.
    rewrite bool_decide_false in Hc |- * by done.
    exists bk', default_order, false. split_and!; try done.
    + rewrite cancel_order_absent in Hc by done. congruence.
    + by apply modify_order_absent.
Qed.

(** One call keeps the invariant and hands out trades in order. *)
Lemma book_step_ok bk op :
  book_wf bk → inactive_trades bk = [] → op_ok bk op →
  ∃ bk' out, book_step bk op = Some (bk', out) ∧ book_wf bk' ∧ trade_flow bk bk' out.
Proof.
  intros Hwf Hi Hop. destruct op as [o|o|id|id p q|sd p size|]; simpl in *.
  - destruct (add_order_spec clock bk o Hwf Hop) as (bk2 & r & fs & -> & Hr).
    eexists _, _. split_and!; [done|apply Hr|]. by eapply add_result_flow.
  - destruct (add_market_order_spec clock bk o Hwf Hop) as (bk2 & r & fs & -> & Hr).
    eexists _, _. split_and!; [done|apply Hr|]. by eapply add_result_flow.
  - destruct (cancel_order_abs bk id Hwf) as (bk' & Hc & Hw & _).
    rewrite Hc. simpl. eexists _, _. split_and!; [done..|].
    destruct (cancel_order_quiet _ _ _ _ Hc) as (?&?&?). by apply quiet_flow.
  - destruct Hop as [Hp Hq].
    destruct (modify_add_ok bk id p q Hwf Hp Hq) as (bk1 & o & b & Hc & Hw & _ & _ & Hb).
    destruct (cancel_order_quiet _ _ _ _ Hc) as (Q1 & Q2 & Q3). destruct b.
    + destruct Hb as (_ & _ & Hok & ->).
      destruct (add_order_spec clock bk1 _ Hw Hok) as (bk2 & r & fs & -> & Hr).
      eexists _, _. split_and!; [done|apply Hr|].
      eapply add_result_flow in Hr; [|congruence]. unfold trade_flow in *.
      by rewrite Q2, Q3 in Hr.
    + destruct Hb as [-> ->]. eexists _, _. split_and!; [done..|]. by apply quiet_flow.
  - eexists _, _. split; [done|]. split; [by apply update_level_nodes|].
    destruct (update_level_quiet bk sd p size) as (?&?&?). by apply quiet_flow.
  - eexists _, _. split; [by rewrite <- surjective_pairing|].
    split; [by apply drain_trades_wf|by apply drain_trades_flow].
Qed.

Lemma book_reach_wf sym bk log :
  book_reach sym bk log → book_wf bk ∧ inactive_trades bk = [].
Proof.
  induction 1 as [|bk log op bk' out _ [Hwf Hi] Hop Hs]; [split; [apply new_book_wf|done]|].
  destruct (book_step_ok bk op Hwf Hi Hop) as (bk2 & out2 & Hs2 & Hw & [Hin _]).
  rewrite Hs2 in Hs. by injection Hs as -> ->.
Qed.

Lemma ids_after_add id n m : ids_after id (n + m) = ids_after (ids_after id n) m.
Proof. revert id. induction n as [|n IH]; intros id; simpl; [done|]. apply IH. Qed.

Lemma ids_after_small id n :
  0 <= id → id + Z.of_nat n < 2 ^ 31 → ids_after id n = id + Z.of_nat n.
Proof.
  revert id. induction n as [|n IH]; intros id H0 Hn; simpl; [lia|].
  rewrite i32_id by (unfold is_i32; lia). rewrite IH by lia. lia.
Qed.

Lemma book_reach_ids sym bk log :
  book_reach sym bk log →
  ob_next_trade_id bk = ids_after 1 (length (log ++ active_trades bk)) ∧
  ∀ i t, (log ++ active_trades bk) !! i = Some t → t_trade_id t = ids_after 1 i.
Proof.
  induction 1 as [|bk log op bk' out Hreach [Hid IH] Hop Hs]; [done|].
  destruct (book_reach_wf _ _ _ Hreach) as [Hwf Hi].
  destruct (book_step_ok bk op Hwf Hi Hop) as (bk2 & out2 & Hs2 & _ & _ & ts & Ht & Hn & Hts).
  rewrite Hs2 in Hs. injection Hs as -> ->.
  rewrite <- app_assoc, Ht, app_assoc. split.
  - rewrite Hn, Hid, <- ids_after_add, <- length_app. done.
  - intros i t [Hl|[Hge Hl]]%lookup_app_Some; [by apply IH|].
    rewrite (Hts _ _ Hl), Hid, <- ids_after_add. f_equal. lia.
Qed.

Lemma pt_rest_asks b e : is_buy e = true → pt_asks (pt_rest b e) = pt_asks b.
Proof. unfold pt_rest. by intros ->. Qed.
Lemma pt_rest_bids b e : is_buy e = false → pt_bids (pt_rest b e) = pt_bids b.
Proof. unfold pt_rest. by intros ->. Qed.

(** What is left opposite after [pt_add]: no better than what was taken, and
    not acceptable if something of the order is left. *)
Lemma add_opposite_best bk o bk2 r fs :
  book_wf bk → pt_add (abs bk) o = (abs bk2, r, fill_taken <$> fs) →
  ∀ x, x ∈ (if is_buy o then pt_asks (abs bk2) else pt_bids (abs bk2)) →
  (∀ f, f ∈ fs → if is_buy o then d_le (o_price f.1.2) (o_price x) = true
                 else d_le (o_price x) (o_price f.1.2) = true) ∧
  (fills_total fs < open o → acceptable o x = false).
Proof.
  intros Hwf Habs x. unfold pt_add, pt_cross in Habs. destruct (is_buy o) eqn:Hb.
  - pose proof (wf_asks _ Hwf) as Hside.
    destruct (pt_match _ _ _) as [taken rest] eqn:E. injection Habs as Hbk _ ->.
    assert (pt_asks (abs bk2) = rest) as ->.
    { rewrite <- Hbk. case_match; [|done]. by apply pt_rest_asks. }
    intros Hx. split.
    + intros f Hf. apply le_before_asks.
      apply (pt_match_best (not_after d_less) _ _ _ _ _
        (λ y, abs_side_refl d_less SELL _ y Hside) (abs_side_sorted d_less SELL _ Hside) E
        (fill_taken f)); [by apply list_elem_of_fmap_2|done].
    + intros Hlt. rewrite <- taken_fills in Hlt.
      refine (pt_match_exhausted (not_after d_less) _ _ _ _ _ (abs_side_live d_less SELL _ Hside)
        (λ y, abs_side_refl d_less SELL _ y Hside) (abs_side_sorted d_less SELL _ Hside) _ E Hlt x Hx).
      intros a b Hab. unfold acceptable. rewrite Hb. destruct (is_limit o); simpl; [|done].
      apply le_before_asks in Hab. eauto using d_le_trans.
  - pose proof (wf_bids _ Hwf) as Hside.
    destruct (pt_match _ _ _) as [taken rest] eqn:E. injection Habs as Hbk _ ->.
    assert (pt_bids (abs bk2) = rest) as ->.
    { rewrite <- Hbk. case_match; [|done]. by apply pt_rest_bids. }
    intros Hx. split.
    + intros f Hf. apply le_before_bids.
      apply (pt_match_best (not_after d_greater) _ _ _ _ _
        (λ y, abs_side_refl d_greater BUY _ y Hside) (abs_side_sorted d_greater BUY _ Hside) E
        (fill_taken f)); [by apply list_elem_of_fmap_2|done].
    + intros Hlt. rewrite <- taken_fills in Hlt.
      refine (pt_match_exhausted (not_after d_greater) _ _ _ _ _ (abs_side_live d_greater BUY _ Hside)
        (λ y, abs_side_refl d_greater BUY _ y Hside) (abs_side_sorted d_greater BUY _ Hside) _ E Hlt x Hx).
      intros a b Hab. unfold acceptable. rewrite Hb. destruct (is_limit o); simpl; [|done].
      apply le_before_bids in Hab. eauto using d_le_trans.
Qed.

(** ** The claims *)

(** C1 -- [add_order] refines price-time priority: for a book that satisfies
    the invariant and an order with a fresh id, in-range quantities and a
    number for a price, the queues of the book afterwards, the order reported
    back and the trades appended to the active buffer are those of [pt_add];
    each trade carries the ids, the quantity and the resting order's price. *)
Theorem add_order_refines_price_time bk o (Hwf : book_wf bk) (Hok : add_ok bk o) :
  let '(bk', r) := add_order clock bk o in
  ∃ taken ts, pt_add (abs bk) o = (abs bk', r, taken) ∧
    active_trades bk' = active_trades bk ++ ts ∧ Forall2 (reports o) taken ts.
Proof.
  destruct (add_order_spec clock bk o Hwf Hok) as (bk2 & r & fs & -> & []).
  eexists _, _. split_and!; [exact ar_abs|exact ar_trades|]. by apply reports_fills.
Qed.

(** A market order takes the best of the opposite side until it is
    filled or the side is empty, and never rests: the trades add up to the
    smaller of the order's open quantity and all that is open opposite, the
    own side's queue is unchanged, and the order reported back has been filled
    by exactly that quantity. *)
Theorem add_market_order_takes_all bk o (Hwf : book_wf bk) (Hq : qty_ok o) :
  let '(bk', r) := add_market_order clock bk o in
  let opposite b := if is_buy o then pt_asks b else pt_bids b in
  let own b := if is_buy o then pt_bids b else pt_asks b in
  let total := Z.min (Z.max (open o) 0) (queue_open (opposite (abs bk))) in
  ∃ ts, active_trades bk' = active_trades bk ++ ts ∧
    Zsum (t_quantity <$> ts) = total ∧ o_filled_qty r = o_filled_qty o + total ∧
    own (abs bk') = own (abs bk) ∧
    queue_open (opposite (abs bk')) = queue_open (opposite (abs bk)) - total.
Proof.
  destruct (add_market_order_spec clock bk o Hwf Hq) as (bk2 & r & fs & -> & []).
  simpl. set (o1 := set_price (set_type o MARKET) d_zero) in *. eexists. split; [exact ar_trades|].
  assert (∀ l sym id ck, Zsum (t_quantity <$> fill_trades clock sym o1 id ck l) = fills_total l)
    as Hsum.
  { induction l as [|[[p x] m] l IH]; intros; simpl; [done|]. by rewrite IH. }
  rewrite Hsum. clear Hsum. assert (o_filled_qty r = o_filled_qty o + fills_total fs) as ->.
  { rewrite ar_result. unfold pt_result. by repeat case_match. }
  unfold pt_add, pt_cross in ar_abs. assert (is_buy o1 = is_buy o) as Hb by done.
  assert (∀ x, acceptable o1 x = true) as Hacc by done.
  assert (is_limit o1 = false) as Hlim by done. rewrite Hb in ar_abs.
  destruct (is_buy o); [pose proof (abs_side_live d_less SELL _ (wf_asks _ Hwf)) as Hl
                       |pose proof (abs_side_live d_greater BUY _ (wf_bids _ Hwf)) as Hl];
    destruct (pt_match _ _ _) as [taken rest] eqn:E; rewrite Hlim, andb_false_r in ar_abs;
    injection ar_abs as Hbids Hasks _ ->;
    pose proof (pt_match_open _ _ _ _ _ Hl E) as Hrest;
    pose proof (pt_match_market _ _ _ _ _ Hl Hacc E) as Htot; rewrite taken_fills in Htot, Hrest;
    simpl in *; rewrite <- Hbids, <- Hasks; change (open o1) with (open o) in Htot; rewrite <- Htot;
    (split_and!; [done..|exact Hrest]).
Qed.

(** C6 -- No sequence of calls breaks the book: on every book that calls can
    lead to from a new one, the invariant holds (levels sorted and not empty,
    the index exactly the resting ids, no crossed prices), and every call the
    callers may make is defined, in particular every iterator stored in the
    index points to a live node of the level it is erased from. *)
Theorem book_reach_safe sym bk log op
    (Hreach : book_reach sym bk log) (Hop : op_ok bk op) :
  book_wf bk ∧ ∃ bk' out, book_step bk op = Some (bk', out) ∧ book_wf bk'.
Proof.
  destruct (book_reach_wf _ _ _ Hreach) as [Hwf Hi]. split; [done|].
  destruct (book_step_ok bk op Hwf Hi Hop) as (bk' & out & ? & ? & _). eauto.
Qed.

(** C22 -- Every trade is handed out exactly once and in order: the trades
    drained so far followed by those still in the active buffer are numbered
    1, 2, 3, ... without a gap or a repetition, as long as the 32-bit counter
    does not overflow. *)
Theorem trades_exactly_once sym bk log
    (Hreach : book_reach sym bk log)
    (Hfew : Z.of_nat (length (log ++ active_trades bk)) < 2 ^ 31 - 1) :
  t_trade_id <$> (log ++ active_trades bk) = seqZ 1 (Z.of_nat (length (log ++ active_trades bk))).
Proof.
  destruct (book_reach_ids _ _ _ Hreach) as [_ Hids].
  apply list_eq. intros i. rewrite list_lookup_fmap.
  destruct ((log ++ active_trades bk) !! i) as [t|] eqn:E; simpl.
  - pose proof (lookup_lt_Some _ _ _ E). rewrite (Hids _ _ E), ids_after_small by lia.
    rewrite lookup_seqZ_lt by lia. done.
  - apply lookup_ge_None in E. rewrite lookup_seqZ_ge by lia. done.
Qed.

(** C16 -- No quantity is created or lost: after [add_order] the opposite
    queue is short of exactly what was traded, and the own queue has gained
    exactly the open rest of a limit order. *)
Theorem quantity_conserved bk o (Hwf : book_wf bk) (Hok : add_ok bk o) :
  let '(bk', r) := add_order clock bk o in
  let opposite b := if is_buy o then pt_asks b else pt_bids b in
  let own b := if is_buy o then pt_bids b else pt_asks b in
  let traded := o_filled_qty r - o_filled_qty o in
  0 <= traded <= Z.max (open o) 0 ∧
  queue_open (opposite (abs bk')) = queue_open (opposite (abs bk)) - traded ∧
  queue_open (own (abs bk')) =
    queue_open (own (abs bk)) + if is_limit o then Z.max (open r) 0 else 0.
Proof.
  destruct (add_order_spec clock bk o Hwf Hok) as (bk2 & r & fs & -> & []). cbv beta iota zeta.
  destruct Hok as (Hq & _). rewrite remaining_exact in ar_total by done.
  assert (o_filled_qty r = o_filled_qty o + fills_total fs ∧ open r = open o - fills_total fs)
    as [-> ->].
  { rewrite ar_result. unfold pt_result, open. repeat case_match; simpl; lia. }
  unfold pt_add, pt_cross in ar_abs.
  destruct (is_buy o) eqn:Hb; [pose proof (abs_side_live d_less SELL _ (wf_asks _ Hwf)) as Hl
                       |pose proof (abs_side_live d_greater BUY _ (wf_bids _ Hwf)) as Hl];
    destruct (pt_match _ _ _) as [taken rest] eqn:E; injection ar_abs as Habs _ ->;
    pose proof (pt_match_open _ _ _ _ _ Hl E) as Hrest; rewrite taken_fills in *;
    rewrite <- Habs; (split; [unfold open; lia|]); clear Habs;
    set (rst := set_status _ _) in *;
    assert (open rst = open o - fills_total fs) as Hopen by (unfold open; simpl; lia);
    change (open (set_filled o _)) with (open rst); rewrite Hopen;
    unfold pt_rest; assert (is_buy rst = is_buy o) as -> by done; rewrite Hb;
    destruct (is_limit o); rewrite ?andb_true_r, ?andb_false_r;
    try case_match; zbool; simpl in *; rewrite ?pt_insert_open, ?Hopen; lia.
Qed.

(** The orders [o] can trade with, and the prices that are for it as good as [q]. *)
Definition opposite (o : Order) (b : pt_book) : list Order :=
  if is_buy o then pt_asks b else pt_bids b.
Definition as_good (o : Order) (p q : double) : bool :=
  if is_buy o then d_le p q else d_le q p.

Lemma as_good_eq o p p' q : d_eq p p' = true → as_good o p' q = true → as_good o p q = true.
Proof.
  unfold as_good. intros He H. destruct (is_buy o); eapply d_le_trans; try exact H;
    rewrite d_le_spec; apply orb_true_iff; right; [done|by apply d_eq_sym].
Qed.

Lemma add_taken_opposite b o b' r taken rm :
  pt_add b o = (b', r, taken) → rm ∈ taken → rm.1 ∈ opposite o b.
Proof.
  unfold pt_add, pt_cross, opposite. destruct (is_buy o).
  all: destruct (pt_match _ _ _) as [taken' rest] eqn:E; intros [= _ _ <-]; by apply (pt_match_taken _ _ _ _ _ _ E).
Qed.

(** C19 -- Nobody is traded through: every trade that [add_order] appends to the active
    buffer names an order that was resting opposite, and was made at the price of that
    order; its price is within the limit of the incoming order; no order left
    opposite after the call has a better price than it; and if part of the order is
    left, no order left opposite was acceptable to it. *)
Theorem no_trade_through bk o (Hwf : book_wf bk) (Hok : add_ok bk o) :
  let '(bk', r) := add_order clock bk o in
  ∃ ts, active_trades bk' = active_trades bk ++ ts ∧
  (∀ t, t ∈ ts →
    (∃ x, x ∈ opposite o (abs bk) ∧
       o_id x = (if is_buy o then t_sell_order_id t else t_buy_order_id t) ∧
       d_eq (t_price t) (o_price x) = true) ∧
    (is_limit o = true → as_good o (t_price t) (o_price o) = true) ∧
    ∀ y, y ∈ opposite o (abs bk') → as_good o (t_price t) (o_price y) = true) ∧
  (o_filled_qty r < o_quantity r → ∀ y, y ∈ opposite o (abs bk') → acceptable o y = false).
Proof.
  destruct (add_order_spec clock bk o Hwf Hok) as (bk2 & r & fs & -> & []). cbv beta iota zeta.
  assert (o_filled_qty r = o_filled_qty o + fills_total fs ∧ o_quantity r = o_quantity o)
    as [-> ->] by (rewrite ar_result; unfold pt_result; by repeat case_match).
  eexists. split; [exact ar_trades|]. split.
  - pose proof (reports_fills clock bk o (ob_next_trade_id bk) (ob_clock bk) _ ar_price) as Hts.
    intros t (i & Ht)%list_elem_of_lookup.
    destruct (Forall2_lookup_r _ _ _ _ _ Hts Ht) as (rm & Hrm & Hb & Hs & _ & Hp).
    apply list_elem_of_lookup_2 in Hrm. pose proof Hrm as (f & -> & Hf)%list_elem_of_fmap.
    split; [|split].
    + exists (fill_taken f).1. split; [by apply (add_taken_opposite _ _ _ _ _ _ ar_abs)|].
      split; [destruct (is_buy o); congruence|exact Hp].
    + intros Hl. apply (as_good_eq _ _ _ _ Hp).
      pose proof (proj1 (Forall_forall _ _) ar_price f Hf) as [_ Hacc].
      unfold acceptable in Hacc. rewrite Hl in Hacc. exact Hacc.
    + intros y Hy. apply (as_good_eq _ _ _ _ Hp).
      destruct (add_opposite_best bk o bk2 r fs Hwf ar_abs y Hy) as [Hbest _].
      specialize (Hbest f Hf). unfold as_good. by destruct (is_buy o).
  - intros Hlt y Hy. destruct (add_opposite_best bk o bk2 r fs Hwf ar_abs y Hy) as [_ He].
    apply He. unfold open. lia.
Qed.

(** C24 -- [cancel_order] is exact: it reports whether the id was resting,
    takes that order and no other out of its queue, keeps every other order's
    place and the trades, and touches no dead iterator. *)
Theorem cancel_order_exact bk id (Hwf : book_wf bk) :
  ∃ bk', cancel_order bk id = Some (bk', bool_decide (id ∈ o_id <$> pt_orders (abs bk))) ∧
    book_wf bk' ∧ abs bk' = without_id id (abs bk) ∧ active_trades bk' = active_trades bk.
Proof. destruct (cancel_order_abs bk id Hwf) as (bk' & ? & ? & ? & _ & ?). eauto. Qed.

(** C25 -- [modify_order] on a resting id takes the order out and enters it
    again, at the new price and quantity with nothing filled, by the rules of
    price-time priority (so it may trade at once and is last in its price
    level); an id that is not resting is rejected and changes nothing. *)
Theorem modify_order_requeues bk id price qty
    (Hwf : book_wf bk) (Hp : is_nan price = false) (Hq : is_i32 qty) :
  ∃ bk' r, modify_order clock bk id price qty = Some (bk', r) ∧ book_wf bk' ∧
    if bool_decide (id ∈ o_id <$> pt_orders (abs bk)) then
      ∃ o taken, o ∈ pt_orders (abs bk) ∧ o_id o = id ∧
        pt_add (without_id id (abs bk)) (modified_order o price qty) = (abs bk', r, taken)
    else bk' = bk ∧ r = set_status default_order REJECTED.
Proof.
  destruct (modify_add_ok bk id price qty Hwf Hp Hq) as (bk1 & o & b & _ & Hw & Ha & -> & Hb).
  case_bool_decide.
  - destruct Hb as (Hin & Hid & Hok & ->).
    destruct (add_order_spec clock bk1 _ Hw Hok) as (bk2 & r & fs & -> & Hr).
    exists bk2, r. split; [done|]. split; [apply Hr|]. rewrite <- Ha.
    exists o. eexists. split_and!; [done..|]. apply Hr.
  - destruct Hb as [_ ->]. eauto 10.
Qed.

Lemma pt_match_none taker q queue :
  Forall (λ r, acceptable taker r = false) queue → pt_match taker q queue = ([], queue).
Proof. intros [|r l Hr Hl]; simpl; [done|]. by rewrite Hr, andb_false_r. Qed.

Lemma filter_insert_fresh before e queue :
  Forall (λ o, o_id o ≠ o_id e) queue →
  filter (λ o, o_id o ≠ o_id e) (pt_insert before e queue) = queue.
Proof.
  intros H. induction H as [|r l Hr H IH]; simpl.
  - by rewrite filter_cons_False by (intros ?; auto).
  - destruct (before _ _).
    + rewrite filter_cons_False by (intros ?; auto). apply filter_true. by constructor.
    + rewrite filter_cons_True by done. by rewrite IH.
Qed.

Lemma fresh_id bk o :
  book_wf bk → ob_index bk !! o_id o = None →
  Forall (λ x, o_id x ≠ o_id o) (pt_orders (abs bk)).
Proof.
  intros Hwf Hid. apply (index_ok_None _ _ _ (wf_index_ok _ Hwf)) in Hid.
  rewrite node_ids in Hid. apply Forall_forall. intros x Hx He. apply Hid.
  rewrite <- He. by apply list_elem_of_fmap_2.
Qed.

(** Adding a limit order that nothing opposite is acceptable to and
    cancelling it again restores both queues, and the cancel reports success. *)
Theorem add_then_cancel bk o (Hwf : book_wf bk) (Hok : add_ok bk o)
    (Hlim : is_limit o = true) (Hopen : 0 < open o)
    (Hpassive : Forall (λ x, acceptable o x = false)
                  (if is_buy o then pt_asks (abs bk) else pt_bids (abs bk))) :
  ∃ bk', cancel_order (add_order clock bk o).1 (o_id o) = Some (bk', true) ∧
    abs bk' = abs bk ∧ book_wf bk'.
Proof.
  destruct (add_order_spec clock bk o Hwf Hok) as (bk2 & r & fs & -> & []). simpl.
  destruct Hok as (_ & _ & Hid). pose proof (fresh_id bk o Hwf Hid) as Hfresh.
  unfold pt_add, pt_cross in ar_abs.
  assert (∃ e, abs bk2 = pt_rest (abs bk) e ∧ o_id e = o_id o) as (e & Habs & He).
  { destruct (is_buy o); rewrite pt_match_none in ar_abs by done; rewrite Hlim in ar_abs;
      change (taken_total []) with 0 in ar_abs;
      rewrite (proj2 (Z.ltb_lt 0 (open _))) in ar_abs by (unfold open in *; simpl; lia);
      injection ar_abs as Habs _ _; rewrite <- Habs; by eexists. }
  destruct (cancel_order_abs bk2 (o_id o) ar_wf) as (bk3 & Hc & Hw & Ha & _ & _).
  exists bk3. rewrite Hc. apply Forall_app in Hfresh as [Hb Hs].
  rewrite Habs in Ha |- *. unfold pt_rest in *. rewrite <- He in *. split_and!; [|rewrite Ha|done].
  - do 2 f_equal. apply bool_decide_eq_true. apply list_elem_of_fmap. exists e. split; [done|].
    unfold pt_orders. destruct (is_buy e); simpl; rewrite pt_insert_perm; set_solver.
  - unfold without_id, pt_keep, abs in *. destruct (is_buy e); simpl in *;
      by rewrite filter_insert_fresh, filter_true.
Qed.

End run.

(** ** Queries *)

Lemma level_size_foldl nodes acc :
  Forall (λ n, qty_ok (n_order n)) nodes →
  foldl (λ total n, i32 (total + remaining (n_order n))) (i32 acc) nodes =
  i32 (acc + queue_open (n_order <$> nodes)).
Proof.
  intros H. revert acc. induction H as [|n nodes Hn H IH]; intros acc.
  - unfold queue_open. simpl. by rewrite Z.add_0_r.
  - rewrite fmap_cons, queue_open_cons. cbn [foldl].
    rewrite i32_add_l, IH, remaining_exact by done. f_equal. unfold open at 1. lia.
Qed.

Lemma level_size_spec sd p l :
  level_ok sd (p, l) → level_size l = i32 (queue_open (n_order <$> l)).
Proof.
  intros [_ H]. unfold level_size. change 0 with (i32 0).
  rewrite level_size_foldl; [done|]. eapply Forall_impl; [done|]. by intros n (_&_&_&?&_).
Qed.

(** The orders of a side at one price. *)
Definition at_price (p : double) (queue : list Order) : list Order :=
  filter (λ r, d_eq (o_price r) p = true) queue.

Lemma at_price_level before `{!KeyOrder before} sd m p l :
  side_wf before sd m → (p, l) ∈ m → n_order <$> l = at_price p (abs_side m).
Proof.
  intros Hm (m1 & m2 & ->)%list_elem_of_split.
  apply side_wf_app in Hm as (W1 & W2 & W12).
  apply side_wf_cons in W2 as (Hp & [_ Hl] & W2 & Hall); [|done]. simpl in *.
  unfold at_price, abs_side. rewrite level_nodes_app, level_nodes_cons, !fmap_app, !filter_app.
  assert (∀ m', side_wf before sd m' →
    (∀ x, x ∈ m' → before p x.1 = true ∨ before x.1 p = true) →
    filter (λ r, d_eq (o_price r) p = true) (n_order <$> level_nodes m') = []) as Hnil.
  { intros m' Hm' Hne. apply filter_false, Forall_fmap, Forall_forall. intros n Hn. simpl.
    destruct (side_wf_nodes _ _ _ _ Hm' Hn) as (q & l' & Hin & _ & (_ & _ & He & _)).
    intros He'. assert (d_eq q p = true) as Hqp by eauto using d_eq_trans, d_eq_sym.
    destruct (Hne _ Hin) as [Hc|Hc]; simpl in Hc; rewrite before_eq_false in Hc;
      eauto using d_eq_sym; done. }
  rewrite !Hnil, app_nil_r; simpl; try done.
  - symmetry. apply filter_true, Forall_fmap. eapply Forall_impl; [done|].
    by intros n (_ & _ & ? & _).
  - rewrite Forall_forall in Hall. intros x Hx. left. by apply Hall.
  - intros x Hx. right. apply (W12 x (p, l)); [done|]. by left.
Qed.

(** The snapshot of a side down to [depth] levels, read off its queue: strictly
    ordered prices, the open quantity at each, and no order at a better price
    than the last one listed that is not at a listed price. *)
Definition snapshot_of (before : double → double → bool) (depth : nat) (queue : list Order)
    (levels : list (double * Z)) : Prop :=
  StronglySorted (λ a b, before a.1 b.1 = true) levels ∧
  Forall (λ l, l.2 = i32 (queue_open (at_price l.1 queue)) ∧ at_price l.1 queue ≠ []) levels ∧
  (length levels <= depth)%nat ∧
  ∀ r, r ∈ queue →
    (∃ l, l ∈ levels ∧ d_eq (o_price r) l.1 = true) ∨
    (length levels = depth ∧ Forall (λ l, before l.1 (o_price r) = true) levels).

Lemma side_snapshot before `{!KeyOrder before} sd m depth :
  side_wf before sd m →
  snapshot_of before depth (abs_side m) ((λ l, (l.1, level_size l.2)) <$> take depth m).
Proof.
  intros Hm. split_and!.
  - rewrite <- (take_drop depth m) in Hm. apply side_wf_app in Hm as ([Hs _] & _ & _).
    revert Hs. generalize (take depth m). clear. intros m.
    induction m as [|[p l] m IH]; intros Hs; simpl; constructor.
    + apply IH. by apply map_sorted_cons in Hs as (_ & ? & _).
    + apply map_sorted_cons in Hs as (_ & _ & Hall). apply Forall_fmap. done.
  - apply Forall_fmap, Forall_forall. intros [p l] Hin. simpl.
    assert ((p, l) ∈ m) as Hin'. { rewrite <- (take_drop depth m). apply elem_of_app. by left. }
    pose proof Hm as [_ Hl]. rewrite Forall_forall in Hl. pose proof (Hl _ Hin') as Hok.
    rewrite <- (at_price_level before sd m p l) by done. split.
    + by apply (level_size_spec sd p).
    + intros He%fmap_nil_inv. by destruct Hok.
  - rewrite length_fmap, length_take. lia.
  - intros r Hr. unfold abs_side in Hr. apply list_elem_of_fmap in Hr as (n & -> & Hn).
    destruct (side_wf_nodes _ _ _ _ Hm Hn) as (p & l & Hin & _ & (_ & _ & He & _)).
    rewrite <- (take_drop depth m) in Hin, Hm. apply elem_of_app in Hin as [Hin|Hin].
    + left. exists (p, level_size l). split; [|done].
      by apply (list_elem_of_fmap_2 (λ l, (l.1, level_size l.2)) _ (p, l)).
    + right. rewrite length_fmap, length_take. split.
      * apply list_elem_of_lookup in Hin as [i Hi%lookup_lt_Some].
        rewrite length_drop in Hi. lia.
      * apply side_wf_app in Hm as (_ & _ & Hx). apply Forall_fmap, Forall_forall.
        intros x Hx'. simpl. rewrite (before_eq_r _ _ p) by done. by apply (Hx x (p, l)).
Qed.

(** C28 -- The depth snapshots are the book: [get_bid_levels] lists the best
    [depth] prices in strictly descending order, each with the open quantity
    of all bids at that price as an [int32_t], and leaves out a bid only if the
    list is full of better prices; [get_ask_levels] does the same ascending. *)
Theorem depth_levels_exact bk depth (Hwf : book_wf bk) :
  snapshot_of d_greater depth (pt_bids (abs bk)) (get_bid_levels depth bk) ∧
  snapshot_of d_less depth (pt_asks (abs bk)) (get_ask_levels depth bk).
Proof.
  split; [apply (side_snapshot d_greater BUY)|apply (side_snapshot d_less SELL)]; apply Hwf.
Qed.

Lemma head_best before `{!KeyOrder before} sd p l m r :
  side_wf before sd ((p, l) :: m) → r ∈ abs_side ((p, l) :: m) → not_after before p (o_price r).
Proof.
  intros Hm Hr. destruct (abs_side_orders _ _ _ _ Hm Hr) as (q & l' & Hin & (_ & _ & He & _)).
  apply side_wf_cons in Hm as (Hp & _ & _ & Hall); [|done].
  apply elem_of_cons in Hin as [[= -> ->]|Hin].
  - right. by apply d_eq_sym.
  - left. rewrite Forall_forall in Hall. rewrite (before_eq_r p _ q) by done. by apply (Hall _ Hin).
Qed.

Lemma abs_side_nil before sd m : side_wf before sd m → abs_side m = [] → m = [].
Proof.
  intros [_ Hl]. destruct m as [|[p l] m]; [done|]. apply Forall_cons in Hl as [[Hne _] _].
  unfold abs_side. rewrite level_nodes_cons. simpl in Hne. by destruct l.
Qed.

Definition side_best (m : LevelMap) : double := match m with [] => d_zero | (p, _) :: _ => p end.
Definition side_size (m : LevelMap) : Z := match m with [] => 0 | (_, l) :: _ => level_size l end.

Lemma side_top before `{!KeyOrder before} sd m :
  side_wf before sd m →
  (∀ r, r ∈ abs_side m → not_after before (side_best m) (o_price r)) ∧
  if decide (abs_side m = []) then side_best m = d_zero ∧ side_size m = 0
  else at_price (side_best m) (abs_side m) ≠ [] ∧
       side_size m = i32 (queue_open (at_price (side_best m) (abs_side m))).
Proof.
  intros Hm. case_decide as He.
  - rewrite (abs_side_nil _ _ _ Hm He). split; [|done]. intros r Hr. by apply not_elem_of_nil in Hr.
  - destruct m as [|[p l] m]; [done|]. simpl. split; [intros r; by apply (head_best _ sd)|].
    rewrite <- (at_price_level before sd _ p l) by (done || by left).
    apply side_wf_cons in Hm as (_ & Hl & _); [|done]. split.
    + intros He'%fmap_nil_inv. by destruct Hl.
    + by apply (level_size_spec sd p).
Qed.

(** The top of the book: [best_bid] is the highest price of a resting
    bid and [bid_size] the open quantity at that price (both 0 if there is no
    bid), [best_ask] and [ask_size] are the lowest price of a resting ask and
    the quantity there, and [order_count] is the number of resting orders. *)
Theorem top_of_book_exact bk (Hwf : book_wf bk) :
  let bids := pt_bids (abs bk) in
  let asks := pt_asks (abs bk) in
  (∀ r, r ∈ bids → d_le (o_price r) (best_bid bk) = true) ∧
  (∀ r, r ∈ asks → d_le (best_ask bk) (o_price r) = true) ∧
  (if decide (bids = []) then best_bid bk = d_zero ∧ bid_size bk = 0
   else at_price (best_bid bk) bids ≠ [] ∧
        bid_size bk = i32 (queue_open (at_price (best_bid bk) bids))) ∧
  (if decide (asks = []) then best_ask bk = d_zero ∧ ask_size bk = 0
   else at_price (best_ask bk) asks ≠ [] ∧
        ask_size bk = i32 (queue_open (at_price (best_ask bk) asks))) ∧
  order_count bk = length (bids ++ asks).
Proof.
  destruct (side_top _ _ _ (wf_bids _ Hwf)) as [Hb Hb'].
  destruct (side_top _ _ _ (wf_asks _ Hwf)) as [Ha Ha'].
  cbv zeta. split_and!.
  - intros r Hr. by apply le_before_bids, Hb.
  - intros r Hr. by apply le_before_asks, Ha.
  - exact Hb'.
  - exact Ha'.
  - unfold order_count. rewrite (index_ok_size _ _ (wf_index_ok _ Hwf)).
    by rewrite <- (length_fmap n_order), <- abs_orders.
Qed.

(** [update_level] with size 0 takes exactly the orders at that price
    off that side, index entries included; with another size it is a no-op,
    and in both cases the invariant is kept. *)
Theorem update_level_exact bk sd price size
    (Hwf : book_wf bk) (Hp : is_nan price = false) :
  let bk' := update_level bk sd price size in
  book_wf bk' ∧
  abs bk' = (if size =? 0
             then pt_keep (λ o, ¬ (o_side o = sd ∧ d_eq (o_price o) price = true)) (abs bk)
             else abs bk).
Proof.
  destruct (update_level_nodes bk sd price size Hwf Hp) as [Hw Hn]. split; [done|].
  destruct (Z.eqb_spec size 0) as [Hz|Hz].
  - apply filter_abs; [done..|]. rewrite Hn. apply list_filter_iff. done.
  - unfold update_level. by rewrite (proj2 (Z.eqb_neq _ _) Hz).
Qed.

(** A limit order whose price is NaN is not a limit: every comparison
    that would stop it is false, so it trades at any price until it is filled
    or the opposite side is empty. *)
Theorem nan_limit_order_sweeps clock bk o
    (Hwf : book_wf bk) (Hq : qty_ok o) (Hnan : is_nan (o_price o) = true) :
  let '(bk', r) := match_limit_order clock bk o in
  is_filled r = true ∨ (if is_buy o then ob_asks bk' else ob_bids bk') = [].
Proof.
  assert (∀ m, tagged m = [] → ∀ before sd, side_wf before sd m → m = []) as Hnil.
  { intros [|[p l] m] Ht before sd [_ Hl]; [done|]. apply Forall_cons in Hl as [[Hne _] _].
    simpl in Hne. by destruct l. }
  destruct (is_buy o) eqn:Hb.
  - destruct (match_buy clock bk o Hwf Hq Hb) as (bk' & o' & asks' & fs & -> & [] & Hw).
    rewrite final_status_filled. destruct mr_filled as (_ & Hq' & _).
    rewrite is_filled_remaining by done. zcases; [by left|right].
    destruct mr_stopped as [Ht|(p & n & l & _ & Hs)]; [lia|by eapply Hnil, Hw|].
    unfold ask_stops in Hs. by rewrite d_lt_nan_l, andb_false_r in Hs.
  - destruct (match_sell clock bk o Hwf Hq Hb) as (bk' & o' & bids' & fs & -> & [] & Hw).
    rewrite final_status_filled. destruct mr_filled as (_ & Hq' & _).
    rewrite is_filled_remaining by done. zcases; [by left|right].
    destruct mr_stopped as [Ht|(p & n & l & _ & Hs)]; [lia|by eapply Hnil, Hw|].
    unfold bid_stops in Hs. by rewrite d_lt_nan_r, andb_false_r in Hs.
Qed.

(** ** A concrete book *)

Module Demo.

Definition clock (n : nat) : Z * Z := (1700000000, Z.of_nat n).

Definition limit (id : Z) (sd : Side) (price qty : Z) : Order :=
  MkOrder id 1 (d_of_Z price) qty 0 0 sd LIMIT NEW "AAPL".

Definition add (bk : OrderBook) (o : Order) : OrderBook := (add_order clock bk o).1.

(** Two asks at 100, one at 101, two bids below. *)
Definition orders : list Order :=
  [limit 1 SELL 100 10; limit 2 SELL 100 5; limit 3 SELL 101 7; limit 4 BUY 99 20;
   limit 5 BUY 98 8].
Definition book : OrderBook := foldl add (new_book "AAPL") orders.

(** A buyer of 12 up to 100, a passive seller, a buyer at any price. *)
Definition taker : Order := limit 6 BUY 100 12.
Definition passive : Order := limit 7 SELL 105 3.
Definition market : Order := limit 8 BUY 0 30.
Definition nan_order : Order := set_price (limit 9 BUY 0 30) SpecFloat.S754_nan.

Lemma add_ok_b bk o :
  qty_ok o → is_nan (o_price o) = false → ob_index bk !! o_id o = None → add_ok bk o.
Proof. done. Qed.

Ltac demo_ok := apply add_ok_b; [vm_compute; intuition congruence|vm_compute; reflexivity..].

Lemma reach_add sym bk log o :
  book_reach clock sym bk log → add_ok bk o → book_reach clock sym (add bk o) log.
Proof.
  intros H Ho. rewrite <- (app_nil_r log). by eapply (reach_step _ _ _ _ (OpAdd o)).
Qed.

Lemma book_reached : book_reach clock "AAPL" book [].
Proof. repeat (apply reach_add; [|demo_ok]). apply reach_new. Qed.

Lemma book_ok : book_wf book.
Proof. apply (book_reach_wf _ _ _ _ book_reached). Qed.

Lemma taker_ok : add_ok book taker.
Proof. demo_ok. Qed.
Lemma passive_ok : add_ok book passive.
Proof. demo_ok. Qed.

End Demo.

Lemma add_order_refines_price_time_witness :
  let '(bk', r) := add_order Demo.clock Demo.book Demo.taker in
  ∃ taken ts, pt_add (abs Demo.book) Demo.taker = (abs bk', r, taken) ∧
    active_trades bk' = active_trades Demo.book ++ ts ∧ Forall2 (reports Demo.taker) taken ts.
Proof. exact (add_order_refines_price_time Demo.clock _ _ Demo.book_ok Demo.taker_ok). Defined.

Lemma add_market_order_takes_all_witness :
  ∃ ts, active_trades (add_market_order Demo.clock Demo.book Demo.market).1 = ts ∧
    Zsum (t_quantity <$> ts) = 22.
Proof.
  assert (qty_ok Demo.market) as Hq by (vm_compute; intuition congruence).
  pose proof (add_market_order_takes_all Demo.clock _ _ Demo.book_ok Hq) as H.
  revert H. destruct (add_market_order _ _ _) as [bk' r]. intros (ts & Hts & Hsum & _).
  exists ts. split; [exact Hts|]. rewrite Hsum. vm_compute. reflexivity.
Defined.

Lemma book_reach_safe_witness :
  book_wf Demo.book ∧ ∃ bk' out,
    book_step Demo.clock Demo.book (OpModify 4 (d_of_Z 101) 9) = Some (bk', out) ∧ book_wf bk'.
Proof.
  apply (book_reach_safe Demo.clock "AAPL" _ [] _ Demo.book_reached).
  split; vm_compute; intuition congruence.
Defined.

Lemma trades_exactly_once_witness :
  let bk := Demo.add Demo.book Demo.taker in
  t_trade_id <$> ([] ++ active_trades bk) = [1; 2].
Proof.
  intros bk. transitivity (seqZ 1 (Z.of_nat (length ([] ++ active_trades bk))));
    [|vm_compute; reflexivity].
  apply (trades_exactly_once Demo.clock "AAPL" bk []).
  - apply Demo.reach_add; [apply Demo.book_reached|apply Demo.taker_ok].
  - vm_compute. reflexivity.
Defined.

Lemma quantity_conserved_witness :
  queue_open (pt_asks (abs (Demo.add Demo.book Demo.taker))) = 10.
Proof.
  pose proof (quantity_conserved Demo.clock _ _ Demo.book_ok Demo.taker_ok) as H.
  unfold Demo.add. assert (o_filled_qty (add_order Demo.clock Demo.book Demo.taker).2 = 12)
    as Hr by (vm_compute; reflexivity).
  revert H Hr. destruct (add_order _ _ _) as [bk' r]. simpl. intros (_ & H & _) Hr.
  change (pt_asks (abs bk')) with (abs_side (ob_asks bk')). rewrite H, Hr. vm_compute. reflexivity.
Defined.

(** The taker of the demonstration takes 10 of one order at 100 and 2 of the next. *)
Lemma no_trade_through_witness :
  let '(bk', r) := add_order Demo.clock Demo.book Demo.taker in
  ∃ ts, active_trades bk' = active_trades Demo.book ++ ts ∧
  ∀ t, t ∈ ts →
    as_good Demo.taker (t_price t) (o_price Demo.taker) = true ∧
    ∀ y, y ∈ opposite Demo.taker (abs bk') → as_good Demo.taker (t_price t) (o_price y) = true.
Proof.
  pose proof (no_trade_through Demo.clock _ _ Demo.book_ok Demo.taker_ok) as H.
  destruct (add_order _ _ _) as [bk' r]. destruct H as (ts & Hts & H & _).
  exists ts. split; [exact Hts|]. intros t Ht. destruct (H t Ht) as (_ & Hl & Hy).
  split; [by apply Hl|exact Hy].
Defined.

Lemma cancel_order_exact_witness :
  ∃ bk', cancel_order Demo.book 2 = Some (bk', true) ∧
    o_id <$> pt_asks (abs bk') = [1; 3].
Proof.
  destruct (cancel_order_exact _ 2 Demo.book_ok) as (bk' & Hc & _ & Ha & _).
  exists bk'. rewrite Hc, Ha. split; vm_compute; reflexivity.
Defined.

Lemma modify_order_requeues_witness :
  ∃ bk' r, modify_order Demo.clock Demo.book 1 (d_of_Z 100) 4 = Some (bk', r) ∧ book_wf bk'.
Proof.
  destruct (modify_order_requeues Demo.clock _ 1 (d_of_Z 100) 4 Demo.book_ok)
    as (bk' & r & ? & ? & _); [vm_compute; intuition congruence..|]. eauto.
Defined.

Lemma add_then_cancel_witness :
  ∃ bk', cancel_order (Demo.add Demo.book Demo.passive) 7 = Some (bk', true) ∧
    abs bk' = abs Demo.book ∧ book_wf bk'.
Proof.
  apply (add_then_cancel Demo.clock _ _ Demo.book_ok Demo.passive_ok).
  - reflexivity.
  - vm_compute. reflexivity.
  - vm_compute. repeat constructor.
Defined.

Lemma depth_levels_exact_witness :
  snapshot_of d_greater 5 (pt_bids (abs Demo.book)) (get_bid_levels 5 Demo.book) ∧
  (get_ask_levels 1 Demo.book).*2 = [15].
Proof. split; [apply (depth_levels_exact _ 5 Demo.book_ok)|vm_compute; reflexivity]. Defined.

Lemma top_of_book_exact_witness :
  order_count Demo.book = 5%nat ∧ ask_size Demo.book = 15.
Proof.
  destruct (top_of_book_exact _ Demo.book_ok) as (_ & _ & _ & Ha & Hn). split.
  - rewrite Hn. vm_compute. reflexivity.
  - vm_compute. reflexivity.
Defined.

Lemma update_level_exact_witness :
  o_id <$> pt_asks (abs (update_level Demo.book SELL (d_of_Z 100) 0)) = [3].
Proof.
  destruct (update_level_exact _ SELL (d_of_Z 100) 0 Demo.book_ok) as [_ ->];
    vm_compute; reflexivity.
Defined.

Lemma nan_limit_order_sweeps_witness :
  ob_asks (match_limit_order Demo.clock Demo.book Demo.nan_order).1 = [].
Proof.
  pose proof (nan_limit_order_sweeps Demo.clock _ Demo.nan_order Demo.book_ok) as H.
  assert (is_filled (match_limit_order Demo.clock Demo.book Demo.nan_order).2 = false)
    as Hf by (vm_compute; reflexivity).
  revert H Hf. destruct (match_limit_order _ _ _) as [bk' r].
  intros H Hf. simpl in *. destruct H as [H|H]; [vm_compute; intuition congruence|reflexivity| |done].
  congruence.
Defined.

(** [add_order] does not check that the id is free: a second order with
    the id of a resting one takes over its index entry, so that cancelling the
    id twice reaches only the newer order and the older one stays in the book,
    in no index, for good. *)
Theorem duplicate_id_orphans_order :
  let bk := Demo.add (Demo.add (new_book "AAPL") (Demo.limit 1 BUY 99 10)) (Demo.limit 1 BUY 98 5) in
  ∃ bk1 bk2, cancel_order bk 1 = Some (bk1, true) ∧ cancel_order bk1 1 = Some (bk2, false) ∧
    order_count bk2 = 0%nat ∧ pt_bids (abs bk2) = [Demo.limit 1 BUY 99 10].
Proof. vm_compute. eexists _, _. split_and!; reflexivity. Qed.
