(* ===== verification/SourceTests.v ===== *)
(** * The program's own tests (src/tests/)

    The sequential test functions, run on the definitions of this library: each is a
    script in a monad of assertions over the state of its component, as long as the
    test it follows, and evaluates to a pass.  [test_threaded] and
    [test_multi_threaded] start threads and loop until they are done; what they look
    for is proved for every interleaving in RingBufferSPSC.v, and shown not to hold in
    MemoryPool.v. *)

From S2P Require Import RingBuffer MemoryPool OrderBook.

(** ** Scripts *)

(** A failed [assert] and undefined behaviour both end the test. *)
Definition script (S A : Type) : Type := S → option (A * S).

Section scripts.
Context {S : Type}.

Definition done_with {A} (x : A) : script S A := λ s, Some (x, s).
Definition and_then {A B} (m : script S A) (f : A → script S B) : script S B :=
  λ s, '(x, s) ← m s; f x s.
Definition assert (b : bool) : script S unit := λ s, if b then Some ((), s) else None.
Definition look {A} (f : S → A) : script S A := λ s, Some (f s, s).

(** [for (int i = 0; i < n; i++)] *)
Fixpoint for_each {A} (l : list A) (body : A → script S unit) : script S unit :=
  match l with [] => done_with () | x :: l => and_then (body x) (λ _, for_each l body) end.

End scripts.

Declare Scope script_scope.
Delimit Scope script_scope with script.
Notation "x <- m ; k" := (and_then m (λ x, k%script))
  (at level 20, m at level 100, k at level 200) : script_scope.
Notation "m ;; k" := (and_then m (λ _, k%script))
  (at level 100, k at level 200, right associativity) : script_scope.

Definition passes {S A} (m : script S A) (s : S) : bool :=
  match m s with Some _ => true | None => false end.

(** ** Ring buffer (tests/test_ring_buffer.c) *)

Module RingBufferTests.

Definition rb_script : Type → Type := script (ring_buffer_t nat).

(** The pointers are addresses of [values], the index of an element here. *)
Definition push (i : nat) : rb_script bool :=
  λ rb, '(rb, ok) ← ring_buffer_push rb (Some i); Some (ok, rb).
Definition pop : rb_script (option nat) :=
  λ rb, '(rb, v) ← ring_buffer_pop rb; Some (v, rb).
Definition init (capacity : Z) : rb_script Z :=
  λ rb, let '(rb', rc) := ring_buffer_init true (Some rb) capacity in
        rb' ← rb'; Some (rc, rb').
Definition empty : rb_script bool := look (λ rb, ring_buffer_empty (Some rb)).
Definition full : rb_script bool := look (λ rb, ring_buffer_full (Some rb)).
Definition count : rb_script Z := look (λ rb, ring_buffer_count (Some rb)).
Definition destroy : rb_script unit :=
  λ rb, rb' ← ring_buffer_destroy (Some rb); Some ((), rb').

(** [ring_buffer_t rb;], not initialised. *)
Definition stack_buffer : ring_buffer_t nat := RingBuffer 0 0 None 0 0.

Open Scope script_scope.

Definition test_basic_push_pop : rb_script unit :=
  ret <- init 64; assert (ret =? 0);;
  e <- empty; assert e;;
  f <- full; assert (negb f);;
  for_each (seq 0 10) (λ i, pushed <- push i; assert pushed);;
  c <- count; assert (c =? 10);;
  e <- empty; assert (negb e);;
  for_each (seq 0 10) (λ i, v <- pop; assert (bool_decide (v = Some i)));;
  e <- empty; assert e;;
  null_pop <- pop; assert (bool_decide (null_pop = None));;
  destroy.

Definition test_full_buffer : rb_script unit :=
  ret <- init 4; assert (ret =? 0);;
  ok <- push 1; assert ok;;
  ok <- push 2; assert ok;;
  ok <- push 3; assert ok;;
  ok <- push 4; assert (negb ok);;
  f <- full; assert f;;
  popped <- pop; assert (bool_decide (popped = Some 1%nat));;
  ok <- push 4; assert ok;;
  destroy.

Definition test_wrap_around : rb_script unit :=
  ret <- init 8; assert (ret =? 0);;
  for_each (seq 0 10) (λ _,
    for_each (seq 0 7) (λ i, ok <- push i; assert ok);;
    for_each (seq 0 7) (λ i, v <- pop; assert (bool_decide (v = Some i))));;
  e <- empty; assert e;;
  destroy.

Lemma ring_buffer_tests_pass :
  passes test_basic_push_pop stack_buffer = true ∧ passes test_full_buffer stack_buffer = true ∧
  passes test_wrap_around stack_buffer = true.
Proof. vm_compute. by split_and!. Qed.

End RingBufferTests.

(** ** Memory pool (tests/test_memory_pool.c) *)

Module MemoryPoolTests.

Definition mp_script : Type → Type := script mempool_t.

(** The block that [malloc] returns is at address 4096. *)
Definition init (size capacity : Z) : mp_script Z :=
  λ mp, let '(mp', rc) := mempool_init 4096 true (Some mp) size capacity in
        mp' ← mp'; Some (rc, mp').
Definition alloc : mp_script Z := λ mp, '(mp, p) ← mempool_alloc mp; Some (p, mp).
Definition free (p : Z) : mp_script unit := λ mp, mp ← mempool_free mp p; Some ((), mp).
Definition available : mp_script Z := look (λ mp, mempool_available (Some mp)).
Definition capacity : mp_script Z := look (λ mp, mempool_capacity (Some mp)).

(** The loop that fills [ptrs]. *)
Fixpoint alloc_all (n : nat) : mp_script (list Z) :=
  match n with
  | O => done_with []
  | Datatypes.S n =>
    and_then alloc (λ p, and_then (assert (negb (p =? 0))) (λ _,
      and_then (alloc_all n) (λ ps, done_with (p :: ps))))
  end.

Open Scope script_scope.

Definition test_alloc_free : mp_script unit :=
  ret <- init 64 16; assert (ret =? 0);;
  a <- available; assert (a =? 16);;
  c <- capacity; assert (c =? 16);;
  ptrs <- alloc_all 16;
  a <- available; assert (a =? 0);;
  null_alloc <- alloc; assert (null_alloc =? 0);;
  for_each (take 8 ptrs) free;;
  a <- available; assert (a =? 8);;
  alloc_all 8;;
  a <- available; assert (a =? 0).

(** What the objects hold is left out. *)
Definition test_pointer_validity : mp_script unit :=
  ret <- init 128 32; assert (ret =? 0);;
  p1 <- alloc; p2 <- alloc;
  assert (negb (p1 =? 0));; assert (negb (p2 =? 0));;
  assert (4096 <=? p1);; assert (4096 <=? p2);; assert (negb (p1 =? p2));;
  free p1;;
  p3 <- alloc; assert (negb (p3 =? 0)).

(** [mempool_t mp;], not initialised. *)
Definition stack_pool : mempool_t := Mempool 0 0 0 0 [].

Lemma memory_pool_tests_pass :
  passes test_alloc_free stack_pool = true ∧ passes test_pointer_validity stack_pool = true.
Proof. vm_compute. by split. Qed.

End MemoryPoolTests.

(** ** Order book (tests/test_order_book.cpp) *)

Module OrderBookTests.

Definition ob_script : Type → Type := script OrderBook.

(** [make_order], with the [next_id] it is called with. *)
Definition make_order (id : Z) (side : Side) (type : OrderType) (price : double) (qty : Z) : Order :=
  set_type (MkOrder id 1 price qty (o_filled_qty default_order) (o_timestamp_ns default_order)
              side (o_type default_order) (o_status default_order) (strn 15 "AAPL")) type.

(** The clock does not matter here. *)
Definition clock (n : nat) : Z * Z := (0, Z.of_nat n).

Definition run (f : OrderBook → OrderBook * Order) : ob_script Order :=
  λ bk, let '(bk, r) := f bk in Some (r, bk).
Definition add (o : Order) : ob_script Order := run (λ bk, add_order clock bk o).
Definition add_market (o : Order) : ob_script Order := run (λ bk, add_market_order clock bk o).
Definition cancel (id : Z) : ob_script bool := λ bk, '(bk, ok) ← cancel_order bk id; Some (ok, bk).
Definition modify (id : Z) (price : double) (qty : Z) : ob_script Order :=
  λ bk, '(bk, r) ← modify_order clock bk id price qty; Some (r, bk).
Definition drain : ob_script (list Trade) :=
  λ bk, let '(bk, ts) := drain_trades bk in Some (ts, bk).

Definition is_price (p : double) (f : OrderBook → double) : ob_script unit :=
  and_then (look f) (λ x, assert (d_eq x p)).
Definition is_size (n : Z) (f : OrderBook → Z) : ob_script unit :=
  and_then (look f) (λ x, assert (x =? n)).
Definition is_count (n : nat) (f : OrderBook → nat) : ob_script unit :=
  and_then (look f) (λ x, assert (x =? n)%nat).
Definition has_status (st : OrderStatus) (o : Order) : ob_script unit :=
  assert (bool_decide (o_status o = st)).

Definition price (n : Z) : double := d_of_Z n.

Open Scope script_scope.

Definition test_add_and_cancel : ob_script unit :=
  is_count 0 order_count;;
  let buy := make_order 1000 BUY LIMIT (price 150) 100 in
  result <- add buy;
  has_status NEW result;;
  is_count 1 order_count;;
  is_price (price 150) best_bid;;
  is_size 100 bid_size;;
  ok <- cancel (o_id buy); assert ok;;
  is_count 0 order_count;;
  is_price (price 0) best_bid.

Definition test_matching : ob_script unit :=
  add (make_order 1001 SELL LIMIT (price 151) 50);;
  result <- add (make_order 1002 BUY LIMIT (price 152) 100);
  assert (o_filled_qty result =? 50);;
  has_status PARTIAL result;;
  is_price (price 152) best_bid;;
  is_size 50 bid_size;;
  is_count 1 trade_count;;
  trades <- drain;
  match trades with
  | [t] => assert (d_eq (t_price t) (price 151));; assert (t_quantity t =? 50)
  | _ => assert false
  end.

Definition test_full_fill : ob_script unit :=
  add (make_order 1003 SELL LIMIT (price 100) 200);;
  result <- add (make_order 1004 BUY LIMIT (price 100) 200);
  has_status FILLED result;;
  assert (o_filled_qty result =? 200);;
  is_count 0 order_count;;
  is_count 1 trade_count.

Definition test_price_time_priority : ob_script unit :=
  add (set_id (make_order 1005 SELL LIMIT (price 100) 50) 2001);;
  add (set_id (make_order 1006 SELL LIMIT (price 100) 50) 2002);;
  result <- add (make_order 1007 BUY LIMIT (price 100) 50);
  assert (o_filled_qty result =? 50);;
  trades <- drain;
  match trades with [t] => assert (t_sell_order_id t =? 2001) | _ => assert false end.

Definition test_market_order : ob_script unit :=
  add (make_order 1008 SELL LIMIT (price 100) 50);;
  add (make_order 1009 SELL LIMIT (price 101) 50);;
  result <- add_market (make_order 1010 BUY MARKET (price 0) 60);
  assert (o_filled_qty result =? 60);;
  has_status FILLED result;;
  is_price (price 101) best_ask;;
  is_size 40 ask_size.

Definition test_modify_order : ob_script unit :=
  let buy := make_order 1011 BUY LIMIT (price 150) 100 in
  add buy;;
  modified <- modify (o_id buy) (price 151) 50;
  has_status NEW modified;;
  is_price (price 151) best_bid;;
  is_size 50 bid_size.

Definition test_spread_and_mid : ob_script unit :=
  add (make_order 1012 BUY LIMIT (price 99) 100);;
  add (make_order 1013 SELL LIMIT (price 101) 100);;
  is_price (price 99) best_bid;;
  is_price (price 101) best_ask;;
  is_price (price 2) spread;;
  is_price (price 100) mid_price.

Lemma order_book_tests_pass :
  Forall (λ t : ob_script unit, passes t (new_book "AAPL") = true)
    [test_add_and_cancel; test_matching; test_full_fill; test_price_time_priority;
     test_market_order; test_modify_order; test_spread_and_mid].
Proof. repeat constructor. Qed.

End OrderBookTests.
