(* ===== verification/Printf.v ===== *)
(** * Formatted output: the printf conversions the program uses

    [%d], [%.Nf] and [%.Ns] as the C standard defines them, with the exact
    decimal value rounded half to even as glibc does, and the truncation of
    [snprintf].  The sign of a NaN is not kept by [double] and is printed as
    that of a positive one. *)

From stdpp Require Import pretty.
From S2P Require Export Order.

(** [%d], [%lu] and the like *)
Definition fmt_d (z : Z) : string := pretty z.

Fixpoint zeros (n : nat) : string :=
  match n with O => EmptyString | S n => String (Ascii.ascii_of_nat 48) (zeros n) end.

(** The last [n] digits of [z >= 0], with leading zeros. *)
Definition fmt_digits (n : nat) (z : Z) : string :=
  let s := pretty z in zeros (n - String.length s) +:+ s.

(** The integer nearest to [m * 2^e * 10^k], ties to even. *)
Definition scaled (m e : Z) (k : nat) : Z :=
  let t := m * 10 ^ Z.of_nat k in
  if 0 <=? e then t * 2 ^ e else
  let d := 2 ^ (- e) in
  let q := t / d in
  let r := t mod d in
  if (2 * r <? d) || ((2 * r =? d) && Z.even q) then q else q + 1.

Definition fmt_fixed (neg : bool) (n : Z) (k : nat) : string :=
  let p := 10 ^ Z.of_nat k in
  (if neg then "-" else "") +:+ pretty (n / p) +:+
  (match k with O => "" | _ => "." +:+ fmt_digits k (n mod p) end).

(** [%.kf] *)
Definition fmt_f (k : nat) (x : double) : string :=
  match x with
  | SpecFloat.S754_zero s => fmt_fixed s 0 k
  | SpecFloat.S754_infinity s => if s then "-inf" else "inf"
  | SpecFloat.S754_nan => "nan"
  | SpecFloat.S754_finite s m e => fmt_fixed s (scaled (Zpos m) e k) k
  end.

(** [%.ns] of a character array *)
Definition fmt_s (n : nat) (s : string) : string := strn n s.

(** What [snprintf(buf, size, ...)] leaves in [buf], as a C string. *)
Definition snprintf (size : nat) (s : string) : string := strn (size - 1) s.

Example fmt_f_price : fmt_f 4 (d_lit 1005 1) = "100.5000". Proof. vm_compute. reflexivity. Qed.
Example fmt_f_even : fmt_f 0 (d_lit 25 1) = "2". Proof. vm_compute. reflexivity. Qed.
Example fmt_f_neg : fmt_f 2 (d_of_Z (-3)) = "-3.00". Proof. vm_compute. reflexivity. Qed.
Example fmt_f_small : fmt_f 2 (d_lit 5 2) = "0.05". Proof. vm_compute. reflexivity. Qed.
Example fmt_d_neg : fmt_d (-120) = "-120". Proof. vm_compute. reflexivity. Qed.

(** Rounding is to within half a unit of the last place. *)
Lemma scaled_nearest m e k :
  e < 0 → Z.abs (2 * (scaled m e k * 2 ^ (- e) - m * 10 ^ Z.of_nat k)) <= 2 ^ (- e).
Proof.
  intros He. unfold scaled. rewrite (proj2 (Z.leb_gt 0 e)) by done.
  set (t := m * _). set (d := 2 ^ (- e)).
  assert (0 < d) as Hd by (apply Z.pow_pos_nonneg; lia).
  pose proof (Z.div_mod t d ltac:(lia)). pose proof (Z.mod_pos_bound t d Hd).
  destruct ((2 * (t mod d) <? d) || _) eqn:E; [|apply orb_false_iff in E as [E _]].
  - assert (2 * (t mod d) <= d) by (apply orb_true_iff in E as [E|[E _]%andb_true_iff]; zbool; lia).
    nia.
  - zbool. nia.
Qed.

Lemma snprintf_length size s :
  (0 < size)%nat → (String.length (snprintf size s) < size)%nat.
Proof. intros. pose proof (strn_length (size - 1) s). unfold snprintf. lia. Qed.

(** ** Appending strings *)

Lemma str_app_assoc (a b c : string) : (a +:+ b) +:+ c = a +:+ (b +:+ c).
Proof.
  induction a as [|x a IH]; [done|].
  change (String x ((a +:+ b) +:+ c) = String x (a +:+ (b +:+ c))). by rewrite IH.
Qed.

Lemma str_app_nil (a : string) : a +:+ "" = a.
Proof.
  induction a as [|x a IH]; [done|]. change (String x (a +:+ "") = String x a). by rewrite IH.
Qed.
