(* ===== verification/RiskEngine.v ===== *)
(** * The risk engine (include/risk_engine.h, src/risk_engine.cpp)

    One definition per member function of [RiskEngine].  [positions_] is a map
    from the sixteen bytes of a [SymbolKey]; a lookup that finds nothing reads
    a default [Position].  The one reading of [CLOCK_REALTIME] that [validate]
    may make is the argument [tv_sec]. *)

From S2P Require Export Printf.

(** ** Symbol keys *)

Fixpoint nuls (n : nat) : string :=
  match n with O => EmptyString | S n => String Ascii.zero (nuls n) end.

(** [s] filled up to sixteen bytes with NULs. *)
Definition pad16 (s : string) : string := s +:+ nuls (16 - String.length s).

(** [SymbolKey] of a C string: up to the first NUL. *)
Definition SymbolKey_of_chars (src : string) : string := pad16 (strn 16 src).
(** [SymbolKey] of a [std::string]: the first sixteen bytes, NULs too. *)
Definition SymbolKey_of_string (src : string) : string := pad16 (String.substring 0 16 src).

Definition FNV_OFFSET : Z := 14695981039346656037.
Definition FNV_PRIME : Z := 1099511628211.

(** [SymbolKeyHash]: the bytes before the first NUL, sixteen at most. *)
Fixpoint fnv1a (n : nat) (h : Z) (s : string) : Z :=
  match n, s with
  | S n, String c s =>
    if decide (c = Ascii.zero) then h
    else fnv1a n (u64 (Z.lxor h (Z.of_nat (Ascii.nat_of_ascii c)) * FNV_PRIME)) s
  | _, _ => h
  end.
Definition SymbolKeyHash (key : string) : Z := fnv1a 16 FNV_OFFSET key.

(** ** State *)

Record Position := MkPosition {
  net_position : Z;
  gross_exposure : Z;
  total_notional : double;
}.

#[export] Instance Position_eq_dec : EqDecision Position.
Proof. solve_decision. Defined.

Definition default_position : Position := MkPosition 0 0 d_zero.

Record RiskLimits := MkLimits {
  max_order_qty : Z;
  max_position : Z;
  max_exposure : Z;
  max_notional : double;
  price_band_pct : double;
  max_orders_per_sec : Z;
  enabled : bool;
}.

Definition default_limits : RiskLimits :=
  MkLimits 10000 100000 500000 (d_of_Z 10000000) (d_of_Z 5) 1000 true.

Record RiskEngine := MkRisk {
  r_limits : RiskLimits;
  r_last_reject : string;
  r_positions : gmap string Position;
  r_order_count : Z;
  r_window_start : Z;
  r_killed : bool;
}.

Definition new_risk_engine : RiskEngine := MkRisk default_limits "" ∅ 0 0 false.

Definition set_limits (e : RiskEngine) (l : RiskLimits) : RiskEngine :=
  MkRisk l (r_last_reject e) (r_positions e) (r_order_count e) (r_window_start e) (r_killed e).
Definition limits (e : RiskEngine) : RiskLimits := r_limits e.
Definition set_reject (e : RiskEngine) (s : string) : RiskEngine :=
  MkRisk (r_limits e) s (r_positions e) (r_order_count e) (r_window_start e) (r_killed e).
Definition set_positions (e : RiskEngine) p : RiskEngine :=
  MkRisk (r_limits e) (r_last_reject e) p (r_order_count e) (r_window_start e) (r_killed e).
Definition set_window (e : RiskEngine) (start count : Z) : RiskEngine :=
  MkRisk (r_limits e) (r_last_reject e) (r_positions e) count start (r_killed e).

(** [snprintf(last_reject_, sizeof(last_reject_), ...); return false;] *)
Definition reject (e : RiskEngine) (msg : string) : RiskEngine * bool :=
  (set_reject e (snprintf 256 msg), false).

(** [positions_.find(sym)], a default position if there is none. *)
Definition position_at (e : RiskEngine) (sym : string) : Position :=
  default default_position (r_positions e !! sym).

(** [std::abs(int)], where [abs(INT_MIN)] wraps. *)
Definition c_abs (z : Z) : Z := i32 (Z.abs z).

(** ** The checks *)

Definition update_rate_window (e : RiskEngine) (tv_sec : Z) : RiskEngine :=
  let now_sec := u64 tv_sec in
  if now_sec =? r_window_start e then e else set_window e now_sec 0.

Definition check_order_size (e : RiskEngine) (o : Order) : RiskEngine * bool :=
  if max_order_qty (r_limits e) <? o_quantity o then
    reject e ("Order size " +:+ fmt_d (o_quantity o) +:+ " exceeds limit " +:+
              fmt_d (max_order_qty (r_limits e)))
  else if o_quantity o <=? 0 then reject e "Order quantity must be positive"
  else (e, true).

Definition check_position_limit (e : RiskEngine) (o : Order) (sym : string)
    : RiskEngine * bool :=
  let current_pos := net_position (position_at e sym) in
  let new_pos := if is_buy o then i32 (current_pos + o_quantity o)
                 else i32 (current_pos - o_quantity o) in
  if max_position (r_limits e) <? c_abs new_pos then
    reject e ("Position " +:+ fmt_d new_pos +:+ " exceeds limit " +:+
              fmt_d (max_position (r_limits e)) +:+ " for " +:+ fmt_s 16 sym)
  else (e, true).

Definition check_exposure_limit (e : RiskEngine) (o : Order) (sym : string)
    : RiskEngine * bool :=
  let current_exp := gross_exposure (position_at e sym) in
  let new_exp := i32 (current_exp + o_quantity o) in
  if max_exposure (r_limits e) <? new_exp then
    reject e ("Gross exposure " +:+ fmt_d new_exp +:+ " exceeds limit " +:+
              fmt_d (max_exposure (r_limits e)) +:+ " for " +:+ fmt_s 16 sym)
  else (e, true).

Definition check_notional_limit (e : RiskEngine) (o : Order) (sym : string)
    : RiskEngine * bool :=
  if d_le (o_price o) d_zero && is_limit o then (e, true) else
  let price := if d_lt d_zero (o_price o) then o_price o else d_of_Z 1 in
  let notional := d_mul price (d_of_Z (o_quantity o)) in
  let current_notional := total_notional (position_at e sym) in
  if d_lt (max_notional (r_limits e)) (d_add current_notional notional) then
    reject e ("Notional value " +:+ fmt_f 2 notional +:+ " exceeds limit " +:+
              fmt_f 2 (max_notional (r_limits e)) +:+ " for " +:+ fmt_s 16 sym)
  else (e, true).

Definition price_deviation (o : Order) (mid_price : double) : double :=
  d_mul (d_div (d_abs (d_sub (o_price o) mid_price)) mid_price) (d_of_Z 100).

Definition check_price_band (e : RiskEngine) (o : Order) (mid_price : double)
    : RiskEngine * bool :=
  if d_le mid_price d_zero || d_le (o_price o) d_zero then (e, true)
  else if negb (is_limit o) then (e, true)
  else
    let deviation := price_deviation o mid_price in
    if d_lt (price_band_pct (r_limits e)) deviation then
      reject e ("Price " +:+ fmt_f 4 (o_price o) +:+ " deviates " +:+ fmt_f 2 deviation +:+
                "% from mid " +:+ fmt_f 4 mid_price +:+ " (limit " +:+
                fmt_f 2 (price_band_pct (r_limits e)) +:+ "%)")
    else (e, true).

Definition check_rate_limit (e : RiskEngine) : RiskEngine * bool :=
  if max_orders_per_sec (r_limits e) <=? 0 then (e, true)
  else if max_orders_per_sec (r_limits e) <=? r_order_count e then
    reject e ("Rate limit exceeded: " +:+ fmt_d (r_order_count e) +:+ " orders in current second")
  else (e, true).

(** [if (!check) return false;] *)
Definition and_then (c : RiskEngine * bool) (k : RiskEngine → RiskEngine * bool)
    : RiskEngine * bool :=
  let '(e, ok) := c in if ok then k e else (e, false).

Notation "'check!' e ':=' c 'in' k" := (and_then c (λ e, k))
  (at level 200, e name, c at level 100, k at level 200).

Definition validate (e : RiskEngine) (o : Order) (mid_price : double) (tv_sec : Z)
    : RiskEngine * bool :=
  let e := set_reject e "" in
  if r_killed e then reject e "Risk engine killed — all orders rejected"
  else if negb (enabled (r_limits e)) then (e, true)
  else
    let e := update_rate_window e tv_sec in
    let sym := SymbolKey_of_chars (o_symbol o) in
    check! e := check_rate_limit e in
    check! e := check_order_size e o in
    check! e := check_position_limit e o sym in
    check! e := check_exposure_limit e o sym in
    check! e := check_notional_limit e o sym in
    check! e := check_price_band e o mid_price in
    (set_window e (r_window_start e) (i32 (r_order_count e + 1)), true).

Definition last_reject_reason (e : RiskEngine) : string := r_last_reject e.

Definition apply_execution (p : Position) (o : Order) (filled_qty : Z) (fill_price : double)
    : Position :=
  MkPosition
    (if is_buy o then i32 (net_position p + filled_qty) else i32 (net_position p - filled_qty))
    (i32 (gross_exposure p + filled_qty))
    (d_add (total_notional p) (d_mul fill_price (d_of_Z filled_qty))).

Definition on_order_executed (e : RiskEngine) (o : Order) (filled_qty : Z) (fill_price : double)
    : RiskEngine :=
  let sym := SymbolKey_of_chars (o_symbol o) in
  set_positions e
    (<[sym := apply_execution (position_at e sym) o filled_qty fill_price]> (r_positions e)).

Definition on_order_cancelled (e : RiskEngine) (o : Order) : RiskEngine := e.

Definition get_position_string (e : RiskEngine) (symbol : string) : Position :=
  position_at e (SymbolKey_of_string symbol).
Definition get_position (e : RiskEngine) (symbol : string) : Position :=
  position_at e (SymbolKey_of_chars symbol).

Definition reset (e : RiskEngine) : RiskEngine :=
  MkRisk (r_limits e) (r_last_reject e) ∅ 0 0 false.
Definition kill_switch (e : RiskEngine) (b : bool) : RiskEngine :=
  MkRisk (r_limits e) (r_last_reject e) (r_positions e) (r_order_count e) (r_window_start e) b.
Definition is_killed (e : RiskEngine) : bool := r_killed e.
Definition current_rate (e : RiskEngine) : Z := r_order_count e.
