(* ===== verification/RiskProps.v ===== *)
(** * The risk engine: its properties

    What [validate] decides and changes, that the position and exposure limits
    and the rate limit hold over whole runs, that positions are the sums of the
    executions, and the orders that slip through a check. *)

From S2P Require Export RiskEngine.

(** ** What the checks decide *)

(** The result of a check: the engine unchanged, or a message. *)
Definition outcome (e : RiskEngine) (b : bool) (r : RiskEngine * bool) : Prop :=
  ∃ msg, (b = false → msg ≠ "") ∧ r = (if b then (e, true) else (set_reject e msg, false)).

Definition visible (s : string) : bool :=
  match s with String c _ => negb (bool_decide (c = Ascii.zero)) | EmptyString => false end.

Lemma snprintf_visible n s : visible s = true → snprintf (S (S n)) s ≠ "".
Proof.
  destruct s as [|c s]; [done|]. simpl. unfold snprintf, strn. simpl.
  case_bool_decide; [done|]. intros _. by rewrite decide_False.
Qed.

Lemma reject_outcome e msg : visible msg = true → outcome e false (reject e msg).
Proof.
  intros H. exists (snprintf 256 msg). split; [|done]. intros _. by apply snprintf_visible.
Qed.

Lemma pass_outcome e : outcome e true (e, true).
Proof. by exists "". Qed.

#[local] Hint Resolve pass_outcome : core.
#[local] Hint Extern 1 (outcome _ _ (reject _ _)) => by apply reject_outcome : core.

Definition rate_ok (l : RiskLimits) (count : Z) : bool :=
  (max_orders_per_sec l <=? 0) || (count <? max_orders_per_sec l).
Definition size_ok (l : RiskLimits) (o : Order) : bool :=
  (0 <? o_quantity o) && (o_quantity o <=? max_order_qty l).

(** The signed quantity of an order. *)
Definition signed (o : Order) (q : Z) : Z := if is_buy o then q else - q.

(** In unbounded integers. *)
Definition position_ok (l : RiskLimits) (p : Position) (o : Order) : bool :=
  Z.abs (net_position p + signed o (o_quantity o)) <=? max_position l.
Definition exposure_ok (l : RiskLimits) (p : Position) (o : Order) : bool :=
  gross_exposure p + o_quantity o <=? max_exposure l.
Definition notional_ok (l : RiskLimits) (p : Position) (o : Order) : bool :=
  (d_le (o_price o) d_zero && is_limit o) ||
  negb (d_lt (max_notional l) (d_add (total_notional p)
    (d_mul (if d_lt d_zero (o_price o) then o_price o else d_of_Z 1) (d_of_Z (o_quantity o))))).
Definition band_ok (l : RiskLimits) (o : Order) (mid : double) : bool :=
  d_le mid d_zero || d_le (o_price o) d_zero || negb (is_limit o) ||
  negb (d_lt (price_band_pct l) (price_deviation o mid)).

(** The new position and exposure fit [int32_t], and [std::abs] its result. *)
Definition no_overflow (p : Position) (o : Order) : Prop :=
  - 2 ^ 31 < net_position p + signed o (o_quantity o) < 2 ^ 31 ∧
  is_i32 (gross_exposure p + o_quantity o).

Lemma check_rate_outcome e :
  outcome e (rate_ok (r_limits e) (r_order_count e)) (check_rate_limit e).
Proof.
  unfold check_rate_limit, rate_ok. zcases; simpl; auto; lia.
Qed.

Lemma check_size_outcome e o : outcome e (size_ok (r_limits e) o) (check_order_size e o).
Proof. unfold check_order_size, size_ok. zcases; simpl; auto; lia. Qed.

Lemma check_position_outcome e o sym :
  no_overflow (position_at e sym) o →
  outcome e (position_ok (r_limits e) (position_at e sym) o) (check_position_limit e o sym).
Proof.
  intros [Hn _]. unfold check_position_limit, position_ok.
  assert ((if is_buy o then i32 (net_position (position_at e sym) + o_quantity o)
           else i32 (net_position (position_at e sym) - o_quantity o)) =
          net_position (position_at e sym) + signed o (o_quantity o)) as ->.
  { unfold signed in *. destruct (is_buy o); apply i32_id; unfold is_i32; lia. }
  unfold c_abs. rewrite i32_id by (unfold is_i32; lia).
  zcases; auto; lia.
Qed.

Lemma check_exposure_outcome e o sym :
  no_overflow (position_at e sym) o →
  outcome e (exposure_ok (r_limits e) (position_at e sym) o) (check_exposure_limit e o sym).
Proof.
  intros [_ Hn]. unfold check_exposure_limit, exposure_ok. rewrite i32_id by done.
  zcases; auto; lia.
Qed.

Lemma check_notional_outcome e o sym :
  outcome e (notional_ok (r_limits e) (position_at e sym) o) (check_notional_limit e o sym).
Proof.
  unfold check_notional_limit, notional_ok. destruct (_ && _); simpl; [auto|].
  destruct (d_lt (max_notional _) _); auto.
Qed.

Lemma check_band_outcome e o mid :
  outcome e (band_ok (r_limits e) o mid) (check_price_band e o mid).
Proof.
  unfold check_price_band, band_ok. destruct (d_le mid d_zero || _); simpl; [auto|].
  destruct (negb (is_limit o)); simpl; [auto|].
  destruct (d_lt (price_band_pct _) _); auto.
Qed.

(** The verdict of [validate], with nothing of its control flow. *)
Definition within_limits (e : RiskEngine) (o : Order) (mid : double) (tv_sec : Z) : bool :=
  let l := r_limits e in
  let p := position_at e (SymbolKey_of_chars (o_symbol o)) in
  rate_ok l (r_order_count (update_rate_window e tv_sec)) && size_ok l o &&
  position_ok l p o && exposure_ok l p o && notional_ok l p o && band_ok l o mid.

Lemma and_then_outcome e b r k :
  outcome e b r →
  (b = true ∧ and_then r k = k e) ∨
  (b = false ∧ ∃ msg, msg ≠ "" ∧ and_then r k = (set_reject e msg, false)).
Proof.
  intros (msg & Hm & ->). destruct b; [by left|right]. split; [done|]. exists msg.
  split; [by apply Hm|done].
Qed.

(** Go past one check, of which [H] is the outcome. *)
Ltac check_step H :=
  match goal with
  | |- context [and_then ?c ?k] =>
    let Hb := fresh "Hb" in
    destruct (and_then_outcome _ _ _ k H) as [[Hb ->]|[Hb ?]]; rewrite Hb; simpl; [|done]
  end.

(** [validate] past the kill switch and the master switch. *)
Lemma validate_checks e o mid tv_sec :
  r_killed e = false → enabled (r_limits e) = true →
  (size_ok (r_limits e) o = true →
   no_overflow (position_at e (SymbolKey_of_chars (o_symbol o))) o) →
  let e1 := update_rate_window (set_reject e "") tv_sec in
  if within_limits e o mid tv_sec
  then validate e o mid tv_sec =
       (set_window e1 (r_window_start e1) (i32 (r_order_count e1 + 1)), true)
  else ∃ msg, msg ≠ "" ∧ validate e o mid tv_sec = (set_reject e1 msg, false).
Proof.
  intros Hk He Hno e1. unfold validate. simpl. rewrite Hk, He. simpl.
  change (update_rate_window (set_reject e "") tv_sec) with e1.
  assert (r_limits e1 = r_limits e ∧ r_positions e1 = r_positions e ∧
    r_order_count e1 = r_order_count (update_rate_window e tv_sec)) as (Hl & Hp & Hc).
  { unfold e1, update_rate_window. simpl. by case_match. }
  unfold within_limits. cbv zeta. set (sym := SymbolKey_of_chars _) in *.
  assert (position_at e1 sym = position_at e sym) as Hpos by (unfold position_at; by rewrite Hp).
  rewrite <- Hpos in *. rewrite <- Hl in Hno |- *. rewrite <- Hc. clear Hl Hc Hpos Hp.
  check_step (check_rate_outcome e1).
  check_step (check_size_outcome e1 o). specialize (Hno Hb0).
  check_step (check_position_outcome e1 o sym Hno).
  check_step (check_exposure_outcome e1 o sym Hno).
  check_step (check_notional_outcome e1 o sym).
  check_step (check_band_outcome e1 o mid).
  done.
Qed.

Lemma validate_unchecked e o mid tv_sec :
  r_killed e = true ∨ (r_killed e = false ∧ enabled (r_limits e) = false) →
  ∃ msg, validate e o mid tv_sec = (set_reject e msg, negb (r_killed e)) ∧
    (msg = "" ↔ r_killed e = false).
Proof.
  intros [H|[H He]]; unfold validate; simpl; rewrite H; simpl.
  - eexists. split; [done|]. done.
  - rewrite He. exists "". done.
Qed.

(** The orders accepted in the second of [tv_sec] so far. *)
Definition rate_now (e : RiskEngine) (tv_sec : Z) : Z :=
  r_order_count (update_rate_window e tv_sec).

(** C23 -- [validate] decides exactly its limits: where an order that is not too large
    does not overflow the 32-bit position and exposure, an order is accepted if the
    engine is not killed and either the checks are off or the rate, size, position,
    exposure, notional and price-band limits all hold, in exact integers; a reason is
    recorded exactly when it is rejected; positions, limits and the kill switch never
    change, and the rate count goes up by one exactly for an accepted, checked order. *)
Theorem validate_decides_limits e o mid tv_sec
    (Hno : size_ok (r_limits e) o = true →
           no_overflow (position_at e (SymbolKey_of_chars (o_symbol o))) o)
    (Hrate : 0 <= r_order_count e < 2 ^ 31 - 1) :
  let checked := negb (r_killed e) && enabled (r_limits e) in
  let '(e', ok) := validate e o mid tv_sec in
  ok = negb (r_killed e) && (negb (enabled (r_limits e)) || within_limits e o mid tv_sec) ∧
  (last_reject_reason e' = "" ↔ ok = true) ∧
  r_positions e' = r_positions e ∧ r_limits e' = r_limits e ∧ is_killed e' = is_killed e ∧
  current_rate e' = (if checked then rate_now e tv_sec + (if ok then 1 else 0)
                     else current_rate e).
Proof.
  destruct (decide (r_killed e = false ∧ enabled (r_limits e) = true)) as [[Hk He]|Hc].
  - pose proof (validate_checks e o mid tv_sec Hk He Hno) as H.
    assert (∀ s, let e1 := update_rate_window (set_reject e s) tv_sec in
      r_positions e1 = r_positions e ∧ r_limits e1 = r_limits e ∧
      r_killed e1 = r_killed e ∧ r_last_reject e1 = s ∧
      r_order_count e1 = rate_now e tv_sec ∧ 0 <= rate_now e tv_sec < 2 ^ 31 - 1) as Hw.
    { intros s. unfold rate_now, update_rate_window. simpl.
      destruct (u64 tv_sec =? r_window_start e); simpl; split_and!; (done || lia). }
    specialize (Hw ""). cbv zeta in *. rewrite Hk, He. simpl.
    set (e1 := update_rate_window _ _) in *. destruct Hw as (H1 & H2 & H3 & H4 & H5 & H6).
    destruct (within_limits e o mid tv_sec).
    + rewrite H. cbn. split_and!; try done.
      rewrite H5. rewrite i32_id by (unfold is_i32; lia). done.
    + destruct H as (msg & Hm & ->). cbn. split_and!; try done. lia.
  - destruct (validate_unchecked e o mid tv_sec) as (msg & -> & Hm).
    { destruct (r_killed e), (enabled (r_limits e)); naive_solver. }
    simpl. destruct (r_killed e) eqn:Hk, (enabled (r_limits e)) eqn:He; simpl; try naive_solver.
Qed.

(** ** Whole runs *)

(** One step of the thread that owns the engine: an order that was validated
    is executed for at most its quantity before the next one is validated. *)
Inductive risk_step : RiskEngine → RiskEngine → Prop :=
  | step_executed e o mid sec e' q price :
      validate e o mid sec = (e', true) → 0 <= q <= o_quantity o →
      risk_step e (on_order_executed e' o q price)
  | step_rejected e o mid sec e' :
      validate e o mid sec = (e', false) → risk_step e e'
  | step_cancelled e o : risk_step e (on_order_cancelled e o)
  | step_kill e b : risk_step e (kill_switch e b)
  | step_reset e : risk_step e (reset e).

(** Limits that leave room for one more order below the 32-bit bounds, as the
    default ones do. *)
Definition limits_fit (l : RiskLimits) : Prop :=
  enabled l = true ∧ 0 <= max_position l ∧ 0 <= max_exposure l ∧
  max_position l + max_order_qty l < 2 ^ 31 ∧ max_exposure l + max_order_qty l < 2 ^ 31.

Definition position_within (l : RiskLimits) (p : Position) : Prop :=
  Z.abs (net_position p) <= max_position l ∧ 0 <= gross_exposure p <= max_exposure l.

Definition engine_within (l : RiskLimits) (e : RiskEngine) : Prop :=
  r_limits e = l ∧ ∀ sym, position_within l (position_at e sym).

Lemma signed_bound o p m q :
  Z.abs p <= m → Z.abs (p + signed o q) <= m → ∀ q', 0 <= q' <= q → Z.abs (p + signed o q') <= m.
Proof. unfold signed. destruct (is_buy o); lia. Qed.

Lemma no_overflow_within l p o :
  limits_fit l → position_within l p → size_ok l o = true → no_overflow p o.
Proof.
  intros (_ & ? & ? & ? & ?) [? ?] [??]%andb_true_iff. zbool.
  unfold no_overflow, is_i32, signed. destruct (is_buy o); lia.
Qed.

Lemma within_position e o mid sec :
  within_limits e o mid sec = true →
  let p := position_at e (SymbolKey_of_chars (o_symbol o)) in
  size_ok (r_limits e) o = true ∧ position_ok (r_limits e) p o = true ∧
  exposure_ok (r_limits e) p o = true.
Proof. unfold within_limits. rewrite !andb_true_iff. tauto. Qed.

Lemma execution_within l p o q price :
  limits_fit l → position_within l p → size_ok l o = true →
  position_ok l p o = true → exposure_ok l p o = true → 0 <= q <= o_quantity o →
  position_within l (apply_execution p o q price) ∧
  net_position (apply_execution p o q price) = net_position p + signed o q.
Proof.
  intros (_ & Hm & Hx & Hmq & Hxq) [Hp Hg] Hs Hpos Hexp Hq. unfold position_ok, exposure_ok in *.
  apply andb_true_iff in Hs as [? ?]. zbool.
  pose proof (signed_bound o _ _ _ Hp Hpos q Hq) as Hb.
  assert (net_position (apply_execution p o q price) = net_position p + signed o q) as Hnet.
  { unfold signed in *. simpl. destruct (is_buy o); apply i32_id; unfold is_i32; lia. }
  split; [|done]. split; [by rewrite Hnet|]. simpl. rewrite i32_id by (unfold is_i32; lia). lia.
Qed.

Lemma position_at_insert e sym p sym' :
  position_at (set_positions e (<[sym := p]> (r_positions e))) sym' =
  if decide (sym = sym') then p else position_at e sym'.
Proof.
  unfold position_at. simpl. case_decide as H; [subst; by rewrite lookup_insert_eq|].
  by rewrite lookup_insert_ne.
Qed.

Lemma validate_within l e o mid sec e' ok :
  limits_fit l → engine_within l e → validate e o mid sec = (e', ok) →
  engine_within l e' ∧ (ok = true →
    size_ok l o = true ∧
    position_ok l (position_at e' (SymbolKey_of_chars (o_symbol o))) o = true ∧
    exposure_ok l (position_at e' (SymbolKey_of_chars (o_symbol o))) o = true).
Proof.
  intros Hfit [Hl Hw] Hv. destruct (r_killed e) eqn:Hk.
  - destruct (validate_unchecked e o mid sec) as (msg & Hv' & _); [by left|].
    rewrite Hv, Hk in Hv'. injection Hv' as -> ->. done.
  - assert (enabled (r_limits e) = true) as He by (rewrite Hl; apply Hfit).
    pose proof (validate_checks e o mid sec Hk He) as H. rewrite Hv in H.
    assert (∀ e2, r_limits e2 = r_limits e → r_positions e2 = r_positions e → 
      engine_within l e2 ∧ ∀ sym, position_at e2 sym = position_at e sym) as Hsame.
    { intros e2 H1 H2. assert (∀ sym, position_at e2 sym = position_at e sym) as Hp.
      { intros sym. unfold position_at. by rewrite H2. }
      split; [|done]. split; [congruence|]. intros sym. rewrite Hp. apply Hw. }
    destruct (within_limits e o mid sec) eqn:Hin; cbv zeta in H.
    + specialize (H ltac:(intros Hs; eapply no_overflow_within; [|apply Hw|]; rewrite ?Hl in *; done)).
      injection H as -> ->.
      destruct (Hsame (set_window (update_rate_window (set_reject e "") sec)
        (r_window_start (update_rate_window (set_reject e "") sec))
        (i32 (r_order_count (update_rate_window (set_reject e "") sec) + 1)))) as [Hw' Hp].
      1,2: unfold update_rate_window; by destruct (_ =? _).
      split; [done|]. intros _. rewrite Hp, <- Hl. by apply within_position in Hin.
    + destruct H as (msg & _ & H).
      { intros Hs. eapply no_overflow_within; [|apply Hw|]; rewrite ?Hl in *; done. }
      injection H as -> ->. split; [|done]. apply Hsame; unfold update_rate_window; by destruct (_ =? _).
Qed.

Lemma risk_step_within l e e' :
  limits_fit l → engine_within l e → risk_step e e' → engine_within l e'.
Proof.
  intros Hfit He Hs. destruct Hs as [e o mid sec e' q price Hv Hq|e o mid sec e' Hv|e o|e b|e].
  - destruct (validate_within _ _ _ _ _ _ _ Hfit He Hv) as [[Hl Hw] Hok].
    destruct (Hok eq_refl) as (Hs & Hp & Hx). split; [done|]. intros sym.
    unfold on_order_executed. rewrite position_at_insert. case_decide; [|apply Hw].
    by apply execution_within.
  - by destruct (validate_within _ _ _ _ _ _ _ Hfit He Hv).
  - done.
  - done.
  - destruct He as [Hl _]. split; [done|]. intros sym. unfold position_at. simpl.
    rewrite lookup_empty. destruct Hfit as (_ & ? & ? & _). split; simpl; lia.
Qed.

(** C7 -- No position ever exceeds its limits, if these fit the integers: for limits
    that are enabled, not negative, and of which [max_position] and [max_exposure] plus
    the largest order [max_order_qty] stay below [2 ^ 31] (as the default limits and
    those of the pipeline do), from an engine with no positions, whatever the thread
    that owns it validates, executes (each accepted order for at most its quantity,
    before the next validation), cancels, kills or resets, the absolute net position
    and the gross exposure of every symbol stay within [max_position] and
    [max_exposure].  Without that room it is false: [position_check_int_min]. *)
Theorem risk_limits_never_exceeded l es
    (Hfit : limits_fit l) (Hrun : rtc risk_step (set_limits new_risk_engine l) es) sym :
  Z.abs (net_position (get_position es sym)) <= max_position l ∧
  0 <= gross_exposure (get_position es sym) <= max_exposure l.
Proof.
  assert (engine_within l es) as [_ Hw]; [|apply Hw].
  assert (engine_within l (set_limits new_risk_engine l)) as H0.
  { split; [done|]. intros s. unfold position_at. simpl. rewrite lookup_empty.
    destruct Hfit as (_ & ? & ? & _). split; simpl; lia. }
  revert H0. induction Hrun as [|e1 e2 e3 Hs _ IH]; intros H0; [done|].
  apply IH. by eapply risk_step_within.
Qed.

(** ** The rate limit *)

Definition request : Type := Order * double * Z.

(** Validations one after the other: the second of each and its verdict. *)
Fixpoint validate_all (e : RiskEngine) (reqs : list request) : RiskEngine * list (Z * bool) :=
  match reqs with
  | [] => (e, [])
  | (o, mid, sec) :: reqs =>
    let '(e, ok) := validate e o mid sec in
    let '(e, out) := validate_all e reqs in (e, (sec, ok) :: out)
  end.

Definition accepted_in (sec : Z) (out : list (Z * bool)) : nat :=
  length (filter (λ x, x = (sec, true)) out).

(** A check leaves the engine alone or records a message. *)
Definition check_shape (e : RiskEngine) (r : RiskEngine * bool) : Prop :=
  r = (e, true) ∨ ∃ msg, r = (set_reject e msg, false).

Lemma outcome_shape e b r : outcome e b r → check_shape e r.
Proof. intros (msg & _ & ->). destruct b; [by left|right; by exists msg]. Qed.

Lemma check_position_shape e o sym : check_shape e (check_position_limit e o sym).
Proof. unfold check_position_limit. case_match; [right; by eexists|by left]. Qed.

Lemma check_exposure_shape e o sym : check_shape e (check_exposure_limit e o sym).
Proof. unfold check_exposure_limit. case_match; [right; by eexists|by left]. Qed.

(** [validate] with the overflow left in: it stops in the engine after the
    rate window with a message, or all checks passed. *)
Lemma validate_shape e o mid sec e' ok :
  r_killed e = false → enabled (r_limits e) = true → validate e o mid sec = (e', ok) →
  let e1 := update_rate_window (set_reject e "") sec in
  if ok then rate_ok (r_limits e1) (r_order_count e1) = true ∧
    e' = set_window e1 (r_window_start e1) (i32 (r_order_count e1 + 1))
  else ∃ msg, e' = set_reject e1 msg.
Proof.
  intros Hk He. unfold validate. simpl. rewrite Hk, He. simpl.
  set (e1 := update_rate_window _ _). pose proof (check_rate_outcome e1) as Hr.
  destruct (and_then_outcome _ _ _ (λ e, (e, true)) Hr) as [[Hb _]|[Hb _]]; rewrite Hb in Hr.
  2:{ destruct Hr as (msg & _ & ->). simpl. intros [= <- <-]. by exists msg. }
  destruct Hr as (? & _ & ->). simpl.
  destruct (outcome_shape _ _ _ (check_size_outcome e1 o)) as [->|[msg ->]]; simpl;
    [|intros [= <- <-]; by exists msg].
  destruct (check_position_shape e1 o (SymbolKey_of_chars (o_symbol o))) as [->|[msg ->]]; simpl;
    [|intros [= <- <-]; by exists msg].
  destruct (check_exposure_shape e1 o (SymbolKey_of_chars (o_symbol o))) as [->|[msg ->]]; simpl;
    [|intros [= <- <-]; by exists msg].
  destruct (outcome_shape _ _ _ (check_notional_outcome e1 o (SymbolKey_of_chars (o_symbol o))))
    as [->|[msg ->]]; simpl; [|intros [= <- <-]; by exists msg].
  destruct (outcome_shape _ _ _ (check_band_outcome e1 o mid)) as [->|[msg ->]]; simpl;
    intros [= <- <-]; [done|by exists msg].
Qed.

(** What a validation does to the rate state. *)
Lemma validate_rate e o mid sec e' ok :
  r_killed e = false → enabled (r_limits e) = true → is_u64 sec →
  0 < max_orders_per_sec (r_limits e) < 2 ^ 31 → 0 <= r_order_count e →
  validate e o mid sec = (e', ok) →
  let count := if sec =? r_window_start e then r_order_count e else 0 in
  r_limits e' = r_limits e ∧ r_killed e' = r_killed e ∧ r_window_start e' = sec ∧
  0 <= count ∧ r_order_count e' = (if ok then count + 1 else count) ∧
  (ok = true → count < max_orders_per_sec (r_limits e)).
Proof.
  intros Hk He Hsec Hmax Hc Hv count. pose proof (validate_shape _ _ _ _ _ _ Hk He Hv) as H.
  cbv zeta in H. set (e1 := update_rate_window _ _) in *.
  assert (r_limits e1 = r_limits e ∧ r_killed e1 = r_killed e ∧ r_window_start e1 = sec ∧
    r_order_count e1 = count ∧ 0 <= count) as (Hl1 & Hk1 & Hs1 & Hc1 & Hc0).
  { unfold e1, count, update_rate_window. rewrite u64_id by done. simpl.
    destruct (Z.eqb_spec sec (r_window_start e)); simpl; by split_and!. }
  destruct ok.
  - destruct H as [Hr ->]. unfold rate_ok in Hr. rewrite Hl1, Hc1 in Hr.
    apply orb_true_iff in Hr. assert (count < max_orders_per_sec (r_limits e))
      by (destruct Hr; zbool; lia).
    simpl. rewrite Hc1, i32_id by (unfold is_i32; lia). by split_and!.
  - destruct H as (msg & ->). simpl. by split_and!.
Qed.

(** C29 -- The rate limit holds in every second: over any sequence of
    validations whose clock does not go back, starting with an engine whose
    window is not in the future, no second has more accepted orders than
    [max_orders_per_sec]. *)
Theorem rate_limit_never_exceeded e reqs sec
    (Hk : r_killed e = false) (He : enabled (r_limits e) = true)
    (Hmax : 0 < max_orders_per_sec (r_limits e) < 2 ^ 31)
    (Hcount : 0 <= r_order_count e)
    (Htimes : Forall is_u64 (reqs.*2))
    (Hclock : StronglySorted Z.le (r_window_start e :: reqs.*2)) :
  Z.of_nat (accepted_in sec (validate_all e reqs).2) <= max_orders_per_sec (r_limits e).
Proof.
  assert (Z.of_nat (accepted_in sec (validate_all e reqs).2) <=
    max_orders_per_sec (r_limits e) -
    (if sec =? r_window_start e then Z.min (r_order_count e) (max_orders_per_sec (r_limits e))
     else 0) ∧
    (sec < r_window_start e → accepted_in sec (validate_all e reqs).2 = 0%nat)) as [H _].
  2:{ destruct (sec =? _); lia. }
  revert e Hk He Hmax Hcount Htimes Hclock.
  induction reqs as [|[[o mid] t] reqs IH]; intros e Hk He Hmax Hcount Htimes Hclock; simpl.
  { unfold accepted_in. simpl. split; [|done]. zcases; lia. }
  apply Forall_cons in Htimes as [Ht Htimes].
  apply StronglySorted_inv in Hclock as [Hclock [Hle _]%Forall_cons]. simpl in *.
  destruct (validate e o mid t) as [e' ok] eqn:Hv.
  destruct (validate_rate _ _ _ _ _ _ Hk He Ht Hmax Hcount Hv) as (Hl & Hk' & Hs & Hc0 & Hc & Hok).
  set (count := if t =? r_window_start e then _ else _) in *.
  destruct (IH e') as [H1 H2]; try congruence; try (destruct ok; lia); [exact Htimes|by rewrite Hs|].
  destruct (validate_all e' reqs) as [e'' out]. simpl in *. rewrite Hl, Hs, Hc in *.
  assert (Z.of_nat (accepted_in sec ((t, ok) :: out)) =
    (if (sec =? t) && ok then 1 else 0) + Z.of_nat (accepted_in sec out)) as ->.
  { unfold accepted_in. rewrite filter_cons. destruct ok; zcases; case_decide; simpl;
      try congruence; simplify_eq; try lia. }
  unfold count in *. clear count.
  split.
  - destruct (Z.eqb_spec t (r_window_start e)) as [->|Hne].
    + destruct ok; zcases; simpl in *; try specialize (Hok eq_refl); lia.
    + destruct ok; zcases; simpl in *; try specialize (Hok eq_refl); try lia.
  - intros Hlt. specialize (H2 ltac:(lia)). unfold accepted_in in *. rewrite filter_cons.
    rewrite decide_False; [done|]. intros [= -> _]. lia.
Qed.

(** ** Positions *)

Definition execution : Type := Order * Z * double.

Definition execute_all (e : RiskEngine) (xs : list execution) : RiskEngine :=
  foldl (λ e x, on_order_executed e x.1.1 x.1.2 x.2) e xs.

(** The executions for one symbol, and what they add up to. *)
Definition of_symbol (sym : string) (xs : list execution) : list execution :=
  filter (λ x, SymbolKey_of_chars (o_symbol x.1.1) = SymbolKey_of_chars sym) xs.
Definition net_of (xs : list execution) : Z := Zsum ((λ x, signed x.1.1 x.1.2) <$> xs).
Definition gross_of (xs : list execution) : Z := Zsum ((λ x, x.1.2) <$> xs).
Definition notional_of (from : double) (xs : list execution) : double :=
  foldl (λ t x, d_add t (d_mul x.2 (d_of_Z x.1.2))) from xs.

Lemma net_of_cons o q price xs : net_of ((o, q, price) :: xs) = signed o q + net_of xs.
Proof. done. Qed.
Lemma gross_of_cons o q price xs : gross_of ((o, q, price) :: xs) = q + gross_of xs.
Proof. done. Qed.

(** A position is the sum of its executions: after any executions the
    net position of a symbol has moved by the signed quantities of that
    symbol's executions and the gross exposure by their quantities (in
    [int32_t]), the notional is accumulated in order, and executions of other
    symbols do not count. *)
Theorem positions_are_sums e xs sym
    (Hp : is_i32 (net_position (get_position e sym)))
    (Hg : is_i32 (gross_exposure (get_position e sym))) :
  let p := get_position e sym in
  get_position (execute_all e xs) sym =
  MkPosition (i32 (net_position p + net_of (of_symbol sym xs)))
    (i32 (gross_exposure p + gross_of (of_symbol sym xs)))
    (notional_of (total_notional p) (of_symbol sym xs)).
Proof.
  revert e Hp Hg. induction xs as [|[[o q] price] xs IH]; intros e Hp Hg; simpl.
  - unfold net_of, gross_of. simpl. rewrite !Z.add_0_r, !i32_id by done.
    by destruct (get_position e sym).
  - assert (get_position (on_order_executed e o q price) sym =
      if decide (SymbolKey_of_chars (o_symbol o) = SymbolKey_of_chars sym)
      then apply_execution (get_position e sym) o q price else get_position e sym) as Hpos.
    { unfold get_position, on_order_executed. rewrite position_at_insert.
      case_decide as H; [by rewrite H|done]. }
    unfold of_symbol. rewrite filter_cons. simpl.
    specialize (IH (on_order_executed e o q price)). rewrite Hpos in IH.
    unfold of_symbol in IH. 
    destruct (decide (SymbolKey_of_chars (o_symbol o) = SymbolKey_of_chars sym)) as [Hs|Hs];
      [|by apply IH].
    rewrite IH.
    2:{ unfold apply_execution. simpl. destruct (is_buy o); apply i32_range. }
    2:{ unfold apply_execution. simpl. apply i32_range. }
    rewrite net_of_cons, gross_of_cons. unfold apply_execution. simpl.
    rewrite i32_add_l, !Z.add_assoc. f_equal.
    unfold signed. destruct (is_buy o); by rewrite i32_add_l.
Qed.

(** ** Symbol keys *)

Lemma nuls_strn n k s : strn n (s +:+ nuls k) = strn n s.
Proof.
  revert s. induction n as [|n IH]; intros s; [done|].
  destruct s as [|c s]; simpl.
  - by destruct k.
  - change (String c s +:+ nuls k) with (String c (s +:+ nuls k)).
    unfold strn; fold strn. by rewrite IH.
Qed.

Lemma strn_idem n s : strn n (strn n s) = strn n s.
Proof.
  revert s. induction n as [|n IH]; intros s; [done|].
  destruct s as [|c s]; [done|]. unfold strn at 2 3; fold strn.
  case_decide; [done|]. unfold strn; fold strn. rewrite decide_False by done. by rewrite IH.
Qed.

Lemma fnv1a_strn n h s : fnv1a n h (strn n s) = fnv1a n h s.
Proof.
  revert h s. induction n as [|n IH]; intros h s; [done|].
  destruct s as [|c s]; [done|]. unfold strn; fold strn. simpl.
  case_decide as Hc; simpl; [done|]. by rewrite decide_False, IH.
Qed.

(** A [SymbolKey] is its C string: two symbols have the same key, and
    so the same position, exactly if their strings up to sixteen bytes agree;
    the hash is that of the C string, so equal keys hash alike; and the key of
    a [std::string] with no NUL in front of its sixteenth byte is that of its
    characters, so both overloads of [get_position] read the same entry. *)
Theorem symbol_key_faithful a b e :
  (SymbolKey_of_chars a = SymbolKey_of_chars b ↔ strn 16 a = strn 16 b) ∧
  SymbolKeyHash (SymbolKey_of_chars a) = SymbolKeyHash a ∧
  (strn 16 a = String.substring 0 16 a → get_position_string e a = get_position e a).
Proof.
  assert (∀ s, strn 16 (SymbolKey_of_chars s) = strn 16 s) as Hk.
  { intros s. unfold SymbolKey_of_chars, pad16. by rewrite nuls_strn, strn_idem. }
  split_and!.
  - split; [|unfold SymbolKey_of_chars; by intros ->].
    intros H. by rewrite <- (Hk a), <- (Hk b), H.
  - unfold SymbolKeyHash. by rewrite <- fnv1a_strn, Hk, fnv1a_strn.
  - unfold get_position_string, get_position, SymbolKey_of_string, SymbolKey_of_chars.
    by intros ->.
Qed.

(** ** What slips through *)

(** Orders without a usable price skip the price checks: the price band
    accepts any order with a NaN or non-positive price or no limit, whatever
    the band; and the notional limit accepts a limit order at a non-positive
    price outright and counts an order at NaN, like a market order at 0, at a
    price of 1. *)
Theorem unpriced_orders_skip_price_checks e o mid sym
    (Hprice : d_lt d_zero (o_price o) = false) :
  check_price_band e o mid = (e, true) ∧
  (d_le (o_price o) d_zero = true → is_limit o = true → check_notional_limit e o sym = (e, true)) ∧
  (is_nan (o_price o) = true ∨ is_limit o = false →
   (check_notional_limit e o sym = (e, true) ↔
    d_lt (max_notional (r_limits e)) (d_add (total_notional (position_at e sym))
      (d_mul (d_of_Z 1) (d_of_Z (o_quantity o)))) = false)).
Proof.
  split_and!.
  - destruct (is_nan (o_price o)) eqn:Hn.
    + unfold check_price_band. destruct (_ || _); [done|]. destruct (negb _); [done|].
      unfold price_deviation. assert (o_price o = SpecFloat.S754_nan) as ->.
      { by destruct (o_price o). }
      by rewrite d_lt_nan_r by (by destruct mid as [| | |[]]).
    + unfold check_price_band. assert (d_le (o_price o) d_zero = true) as ->.
      { apply negb_false_iff. by rewrite <- d_not_lt. }
      by rewrite orb_true_r.
  - intros Hle Hl. unfold check_notional_limit. by rewrite Hle, Hl.
  - intros Hc. unfold check_notional_limit. rewrite Hprice.
    assert (d_le (o_price o) d_zero && is_limit o = false) as ->.
    { destruct Hc as [Hn| ->]; [|apply andb_false_r].
      rewrite d_le_spec, d_lt_nan_l by done. apply andb_false_iff. left. simpl.
      apply not_true_iff_false. intros (?&_)%d_eq_spec. congruence. }
    destruct (d_lt (max_notional _) _); split; try done.
Qed.

(** The position check at the end of the range: an order that takes the
    position to exactly [INT32_MIN] passes whatever the limit, since [abs] of
    it is negative again. *)
Theorem position_check_int_min e o sym
    (Hbuy : is_buy o = false) (Hlim : 0 <= max_position (r_limits e))
    (Hpos : net_position (position_at e sym) - o_quantity o = - 2 ^ 31) :
  check_position_limit e o sym = (e, true).
Proof.
  unfold check_position_limit. rewrite Hbuy, Hpos.
  change (c_abs (i32 (- 2 ^ 31))) with (- 2 ^ 31).
  rewrite (proj2 (Z.ltb_ge _ _)) by lia. done.
Qed.

(** ** The claims at concrete inputs *)

Module RiskDemo.

Definition order (sd : Side) (price qty : Z) : Order :=
  MkOrder 1 1 (d_of_Z price) qty 0 0 sd LIMIT NEW "AAPL".

(** Long 99950 shares, 50 below the default limit. *)
Definition long : RiskEngine :=
  on_order_executed new_risk_engine (order BUY 10 99950) 99950 (d_of_Z 10).

(** Room for two orders a second. *)
Definition slow : RiskEngine :=
  set_limits new_risk_engine
    (MkLimits 10000 100000 500000 (d_of_Z 10000000) (d_of_Z 5) 2 true).

Definition requests : list request :=
  [(order BUY 10 5, d_zero, 7); (order BUY 10 5, d_zero, 7); (order BUY 10 5, d_zero, 7);
   (order BUY 10 5, d_zero, 8)].

End RiskDemo.

Lemma validate_decides_limits_witness :
  (validate RiskDemo.long (RiskDemo.order BUY 10 60) d_zero 5).2 = false.
Proof.
  pose proof (validate_decides_limits RiskDemo.long (RiskDemo.order BUY 10 60) d_zero 5
    ltac:(intros _; vm_compute; intuition congruence) ltac:(vm_compute; intuition congruence)) as H.
  destruct (validate _ _ _ _) as [e' ok]. simpl. destruct H as (-> & _).
  vm_compute. reflexivity.
Defined.

Lemma risk_limits_never_exceeded_witness :
  let e := set_limits new_risk_engine default_limits in
  let o := RiskDemo.order BUY 10 500 in
  Z.abs (net_position (get_position
    (on_order_executed (validate e o d_zero 5).1 o 300 (d_of_Z 10)) "AAPL")) <= 100000.
Proof.
  intros e o. apply (risk_limits_never_exceeded default_limits).
  - vm_compute. intuition congruence.
  - eapply rtc_l; [|apply rtc_refl]. eapply (step_executed _ _ d_zero 5).
    + vm_compute. reflexivity.
    + simpl. lia.
Defined.

Lemma rate_limit_never_exceeded_witness :
  Z.of_nat (accepted_in 7 (validate_all RiskDemo.slow RiskDemo.requests).2) <= 2 ∧
  (validate_all RiskDemo.slow RiskDemo.requests).2 = [(7, true); (7, true); (7, false); (8, true)].
Proof.
  split; [|vm_compute; reflexivity].
  apply (rate_limit_never_exceeded RiskDemo.slow RiskDemo.requests 7); try reflexivity.
  - vm_compute. intuition congruence.
  - repeat (apply Forall_cons; split; [vm_compute; intuition congruence|]). apply Forall_nil_2.
  - repeat (apply SSorted_cons; [|repeat (apply Forall_cons; split; [vm_compute; congruence|]);
      apply Forall_nil_2]). apply SSorted_nil.
Defined.

Lemma positions_are_sums_witness :
  net_position (get_position (execute_all new_risk_engine
    [(RiskDemo.order BUY 10 7, 7, d_of_Z 10); (RiskDemo.order SELL 10 3, 2, d_of_Z 11)]) "AAPL") = 5.
Proof.
  rewrite positions_are_sums; vm_compute; intuition congruence.
Defined.

Lemma symbol_key_faithful_witness :
  get_position_string RiskDemo.long "AAPL" = get_position RiskDemo.long "AAPL".
Proof. apply (symbol_key_faithful "AAPL" "AAPL"). reflexivity. Defined.

Lemma unpriced_orders_skip_price_checks_witness :
  let o := set_price (RiskDemo.order BUY 10 60) SpecFloat.S754_nan in
  check_price_band new_risk_engine o (d_of_Z 100) = (new_risk_engine, true).
Proof. apply (unpriced_orders_skip_price_checks _ _ _ ""). reflexivity. Defined.

Lemma position_check_int_min_witness :
  let o := RiskDemo.order SELL 10 8 in
  let e := set_positions new_risk_engine {["AAPL" := MkPosition (8 - 2 ^ 31) 0 d_zero]} in
  check_position_limit e o "AAPL" = (e, true).
Proof. apply position_check_int_min; vm_compute; reflexivity || intuition congruence. Defined.
