(* ===== verification/Crc32.v ===== *)
(** * The CRC-32 of the journal (src/journal.c)

    The table-driven [crc32_update] is shown equal to the bit-by-bit division
    by the reflected polynomial of IEEE 802.3, whose step has an inverse: two
    messages of which one byte differs have different checksums. *)

From S2P Require Export CInt.

Definition CRC_POLY : Z := 0xEDB88320.

(** [crc = (crc >> 1) ^ (crc & 1 ? 0xEDB88320UL : 0)] *)
Definition crc_bit (crc : Z) : Z :=
  Z.lxor (Z.shiftr crc 1) (if Z.testbit crc 0 then CRC_POLY else 0).

Definition crc_entry (i : Z) : Z := Nat.iter 8 crc_bit i.

(** [crc32_init] *)
Definition crc32_table : list Z := crc_entry <$> seqZ 0 256.

Definition crc_byte (crc b : Z) : option Z :=
  t ← arr_get crc32_table (Z.land (Z.lxor crc b) 0xFF);
  Some (Z.lxor (Z.shiftr crc 8) t).

(** [crc32_update]; [None] would be a read outside the table. *)
Fixpoint crc32_update (crc : Z) (data : list Z) : option Z :=
  match data with
  | [] => Some crc
  | b :: data => crc ← crc_byte crc b; crc32_update crc data
  end.

(** ** The reference *)

Definition crc_ref (crc : Z) (data : list Z) : Z :=
  foldl (λ crc b, Nat.iter 8 crc_bit (Z.lxor crc b)) crc data.

Example crc_check :
  (λ c, Z.lxor c 0xFFFFFFFF) <$>
    crc32_update 0xFFFFFFFF [49; 50; 51; 52; 53; 54; 55; 56; 57] = Some 0xCBF43926.
Proof. vm_compute. reflexivity. Qed.

(** ** The step is linear and invertible *)

Lemma crc_bit_lxor a b : crc_bit (Z.lxor a b) = Z.lxor (crc_bit a) (crc_bit b).
Proof.
  unfold crc_bit. rewrite Z.lxor_spec, Z.shiftr_lxor.
  apply Z.bits_inj'. intros n _. rewrite !Z.lxor_spec.
  destruct (Z.testbit a 0), (Z.testbit b 0); simpl; rewrite ?Z.bits_0;
    destruct (Z.testbit (Z.shiftr a 1) n), (Z.testbit (Z.shiftr b 1) n), (Z.testbit CRC_POLY n);
    done.
Qed.

Lemma crc_bits_lxor n a b :
  Nat.iter n crc_bit (Z.lxor a b) = Z.lxor (Nat.iter n crc_bit a) (Nat.iter n crc_bit b).
Proof. induction n as [|n IH]; simpl; [done|]. by rewrite IH, crc_bit_lxor. Qed.

Lemma crc_bit_even a : crc_bit (2 * a) = a.
Proof.
  unfold crc_bit.
  replace (Z.testbit (2 * a) 0) with false by by rewrite Z.testbit_even_0.
  rewrite Z.lxor_0_r, Z.shiftr_div_pow2 by lia. change (2 ^ 1) with 2.
  rewrite Z.mul_comm. by rewrite Z.div_mul.
Qed.

Lemma crc_bits_shift n a : Nat.iter n crc_bit (2 ^ Z.of_nat n * a) = a.
Proof.
  revert a. induction n as [|n IH]; intros a; [by rewrite Z.mul_1_l|].
  rewrite Nat.iter_succ_r.
  replace (2 ^ Z.of_nat (S n) * a) with (2 * (2 ^ Z.of_nat n * a))
    by (rewrite Nat2Z.inj_succ, Z.pow_succ_r by lia; lia).
  rewrite crc_bit_even. apply IH.
Qed.

Definition crc_bit_inv (r : Z) : Z :=
  if Z.testbit r 31 then 2 * Z.lxor r CRC_POLY + 1 else 2 * r.

Lemma crc_bit_u32 c : is_u32 c → is_u32 (crc_bit c).
Proof.
  intros Hc. apply lxor_u32; [|destruct (Z.testbit c 0); vm_compute; intuition congruence].
  unfold is_u32 in *. rewrite Z.shiftr_div_pow2 by lia. change (2 ^ 1) with 2.
  split; [by apply Z.div_pos; lia|apply Z.div_lt_upper_bound; lia].
Qed.

Lemma crc_bit_invertible c : is_u32 c → crc_bit_inv (crc_bit c) = c.
Proof.
  intros Hc. unfold crc_bit_inv, crc_bit.
  assert (Z.testbit (Z.shiftr c 1) 31 = false) as H31.
  { rewrite Z.shiftr_spec by lia. apply Z.bits_above_log2; unfold is_u32 in *; [lia|].
    destruct (Z.eq_dec c 0) as [->|]; [done|]. apply Z.log2_lt_pow2; lia. }
  pose proof (Z.div_mod c 2 ltac:(lia)) as Hdm. rewrite Z.lxor_spec, H31.
  assert (Z.shiftr c 1 = c / 2) as Hs by (by rewrite Z.shiftr_div_pow2).
  rewrite Z.bit0_odd.
  rewrite Zmod_odd in Hdm. destruct (Z.odd c).
  - change (Z.testbit CRC_POLY 31) with true. simpl.
    rewrite Z.lxor_assoc, Z.lxor_nilpotent, Z.lxor_0_r, Hs. lia.
  - rewrite Z.bits_0. simpl. rewrite Z.lxor_0_r, Hs. lia.
Qed.

Lemma crc_bits_u32 n c : is_u32 c → is_u32 (Nat.iter n crc_bit c).
Proof. intros H. induction n as [|n IH]; simpl; [done|]. by apply crc_bit_u32. Qed.

Lemma crc_bits_inj n a b :
  is_u32 a → is_u32 b → Nat.iter n crc_bit a = Nat.iter n crc_bit b → a = b.
Proof.
  intros Ha Hb. induction n as [|n IH]; simpl; [done|]. intros H. apply IH.
  rewrite <- (crc_bit_invertible (Nat.iter n crc_bit a)) by by apply crc_bits_u32.
  rewrite H. by apply crc_bit_invertible, crc_bits_u32.
Qed.

#[local] Arguments Nat.iter : simpl never.

Lemma split_byte x : x = Z.lxor (2 ^ Z.of_nat 8 * Z.shiftr x 8) (Z.land x 255).
Proof.
  change (Z.of_nat 8) with 8.
  rewrite Z.mul_comm, <- Z.shiftl_mul_pow2, <- Z.ldiff_ones_r by lia.
  change (Z.ones 8) with 255. apply Z.bits_inj'. intros n _.
  rewrite Z.lxor_spec, Z.ldiff_spec, Z.land_spec.
  by destruct (Z.testbit x n), (Z.testbit 255 n).
Qed.

Lemma crc_bits_byte x :
  Nat.iter 8 crc_bit x = Z.lxor (Z.shiftr x 8) (crc_entry (Z.land x 255)).
Proof.
  rewrite (split_byte x) at 1. rewrite crc_bits_lxor, crc_bits_shift. unfold crc_entry.
  reflexivity.
Qed.

Lemma crc_table_get i : 0 <= i < 256 → arr_get crc32_table i = Some (crc_entry i).
Proof.
  intros Hi. unfold arr_get, crc32_table. rewrite decide_True by lia. rewrite list_lookup_fmap, lookup_seqZ_lt by lia. simpl. f_equal. f_equal. lia.
Qed.

Lemma crc_byte_ref crc b :
  is_u8 b → crc_byte crc b = Some (Nat.iter 8 crc_bit (Z.lxor crc b)).
Proof.
  intros Hb. unfold crc_byte. rewrite crc_table_get.
  2:{ change 255 with (2 ^ 8 - 1). rewrite land_mask by lia. by apply Z.mod_pos_bound. }
  simpl. f_equal. rewrite (crc_bits_byte (Z.lxor crc b)), Z.shiftr_lxor.
  rewrite (Z.shiftr_div_pow2 b), Z.div_small by (unfold is_u8 in Hb; lia).
  by rewrite Z.lxor_0_r.
Qed.

Lemma crc32_update_ref crc data :
  Forall is_u8 data → crc32_update crc data = Some (crc_ref crc data).
Proof.
  intros H. revert crc. induction H as [|b data Hb H IH]; intros crc; [done|].
  cbn [crc32_update]. rewrite crc_byte_ref by done. apply IH.
Qed.

Lemma crc_ref_app crc d1 d2 : crc_ref crc (d1 ++ d2) = crc_ref (crc_ref crc d1) d2.
Proof. apply foldl_app. Qed.


Lemma is_u8_u32 b : is_u8 b → is_u32 b.
Proof. unfold is_u8, is_u32. lia. Qed.

Lemma crc_ref_u32 crc data : is_u32 crc → Forall is_u8 data → is_u32 (crc_ref crc data).
Proof.
  intros Hc H. revert crc Hc. induction H as [|b data Hb H IH]; intros crc Hc; [done|].
  apply IH, crc_bits_u32, lxor_u32; [done|by apply is_u8_u32].
Qed.


Lemma lxor_inj_l a b c : Z.lxor a c = Z.lxor b c → a = b.
Proof.
  intros H. rewrite <- (Z.lxor_0_r a), <- (Z.lxor_nilpotent c), <- Z.lxor_assoc, H.
  by rewrite Z.lxor_assoc, Z.lxor_nilpotent, Z.lxor_0_r.
Qed.

(** The checksum depends injectively on the state it starts from. *)
Lemma crc_ref_inj a b data :
  is_u32 a → is_u32 b → Forall is_u8 data → crc_ref a data = crc_ref b data → a = b.
Proof.
  intros Ha Hb H. revert a b Ha Hb. induction H as [|x data Hx H IH]; intros a b Ha Hb He; [done|].
  apply is_u8_u32 in Hx. apply IH in He; [|by apply crc_bits_u32, lxor_u32..].
  apply crc_bits_inj in He; [|by apply lxor_u32..]. by eapply lxor_inj_l.
Qed.

(** One byte changed anywhere changes the checksum. *)
Lemma crc_ref_byte_changed crc d1 x y d2 :
  is_u32 crc → Forall is_u8 (d1 ++ x :: d2) → is_u8 y → x ≠ y →
  crc_ref crc (d1 ++ x :: d2) ≠ crc_ref crc (d1 ++ y :: d2).
Proof.
  intros Hc Hd Hy Hne He. apply Forall_app in Hd as [H1 [Hx H2]%Forall_cons].
  pose proof (crc_ref_u32 _ _ Hc H1) as Hc1. apply is_u8_u32 in Hx, Hy.
  rewrite !crc_ref_app in He. simpl in He.
  apply crc_ref_inj in He; [|by apply crc_bits_u32, lxor_u32..|done].
  apply crc_bits_inj in He; [|by apply lxor_u32..].
  rewrite !(Z.lxor_comm (crc_ref crc d1)) in He. by apply lxor_inj_l in He.
Qed.
