(* ===== verification/Bytes.v ===== *)
(** * Memory representation on a little-endian machine

    The bytes of the packed structures the program writes: integers least
    significant byte first, [double] as its IEEE 754 binary64 encoding, C
    strings in fixed arrays.  A byte is a [Z] below 256. *)

From S2P Require Export Order.

(** [n] bytes of [z], least significant first. *)
Fixpoint le_bytes (n : nat) (z : Z) : list Z :=
  match n with O => [] | S n => z mod 256 :: le_bytes n (z / 256) end.

(** The value of bytes in that order. *)
Fixpoint le_val (bytes : list Z) : Z :=
  match bytes with [] => 0 | b :: bytes => b + 256 * le_val bytes end.

Lemma le_bytes_length n z : length (le_bytes n z) = n.
Proof. revert z. induction n as [|n IH]; intros z; simpl; [done|]. by rewrite IH. Qed.

Lemma le_bytes_u8 n z : Forall is_u8 (le_bytes n z).
Proof.
  revert z. induction n as [|n IH]; intros z; simpl; constructor; [|done].
  unfold is_u8. change (2 ^ 8) with 256. apply Z.mod_pos_bound. lia.
Qed.

Lemma le_val_le_bytes n z : le_val (le_bytes n z) = z mod 256 ^ Z.of_nat n.
Proof.
  revert z. induction n as [|n IH]; intros z; [by rewrite Z.mod_1_r|].
  cbn [le_bytes le_val]. rewrite IH, Nat2Z.inj_succ, Z.pow_succ_r by lia.
  rewrite Z.rem_mul_r by lia. done.
Qed.

Lemma le_val_u32 z : is_u32 z → le_val (le_bytes 4 z) = z.
Proof. intros. rewrite le_val_le_bytes. by apply Z.mod_small. Qed.
Lemma le_val_u64 z : is_u64 z → le_val (le_bytes 8 z) = z.
Proof. intros. rewrite le_val_le_bytes. by apply Z.mod_small. Qed.

#[global] Opaque le_bytes.

(** [int32_t] in two's complement. *)
Definition le_i32 (z : Z) : list Z := le_bytes 4 (u32 z).

Lemma le_i32_back z : is_i32 z → i32 (le_val (le_i32 z)) = z.
Proof.
  intros Hz. unfold le_i32. rewrite le_val_u32 by apply u32_range.
  unfold i32, u32, is_i32 in *. rewrite Zplus_mod_idemp_l. rewrite Z.mod_small; lia.
Qed.

(** ** binary64 *)

Definition bits_of_sign (s : bool) : Z := if s then 2 ^ 63 else 0.

Definition double_bits (x : double) : Z :=
  match x with
  | SpecFloat.S754_zero s => bits_of_sign s
  | SpecFloat.S754_infinity s => bits_of_sign s + 2047 * 2 ^ 52
  | SpecFloat.S754_nan => 2047 * 2 ^ 52 + 2 ^ 51
  | SpecFloat.S754_finite s m e =>
    bits_of_sign s +
    (if Zpos m <? 2 ^ 52 then Zpos m else (e + 1075) * 2 ^ 52 + (Zpos m - 2 ^ 52))
  end.

Definition double_of_bits (b : Z) : double :=
  let s := 2 ^ 63 <=? b in
  let r := b mod 2 ^ 63 in
  let e := r / 2 ^ 52 in
  let m := r mod 2 ^ 52 in
  if e =? 2047 then if m =? 0 then SpecFloat.S754_infinity s else SpecFloat.S754_nan
  else if e =? 0 then
    match m with Zpos m => SpecFloat.S754_finite s m (-1074) | _ => SpecFloat.S754_zero s end
  else match m + 2 ^ 52 with
       | Zpos m => SpecFloat.S754_finite s m (e - 1075)
       | _ => SpecFloat.S754_nan
       end.

(** The numbers of the format: what [SpecFloat.valid_binary] says. *)
Definition valid_double (x : double) : Prop :=
  match x with
  | SpecFloat.S754_finite _ m e =>
    (Zpos m < 2 ^ 52 ∧ e = -1074) ∨ (2 ^ 52 <= Zpos m < 2 ^ 53 ∧ -1074 <= e <= 971)
  | _ => True
  end.

#[export] Instance valid_double_dec x : Decision (valid_double x).
Proof. destruct x; apply _. Defined.

Lemma double_bits_u64 x : valid_double x → is_u64 (double_bits x).
Proof.
  unfold is_u64. destruct x as [[]|[]| |s m e]; simpl; intros H; try lia.
  destruct (Z.ltb_spec (Zpos m) (2 ^ 52)); destruct s; simpl; lia.
Qed.

Lemma double_of_bits_parts s r :
  0 <= r < 2 ^ 63 →
  (2 ^ 63 <=? bits_of_sign s + r) = s ∧ (bits_of_sign s + r) mod 2 ^ 63 = r.
Proof.
  intros Hr. destruct s; unfold bits_of_sign.
  - rewrite (proj2 (Z.leb_le _ _)) by lia. split; [done|].
    rewrite <- (Z.mul_1_l (2 ^ 63)) at 1. rewrite Z.add_comm, Z.mod_add by lia.
    by apply Z.mod_small.
  - rewrite (proj2 (Z.leb_gt _ _)) by lia. split; [done|]. by apply Z.mod_small.
Qed.

Lemma exponent_mantissa e m :
  0 <= m < 2 ^ 52 → (e * 2 ^ 52 + m) / 2 ^ 52 = e ∧ (e * 2 ^ 52 + m) mod 2 ^ 52 = m.
Proof.
  intros Hm. rewrite Z.add_comm. rewrite Z.div_add, Z.mod_add by lia.
  rewrite Z.div_small, Z.mod_small by lia. lia.
Qed.

Lemma double_bits_back x : valid_double x → double_of_bits (double_bits x) = x.
Proof.
  destruct x as [[]|[]| |s m e]; try done. intros Hv. unfold valid_double in Hv.
  unfold double_bits, double_of_bits.
  set (r := if Zpos m <? 2 ^ 52 then _ else _).
  assert (0 <= r < 2 ^ 63) as Hr.
  { unfold r. destruct (Z.ltb_spec (Zpos m) (2 ^ 52)); lia. }
  destruct (double_of_bits_parts s r Hr) as [-> ->]. unfold r. clear r Hr.
  destruct (Z.ltb_spec (Zpos m) (2 ^ 52)).
  - rewrite Z.div_small, Z.mod_small by lia. simpl. destruct Hv as [[_ ->]|?]; [done|lia].
  - destruct (exponent_mantissa (e + 1075) (Zpos m - 2 ^ 52)) as [-> ->]; [lia|].
    rewrite (proj2 (Z.eqb_neq _ _)), (proj2 (Z.eqb_neq _ _)) by lia.
    rewrite Z.sub_add. by rewrite Z.add_simpl_r.
Qed.

Definition le_double (x : double) : list Z := le_bytes 8 (double_bits x).

(** ** Character arrays *)

Fixpoint chars (s : string) : list Z :=
  match s with
  | EmptyString => []
  | String c s => Z.of_nat (Ascii.nat_of_ascii c) :: chars s
  end.

(** [strncpy(dst, s, 15); dst[15] = 0] into [char dst[16]]. *)
Definition symbol_bytes (s : string) : list Z :=
  let cs := chars (strn 15 s) in cs ++ replicate (16 - length cs) 0.

(** The C string that bytes hold. *)
Fixpoint string_of_bytes (bytes : list Z) : string :=
  match bytes with
  | [] => EmptyString
  | b :: bytes => if b =? 0 then EmptyString
                  else String (Ascii.ascii_of_nat (Z.to_nat b)) (string_of_bytes bytes)
  end.

Lemma chars_length s : length (chars s) = String.length s.
Proof. induction s; simpl; congruence. Qed.

Lemma chars_u8 s : Forall is_u8 (chars s).
Proof.
  induction s as [|c s IH]; simpl; constructor; [|done].
  pose proof (Ascii.nat_ascii_bounded c). unfold is_u8. lia.
Qed.

Lemma strn_chars_length n s : (length (chars (strn n s)) <= n)%nat.
Proof. rewrite chars_length. apply strn_length. Qed.

Lemma symbol_bytes_length s : length (symbol_bytes s) = 16%nat.
Proof.
  unfold symbol_bytes. rewrite length_app, length_replicate.
  pose proof (strn_chars_length 15 s). lia.
Qed.

Lemma symbol_bytes_u8 s : Forall is_u8 (symbol_bytes s).
Proof.
  apply Forall_app. split; [apply chars_u8|]. by apply Forall_replicate.
Qed.

Lemma string_of_chars n s k :
  string_of_bytes (chars (strn n s) ++ replicate k 0) = strn n s.
Proof.
  revert s. induction n as [|n IH]; intros s.
  - simpl. by destruct k.
  - destruct s as [|c s]; [by destruct k|]. unfold strn; fold strn.
    case_decide as Hc; [by destruct k|]. simpl.
    destruct (Z.eqb_spec (Z.of_nat (Ascii.nat_of_ascii c)) 0) as [H0|H0].
    + exfalso. apply Hc. rewrite <- (Ascii.ascii_nat_embedding c).
      by replace (Ascii.nat_of_ascii c) with O by lia.
    + by rewrite IH, Nat2Z.id, Ascii.ascii_nat_embedding.
Qed.

Lemma symbol_bytes_back s : string_of_bytes (symbol_bytes s) = strn 15 s.
Proof. apply string_of_chars. Qed.
