(* ===== verification/Journal.v ===== *)
(** * The journal (include/journal.h, src/journal.c): definitions

    A file is the bytes that were written and a length; what was never written
    reads as zero, as the holes that [ftruncate] makes do.  A shared mapping of
    the file at offset 0 is the file itself, so that a [memcpy] into the mapping
    is a write to the file; it has to be inside the mapping, otherwise it is
    undefined behaviour, the [None] of [journal_append].  The stdio buffer of the
    other mode counts as part of the file.

    The results of the system calls are parameters: one record per function
    that makes any, with a field per call. *)

From S2P Require Export Bytes Crc32.

(** ** Files *)

Record file_t := MkFile { f_data : gmap Z Z; f_size : Z }.

Definition empty_file : file_t := MkFile ∅ 0.

Definition f_byte (f : file_t) (i : Z) : Z := default 0 (f_data f !! i).

(** Bytes [off, off + n). *)
Definition f_read (f : file_t) (off : Z) (n : nat) : list Z :=
  (λ i, f_byte f i) <$> seqZ off (Z.of_nat n).

Fixpoint store_bytes (d : gmap Z Z) (off : Z) (bytes : list Z) : gmap Z Z :=
  match bytes with [] => d | b :: bytes => store_bytes (<[off := b]> d) (off + 1) bytes end.

Definition f_store (f : file_t) (off : Z) (bytes : list Z) : file_t :=
  MkFile (store_bytes (f_data f) off bytes) (f_size f).
Definition f_append (f : file_t) (bytes : list Z) : file_t :=
  MkFile (store_bytes (f_data f) (f_size f) bytes) (f_size f + Z.of_nat (length bytes)).
Definition f_truncate (f : file_t) (n : Z) : file_t :=
  MkFile (filter (λ kv, kv.1 < n) (f_data f)) n.

(** ** Records *)

Inductive journal_record_type_t :=
  JRNL_ORDER_NEW | JRNL_ORDER_FILLED | JRNL_ORDER_CANCEL | JRNL_ORDER_REJECT
  | JRNL_TRADE | JRNL_SNAPSHOT.

Definition record_type_code (t : journal_record_type_t) : Z :=
  match t with
  | JRNL_ORDER_NEW => 1 | JRNL_ORDER_FILLED => 2 | JRNL_ORDER_CANCEL => 3
  | JRNL_ORDER_REJECT => 4 | JRNL_TRADE => 5 | JRNL_SNAPSHOT => 99
  end.

Record journal_header_t := MkHeader {
  h_timestamp_ns : Z;
  h_record_type : Z;
  h_payload_size : Z;
  h_sequence_number : Z;
  h_crc32 : Z;
  h_reserved : Z;
}.

Definition HEADER_SIZE : Z := 32.

(** The packed bytes of the header. *)
Definition header_bytes (h : journal_header_t) : list Z :=
  le_bytes 8 (h_timestamp_ns h) ++ le_bytes 4 (h_record_type h) ++ le_bytes 4 (h_payload_size h) ++
  le_bytes 8 (h_sequence_number h) ++ le_bytes 4 (h_crc32 h) ++ le_bytes 4 (h_reserved h).

Definition set_crc (h : journal_header_t) (c : Z) : journal_header_t :=
  MkHeader (h_timestamp_ns h) (h_record_type h) (h_payload_size h)
    (h_sequence_number h) c (h_reserved h).

(** ** The handle *)

Definition DEFAULT_MMAP_SIZE : Z := 256 * 1024 * 1024.

Record journal_t := MkJournal {
  j_use_mmap : bool;
  j_sequence : Z;
  j_bytes_written : Z;
  j_file_size : Z;
  j_mapped : bool;          (* mmap_base is a mapping *)
  j_mmap_size : Z;
  j_mmap_offset : Z;
  j_file : file_t;
}.

Definition set_file (j : journal_t) (f : file_t) : journal_t :=
  MkJournal (j_use_mmap j) (j_sequence j) (j_bytes_written j) (j_file_size j) (j_mapped j)
    (j_mmap_size j) (j_mmap_offset j) f.
Definition set_sequence (j : journal_t) (n : Z) : journal_t :=
  MkJournal (j_use_mmap j) n (j_bytes_written j) (j_file_size j) (j_mapped j)
    (j_mmap_size j) (j_mmap_offset j) (j_file j).
Definition set_bytes_written (j : journal_t) (n : Z) : journal_t :=
  MkJournal (j_use_mmap j) (j_sequence j) n (j_file_size j) (j_mapped j)
    (j_mmap_size j) (j_mmap_offset j) (j_file j).
Definition set_mapping (j : journal_t) (mapped : bool) (size : Z) : journal_t :=
  MkJournal (j_use_mmap j) (j_sequence j) (j_bytes_written j) (j_file_size j) mapped
    size (j_mmap_offset j) (j_file j).
Definition set_mmap_offset (j : journal_t) (n : Z) : journal_t :=
  MkJournal (j_use_mmap j) (j_sequence j) (j_bytes_written j) (j_file_size j) (j_mapped j)
    (j_mmap_size j) n (j_file j).

(** ** Opening *)

Record open_env := MkOpenEnv {
  oe_calloc : bool;
  oe_open : option file_t;   (* open or fopen: the file found or created *)
  oe_fstat : bool;
  oe_ftruncate : bool;
  oe_mmap : bool;
}.

Definition journal_open (env : open_env) (filepath_given use_mmap : bool) : option journal_t :=
  if negb filepath_given then None
  else if negb (oe_calloc env) then None
  else match oe_open env with
  | None => None
  | Some f =>
    if use_mmap then
      let file_size := if oe_fstat env then f_size f else 0 in
      if (file_size <? DEFAULT_MMAP_SIZE) && negb (oe_ftruncate env) then None
      else
        let extend := file_size <? DEFAULT_MMAP_SIZE in
        let mmap_size := if extend then DEFAULT_MMAP_SIZE else file_size in
        let f := if extend then f_truncate f DEFAULT_MMAP_SIZE else f in
        let file_size := mmap_size in
        if negb (oe_mmap env) then None
        else Some (MkJournal true 0 0 file_size true mmap_size
                     (if 0 <? file_size then file_size else 0) f)
    else Some (MkJournal false 0 0 0 false 0 0 f)
  end.

(** ** Appending *)

Record append_env := MkAppendEnv {
  ae_time : Z * Z;           (* CLOCK_MONOTONIC *)
  ae_ftruncate : bool;
  ae_mmap : bool;
  ae_fwrite_header : Z;      (* bytes of the header that fwrite wrote *)
  ae_fwrite_payload : Z;
}.

Definition now_nanos (ts : Z * Z) : Z := u64 (u64 (u64 ts.1 * 1000000000) + u64 ts.2).

(** Make room for [total] bytes at the write position, if needed. *)
Definition extend_mapping (env : append_env) (j : journal_t) (total : Z) : journal_t * bool :=
  if j_mmap_size j <? u64 (j_mmap_offset j + total) then
    let new_size := u64 (j_mmap_size j + DEFAULT_MMAP_SIZE) in
    if negb (ae_ftruncate env) then (j, false)
    else
      let j := set_file j (f_truncate (j_file j) new_size) in
      if negb (ae_mmap env) then (set_mapping j false (j_mmap_size j), false)
      else (set_mapping j true new_size, true)
  else (j, true).

(** [memcpy] to the write position. *)
Definition write_mapping (j : journal_t) (bytes : list Z) : option journal_t :=
  if decide (j_mapped j = true ∧ 0 <= j_mmap_offset j ∧
             j_mmap_offset j + Z.of_nat (length bytes) <= j_mmap_size j)
  then Some (set_file j (f_store (j_file j) (j_mmap_offset j) bytes))
  else None.

(** [fwrite] of all bytes, of which [n] get written. *)
Definition fwrite (j : journal_t) (bytes : list Z) (n : Z) : journal_t * bool :=
  (set_file j (f_append (j_file j) (take (Z.to_nat n) bytes)), n =? Z.of_nat (length bytes)).

(** The bytes at [payload] that are read; reading past them is undefined. *)
Definition payload_bytes (payload : option (list Z)) (payload_size : Z) : option (list Z) :=
  match payload with
  | Some p => if 0 <? payload_size then
                if decide (payload_size <= Z.of_nat (length p))
                then Some (take (Z.to_nat payload_size) p) else None
              else Some []
  | None => Some []
  end.

Definition record_header (env : append_env) (j : journal_t) (type payload_size crc : Z)
    : journal_header_t :=
  MkHeader (now_nanos (ae_time env)) (u32 type) payload_size (j_sequence j) crc 0.

Definition journal_append_to (env : append_env) (j : journal_t) (type : Z)
    (payload : option (list Z)) (payload_size : Z) : option (journal_t * Z) :=
  let hdr := record_header env j type payload_size 0 in
  let j := set_sequence j (u64 (j_sequence j + 1)) in
  data ← payload_bytes payload payload_size;
  crc ← crc32_update 0xFFFFFFFF (header_bytes hdr);
  crc ← crc32_update crc data;
  let hdr := set_crc hdr (Z.lxor crc 0xFFFFFFFF) in
  let total_size := u64 (HEADER_SIZE + payload_size) in
  let written j := set_bytes_written j (u64 (j_bytes_written j + total_size)) in
  if j_use_mmap j then
    let '(j, ok) := extend_mapping env j total_size in
    if negb ok then Some (j, -1) else
    j ← write_mapping j (header_bytes hdr ++ data);
    let j := set_mmap_offset j (u64 (j_mmap_offset j + total_size)) in
    Some (written j, 0)
  else
    let '(j, ok) := fwrite j (header_bytes hdr) (ae_fwrite_header env) in
    if negb ok then Some (j, -1) else
    if bool_decide (data = []) then Some (written j, 0) else
    let '(j, ok) := fwrite j data (ae_fwrite_payload env) in
    if negb ok then Some (j, -1) else Some (written j, 0).

Definition journal_append (env : append_env) (jrnl : option journal_t) (type : Z)
    (payload : option (list Z)) (payload_size : Z) : option (option journal_t * Z) :=
  match jrnl with
  | None => Some (None, -1)
  | Some j => r ← journal_append_to env j type payload payload_size; Some (Some r.1, r.2)
  end.

(** [msync], [fflush] and [fsync] do not change the contents. *)
Definition journal_sync (jrnl : option journal_t) : option journal_t := jrnl.

(** What is on disk when the handle is gone; [truncated]: [ftruncate] worked. *)
Definition journal_close (truncated : bool) (jrnl : option journal_t) : option file_t :=
  j ← journal_sync jrnl;
  Some (if j_use_mmap j && truncated then f_truncate (j_file j) (j_mmap_offset j)
        else j_file j).

Definition journal_sequence (jrnl : option journal_t) : Z :=
  match jrnl with Some j => j_sequence j | None => 0 end.
Definition journal_bytes_written (jrnl : option journal_t) : Z :=
  match jrnl with Some j => j_bytes_written j | None => 0 end.

(** ** The convenience functions *)

(** The [char symbol[16]] of a payload; for a null pointer only the first byte
    is set and [junk] is what the stack held in the others. *)
Definition payload_symbol (symbol : option string) (junk : list Z) : list Z :=
  match symbol with
  | Some s => symbol_bytes s
  | None => 0 :: junk
  end.

Definition order_payload_bytes (order_id account_id : Z) (price : double)
    (qty filled_qty order_ts_ns side order_type status : Z)
    (symbol : option string) (junk : list Z) : list Z :=
  le_i32 order_id ++ le_i32 account_id ++ le_double price ++ le_i32 qty ++ le_i32 filled_qty ++
  le_bytes 8 order_ts_ns ++ le_bytes 1 side ++ le_bytes 1 order_type ++ le_bytes 1 status ++ le_bytes 1 0 ++
  payload_symbol symbol junk.

Definition ORDER_PAYLOAD_SIZE : Z := 52.

Definition journal_log_order (env : append_env) (jrnl : option journal_t)
    (type : journal_record_type_t) (order_id account_id : Z) (price : double)
    (qty filled_qty order_ts_ns side order_type status : Z)
    (symbol : option string) (junk : list Z) : option (option journal_t * Z) :=
  journal_append env jrnl (record_type_code type)
    (Some (order_payload_bytes order_id account_id price qty filled_qty order_ts_ns side
             order_type status symbol junk)) ORDER_PAYLOAD_SIZE.

Definition trade_payload_bytes (trade_id buy_order_id sell_order_id : Z) (price : double)
    (qty trade_ts_ns : Z) (symbol : option string) (junk : list Z) : list Z :=
  le_i32 trade_id ++ le_i32 buy_order_id ++ le_i32 sell_order_id ++ le_double price ++
  le_i32 qty ++ le_bytes 8 trade_ts_ns ++ payload_symbol symbol junk ++ replicate 4 0.

Definition TRADE_PAYLOAD_SIZE : Z := 52.

Definition journal_log_trade (env : append_env) (jrnl : option journal_t)
    (trade_id buy_order_id sell_order_id : Z) (price : double) (qty trade_ts_ns : Z)
    (symbol : option string) (junk : list Z) : option (option journal_t * Z) :=
  journal_append env jrnl (record_type_code JRNL_TRADE)
    (Some (trade_payload_bytes trade_id buy_order_id sell_order_id price qty trade_ts_ns
             symbol junk)) TRADE_PAYLOAD_SIZE.
