(* ===== verification/JournalLemmas.v ===== *)
(** * The journal: records as bytes and what appending writes

    The bytes of a record are [seal_bytes]; a record is read back by
    [parse_record], which checks the checksum, and a file by [replay], which
    reads records from the front until one does not check.  [replay] stands for
    the recovery the header file describes; the repository has no code for it. *)

From S2P Require Export Journal.

(** ** Headers *)

Definition header_ok (h : journal_header_t) : Prop :=
  is_u64 (h_timestamp_ns h) ∧ is_u32 (h_record_type h) ∧ is_u32 (h_payload_size h) ∧
  is_u64 (h_sequence_number h) ∧ is_u32 (h_crc32 h) ∧ is_u32 (h_reserved h).

Lemma header_bytes_length h : length (header_bytes h) = 32%nat.
Proof. unfold header_bytes. by rewrite !length_app, !le_bytes_length. Qed.

Lemma header_bytes_u8 h : Forall is_u8 (header_bytes h).
Proof. unfold header_bytes. rewrite !Forall_app. by repeat split; apply le_bytes_u8. Qed.

Definition field (off n : nat) (bytes : list Z) : Z := le_val (take n (drop off bytes)).

Definition parse_header (b : list Z) : journal_header_t :=
  MkHeader (field 0 8 b) (field 8 4 b) (field 12 4 b) (field 16 8 b) (field 24 4 b) (field 28 4 b).

(** Reading the field behind [pre]. *)
Lemma field_app pre off n x post :
  length pre = off → length x = n → field off n (pre ++ x ++ post) = le_val x.
Proof.
  intros <- <-. unfold field. rewrite drop_app_length, take_app_length. done.
Qed.

Lemma field_app0 n x post : length x = n → field 0 n (x ++ post) = le_val x.
Proof. intros H. by apply (field_app []). Qed.

Lemma parse_header_bytes h tail : header_ok h → parse_header (header_bytes h ++ tail) = h.
Proof.
  intros (H1 & H2 & H3 & H4 & H5 & H6). destruct h as [ts ty sz sq c rs]. simpl in *.
  unfold parse_header, header_bytes. simpl. rewrite <- !app_assoc.
  f_equal.
  - by rewrite (field_app0), le_val_u64 by (done || by rewrite le_bytes_length).
  - by rewrite (field_app (le_bytes 8 ts)), le_val_u32 by (done || by rewrite le_bytes_length).
  - rewrite (app_assoc (le_bytes 8 ts)).
    by rewrite field_app, le_val_u32 by (done || by rewrite ?length_app, !le_bytes_length).
  - rewrite (app_assoc (le_bytes 8 ts)), (app_assoc (_ ++ le_bytes 4 ty)).
    by rewrite field_app, le_val_u64 by (done || by rewrite ?length_app, !le_bytes_length).
  - rewrite (app_assoc (le_bytes 8 ts)), (app_assoc (_ ++ le_bytes 4 ty)),
      (app_assoc (_ ++ le_bytes 4 sz)).
    by rewrite field_app, le_val_u32 by (done || by rewrite ?length_app, !le_bytes_length).
  - rewrite (app_assoc (le_bytes 8 ts)), (app_assoc (_ ++ le_bytes 4 ty)),
      (app_assoc (_ ++ le_bytes 4 sz)), (app_assoc (_ ++ le_bytes 8 sq)).
    by rewrite field_app, le_val_u32 by (done || by rewrite ?length_app, !le_bytes_length).
Qed.

(** ** Sealing and checking *)

Definition checksum (bytes : list Z) : Z := Z.lxor (crc_ref 0xFFFFFFFF bytes) 0xFFFFFFFF.

(** The record for a header whose checksum field is zero. *)
Definition seal_bytes (h : journal_header_t) (data : list Z) : list Z :=
  header_bytes (set_crc h (checksum (header_bytes (set_crc h 0) ++ data))) ++ data.

Lemma seal_bytes_length h data : length (seal_bytes h data) = (32 + length data)%nat.
Proof. unfold seal_bytes. by rewrite length_app, header_bytes_length. Qed.

Lemma seal_bytes_u8 h data : Forall is_u8 data → Forall is_u8 (seal_bytes h data).
Proof. intros. apply Forall_app. split; [apply header_bytes_u8|done]. Qed.

(** The checksum field of a whole record fits its bytes: the field is at
    offset 24 and counts as zero in the sum. *)
Definition record_checks (bytes : list Z) : bool :=
  field 24 4 bytes =? checksum (take 24 bytes ++ [0; 0; 0; 0] ++ drop 28 bytes).

Lemma checksum_u32 bytes : Forall is_u8 bytes → is_u32 (checksum bytes).
Proof.
  intros H. apply lxor_u32; [|by unfold is_u32].
  apply crc_ref_u32; [by unfold is_u32|done].
Qed.

Lemma record_checks_seal h data :
  header_ok h → Forall is_u8 data → record_checks (seal_bytes h data) = true.
Proof.
  intros Hok Hd. unfold record_checks, seal_bytes.
  set (c := checksum _). assert (is_u32 c) as Hc.
  { apply checksum_u32. apply Forall_app. split; [apply header_bytes_u8|done]. }
  assert (header_ok (set_crc h c)) as Hok' by (destruct Hok as (?&?&?&?&?&?); by split_and!).
  pose proof (parse_header_bytes _ data Hok') as Hp. apply (f_equal h_crc32) in Hp.
  simpl in Hp. rewrite Hp. by apply Z.eqb_eq.
Qed.

(** ** Reading records back *)

Definition parse_record (bytes : list Z) : option (journal_header_t * list Z * list Z) :=
  let h := parse_header bytes in
  let n := (32 + Z.to_nat (h_payload_size h))%nat in
  if decide ((32 <= length bytes)%nat ∧ (n <= length bytes)%nat) then
    if record_checks (take n bytes)
    then Some (h, take (Z.to_nat (h_payload_size h)) (drop 32 bytes), drop n bytes)
    else None
  else None.

(** Each record takes at least 32 bytes: [fuel] of the length is enough. *)
Fixpoint replay_fuel (fuel : nat) (bytes : list Z) : list (journal_header_t * list Z) :=
  match fuel with
  | O => []
  | S fuel =>
    match parse_record bytes with
    | Some (h, data, rest) => (h, data) :: replay_fuel fuel rest
    | None => []
    end
  end.
Definition replay (bytes : list Z) : list (journal_header_t * list Z) :=
  replay_fuel (length bytes) bytes.

(** The header of the record as it is in the file. *)
Definition sealed_header (h : journal_header_t) (data : list Z) : journal_header_t :=
  set_crc h (checksum (header_bytes (set_crc h 0) ++ data)).

Lemma parse_seal h data tail :
  header_ok h → Forall is_u8 data → h_payload_size h = Z.of_nat (length data) →
  parse_record (seal_bytes h data ++ tail) = Some (sealed_header h data, data, tail).
Proof.
  intros Hok Hd Hsz. unfold parse_record.
  assert (header_ok (sealed_header h data)) as Hok'.
  { destruct Hok as (?&?&?&?&?&?). split_and!; try done. apply checksum_u32.
    apply Forall_app. split; [apply header_bytes_u8|done]. }
  assert (parse_header (seal_bytes h data ++ tail) = sealed_header h data) as ->.
  { unfold seal_bytes. rewrite <- app_assoc. by apply parse_header_bytes. }
  assert (h_payload_size (sealed_header h data) = Z.of_nat (length data)) as -> by done.
  rewrite Nat2Z.id.
  pose proof (seal_bytes_length h data) as Hlen.
  rewrite decide_True by (rewrite length_app, Hlen; lia).
  rewrite take_app_length' by done. rewrite record_checks_seal by done.
  assert (drop 32 (seal_bytes h data ++ tail) = data ++ tail) as ->.
  { unfold seal_bytes. rewrite <- app_assoc. by rewrite drop_app_length'. }
  rewrite drop_app_length' by done. by rewrite take_app_length.
Qed.

Lemma replay_fuel_seals recs fuel :
  Forall (λ r, header_ok r.1 ∧ Forall is_u8 r.2 ∧ h_payload_size r.1 = Z.of_nat (length r.2)) recs →
  (length recs <= fuel)%nat →
  replay_fuel fuel (concat ((λ r, seal_bytes r.1 r.2) <$> recs)) =
  (λ r, (sealed_header r.1 r.2, r.2)) <$> recs.
Proof.
  intros H. revert fuel. induction H as [|[h data] recs (Hok & Hd & Hsz) H IH]; intros fuel Hf.
  - by destruct fuel.
  - simpl in *. destruct fuel as [|fuel]; [lia|]. simpl.
    rewrite parse_seal by done. rewrite IH by lia. done.
Qed.

Lemma replay_seals recs :
  Forall (λ r, header_ok r.1 ∧ Forall is_u8 r.2 ∧ h_payload_size r.1 = Z.of_nat (length r.2)) recs →
  replay (concat ((λ r, seal_bytes r.1 r.2) <$> recs)) =
  (λ r, (sealed_header r.1 r.2, r.2)) <$> recs.
Proof.
  intros H. apply replay_fuel_seals; [done|].
  clear H. induction recs as [|[h data] recs IH]; [done|].
  rewrite fmap_cons. cbn [concat length fst snd]. 
  rewrite length_app, seal_bytes_length. lia.
Qed.

(** ** Files *)

Lemma store_bytes_lookup d off bytes i :
  store_bytes d off bytes !! i =
  if decide (off <= i < off + Z.of_nat (length bytes))
  then bytes !! Z.to_nat (i - off) else d !! i.
Proof.
  revert d off. induction bytes as [|b bytes IH]; intros d off; simpl.
  - rewrite decide_False by lia. done.
  - rewrite IH. destruct (decide (i = off)) as [->|Hne].
    + rewrite decide_False, decide_True by lia.
      by rewrite lookup_insert_eq, Z.sub_diag.
    + rewrite lookup_insert_ne by done.
      destruct (decide (off + 1 <= i < off + 1 + Z.of_nat (length bytes))).
      * rewrite decide_True by lia.
        replace (Z.to_nat (i - off)) with (S (Z.to_nat (i - (off + 1)))) by lia. done.
      * by rewrite decide_False by lia.
Qed.

Lemma f_byte_store f off bytes i :
  f_byte (f_store f off bytes) i =
  if decide (off <= i < off + Z.of_nat (length bytes))
  then default 0 (bytes !! Z.to_nat (i - off)) else f_byte f i.
Proof. unfold f_byte. simpl. rewrite store_bytes_lookup. by case_decide. Qed.

Lemma f_read_lookup f off n k :
  (k < n)%nat → f_read f off n !! k = Some (f_byte f (off + Z.of_nat k)).
Proof.
  intros Hk. unfold f_read. rewrite list_lookup_fmap, lookup_seqZ_lt by lia. done.
Qed.

Lemma f_read_length f off n : length (f_read f off n) = n.
Proof. unfold f_read. rewrite length_fmap, length_seqZ. lia. Qed.

(** Equal bytes read the same. *)
Lemma f_read_ext f f' off n :
  (∀ i, off <= i < off + Z.of_nat n → f_byte f i = f_byte f' i) → f_read f off n = f_read f' off n.
Proof.
  intros H. apply list_eq_same_length with n; rewrite ?f_read_length; try done.
  intros k x y Hk. rewrite !f_read_lookup by done. intros [= <-] [= <-]. apply H. lia.
Qed.

Lemma f_read_store f off bytes : f_read (f_store f off bytes) off (length bytes) = bytes.
Proof.
  apply list_eq_same_length with (length bytes); rewrite ?f_read_length; try done.
  intros k x y Hk. rewrite f_read_lookup by done. intros [= <-] Hy.
  rewrite f_byte_store, decide_True by lia.
  replace (Z.to_nat (off + Z.of_nat k - off)) with k by lia. by rewrite Hy.
Qed.

Lemma f_byte_truncate f n i : 0 <= i < n → f_byte (f_truncate f n) i = f_byte f i.
Proof.
  intros Hi. unfold f_byte, f_truncate. simpl. rewrite map_lookup_filter.
  destruct (f_data f !! i) as [b|]; simpl; [|done]. by rewrite option_guard_True by (simpl; lia).
Qed.

Lemma f_byte_truncate_out f n i : n <= i → f_byte (f_truncate f n) i = 0.
Proof.
  intros Hi. unfold f_byte, f_truncate. simpl. rewrite map_lookup_filter.
  destruct (f_data f !! i) as [b|]; simpl; [|done]. by rewrite option_guard_False by (simpl; lia).
Qed.

(** All bytes of a file. *)
Definition contents (f : file_t) : list Z := f_read f 0 (Z.to_nat (f_size f)).

Lemma f_read_app f off n m :
  f_read f off (n + m) = f_read f off n ++ f_read f (off + Z.of_nat n) m.
Proof.
  unfold f_read. rewrite Nat2Z.inj_add, seqZ_app, fmap_app by lia. done.
Qed.

Lemma contents_append f bytes :
  0 <= f_size f → contents (f_append f bytes) = contents f ++ bytes ∧ 0 <= f_size (f_append f bytes).
Proof.
  intros Hf. split; [|simpl; lia]. unfold contents, f_append. simpl.
  replace (Z.to_nat (f_size f + Z.of_nat (length bytes)))
    with (Z.to_nat (f_size f) + length bytes)%nat by lia.
  rewrite f_read_app, Z2Nat.id by done. f_equal.
  - apply f_read_ext. intros i Hi.
    change (MkFile _ _) with (f_append f bytes). unfold f_byte, f_append. simpl.
    rewrite store_bytes_lookup. by rewrite decide_False by lia.
  - rewrite Z.add_0_l. transitivity (f_read (f_store f (f_size f) bytes) (f_size f) (length bytes));
      [by apply f_read_ext|apply f_read_store].
Qed.

(** ** What is appended *)

Lemma payload_bytes_exact data :
  payload_bytes (Some data) (Z.of_nat (length data)) = Some data.
Proof.
  unfold payload_bytes. destruct (Z.ltb_spec 0 (Z.of_nat (length data))).
  - rewrite decide_True by done. by rewrite Nat2Z.id, firstn_all.
  - destruct data; [done|simpl in *; lia].
Qed.

Lemma record_header_ok env j type size :
  is_u32 size → is_u64 (j_sequence j) → header_ok (record_header env j type size 0).
Proof.
  intros Hs Hq. unfold record_header. split_and!; simpl; try done.
  - apply u64_range.
  - apply u32_range.
Qed.

Section append.
Context (env : append_env) (j : journal_t) (type : Z) (data : list Z).
Context (Hdata : Forall is_u8 data) (Hsize : Z.of_nat (length data) < 2 ^ 32).

Let size := Z.of_nat (length data).
Let record := seal_bytes (record_header env j type size 0) data.
Let j1 := set_sequence j (u64 (j_sequence j + 1)).

(** [journal_append_to] with the bytes of the record in place. *)
Lemma append_unfold :
  journal_append_to env j type (Some data) size =
  let written j := set_bytes_written j (u64 (j_bytes_written j + (32 + size))) in
  if j_use_mmap j then
    let '(j, ok) := extend_mapping env j1 (32 + size) in
    if negb ok then Some (j, -1) else
    j ← write_mapping j record;
    Some (written (set_mmap_offset j (u64 (j_mmap_offset j + (32 + size)))), 0)
  else
    let '(j, ok) := fwrite j1 (take 32 record) (ae_fwrite_header env) in
    if negb ok then Some (j, -1) else
    if bool_decide (data = []) then Some (written j, 0) else
    let '(j, ok) := fwrite j data (ae_fwrite_payload env) in
    if negb ok then Some (j, -1) else Some (written j, 0).
Proof.
  unfold journal_append_to, size. rewrite payload_bytes_exact. simpl.
  rewrite crc32_update_ref by apply header_bytes_u8. simpl.
  rewrite crc32_update_ref by done. simpl.
  rewrite <- crc_ref_app.
  change (Z.lxor (crc_ref 4294967295 _) 4294967295) with
    (checksum (header_bytes (record_header env j type size 0) ++ data)).
  assert (u64 (HEADER_SIZE + Z.of_nat (length data)) = 32 + size) as ->.
  { apply u64_id. unfold is_u64, HEADER_SIZE. lia. }
  unfold record, seal_bytes. rewrite take_app_length' by by rewrite header_bytes_length.
  done.
Qed.

End append.
