(* ===== verification/JournalProps.v ===== *)
(** * The journal: its properties

    The checksum, the records written in both modes, what a replay of the file
    finds, and where the journal falls short of its description. *)

From S2P Require Export JournalLemmas.

(** ** The checksum *)

(** C33 -- The table-driven CRC is the CRC: on any bytes, [crc32_update] never
    reads outside its table and computes the bit-by-bit remainder by the IEEE
    802.3 polynomial, and updating with two blocks one after the other is
    updating with their concatenation. *)
Theorem crc32_update_reference crc d1 d2
    (Hd1 : Forall is_u8 d1) (Hd2 : Forall is_u8 d2) :
  crc32_update crc (d1 ++ d2) = Some (crc_ref crc (d1 ++ d2)) ∧
  (crc ← crc32_update crc d1; crc32_update crc d2) = Some (crc_ref crc (d1 ++ d2)).
Proof.
  split.
  - apply crc32_update_ref. by apply Forall_app.
  - rewrite crc32_update_ref by done. simpl. rewrite crc32_update_ref by done.
    by rewrite <- crc_ref_app.
Qed.

(** Lists put together from bytes. *)
Ltac all_u8 :=
  repeat first [done | apply Forall_nil_2 | apply Forall_app; split | apply Forall_cons; split
               | apply Forall_take | apply Forall_drop].

Lemma take_drop_around {A} (l1 l2 : list A) x n m :
  (length l1 < n)%nat → (n <= m)%nat →
  take n (l1 ++ x :: l2) = l1 ++ x :: take (n - length l1 - 1) l2 ∧
  drop m (l1 ++ x :: l2) = drop (m - length l1 - 1) l2.
Proof.
  intros Hn Hm. rewrite take_app_ge, drop_app_ge by lia.
  replace (n - length l1)%nat with (S (n - length l1 - 1)) at 1 by lia.
  replace (m - length l1)%nat with (S (m - length l1 - 1)) at 1 by lia. done.
Qed.

Lemma le_val_inj x y : length x = length y → Forall is_u8 x → Forall is_u8 y →
  le_val x = le_val y → x = y.
Proof.
  intros Hl Hx. revert y Hl. induction Hx as [|b x Hb Hx IH]; intros [|c y] Hl Hy He; try done.
  apply Forall_cons in Hy as [Hc Hy]. simpl in *. unfold is_u8 in *.
  change (2 ^ 8) with 256 in *. assert (b = c ∧ le_val x = le_val y) as [-> He'] by lia.
  f_equal. apply IH; [by injection Hl|done..].
Qed.

(** A change within the checksum field changes the field, and nothing else. *)
Lemma crc_field_changed l1 (x y : Z) l2 :
  (24 <= length l1 < 28)%nat → (28 <= length l1 + S (length l2))%nat →
  Forall is_u8 l1 → is_u8 x → is_u8 y → Forall is_u8 l2 → x ≠ y →
  take 24 (l1 ++ x :: l2) = take 24 (l1 ++ y :: l2) ∧
  drop 28 (l1 ++ x :: l2) = drop 28 (l1 ++ y :: l2) ∧
  field 24 4 (l1 ++ x :: l2) ≠ field 24 4 (l1 ++ y :: l2).
Proof.
  intros Hl1 Hl H1 Hx Hy H2 Hne.
  assert (take 24 (l1 ++ x :: l2) = take 24 (l1 ++ y :: l2)) as Ht
    by (rewrite !take_app_le by lia; done).
  assert (drop 28 (l1 ++ x :: l2) = drop 28 (l1 ++ y :: l2)) as Hdr.
  { rewrite !drop_app_ge by lia. by replace (28 - length l1)%nat with (S (27 - length l1)) by lia. }
  split; [exact Ht|]. split; [exact Hdr|]. intros Hf%le_val_inj.
  - assert (l1 ++ x :: l2 = l1 ++ y :: l2) as He.
    { rewrite <- (take_drop 24 (l1 ++ x :: l2)), <- (take_drop 24 (l1 ++ y :: l2)), Ht. f_equal.
      rewrite <- (take_drop 4 (drop 24 (l1 ++ x :: l2))), <- (take_drop 4 (drop 24 (l1 ++ y :: l2))).
      f_equal; [exact Hf|]. rewrite !drop_drop. exact Hdr. }
    apply app_inv_head in He. congruence.
  - rewrite !length_take, !length_drop, !length_app. simpl. lia.
  - all_u8.
  - all_u8.
Qed.

(** A sealed record that was changed in one byte does not check. *)
Lemma sealed_byte_changed h data l1 x y l2
    (Hok : header_ok h) (Hd : Forall is_u8 data)
    (Hrec : seal_bytes h data = l1 ++ x :: l2) (Hy : is_u8 y) (Hne : x ≠ y) :
  record_checks (seal_bytes h data) = true ∧ record_checks (l1 ++ y :: l2) = false.
Proof.
  pose proof (record_checks_seal h data Hok Hd) as Hgood. split; [done|].
  pose proof (seal_bytes_u8 h data Hd) as Hu8. pose proof (seal_bytes_length h data) as Hlen.
  rewrite Hrec in Hgood, Hu8, Hlen. rewrite length_app in Hlen. simpl in Hlen.
  apply Forall_app in Hu8 as [H1 [Hx H2]%Forall_cons].
  unfold record_checks in *. apply Z.eqb_eq in Hgood. apply Z.eqb_neq. intros Hbad.
  unfold checksum in *.
  destruct (decide (length l1 < 24)%nat); [|destruct (decide (length l1 < 28)%nat)].
  - (* before the checksum field *)
    assert (field 24 4 (l1 ++ x :: l2) = field 24 4 (l1 ++ y :: l2)) as Hf.
    { unfold field. by rewrite (proj2 (take_drop_around l1 l2 x 24 24 ltac:(lia) ltac:(lia))),
        (proj2 (take_drop_around l1 l2 y 24 24 ltac:(lia) ltac:(lia))). }
    rewrite <- Hf, Hgood in Hbad. apply lxor_inj_l in Hbad. revert Hbad.
    destruct (take_drop_around l1 l2 x 24 28 ltac:(lia) ltac:(lia)) as [-> ->].
    destruct (take_drop_around l1 l2 y 24 28 ltac:(lia) ltac:(lia)) as [-> ->].
    rewrite <- !app_assoc, <- !app_comm_cons.
    apply crc_ref_byte_changed; [by unfold is_u32| |done|done].
    all_u8.
  - (* in the checksum field: the sum is the same, the field is not *)
    destruct (crc_field_changed l1 x y l2) as (Ht & Hdr & Hf); [lia|lia|done..|].
    rewrite <- Ht, <- Hdr, <- Hgood in Hbad. by apply Hf.
  - (* behind the checksum field *)
    assert (field 24 4 (l1 ++ x :: l2) = field 24 4 (l1 ++ y :: l2)) as Hf.
    { unfold field. rewrite !drop_app_le, !take_app_le by (rewrite ?length_drop; lia). done. }
    rewrite <- Hf, Hgood in Hbad. apply lxor_inj_l in Hbad. revert Hbad.
    rewrite !take_app_le, !drop_app_le by lia. rewrite !app_assoc.
    apply crc_ref_byte_changed; [by unfold is_u32| |done|done].
    all_u8.
Qed.

(** ** Payloads *)

Record order_record := OrderRecord {
  or_order_id : Z; or_account_id : Z; or_price : double; or_quantity : Z; or_filled_qty : Z;
  or_ts_ns : Z; or_side : Z; or_type : Z; or_status : Z; or_symbol : string }.

(** The fields at the offsets of [journal_order_payload_t]. *)
Definition decode_order (b : list Z) : order_record :=
  OrderRecord (i32 (field 0 4 b)) (i32 (field 4 4 b)) (double_of_bits (field 8 8 b))
    (i32 (field 16 4 b)) (i32 (field 20 4 b)) (field 24 8 b) (field 32 1 b) (field 33 1 b)
    (field 34 1 b) (string_of_bytes (take 16 (drop 36 b))).

Record trade_record := TradeRecord {
  tr_trade_id : Z; tr_buy_order_id : Z; tr_sell_order_id : Z; tr_price : double;
  tr_quantity : Z; tr_ts_ns : Z; tr_symbol : string }.

(** The fields at the offsets of [journal_trade_payload_t]. *)
Definition decode_trade (b : list Z) : trade_record :=
  TradeRecord (i32 (field 0 4 b)) (i32 (field 4 4 b)) (i32 (field 8 4 b))
    (double_of_bits (field 12 8 b)) (i32 (field 20 4 b)) (field 24 8 b)
    (string_of_bytes (take 16 (drop 32 b))).

(** Step over the field in front. *)
Lemma field_skip x off n rest :
  (length x <= off)%nat → field off n (x ++ rest) = field (off - length x) n rest.
Proof. intros H. unfold field. by rewrite drop_app_ge. Qed.

Lemma le_i32_length z : length (le_i32 z) = 4%nat.
Proof. apply le_bytes_length. Qed.
Lemma le_double_length x : length (le_double x) = 8%nat.
Proof. apply le_bytes_length. Qed.

#[local] Hint Rewrite le_bytes_length le_i32_length le_double_length : field_length.

Ltac read_field :=
  repeat (rewrite field_skip by (autorewrite with field_length; lia);
          autorewrite with field_length; cbn [Nat.sub]);
  first [rewrite field_app0 by (autorewrite with field_length; done)].

Lemma le_val_double x : valid_double x → double_of_bits (le_val (le_double x)) = x.
Proof.
  intros Hx. unfold le_double. rewrite le_val_u64 by by apply double_bits_u64.
  by apply double_bits_back.
Qed.

Lemma le_val_u8 z : is_u8 z → le_val (le_bytes 1 z) = z.
Proof. intros. rewrite le_val_le_bytes. by apply Z.mod_small. Qed.

Lemma drop_fields n (x rest : list Z) :
  (length x <= n)%nat → drop n (x ++ rest) = drop (n - length x) rest.
Proof. intros. by rewrite drop_app_ge. Qed.

(** C32 -- The payloads say what they were given: from the bytes that
    [journal_log_order] and [journal_log_trade] write, reading the fields back
    at the offsets of the packed structures gives every id, quantity and
    timestamp, the price bit for bit, and the symbol up to fifteen characters;
    both payloads are as long as their [sizeof]. *)
Theorem payload_roundtrip id account price qty filled ts side type status
    trade_id buy_id sell_id symbol junk
    (Hid : is_i32 id) (Hacc : is_i32 account) (Hp : valid_double price)
    (Hq : is_i32 qty) (Hf : is_i32 filled) (Hts : is_u64 ts)
    (Hsd : is_u8 side) (Hty : is_u8 type) (Hst : is_u8 status)
    (Ht : is_i32 trade_id) (Hb : is_i32 buy_id) (Hs : is_i32 sell_id) :
  let order := order_payload_bytes id account price qty filled ts side type status
                 (Some symbol) junk in
  let trade := trade_payload_bytes trade_id buy_id sell_id price qty ts (Some symbol) junk in
  decode_order order =
    OrderRecord id account price qty filled ts side type status (strn 15 symbol) ∧
  decode_trade trade =
    TradeRecord trade_id buy_id sell_id price qty ts (strn 15 symbol) ∧
  Z.of_nat (length order) = ORDER_PAYLOAD_SIZE ∧ Z.of_nat (length trade) = TRADE_PAYLOAD_SIZE.
Proof.
  cbv zeta. unfold order_payload_bytes, trade_payload_bytes, payload_symbol. split_and!.
  - unfold decode_order. f_equal; try (read_field; by rewrite ?le_i32_back, ?le_val_u64,
      ?le_val_u8, ?le_val_double by done).
    repeat (rewrite drop_fields by (autorewrite with field_length; lia);
            autorewrite with field_length; cbn [Nat.sub]).
    rewrite drop_0, take_ge by (rewrite symbol_bytes_length; lia). apply symbol_bytes_back.
  - unfold decode_trade. f_equal; try (read_field; by rewrite ?le_i32_back, ?le_val_u64,
      ?le_val_u8, ?le_val_double by done).
    repeat (rewrite drop_fields by (autorewrite with field_length; lia);
            autorewrite with field_length; cbn [Nat.sub]).
    rewrite drop_0, take_app_length' by by rewrite symbol_bytes_length.
    apply symbol_bytes_back.
  - rewrite !length_app, symbol_bytes_length. autorewrite with field_length. done.
  - rewrite !length_app, symbol_bytes_length, length_replicate.
    autorewrite with field_length. done.
Qed.

(** ** Memory-mapped mode *)

(** A mapping that ends with the file, the write position inside. *)
Definition mapped_ok (j : journal_t) : Prop :=
  j_use_mmap j = true ∧ j_mapped j = true ∧ 0 <= j_mmap_offset j <= j_mmap_size j ∧
  j_mmap_size j = f_size (j_file j) ∧ j_mmap_size j < 2 ^ 62.

(** What an append does that needs [total] bytes, when it returns. *)
Lemma extend_mapping_ok env j total :
  mapped_ok j → j_mmap_size j + DEFAULT_MMAP_SIZE < 2 ^ 62 → 0 <= total <= DEFAULT_MMAP_SIZE →
  let '(j', ok) := extend_mapping env j total in
  (∀ i, 0 <= i < j_mmap_offset j → f_byte (j_file j') i = f_byte (j_file j) i) ∧
  j_mmap_offset j' = j_mmap_offset j ∧ j_bytes_written j' = j_bytes_written j ∧
  j_sequence j' = j_sequence j ∧
  (ae_ftruncate env = true → ae_mmap env = true → ok = true) ∧
  if ok then mapped_ok j' ∧ j_mmap_offset j' + total <= j_mmap_size j' ∧
             j_mmap_size j <= j_mmap_size j' <= j_mmap_size j + DEFAULT_MMAP_SIZE
  else True.
Proof.
  intros (Hm & Hp & Ho & Hs & Hb) Hroom Ht. unfold extend_mapping, DEFAULT_MMAP_SIZE in *.
  rewrite !u64_id by (unfold is_u64; lia).
  destruct (Z.ltb_spec (j_mmap_size j) (j_mmap_offset j + total)).
  - destruct (ae_ftruncate env); simpl; [|by split_and!].
    assert (∀ i, 0 <= i < j_mmap_offset j →
      f_byte (f_truncate (j_file j) (j_mmap_size j + 256 * 1024 * 1024)) i = f_byte (j_file j) i)
      as Hkeep by (intros; apply f_byte_truncate; lia).
    destruct (ae_mmap env); simpl; split_and!; try done; try lia.
    split_and!; simpl; try done; lia.
  - split_and!; try done; try lia.
Qed.

Lemma append_mapped env j type data :
  mapped_ok j → j_mmap_size j + DEFAULT_MMAP_SIZE < 2 ^ 62 → Forall is_u8 data →
  Z.of_nat (length data) <= DEFAULT_MMAP_SIZE - 32 →
  let size := Z.of_nat (length data) in
  let record := seal_bytes (record_header env j type size 0) data in
  ∃ j' rc, journal_append_to env j type (Some data) size = Some (j', rc) ∧
    j_sequence j' = u64 (j_sequence j + 1) ∧
    (∀ i, 0 <= i < j_mmap_offset j → f_byte (j_file j') i = f_byte (j_file j) i) ∧
    (ae_ftruncate env = true → ae_mmap env = true → rc = 0) ∧
    (rc = 0 ∧ mapped_ok j' ∧ j_mmap_size j' <= j_mmap_size j + DEFAULT_MMAP_SIZE ∧
     f_read (j_file j') (j_mmap_offset j) (length record) = record ∧
     j_mmap_offset j' = j_mmap_offset j + (32 + size) ∧
     j_bytes_written j' = u64 (j_bytes_written j + (32 + size))
     ∨ rc = -1 ∧ j_mmap_offset j' = j_mmap_offset j ∧ j_bytes_written j' = j_bytes_written j).
Proof.
  intros Hj Hroom Hd Hlen. cbv zeta. pose proof Hj as (Hm & _ & Ho & _).
  unfold DEFAULT_MMAP_SIZE in Hlen. rewrite append_unfold by (done || lia). cbv zeta. rewrite Hm.
  set (j1 := set_sequence j _). set (size := Z.of_nat (length data)) in *.
  pose proof (extend_mapping_ok env j1 (32 + size)) as Hx.
  destruct (extend_mapping env j1 (32 + size)) as [j2 ok].
  destruct Hx as (Hkeep & Hoff & Hbw & Hseq & Hokk & Hcase);
    [done|done|unfold DEFAULT_MMAP_SIZE; lia|].
  destruct ok; simpl.
  - destruct Hcase as (Hj2 & Hfit & _ & Hgrow). pose proof Hj2 as (Hm2 & Hp2 & Ho2 & Hs2 & Hb2).
    set (record := seal_bytes _ _).
    assert (Z.of_nat (length record) = 32 + size) as Hrl.
    { unfold record. rewrite seal_bytes_length. lia. }
    unfold write_mapping. rewrite decide_True by (split_and!; try done; lia). simpl.
    rewrite u64_id by (unfold is_u64; lia).
    eexists _, _. split; [done|]. simpl. split_and!; [by rewrite Hseq| |done|].
    + intros i Hi. rewrite f_byte_store, decide_False by (simpl in *; lia). by apply Hkeep.
    + left. split_and!; [done| |by simpl; apply Hgrow| | |]; simpl.
      * split_and!; simpl; try done; lia.
      * assert (j_mmap_offset j = j_mmap_offset j2) as -> by done. apply f_read_store.
      * by rewrite Hoff.
      * by rewrite Hbw.
  - eexists _, _. split; [done|]. simpl. split_and!; [by rewrite Hseq|done| |].
    + intros H1 H2. by specialize (Hokk H1 H2).
    + right. by rewrite Hoff, Hbw.
Qed.

(** A memory-mapped append writes its record and nothing else: it never
    writes outside the mapping; if it returns 0, which it does whenever the
    system calls work, the record is at the write position, the earlier bytes
    are unchanged, the position has moved past the record and the byte count
    by its size; otherwise it returns -1 with the earlier bytes, the position
    and the count as they were.  In both cases the sequence number is used up. *)
Theorem append_mapped_exact env j type data
    (Hj : mapped_ok j) (Hroom : j_mmap_size j + DEFAULT_MMAP_SIZE < 2 ^ 62)
    (Hd : Forall is_u8 data) (Hlen : Z.of_nat (length data) <= DEFAULT_MMAP_SIZE - 32) :
  let size := Z.of_nat (length data) in
  let record := seal_bytes (record_header env j type size 0) data in
  ∃ j' rc, journal_append env (Some j) type (Some data) size = Some (Some j', rc) ∧
    j_sequence j' = u64 (j_sequence j + 1) ∧
    (∀ i, 0 <= i < j_mmap_offset j → f_byte (j_file j') i = f_byte (j_file j) i) ∧
    (ae_ftruncate env = true → ae_mmap env = true → rc = 0) ∧
    (rc = 0 ∧ mapped_ok j' ∧
     f_read (j_file j') (j_mmap_offset j) (length record) = record ∧
     j_mmap_offset j' = j_mmap_offset j + (32 + size) ∧
     j_bytes_written j' = u64 (j_bytes_written j + (32 + size))
     ∨ rc = -1 ∧ j_mmap_offset j' = j_mmap_offset j ∧ j_bytes_written j' = j_bytes_written j).
Proof.
  cbv zeta. destruct (append_mapped env j type data Hj Hroom Hd Hlen)
    as (j' & rc & Ha & ? & ? & ? & H). exists j', rc. unfold journal_append. rewrite Ha.
  split_and!; try done. destruct H as [(? & ? & _ & ? & ? & ?)|?]; [left; by split_and!|by right].
Qed.

(** ** File mode and recovery *)

(** A call of [journal_append]: environment, record type and payload. *)
Definition log_entry : Type := append_env * Z * list Z.

Fixpoint append_all (j : journal_t) (entries : list log_entry) : option journal_t :=
  match entries with
  | [] => Some j
  | (env, type, data) :: entries =>
    '(j, rc) ← journal_append_to env j type (Some data) (Z.of_nat (length data));
    if rc =? 0 then append_all j entries else None
  end.

(** Open the file, append, close; [None] if a call fails or is undefined. *)
Definition session (f : file_t) (entries : list log_entry) : option file_t :=
  j ← journal_open (MkOpenEnv true (Some f) true true true) true false;
  j ← append_all j entries;
  journal_close true (Some j).

Fixpoint sessions (f : file_t) (ss : list (list log_entry)) : option file_t :=
  match ss with [] => Some f | s :: ss => f ← session f s; sessions f ss end.

(** Every [fwrite] writes all it is given, and the payload is bytes. *)
Definition entry_ok (e : log_entry) : Prop :=
  let '(env, _, data) := e in
  ae_fwrite_header env = 32 ∧ ae_fwrite_payload env = Z.of_nat (length data) ∧
  Forall is_u8 data ∧ Z.of_nat (length data) < 2 ^ 32.

(** The records of a session: numbered from [seq]. *)
Fixpoint session_records (seq : Z) (entries : list log_entry)
    : list (journal_header_t * list Z) :=
  match entries with
  | [] => []
  | (env, type, data) :: entries =>
    (MkHeader (now_nanos (ae_time env)) (u32 type) (Z.of_nat (length data)) seq 0 0, data)
    :: session_records (seq + 1) entries
  end.

Definition sealed (r : journal_header_t * list Z) : list Z := seal_bytes r.1 r.2.

Lemma append_file_exact env j type data :
  j_use_mmap j = false → 0 <= f_size (j_file j) → entry_ok (env, type, data) →
  ∃ j', journal_append_to env j type (Some data) (Z.of_nat (length data)) = Some (j', 0) ∧
    j_use_mmap j' = false ∧ 0 <= f_size (j_file j') ∧ j_sequence j' = u64 (j_sequence j + 1) ∧
    contents (j_file j') = contents (j_file j) ++
      seal_bytes (record_header env j type (Z.of_nat (length data)) 0) data.
Proof.
  intros Hm Hf (Hh & Hp & Hd & Hlen). rewrite append_unfold by done. cbv zeta. rewrite Hm.
  set (record := seal_bytes _ _).
  assert (take 32 record ++ data = record) as Hrec.
  { unfold record, seal_bytes. by rewrite take_app_length' by by rewrite header_bytes_length. }
  assert (length (take 32 record) = 32%nat) as Hl.
  { unfold record. rewrite length_take, seal_bytes_length. lia. }
  unfold fwrite at 1. rewrite Hh, Hl. change (32 =? Z.of_nat 32) with true. cbn [negb].
  rewrite (take_ge (take 32 record)) by (rewrite Hl; lia).
  destruct (contents_append (j_file j) (take 32 record) Hf) as [Hc1 Hs1].
  case_bool_decide as Hnil.
  - eexists. split; [done|]. simpl. split_and!; try done.
    change (contents (f_append (j_file j) (take 32 record)) = contents (j_file j) ++ record).
    rewrite Hc1. f_equal. rewrite Hnil, app_nil_r in Hrec. done.
  - unfold fwrite. rewrite Hp, Nat2Z.id, Z.eqb_refl, (take_ge data) by done. cbn [negb].
    destruct (contents_append (f_append (j_file j) (take 32 record)) data Hs1) as [Hc2 Hs2].
    eexists. split; [done|]. simpl. split_and!; try done.
    change (contents (f_append (f_append (j_file j) (take 32 record)) data) =
            contents (j_file j) ++ record).
    by rewrite Hc2, Hc1, <- app_assoc, Hrec.
Qed.

(** An append in file mode that returns 0 has written the whole record. *)
Lemma append_file_written env j type data j' :
  j_use_mmap j = false → 0 <= f_size (j_file j) → Forall is_u8 data →
  Z.of_nat (length data) < 2 ^ 32 →
  journal_append_to env j type (Some data) (Z.of_nat (length data)) = Some (j', 0) →
  contents (j_file j') = contents (j_file j) ++
    seal_bytes (record_header env j type (Z.of_nat (length data)) 0) data.
Proof.
  intros Hm Hf Hd Hlen Ha. pose proof Ha as Hu. rewrite append_unfold in Hu by done. cbv zeta in Hu.
  rewrite Hm in Hu. set (record := seal_bytes _ _) in *.
  assert (length (take 32 record) = 32%nat) as Hl.
  { unfold record. rewrite length_take, seal_bytes_length. lia. }
  unfold fwrite at 1 in Hu. rewrite Hl in Hu.
  destruct (Z.eqb_spec (ae_fwrite_header env) (Z.of_nat 32)) as [Hh|]; [|done]. cbn [negb] in Hu.
  case_bool_decide as Hnil.
  - injection Hu as <-. rewrite Hh, (take_ge (take 32 record)) by (rewrite Hl; lia).
    assert (take 32 record = record) as ->.
    { apply take_ge. unfold record. rewrite seal_bytes_length, Hnil. simpl. lia. }
    apply (contents_append (j_file j) record Hf).
  - unfold fwrite in Hu.
    destruct (Z.eqb_spec (ae_fwrite_payload env) (Z.of_nat (length data))) as [Hp|]; [|done].
    destruct (append_file_exact env j type data Hm Hf) as (j1 & Ha1 & _ & _ & _ & Hc); [by split_and!|].
    rewrite Ha in Ha1. injection Ha1 as <-. exact Hc.
Qed.

(** Reading what was added to a file. *)
Lemma contents_added f f' bytes :
  0 <= f_size f → contents f' = contents f ++ bytes → f_read f' (f_size f) (length bytes) = bytes.
Proof.
  intros Hf Hc. pose proof (f_equal length Hc) as Hl. unfold contents in Hc, Hl.
  rewrite length_app, !f_read_length in Hl. rewrite Hl, f_read_app, Z2Nat.id in Hc by done.
  apply app_inj_1 in Hc as [_ Hc]; [exact Hc|by rewrite !f_read_length].
Qed.

(** Where the next record goes. *)
Definition write_position (j : journal_t) : Z :=
  if j_use_mmap j then j_mmap_offset j else f_size (j_file j).

(** Ready to append, in either mode. *)
Definition append_ok (j : journal_t) : Prop :=
  if j_use_mmap j then mapped_ok j ∧ j_mmap_size j + DEFAULT_MMAP_SIZE < 2 ^ 62
  else 0 <= f_size (j_file j).

(** What an append that returns 0 has written. *)
Lemma append_writes env j type data j' :
  append_ok j → Forall is_u8 data → Z.of_nat (length data) <= DEFAULT_MMAP_SIZE - 32 →
  journal_append_to env j type (Some data) (Z.of_nat (length data)) = Some (j', 0) →
  f_read (j_file j') (write_position j) (32 + length data) =
  seal_bytes (record_header env j type (Z.of_nat (length data)) 0) data.
Proof.
  unfold append_ok, write_position. intros Hj Hd Hlen Ha.
  rewrite <- (seal_bytes_length (record_header env j type (Z.of_nat (length data)) 0) data).
  destruct (j_use_mmap j) eqn:Hm.
  - destruct Hj as [Hj Hroom].
    destruct (append_mapped env j type data Hj Hroom Hd Hlen) as (j1 & rc & Ha1 & _ & _ & _ & H).
    rewrite Ha in Ha1. injection Ha1 as <- <-. by destruct H as [(_ & _ & _ & H & _)|[? _]].
  - unfold DEFAULT_MMAP_SIZE in Hlen.
    apply contents_added; [done|]. apply append_file_written; [done..|lia|done].
Qed.

(** The check a reader of the journal can make, with the program's own checksum: the
    field at offset 24 against the sum over the record with zeros in its place. *)
Definition record_passes (bytes : list Z) : option bool :=
  crc ← crc32_update 0xFFFFFFFF (take 24 bytes ++ [0; 0; 0; 0] ++ drop 28 bytes);
  Some (field 24 4 bytes =? Z.lxor crc 0xFFFFFFFF).

Lemma record_passes_checks bytes :
  Forall is_u8 bytes → record_passes bytes = Some (record_checks bytes).
Proof. intros H. unfold record_passes. rewrite crc32_update_ref; [done|]. all_u8. Qed.

(** C20 -- A record that was changed in one byte is noticed: when [journal_append], in
    file mode or memory-mapped, returns 0 for a payload, the bytes it has written at the
    write position are a header and that payload and pass the checksum test made with
    the program's own [crc32_update]; and whatever one byte of them, of the header or
    the payload, is replaced by another value, the test fails. *)
Theorem corrupted_byte_detected env j type data j' i y
    (Hj : append_ok j) (Hseq : is_u64 (j_sequence j)) (Hd : Forall is_u8 data)
    (Hlen : Z.of_nat (length data) <= DEFAULT_MMAP_SIZE - 32)
    (Happend : journal_append env (Some j) type (Some data) (Z.of_nat (length data)) =
               Some (Some j', 0))
    (Hi : (i < 32 + length data)%nat) (Hy : is_u8 y)
    (Hne : f_byte (j_file j') (write_position j + Z.of_nat i) ≠ y) :
  let record := f_read (j_file j') (write_position j) (32 + length data) in
  drop 32 record = data ∧ record_passes record = Some true ∧
  record_passes (<[i := y]> record) = Some false.
Proof.
  intros record. unfold journal_append in Happend.
  destruct (journal_append_to _ _ _ _ _) as [[j1 rc]|] eqn:Ha; [|done].
  cbn in Happend. injection Happend as -> ->.
  pose proof (append_writes env j type data j' Hj Hd Hlen Ha) as Hrec. fold record in Hrec.
  pose proof (f_read_lookup (j_file j') (write_position j) _ i Hi) as Hx. fold record in Hx.
  assert (header_ok (record_header env j type (Z.of_nat (length data)) 0)) as Hok.
  { apply record_header_ok; [|done]. unfold is_u32, DEFAULT_MMAP_SIZE in *. lia. }
  set (x := f_byte _ _) in *. pose proof (take_drop_middle record i x Hx) as Hmid.
  pose proof (seal_bytes_u8 (record_header env j type (Z.of_nat (length data)) 0) data Hd) as Hu8.
  rewrite <- Hrec in Hu8. rewrite <- Hmid in Hrec.
  destruct (sealed_byte_changed _ data _ x y _ Hok Hd (eq_sym Hrec) Hy Hne) as [Hgood Hbad].
  rewrite <- Hrec, Hmid in Hgood. split; [|split].
  - rewrite <- Hmid, Hrec. unfold seal_bytes. by rewrite drop_app_length' by by rewrite header_bytes_length.
  - by rewrite record_passes_checks, Hgood.
  - rewrite record_passes_checks by by apply Forall_insert. f_equal.
    rewrite insert_take_drop; [done|]. unfold record. by rewrite f_read_length.
Qed.

Lemma append_all_contents j entries :
  j_use_mmap j = false → 0 <= f_size (j_file j) → Forall entry_ok entries →
  0 <= j_sequence j → j_sequence j + Z.of_nat (length entries) < 2 ^ 64 →
  ∃ j', append_all j entries = Some j' ∧ j_use_mmap j' = false ∧ 0 <= f_size (j_file j') ∧
    contents (j_file j') = contents (j_file j) ++
      concat (sealed <$> session_records (j_sequence j) entries).
Proof.
  intros Hm Hf He. revert j Hm Hf.
  induction He as [|[[env type] data] entries Hok He IH]; intros j Hm Hf H0 Hlt.
  - exists j. simpl. by rewrite app_nil_r.
  - cbn [append_all length] in *.
    destruct (append_file_exact env j type data Hm Hf Hok) as (j1 & -> & Hm1 & Hf1 & Hs1 & Hc1).
    simpl. rewrite u64_id in Hs1 by (unfold is_u64; lia).
    destruct (IH j1 Hm1 Hf1) as (j' & Ha & Hm' & Hf' & Hc'); [lia..|].
    exists j'. split_and!; try done. rewrite Hc', Hc1, Hs1, <- app_assoc. done.
Qed.

(** The records of any payloads that are bytes. *)
Definition entry_bytes_ok (e : log_entry) : Prop :=
  Forall is_u8 e.2 ∧ Z.of_nat (length e.2) < 2 ^ 32.

Lemma session_records_bytes seq entries :
  Forall entry_bytes_ok entries → 0 <= seq → seq + Z.of_nat (length entries) < 2 ^ 64 →
  Forall (λ r, header_ok r.1 ∧ Forall is_u8 r.2 ∧ h_payload_size r.1 = Z.of_nat (length r.2))
    (session_records seq entries).
Proof.
  intros H. revert seq. induction H as [|[[env type] data] entries [Hd Hl] H IH];
    intros seq H0 Hlt; simpl in *; constructor.
  - split_and!; try done. split_and!; simpl; try done; try lia.
    + apply u64_range.
    + apply u32_range.
    + unfold is_u32. lia.
    + unfold is_u64. lia.
  - apply IH; lia.
Qed.

Lemma session_records_ok seq entries :
  Forall entry_ok entries → 0 <= seq → seq + Z.of_nat (length entries) < 2 ^ 64 →
  Forall (λ r, header_ok r.1 ∧ Forall is_u8 r.2 ∧ h_payload_size r.1 = Z.of_nat (length r.2))
    (session_records seq entries).
Proof.
  intros H. apply session_records_bytes. eapply Forall_impl; [exact H|].
  by intros [[env type] data] (_ & _ & ? & ?).
Qed.

Lemma session_contents f entries :
  0 <= f_size f → Forall entry_ok entries → Z.of_nat (length entries) < 2 ^ 64 →
  ∃ f', session f entries = Some f' ∧ 0 <= f_size f' ∧
    contents f' = contents f ++ concat (sealed <$> session_records 0 entries).
Proof.
  intros Hf He Hl. unfold session. simpl.
  set (j := MkJournal false 0 0 0 false 0 0 f).
  destruct (append_all_contents j entries) as (j' & -> & Hm & Hs & Hc); try done.
  unfold journal_close. simpl. rewrite Hm. simpl. eauto.
Qed.

Lemma sessions_contents f ss :
  0 <= f_size f → Forall (λ s, Forall entry_ok s ∧ Z.of_nat (length s) < 2 ^ 64) ss →
  ∃ f', sessions f ss = Some f' ∧
    contents f' = contents f ++ concat (sealed <$> concat (session_records 0 <$> ss)).
Proof.
  intros Hf H. revert f Hf. induction H as [|s ss [He Hl] H IH]; intros f Hf.
  - exists f. simpl. by rewrite app_nil_r.
  - cbn [sessions]. destruct (session_contents f s Hf He Hl) as (f1 & -> & Hf1 & Hc1).
    simpl. destruct (IH f1 Hf1) as (f' & -> & Hc'). exists f'. split; [done|].
    rewrite Hc', Hc1, <- app_assoc. f_equal. by rewrite fmap_app, concat_app.
Qed.

(** C12 -- In file mode everything that was appended is recovered, in order:
    however many times the journal is opened, appended to and closed with
    writes that work, none of the calls fails or is undefined, and replaying
    the file from its beginning yields exactly the records of all sessions
    with their payloads.  The sequence numbers start again from 0 in every
    session ([session_records 0]), so they increase only within one. *)
Theorem replay_recovers_sessions ss
    (Hss : Forall (λ s, Forall entry_ok s ∧ Z.of_nat (length s) < 2 ^ 64) ss) :
  ∃ f, sessions empty_file ss = Some f ∧
    replay (contents f) =
    (λ r, (sealed_header r.1 r.2, r.2)) <$> concat (session_records 0 <$> ss).
Proof.
  destruct (sessions_contents empty_file ss ltac:(done) Hss) as (f & Hs & Hc).
  exists f. split; [done|]. rewrite Hc. simpl. apply replay_seals.
  clear Hs Hc. induction Hss as [|s ss [He Hl] Hss IH]; simpl; [constructor|].
  apply Forall_app. split; [|exact IH]. apply session_records_ok; [done|lia|lia].
Qed.

(** A new journal in memory-mapped mode. *)
Definition new_mapped_journal : option journal_t :=
  journal_open (MkOpenEnv true (Some empty_file) true true true) true true.

(** The system calls work and the payload fits an extension. *)
Definition mapped_entry_ok (e : log_entry) : Prop :=
  let '(env, _, data) := e in
  Forall is_u8 data ∧ Z.of_nat (length data) <= DEFAULT_MMAP_SIZE - 32 ∧
  ae_ftruncate env = true ∧ ae_mmap env = true.

Lemma mapped_entry_bytes e : mapped_entry_ok e → entry_bytes_ok e.
Proof.
  destruct e as [[env type] data]. intros (? & ? & _). split; [done|]. simpl.
  unfold DEFAULT_MMAP_SIZE in *. lia.
Qed.

(** The bytes that a session writes. *)
Definition session_bytes (seq : Z) (entries : list log_entry) : list Z :=
  concat (sealed <$> session_records seq entries).

(** The records are written one behind the other, and nothing below the first position
    is. *)
Lemma append_all_mapped j entries :
  mapped_ok j → Forall mapped_entry_ok entries →
  j_mmap_size j + Z.of_nat (S (length entries)) * DEFAULT_MMAP_SIZE < 2 ^ 62 →
  0 <= j_sequence j → j_sequence j + Z.of_nat (length entries) < 2 ^ 64 →
  let bytes := session_bytes (j_sequence j) entries in
  ∃ j', append_all j entries = Some j' ∧ j_use_mmap j' = true ∧
    j_sequence j' = j_sequence j + Z.of_nat (length entries) ∧
    j_mmap_offset j' = j_mmap_offset j + Z.of_nat (length bytes) ∧
    f_read (j_file j') (j_mmap_offset j) (length bytes) = bytes ∧
    ∀ i, 0 <= i < j_mmap_offset j → f_byte (j_file j') i = f_byte (j_file j) i.
Proof.
  intros Hj He. cbv zeta. revert j Hj.
  induction He as [|[[env type] data] entries (Hd & Hl & Ht & Hm) He IH]; intros j Hj Hsize H0 Hq.
  - exists j. split_and!; try done; [apply Hj|cbn; lia|cbn; lia].
  - cbn [append_all length] in *. pose proof Hj as (_ & _ & [Hoff _] & _).
    destruct (append_mapped env j type data Hj ltac:(unfold DEFAULT_MMAP_SIZE in *; lia) Hd Hl)
      as (j1 & rc & -> & Hseq & Hkeep & Hrc & H).
    specialize (Hrc Ht Hm). subst rc. destruct H as [(_ & Hj1 & Hs1 & Hr1 & Ho1 & _)|[? _]]; [|done].
    rewrite u64_id in Hseq by (unfold is_u64; lia).
    simpl. destruct (IH j1 Hj1) as (j' & Ha & Hm' & Hq' & Ho' & Hr' & Hk');
      [unfold DEFAULT_MMAP_SIZE in *; lia|lia|lia|].
    rewrite Hseq in *. unfold session_bytes in *. cbn [session_records fmap list_fmap concat].
    change (sealed (_, data)) with (seal_bytes (record_header env j type (Z.of_nat (length data)) 0) data).
    set (record := seal_bytes _ _) in *. set (rest := concat _) in *.
    assert (Z.of_nat (length record) = 32 + Z.of_nat (length data)) as Hrl
      by (unfold record; rewrite seal_bytes_length; lia).
    exists j'. rewrite length_app, Nat2Z.inj_add. split_and!; try done; try lia.
    + rewrite f_read_app. f_equal.
      * rewrite <- Hr1 at 2. apply f_read_ext. intros i Hi. apply Hk'. lia.
      * by replace (j_mmap_offset j + Z.of_nat (length record)) with (j_mmap_offset j1) by lia.
    + intros i Hi. rewrite Hk' by lia. by apply Hkeep.
Qed.

(** Zeros are not a record. *)
Lemma replay_zeros n bytes : (∀ k, (k < 32)%nat → bytes !! k = Some 0 ∨ bytes !! k = None) →
  replay_fuel n bytes = [].
Proof.
  intros Hz. destruct n as [|n]; [done|]. simpl. unfold parse_record.
  case_decide as Hlen; [|done]. destruct Hlen as [Hlen _].
  assert (take 32 bytes = replicate 32 0) as Ht.
  { apply list_eq_same_length with 32%nat; [by rewrite length_replicate|rewrite length_take; lia|].
    intros k x y Hk. rewrite lookup_take, option_guard_True || rewrite lookup_take_lt by done.
    rewrite lookup_replicate_2 by done. intros Hx [= <-].
    destruct (Hz k Hk); congruence. }
  rewrite <- (take_drop 32 bytes), Ht.
  assert (parse_header (replicate 32 0 ++ drop 32 bytes) = MkHeader 0 0 0 0 0 0) as ->.
  { unfold parse_header, field. done. }
  cbn [h_payload_size]. change (32 + Z.to_nat 0)%nat with 32%nat.
  rewrite take_app_length' by done.
  assert (record_checks (replicate 32 0) = false) as -> by (vm_compute; reflexivity).
  done.
Qed.

(** What a new mapped journal leaves behind: the records, after zeros. *)
Lemma new_mapped_appends entries truncated n :
  Forall mapped_entry_ok entries → Z.of_nat (length entries) < 2 ^ 32 →
  ∃ j0 j f, new_mapped_journal = Some j0 ∧ append_all j0 entries = Some j ∧
    journal_close truncated (Some j) = Some f ∧ j_sequence j = Z.of_nat (length entries) ∧
    (∀ i, 0 <= i < DEFAULT_MMAP_SIZE → f_byte f i = 0) ∧
    f_read f DEFAULT_MMAP_SIZE (length (session_bytes 0 entries)) = session_bytes 0 entries ∧
    replay (f_read f 0 n) = [].
Proof.
  intros Hentries Hfew.
  unfold new_mapped_journal, journal_open. cbn [negb oe_calloc oe_open oe_fstat oe_ftruncate oe_mmap].
  change (f_size empty_file <? DEFAULT_MMAP_SIZE) with true. cbn [andb negb].
  change (0 <? DEFAULT_MMAP_SIZE) with true.
  set (j0 := MkJournal _ _ _ _ _ _ _ _). exists j0.
  destruct (append_all_mapped j0 entries) as (j & Ha & Hm & Hq & Ho & Hr & Hk).
  { split_and!; simpl; try done; unfold DEFAULT_MMAP_SIZE; lia. }
  { done. }
  { simpl. unfold DEFAULT_MMAP_SIZE. lia. }
  { done. }
  { change (j_sequence j0) with 0. lia. }
  change (j_sequence j0) with 0 in *. change (j_mmap_offset j0) with DEFAULT_MMAP_SIZE in *.
  exists j. unfold journal_close. simpl. rewrite Hm. simpl. eexists.
  split; [done|]. split; [exact Ha|]. split; [reflexivity|]. split; [exact Hq|].
  match goal with |- context [replay (f_read ?f _ _)] => set (f' := f) in * end.
  assert (∀ i, 0 <= i < j_mmap_offset j → f_byte f' i = f_byte (j_file j) i) as Hf'.
  { intros i Hi. unfold f'. destruct truncated; [|done]. by rewrite f_byte_truncate by lia. }
  assert (∀ i, 0 <= i < DEFAULT_MMAP_SIZE → f_byte f' i = 0) as Hz.
  { intros i Hi. rewrite Hf' by lia. rewrite Hk by done. unfold j0. simpl. by rewrite f_byte_truncate. }
  split; [done|]. split.
  { rewrite <- Hr at 2. apply f_read_ext. intros i Hi. apply Hf'. unfold DEFAULT_MMAP_SIZE in *. lia. }
  apply replay_zeros. intros k Hk32.
  destruct (decide (k < n)%nat).
  - left. rewrite f_read_lookup by done. rewrite Hz; [done|]. unfold DEFAULT_MMAP_SIZE. lia.
  - right. apply lookup_ge_None. rewrite f_read_length. lia.
Qed.

(** A memory-mapped journal cannot be replayed from its beginning:
    [journal_open] extends a new file to 256 MB and puts the write position
    behind that, so that after any appends and the close, whether or not its
    [ftruncate] works, the first 256 MB of the file are zero and a replay of
    any part of the file from its beginning finds no record. *)
Theorem new_mapped_journal_replays_nothing entries truncated n
    (Hentries : Forall mapped_entry_ok entries)
    (Hfew : Z.of_nat (length entries) < 2 ^ 32) :
  ∃ f, (j ← new_mapped_journal; j ← append_all j entries;
        journal_close truncated (Some j)) = Some f ∧
    (∀ i, 0 <= i < DEFAULT_MMAP_SIZE → f_byte f i = 0) ∧
    replay (f_read f 0 n) = [].
Proof.
  destruct (new_mapped_appends entries truncated n Hentries Hfew)
    as (j0 & j & f & -> & Ha & Hc & _ & Hz & _ & Hr).
  exists f. cbn [mbind option_bind]. rewrite Ha. by split_and!.
Qed.

(** After a failed extension the journal is not safe to use: if the
    [mmap] of an extension fails, the append returns -1 but keeps the old size
    with no mapping, so the next append of a record that would have fitted
    writes through [MAP_FAILED], which is undefined. *)
Theorem append_after_failed_mmap_undefined env env' j type type' data data'
    (Hj : mapped_ok j) (Hroom : j_mmap_size j + DEFAULT_MMAP_SIZE < 2 ^ 62)
    (Hd : Forall is_u8 data) (Hd' : Forall is_u8 data')
    (Hlen : Z.of_nat (length data) <= DEFAULT_MMAP_SIZE - 32)
    (Hfull : j_mmap_size j < j_mmap_offset j + (32 + Z.of_nat (length data)))
    (Hfits : j_mmap_offset j + (32 + Z.of_nat (length data')) <= j_mmap_size j)
    (Hftruncate : ae_ftruncate env = true) (Hmmap : ae_mmap env = false) :
  ∃ j', journal_append env (Some j) type (Some data) (Z.of_nat (length data)) =
          Some (Some j', -1) ∧
    journal_append env' (Some j') type' (Some data') (Z.of_nat (length data')) = None.
Proof.
  pose proof Hj as (Hm & _ & Ho & Hs & Hb). unfold DEFAULT_MMAP_SIZE in *.
  unfold journal_append. rewrite append_unfold by (done || lia). cbv zeta. rewrite Hm.
  unfold extend_mapping at 1. simpl.
  rewrite u64_id, (proj2 (Z.ltb_lt _ _)) by (unfold is_u64; lia).
  rewrite Hftruncate, Hmmap. cbn [negb mbind option_bind]. eexists. split; [done|].
  rewrite append_unfold by (done || lia). cbv zeta. simpl. rewrite Hm.
  unfold extend_mapping. simpl.
  rewrite u64_id, (proj2 (Z.ltb_ge _ _)) by (unfold is_u64; lia). cbn [negb].
  unfold write_mapping. by rewrite decide_False by (by intros [? _]).
Qed.

(** ** The claims at concrete inputs *)

Module JournalDemo.

Definition env : append_env := MkAppendEnv (5, 7) true true 32 3.
Definition payload : list Z := [10; 20; 30].
Definition header : journal_header_t := MkHeader 5000000007 1 3 0 0 0.

(** The same environment with a header write cut short at ten bytes. *)
Definition torn_env : append_env := MkAppendEnv (5, 7) true true 10 0.

(** A new journal in file mode. *)
Definition empty : journal_t := MkJournal false 0 0 0 false 0 0 empty_file.

(** A mapping of 100 bytes of which 40 are used. *)
Definition small : journal_t := MkJournal true 3 40 100 true 100 40 (MkFile ∅ 100).
Definition no_mmap_env : append_env := MkAppendEnv (5, 7) true false 0 0.

Lemma payload_u8 : Forall is_u8 payload.
Proof. repeat (apply Forall_cons; split; [vm_compute; intuition congruence|]). apply Forall_nil_2. Qed.

Lemma header_fits : header_ok header.
Proof. vm_compute. intuition congruence. Qed.

Lemma small_ok : mapped_ok small.
Proof. unfold mapped_ok. simpl. intuition lia. Qed.

Lemma entry_fits type : entry_ok (env, type, payload).
Proof. split_and!; [done|done|apply payload_u8|done]. Qed.

End JournalDemo.

Lemma crc32_update_reference_witness :
  crc32_update 0xFFFFFFFF ([49; 50] ++ [51]) = Some (crc_ref 0xFFFFFFFF ([49; 50] ++ [51])).
Proof.
  refine (proj1 (crc32_update_reference 0xFFFFFFFF [49; 50] [51] _ _));
    repeat (apply Forall_cons; split; [vm_compute; intuition congruence|]); apply Forall_nil_2.
Defined.

(** The second payload byte of the first record of a new file journal. *)
Lemma corrupted_byte_detected_witness :
  ∃ j', journal_append JournalDemo.env (Some JournalDemo.empty) 1 (Some JournalDemo.payload) 3 =
          Some (Some j', 0) ∧
    record_passes (f_read (j_file j') 0 35) = Some true ∧
    record_passes (<[33%nat := 21]> (f_read (j_file j') 0 35)) = Some false.
Proof.
  destruct (append_file_exact JournalDemo.env JournalDemo.empty 1 JournalDemo.payload eq_refl
    ltac:(done) (JournalDemo.entry_fits 1)) as (j' & Ha & _ & _ & _ & Hc).
  assert (journal_append JournalDemo.env (Some JournalDemo.empty) 1 (Some JournalDemo.payload)
            (Z.of_nat (length JournalDemo.payload)) = Some (Some j', 0)) as Happ
    by (unfold journal_append; by rewrite Ha).
  exists j'. split; [exact Happ|].
  assert (f_read (j_file j') 0 35 =
          seal_bytes (record_header JournalDemo.env JournalDemo.empty 1 3 0) JournalDemo.payload) as Hr
    by exact (contents_added (j_file JournalDemo.empty) _ _ ltac:(done) Hc).
  pose proof (f_read_lookup (j_file j') 0 35 33 ltac:(lia)) as Hx. rewrite Hr in Hx.
  assert (f_byte (j_file j') (0 + Z.of_nat 33) ≠ 21) as Hne by (revert Hx; generalize (f_byte (j_file j') (0 + Z.of_nat 33)); intros b Hx; vm_compute in Hx;
        congruence).
  assert (append_ok JournalDemo.empty) as H1 by (unfold append_ok; cbn; lia).
  assert (is_u64 (j_sequence JournalDemo.empty)) as H2 by (unfold is_u64; cbn; lia).
  assert (Z.of_nat (length JournalDemo.payload) <= DEFAULT_MMAP_SIZE - 32) as H3
    by (unfold DEFAULT_MMAP_SIZE; cbn; lia).
  assert (33 < 32 + length JournalDemo.payload)%nat as H4 by (cbn; lia).
  assert (is_u8 21) as H5 by (unfold is_u8; lia).
  exact (proj2 (corrupted_byte_detected JournalDemo.env JournalDemo.empty 1 JournalDemo.payload j'
    33 21 H1 H2 JournalDemo.payload_u8 H3 Happ H4 H5 Hne)).
Defined.

Lemma payload_roundtrip_witness :
  let b := order_payload_bytes 7 (-1) (d_lit 1005 1) 10 3 99 1 0 2 (Some "AAPL") [] in
  decode_order b = OrderRecord 7 (-1) (d_lit 1005 1) 10 3 99 1 0 2 "AAPL".
Proof.
  apply (payload_roundtrip 7 (-1) (d_lit 1005 1) 10 3 99 1 0 2 0 0 0 "AAPL" []);
    try (vm_compute; intuition congruence).
Defined.

Lemma append_mapped_exact_witness :
  ∃ j', journal_append JournalDemo.env (Some JournalDemo.small) 1 (Some JournalDemo.payload) 3 =
          Some (Some j', 0) ∧ j_mmap_offset j' = 75.
Proof.
  destruct (append_mapped_exact JournalDemo.env JournalDemo.small 1 JournalDemo.payload
    JournalDemo.small_ok) as (j' & rc & Ha & _ & _ & Hrc & H).
  - vm_compute. reflexivity.
  - apply JournalDemo.payload_u8.
  - vm_compute. congruence.
  - specialize (Hrc eq_refl eq_refl). subst rc. exists j'. split; [exact Ha|].
    destruct H as [(_ & _ & _ & -> & _)|[? _]]; [reflexivity|discriminate].
Defined.

Lemma replay_recovers_sessions_witness :
  ∃ f, sessions empty_file
         [[(JournalDemo.env, 1, JournalDemo.payload); (JournalDemo.env, 5, JournalDemo.payload)];
          [(JournalDemo.env, 1, JournalDemo.payload)]] = Some f ∧
    h_sequence_number <$> (replay (contents f)).*1 = [0; 1; 0].
Proof.
  destruct (replay_recovers_sessions
    [[(JournalDemo.env, 1, JournalDemo.payload); (JournalDemo.env, 5, JournalDemo.payload)];
     [(JournalDemo.env, 1, JournalDemo.payload)]]) as (f & Hs & Hr).
  - repeat first [apply JournalDemo.entry_fits | apply Forall_nil_2 | apply Forall_cons; split
                 | split; [|vm_compute; reflexivity]].
  - exists f. split; [exact Hs|]. rewrite Hr. reflexivity.
Defined.

Lemma new_mapped_journal_replays_nothing_witness :
  ∃ f, (j ← new_mapped_journal;
        j ← append_all j [(JournalDemo.env, 1, JournalDemo.payload)];
        journal_close true (Some j)) = Some f ∧ replay (f_read f 0 4096) = [].
Proof.
  destruct (new_mapped_journal_replays_nothing [(JournalDemo.env, 1, JournalDemo.payload)] true 4096)
    as (f & Hf & _ & Hr).
  - apply Forall_cons. split; [|apply Forall_nil_2].
    split_and!; [apply JournalDemo.payload_u8|vm_compute; congruence|reflexivity|reflexivity].
  - vm_compute. reflexivity.
  - exists f. split; [exact Hf|exact Hr].
Defined.

Lemma append_after_failed_mmap_undefined_witness :
  ∃ j', journal_append JournalDemo.no_mmap_env (Some JournalDemo.small) 1
          (Some (replicate 40 7)) 40 = Some (Some j', -1) ∧
    journal_append JournalDemo.env (Some j') 1 (Some JournalDemo.payload) 3 = None.
Proof.
  apply (append_after_failed_mmap_undefined _ _ JournalDemo.small _ _ (replicate 40 7)
    JournalDemo.payload JournalDemo.small_ok).
  - vm_compute. reflexivity.
  - apply Forall_replicate. vm_compute. intuition congruence.
  - apply JournalDemo.payload_u8.
  - vm_compute. congruence.
  - vm_compute. reflexivity.
  - vm_compute. congruence.
  - reflexivity.
  - reflexivity.
Defined.

(** The return codes of a run of appends, and the handle after it. *)
Fixpoint append_codes (j : journal_t) (entries : list log_entry) : option (list Z * journal_t) :=
  match entries with
  | [] => Some ([], j)
  | (env, type, data) :: entries =>
    '(j, rc) ← journal_append_to env j type (Some data) (Z.of_nat (length data));
    '(rcs, j) ← append_codes j entries; Some (rc :: rcs, j)
  end.

(** One short write loses the rest of the log: when [fwrite] writes only
    part of a header, the append returns -1, the fragment stays in the file,
    and a replay stops there, although the appends before and after it
    returned 0 and the sequence has counted all three. *)
Theorem torn_header_hides_later_records :
  let summary r := (r.1, journal_sequence (Some r.2),
                    h_sequence_number <$> (replay (contents (j_file r.2))).*1) in
  summary <$> append_codes (MkJournal false 0 0 0 false 0 0 empty_file)
    [(JournalDemo.env, 1, JournalDemo.payload); (JournalDemo.torn_env, 1, JournalDemo.payload);
     (JournalDemo.env, 5, JournalDemo.payload)] = Some ([0; -1; 0], 3, [0]).
Proof. vm_compute. reflexivity. Qed.
