(* ===== verification/TwoQueues.v ===== *)
(** * Two queues and a pool: events from one thread to another

    The logger and the event pipeline pass their events the same way: a pool of
    pre-allocated objects, a queue of free ones and a queue of filled ones.  The
    writer takes a free object, fills it and submits it; the reader takes a
    filled object, processes it and recycles it; on shutdown the reader drains
    what is left.  A pointer to an object is its index in the pool.  The queues
    are any that keep the promise of [BoundedQueue].

    The operations of the writer and of the reader, one per access to a queue or
    to an object, and the state of the queues [tq_rep]: that no two threads ever
    hold the same object is part of it.  An object is written and read as a
    whole.  Handoff.v interleaves the two threads. *)

From S2P Require Export Queue.

Section two_queues.
Context {E Q : Type} `{BoundedQueue nat Q}.

Record two_queues := MkTq { tq_free : Q; tq_filled : Q; tq_pool : list E }.

(** [ring_buffer_push(&free, &pool[i])] for every [i], the results ignored. *)
Fixpoint push_all (q : Q) (ptrs : list nat) : option Q :=
  match ptrs with
  | [] => Some q
  | p :: ptrs => '(q, _) ← q_push q (Some p); push_all q ptrs
  end.

(** *** The writer's operations *)

Definition tq_take (t : two_queues) : option (two_queues * option nat) :=
  '(q, p) ← q_pop (tq_free t); Some (MkTq q (tq_filled t) (tq_pool t), p).
Definition tq_write (t : two_queues) (p : nat) (f : E → E) : option two_queues :=
  e ← tq_pool t !! p; Some (MkTq (tq_free t) (tq_filled t) (<[p := f e]> (tq_pool t))).
Definition tq_submit (t : two_queues) (p : nat) : option two_queues :=
  '(q, _) ← q_push (tq_filled t) (Some p); Some (MkTq (tq_free t) q (tq_pool t)).

(** The three in a row; the flag says whether there was a free object. *)
Definition tq_emit (t : two_queues) (f : E → E) : option (two_queues * bool) :=
  '(t, p) ← tq_take t;
  match p with
  | Some p => t ← tq_write t p f; t ← tq_submit t p; Some (t, true)
  | None => Some (t, false)
  end.

(** *** The reader's operations *)

Definition tq_next (t : two_queues) : option (two_queues * option nat) :=
  '(q, p) ← q_pop (tq_filled t); Some (MkTq (tq_free t) q (tq_pool t), p).
Definition tq_recycle (t : two_queues) (p : nat) : option two_queues :=
  '(q, _) ← q_push (tq_free t) (Some p); Some (MkTq q (tq_filled t) (tq_pool t)).

(** ** The state of the queues *)

(** [fr] and [fi] are the free and the filled objects, and [held] are those the
    threads hold: all different, all in the pool, and few enough for either
    queue. *)
Record tq_rep (t : two_queues) (n : nat) (fr fi held : list nat) : Prop := {
  tr_free : q_rep (tq_free t) n (Some <$> fr);
  tr_filled : q_rep (tq_filled t) n (Some <$> fi);
  tr_nodup : NoDup (fr ++ fi ++ held);
  tr_room : (length (fr ++ fi ++ held) <= n)%nat;
  tr_pool : Forall (λ p, (p < length (tq_pool t))%nat) (fr ++ fi ++ held);
}.

#[global] Instance tq_rep_perm t n fr fi : Proper ((≡ₚ) ==> iff) (tq_rep t n fr fi).
Proof. intros h1 h2 Hp. split; intros []; split; try done; (by rewrite Hp) || by rewrite <- Hp. Qed.

(** A held object is nowhere else. *)
Lemma tq_held_only t n fr fi p held :
  tq_rep t n fr fi (p :: held) → p ∉ fr ∧ p ∉ fi ∧ p ∉ held.
Proof.
  intros [_ _ Hnd _ _]. apply NoDup_app in Hnd as (_ & Hfr & Hnd).
  apply NoDup_app in Hnd as (_ & Hfi & Hnd). apply NoDup_cons in Hnd as [Hp _].
  split_and!; [|intros ?%Hfi; set_solver|done]. intros ?%Hfr. set_solver.
Qed.

Lemma tq_take_rep t n fr fi held :
  tq_rep t n fr fi held →
  ∃ t', tq_take t = Some (t', head fr) ∧ tq_pool t' = tq_pool t ∧
        tq_rep t' n (tail fr) fi (option_list (head fr) ++ held).
Proof.
  intros []. destruct (q_pop_rep _ _ _ tr_free0) as (q & Hpop & Hq).
  unfold tq_take. rewrite Hpop. simpl. destruct fr as [|p fr]; simpl in *.
  - eexists. split; [done|]. by split.
  - eexists. split; [done|]. split; [done|].
    assert (p :: fr ++ fi ++ held ≡ₚ fr ++ fi ++ p :: held) as Hp.
    { rewrite !(assoc_L (++)). by rewrite Permutation_middle. }
    split; simpl; try done; by rewrite <- Hp.
Qed.

Lemma tq_write_rep t n fr fi held p f :
  tq_rep t n fr fi held → p ∈ held →
  ∃ e, tq_pool t !! p = Some e ∧
       tq_write t p f = Some (MkTq (tq_free t) (tq_filled t) (<[p := f e]> (tq_pool t))) ∧
       tq_rep (MkTq (tq_free t) (tq_filled t) (<[p := f e]> (tq_pool t))) n fr fi held.
Proof.
  intros [] Hp. assert (p < length (tq_pool t))%nat as Hlt.
  { rewrite Forall_forall in tr_pool0. apply tr_pool0. set_solver. }
  apply lookup_lt_is_Some in Hlt as [e He]. exists e. unfold tq_write. rewrite He.
  split_and!; [done..|]. split; simpl; try done. by rewrite length_insert.
Qed.

Lemma tq_submit_rep t n fr fi held p :
  tq_rep t n fr fi (p :: held) →
  ∃ t', tq_submit t p = Some t' ∧ tq_pool t' = tq_pool t ∧ tq_rep t' n fr (fi ++ [p]) held.
Proof.
  intros []. destruct (q_push_rep _ _ _ (Some p) tr_filled0) as (q & Hpush & Hq).
  unfold tq_submit. rewrite Hpush. simpl. eexists. split; [done|]. split; [done|].
  rewrite !length_app in *. simpl in *.
  unfold queue_push in Hq. rewrite decide_True in Hq by (rewrite length_fmap; lia).
  split; simpl; try done.
  - by rewrite fmap_app.
  - by rewrite <- (assoc_L (++)).
  - rewrite !length_app. simpl. lia.
  - by rewrite <- (assoc_L (++)).
Qed.

Lemma tq_next_rep t n fr fi held :
  tq_rep t n fr fi held →
  ∃ t', tq_next t = Some (t', head fi) ∧ tq_pool t' = tq_pool t ∧
        tq_rep t' n fr (tail fi) (option_list (head fi) ++ held).
Proof.
  intros []. destruct (q_pop_rep _ _ _ tr_filled0) as (q & Hpop & Hq).
  unfold tq_next. rewrite Hpop. simpl. destruct fi as [|p fi]; simpl in *.
  - eexists. split; [done|]. by split.
  - eexists. split; [done|]. split; [done|].
    assert (fr ++ p :: fi ++ held ≡ₚ fr ++ fi ++ p :: held) as Hp.
    { by rewrite (Permutation_middle fi held p). }
    split; simpl; try done; by rewrite <- Hp.
Qed.

Lemma tq_recycle_rep t n fr fi held p :
  tq_rep t n fr fi (p :: held) →
  ∃ t', tq_recycle t p = Some t' ∧ tq_pool t' = tq_pool t ∧ tq_rep t' n (fr ++ [p]) fi held.
Proof.
  intros []. destruct (q_push_rep _ _ _ (Some p) tr_free0) as (q & Hpush & Hq).
  unfold tq_recycle. rewrite Hpush. simpl. eexists. split; [done|]. split; [done|].
  rewrite !length_app in *. simpl in *.
  unfold queue_push in Hq. rewrite decide_True in Hq by (rewrite length_fmap; lia).
  assert (fr ++ fi ++ p :: held ≡ₚ (fr ++ [p]) ++ fi ++ held) as Hp.
  { rewrite <- (assoc_L (++)). simpl. by rewrite <- (Permutation_middle fi held p). }
  split; simpl; try done.
  - by rewrite fmap_app.
  - by rewrite <- Hp.
  - rewrite !length_app. simpl. lia.
  - by rewrite <- Hp.
Qed.

(** Initialisation: as many objects as the queue holds go into it. *)
Lemma push_all_rep q n l ptrs :
  q_rep q n (Some <$> l) →
  ∃ q', push_all q ptrs = Some q' ∧ q_rep q' n (Some <$> (l ++ take (n - length l) ptrs)).
Proof.
  revert q l. induction ptrs as [|p ptrs IH]; intros q l Hq; simpl.
  - exists q. by rewrite take_nil, app_nil_r.
  - destruct (q_push_rep _ _ _ (Some p) Hq) as (q1 & -> & Hq1). simpl.
    unfold queue_push in Hq1. rewrite length_fmap in Hq1. destruct (decide (length l < n)%nat) as [Hlt|Hge].
    + destruct (IH q1 (l ++ [p])) as (q' & -> & Hq'); [by rewrite fmap_app|].
      exists q'. split; [done|]. rewrite length_app in Hq'. simpl in Hq'.
      rewrite <- (assoc_L (++)) in Hq'.
      by replace (n - length l)%nat with (S (n - (length l + 1))) by lia.
    + destruct (IH q1 l Hq1) as (q' & -> & Hq'). exists q'. split; [done|].
      by replace (n - length l)%nat with 0%nat in * by lia.
Qed.

Lemma tq_init_rep q1 q2 n (pool : list E) :
  q_rep q1 n [] → q_rep q2 n [] →
  ∃ q, push_all q1 (seq 0 (length pool)) = Some q ∧
       tq_rep (MkTq q q2 pool) n (seq 0 (Nat.min n (length pool))) [] [].
Proof.
  intros H1 H2. destruct (push_all_rep q1 n [] (seq 0 (length pool)) H1) as (q & -> & Hq).
  exists q. split; [done|]. simpl in Hq. rewrite Nat.sub_0_r, take_seq in Hq.
  split; simpl; rewrite ?app_nil_r; try done.
  - apply NoDup_seq.
  - rewrite length_seq. lia.
  - apply Forall_forall. intros p Hp%elem_of_seq. lia.
Qed.

End two_queues.

#[global] Arguments two_queues : clear implicits.
