(* ===== verification/Handoff.v ===== *)
(** * Two queues and a pool: the two threads

    The writer and the reader of TwoQueues.v as interleaved steps, one step for
    each access to a queue, to an object or to the running flag.  [handoff_sound]
    is what the reader sees: the events the writer submitted, as it wrote them,
    in order; [reader_exits] is that it ends after a stop. *)

From S2P Require Export TwoQueues.

Inductive writer_pc := WIdle | WTaken (p : nat) | WWritten (p : nat).
Inductive reader_pc :=
  RCheck | RPop | RGot (p : nat) | RDone (p : nat) | RDrain | RDrainGot (p : nat) | RExit.
Inductive actor := Writer | Reader | Stop.

Section handoff.
Context {E Q O : Type} `{BoundedQueue nat Q}.

(** What the reader does with an event, and to the object afterwards. *)
Context (process : E → O → O) (clear : E → E).

Record handoff := MkHandoff {
  h_queues : two_queues E Q;
  h_writer : writer_pc;
  h_todo : list (E → E);     (* what the writer has still to write *)
  h_dropped : nat;           (* events without a free object *)
  h_reader : reader_pc;
  h_out : O;
  h_running : bool;
}.

Definition writer_step (s : handoff) : option handoff :=
  let '(MkHandoff t w todo dropped r out running) := s in
  match w, todo with
  | WIdle, [] => Some s
  | WIdle, f :: todo' =>
    '(t, p) ← tq_take t;
    Some (match p with
          | Some p => MkHandoff t (WTaken p) todo dropped r out running
          | None => MkHandoff t WIdle todo' (S dropped) r out running
          end)
  | WTaken p, f :: todo =>
    t ← tq_write t p f; Some (MkHandoff t (WWritten p) todo dropped r out running)
  | WTaken p, [] => None
  | WWritten p, _ =>
    t ← tq_submit t p; Some (MkHandoff t WIdle todo dropped r out running)
  end.

Definition reader_step (s : handoff) : option handoff :=
  let '(MkHandoff t w todo dropped r out running) := s in
  match r with
  | RCheck => Some (MkHandoff t w todo dropped (if running then RPop else RDrain) out running)
  | RPop =>
    '(t, p) ← tq_next t;
    Some (MkHandoff t w todo dropped (match p with Some p => RGot p | None => RCheck end) out running)
  | RGot p =>
    e ← tq_pool t !! p; t ← tq_write t p clear;
    Some (MkHandoff t w todo dropped (RDone p) (process e out) running)
  | RDone p =>
    t ← tq_recycle t p; Some (MkHandoff t w todo dropped RCheck out running)
  | RDrain =>
    '(t, p) ← tq_next t;
    Some (MkHandoff t w todo dropped (match p with Some p => RDrainGot p | None => RExit end) out running)
  | RDrainGot p =>
    e ← tq_pool t !! p;
    Some (MkHandoff t w todo dropped RDrain (process e out) running)
  | RExit => Some s
  end.

Definition handoff_step (s : handoff) (a : actor) : option handoff :=
  match a with
  | Writer => writer_step s
  | Reader => reader_step s
  | Stop => Some (MkHandoff (h_queues s) (h_writer s) (h_todo s) (h_dropped s)
                    (h_reader s) (h_out s) false)
  end.

Fixpoint handoff_run (s : handoff) (sched : list actor) : option handoff :=
  match sched with [] => Some s | a :: sched => s ← handoff_step s a; handoff_run s sched end.

(** ** The invariant *)

Definition writer_held (w : writer_pc) : list nat :=
  match w with WIdle => [] | WTaken p | WWritten p => [p] end.
Definition writer_written (w : writer_pc) : list nat :=
  match w with WWritten p => [p] | _ => [] end.
Definition reader_unread (r : reader_pc) : list nat :=
  match r with RGot p | RDrainGot p => [p] | _ => [] end.
Definition reader_held (r : reader_pc) : list nat :=
  match r with RGot p | RDrainGot p | RDone p => [p] | _ => [] end.

(** The object [e] is what [f] makes of whatever the pool held before. *)
Definition made (f : E → E) (e : E) : Prop := ∃ e0, e = f e0.

(** [done] of the events are dealt with; [kept] of them got an object and are
    either [seen] by the reader or [pend]ing in the pool.  [quiet]: the writer
    has nothing more to write. *)
Record handoff_inv_at (n : nat) (writes : list (E → E)) (o0 : O) (quiet : Prop) (s : handoff)
    (fr fi lost : list nat) (done kept : list (E → E)) (seen pend : list E) : Prop := {
  hi_rep : tq_rep (h_queues s) n fr fi
             (writer_held (h_writer s) ++ reader_held (h_reader s) ++ lost);
  hi_writes : writes = done ++ h_todo s;
  hi_taken : ∀ p, h_writer s = WTaken p → h_todo s ≠ [];
  hi_kept : kept `sublist_of` done;
  hi_dropped : length done = (length kept + h_dropped s)%nat;
  hi_made : Forall2 made kept (seen ++ pend);
  hi_out : h_out s = foldl (λ o e, process e o) o0 seen;
  hi_pend : Forall2 (λ p e, tq_pool (h_queues s) !! p = Some e)
              (reader_unread (h_reader s) ++ fi ++ writer_written (h_writer s)) pend;
  hi_quiet : quiet → h_writer s = WIdle ∧ h_todo s = [] ∧ (h_reader s = RExit → fi = []);
}.

Definition handoff_inv n writes o0 quiet s (fi : list nat) : Prop :=
  ∃ fr lost done kept seen pend, handoff_inv_at n writes o0 quiet s fr fi lost done kept seen pend.

(** Steps the reader needs to end after a stop, with [k] filled objects. *)
Definition reader_fuel (r : reader_pc) (k : nat) : nat :=
  match r with
  | RCheck => 2 + 2 * k | RPop => 3 + 2 * k | RGot _ => 4 + 2 * k | RDone _ => 3 + 2 * k
  | RDrain => 1 + 2 * k | RDrainGot _ => 2 + 2 * k | RExit => 0
  end.

Lemma lookups_insert (pool : list E) idx pend p (x : E) :
  Forall2 (λ p e, pool !! p = Some e) idx pend → p ∉ idx →
  Forall2 (λ q e, <[p := x]> pool !! q = Some e) idx pend.
Proof.
  intros Hl Hp. rewrite Forall2_same_length_lookup in Hl |- *. destruct Hl as [? Hl].
  split; [done|]. intros i q y Hx Hy. rewrite list_lookup_insert_ne; [eauto|].
  intros ->. apply Hp. by eapply list_elem_of_lookup_2.
Qed.

Lemma writer_step_inv n writes o0 quiet s fi :
  handoff_inv n writes o0 quiet s fi →
  ∃ s' fi', writer_step s = Some s' ∧ handoff_inv n writes o0 quiet s' fi'.
Proof.
  intros (fr & lost & done & kept & seen & pend & []).
  destruct s as [t w todo dropped r out running]; simpl in *. destruct w as [|p|p]; simpl in *.
  - destruct todo as [|f todo]; simpl.
    { eexists _, fi. split; [done|]. by exists fr, lost, done, kept, seen, pend. }
    destruct (tq_take_rep _ _ _ _ _ hi_rep0) as (t' & -> & Hpool & Hrep). simpl.
    eexists _, fi. split; [done|].
    destruct fr as [|p fr]; simpl in *.
    + exists [], lost, (done ++ [f]), kept, seen, pend. split; simpl; try done.
      * by rewrite hi_writes0, <- (assoc_L (++)).
      * by apply sublist_inserts_r.
      * rewrite length_app. simpl. lia.
      * by rewrite Hpool.
      * intros (_ & ? & _)%hi_quiet0. done.
    + exists fr, lost, done, kept, seen, pend. split; simpl; try done.
      * by rewrite Hpool.
      * intros (_ & ? & _)%hi_quiet0. done.
  - destruct todo as [|f todo]; [by destruct (hi_taken0 p)|].
    destruct (tq_write_rep _ _ _ _ _ p f hi_rep0) as (e & He & -> & Hrep); [set_solver|].
    simpl. eexists _, fi. split; [done|].
    exists fr, lost, (done ++ [f]), (kept ++ [f]), seen, (pend ++ [f e]). split; simpl; try done.
    * by rewrite hi_writes0, <- (assoc_L (++)).
    * by apply sublist_app.
    * rewrite !length_app. simpl. lia.
    * rewrite (assoc_L (++)). apply Forall2_app; [done|]. repeat constructor. by exists e.
    * rewrite (assoc_L (++)). rewrite app_nil_r in hi_pend0. apply Forall2_app.
      -- apply lookups_insert; [done|].
         destruct (tq_held_only _ _ _ _ _ _ hi_rep0) as (_ & Hfi & Hr).
         destruct r; simpl in *; set_solver.
      -- repeat constructor. rewrite list_lookup_insert_eq; [done|]. by apply lookup_lt_Some in He.
    * by intros (? & _)%hi_quiet0.
  - destruct (tq_submit_rep _ _ _ _ _ _ hi_rep0) as (t' & Hs & Hpool & Hrep).
    assert (writer_step (MkHandoff t (WWritten p) todo dropped r out running) =
            Some (MkHandoff t' WIdle todo dropped r out running)) as Hst.
    { simpl. rewrite Hs. by destruct todo. }
    simpl in Hst. rewrite Hst. eexists _, (fi ++ [p]). split; [done|].
    exists fr, lost, done, kept, seen, pend. split; simpl; try done.
    * rewrite Hpool. by rewrite app_nil_r.
    * by intros (? & _)%hi_quiet0.
Qed.

Lemma writer_written_held w p : p ∈ writer_written w → p ∈ writer_held w.
Proof. destruct w; set_solver. Qed.

Lemma held_reader_first w p lost : writer_held w ++ p :: lost ≡ₚ p :: writer_held w ++ lost.
Proof. by rewrite Permutation_middle. Qed.

(** Reading the next filled object, in the loop and in the drain. *)
Lemma reader_next_inv n writes o0 quiet t w todo dropped r out running fi got none :
  handoff_inv n writes o0 quiet (MkHandoff t w todo dropped r out running) fi →
  reader_held r = [] → reader_unread r = [] →
  (∀ p, reader_held (got p) = [p] ∧ reader_unread (got p) = [p] ∧ got p ≠ RExit) →
  reader_held none = [] → reader_unread none = [] →
  ∃ t', tq_next t = Some (t', head fi) ∧
    handoff_inv n writes o0 quiet
      (MkHandoff t' w todo dropped (match head fi with Some p => got p | None => none end)
         out running) (tail fi).
Proof.
  intros (fr & lost & done & kept & seen & pend & []) Hr Hu Hg Hn Hnu; simpl in *.
  destruct (tq_next_rep _ _ _ _ _ hi_rep0) as (t' & -> & Hpool & Hrep).
  eexists. split; [done|]. rewrite Hr, Hu in *. rewrite <- Hpool in hi_pend0.
  exists fr, lost, done, kept, seen, pend. destruct fi as [|p fi]; simpl in *.
  - split; simpl; try done; rewrite ?Hn, ?Hnu; try done. naive_solver.
  - destruct (Hg p) as (Hh & Hgu & Hne).
    split; simpl; try done; rewrite ?Hh, ?Hgu; simpl; try done; [|naive_solver].
    by rewrite (held_reader_first w p lost).
Qed.

(** Processing the object it holds. *)
Lemma reader_process_inv n writes o0 quiet t w todo dropped r out running fi p :
  handoff_inv n writes o0 quiet (MkHandoff t w todo dropped r out running) fi →
  reader_held r = [p] → reader_unread r = [p] →
  ∃ e t', tq_pool t !! p = Some e ∧ tq_write t p clear = Some t' ∧
    handoff_inv n writes o0 quiet (MkHandoff t' w todo dropped (RDone p) (process e out) running) fi ∧
    handoff_inv n writes o0 quiet (MkHandoff t w todo dropped RDrain (process e out) running) fi.
Proof.
  intros (fr & lost & done & kept & seen & pend & []) Hr Hu; simpl in *.
  rewrite Hr in hi_rep0. simpl in hi_rep0. pose proof hi_rep0 as Hrep.
  rewrite (held_reader_first w p lost) in Hrep.
  destruct (tq_held_only _ _ _ _ _ _ Hrep) as (_ & Hfi & Hheld).
  destruct (tq_write_rep _ _ _ _ _ p clear hi_rep0) as (e & He & Hw & Hrep'); [set_solver|].
  rewrite Hu in hi_pend0. simpl in hi_pend0.
  apply Forall2_cons_inv_l in hi_pend0 as (e' & pend' & He' & Hpend & ->).
  assert (e' = e) as -> by congruence. rewrite He, Hw.
  assert (foldl (λ o e, process e o) o0 (seen ++ [e]) = process e out) as Hout.
  { by rewrite foldl_app, <- hi_out0. }
  eexists _, _. split; [done|]. split; [done|].
  split; [exists fr, lost|exists fr, (p :: lost)];
    exists done, kept, (seen ++ [e]), pend'; split; simpl; try done.
  1,4: by rewrite <- (assoc_L (++)).
  - apply lookups_insert; [done|]. pose proof (writer_written_held w p). set_solver.
  - intros (?&?&_)%hi_quiet0. done.
  - intros (?&?&_)%hi_quiet0. done.
Qed.

Lemma reader_step_inv n writes o0 quiet s fi :
  handoff_inv n writes o0 quiet s fi →
  ∃ s' fi', reader_step s = Some s' ∧ handoff_inv n writes o0 quiet s' fi' ∧
    h_running s' = h_running s ∧
    (h_running s = false → (reader_fuel (h_reader s') (length fi') <=
                            pred (reader_fuel (h_reader s) (length fi)))%nat).
Proof.
  intros Hinv. destruct s as [t w todo dropped r out running]. destruct r as [| |p|p| |p|]; simpl.
  - eexists _, fi. split; [done|]. split; [|simpl; split; [done|intros ->; simpl; lia]].
    destruct Hinv as (fr & lost & done & kept & seen & pend & []).
    exists fr, lost, done, kept, seen, pend.
    destruct running; split; simpl in *; try done; naive_solver.
  - destruct (reader_next_inv _ _ _ _ _ _ _ _ _ _ _ _ RGot RCheck Hinv)
      as (t' & -> & Hinv'); simpl; eauto.
    eexists _, (tail fi). split; [done|]. split; [done|]. split; [done|].
    intros _. destruct fi; simpl; lia.
  - destruct (reader_process_inv _ _ _ _ _ _ _ _ _ _ _ _ p Hinv) as (e & t' & -> & -> & ? & _); try done.
    eexists _, fi. simpl. split_and!; try done; lia.
  - destruct Hinv as (fr & lost & done & kept & seen & pend & []); simpl in *.
    rewrite (held_reader_first w p lost) in hi_rep0.
    destruct (tq_recycle_rep _ _ _ _ _ _ hi_rep0) as (t' & -> & Hpool & Hrep).
    simpl. eexists _, fi. split; [done|]. split; [|simpl; split; [done|lia]].
    exists (fr ++ [p]), lost, done, kept, seen, pend. split; simpl; try done.
    + by rewrite Hpool.
    + naive_solver.
  - destruct (reader_next_inv _ _ _ _ _ _ _ _ _ _ _ _ RDrainGot RExit Hinv)
      as (t' & -> & Hinv'); simpl; eauto.
    eexists _, (tail fi). split; [done|]. split; [done|]. split; [done|].
    intros _. destruct fi; simpl; lia.
  - destruct (reader_process_inv _ _ _ _ _ _ _ _ _ _ _ _ p Hinv) as (e & t' & -> & _ & _ & ?); try done.
    eexists _, fi. simpl. split_and!; try done; lia.
  - eexists _, fi. simpl. split_and!; try done; lia.
Qed.

Lemma handoff_run_inv n writes o0 quiet s fi sched :
  handoff_inv n writes o0 quiet s fi →
  ∃ s' fi', handoff_run s sched = Some s' ∧ handoff_inv n writes o0 quiet s' fi'.
Proof.
  revert s fi. induction sched as [|a sched IH]; intros s fi Hinv; simpl; [by eauto|].
  destruct a; simpl.
  - destruct (writer_step_inv _ _ _ _ _ _ Hinv) as (s' & fi' & -> & ?). simpl. eauto.
  - destruct (reader_step_inv _ _ _ _ _ _ Hinv) as (s' & fi' & -> & ? & _). simpl. eauto.
  - apply (IH _ fi). destruct Hinv as (fr & lost & done & kept & seen & pend & []).
    by exists fr, lost, done, kept, seen, pend.
Qed.

(** From here on the writer has nothing to write. *)
Lemma handoff_inv_quiet n writes o0 s fi :
  handoff_inv n writes o0 False s fi →
  h_writer s = WIdle → h_todo s = [] → h_reader s ≠ RExit → handoff_inv n writes o0 True s fi.
Proof.
  intros (fr & lost & done & kept & seen & pend & []) ???.
  exists fr, lost, done, kept, seen, pend. by split.
Qed.

Lemma reader_exits n writes o0 quiet s fi k :
  handoff_inv n writes o0 quiet s fi → h_running s = false →
  (reader_fuel (h_reader s) (length fi) <= k)%nat →
  ∃ s', handoff_run s (replicate k Reader) = Some s' ∧ h_reader s' = RExit.
Proof.
  revert s fi. induction k as [|k IH]; intros s fi Hinv Hrun Hk; simpl.
  - exists s. split; [done|]. destruct (h_reader s); simpl in *; lia || done.
  - destruct (reader_step_inv _ _ _ _ _ _ Hinv) as (s' & fi' & -> & Hinv' & Hr & Hf). simpl.
    apply (IH s' fi'); [done|congruence|]. specialize (Hf Hrun). lia.
Qed.

(** ** The results *)

(** Three steps of the writer are one [tq_emit]; without a free object it is one. *)
Lemma writer_emit t f todo dropped r out running t' ok :
  tq_emit t f = Some (t', ok) →
  handoff_run (MkHandoff t WIdle (f :: todo) dropped r out running)
    (if ok then [Writer; Writer; Writer] else [Writer]) =
  Some (MkHandoff t' WIdle todo (if ok then dropped else S dropped) r out running).
Proof.
  unfold tq_emit. simpl. destruct (tq_take t) as [[t1 [p|]]|] eqn:Ht; [| |done]; simpl.
  - intros He. destruct (tq_write t1 p f) as [t2|] eqn:Hw; [|done]; simpl in He.
    destruct (tq_submit t2 p) as [t3|] eqn:Hs; [|done]; simpl in He. injection He as <- <-.
    simpl. rewrite Ht. simpl. rewrite Hw. simpl. destruct todo; by rewrite Hs.
  - intros [= <- <-]. simpl. by rewrite Ht.
Qed.

Definition handoff_start (t : two_queues E Q) (writes : list (E → E)) (o0 : O) : handoff :=
  MkHandoff t WIdle writes 0 RCheck o0 true.

Lemma handoff_start_inv n t fr writes o0 :
  tq_rep t n fr [] [] → handoff_inv n writes o0 False (handoff_start t writes o0) [].
Proof.
  intros Hrep. exists fr, [], [], [], [], []. split; simpl; try done.
Qed.

(** What has come out, under every schedule. *)
Lemma handoff_sound n t fr writes o0 sched :
  tq_rep t n fr [] [] →
  ∃ s done kept seen pend,
    handoff_run (handoff_start t writes o0) sched = Some s ∧
    writes = done ++ h_todo s ∧ kept `sublist_of` done ∧
    length done = (length kept + h_dropped s)%nat ∧
    Forall2 made kept (seen ++ pend) ∧ h_out s = foldl (λ o e, process e o) o0 seen ∧
    (length pend <= n)%nat ∧
    ∃ fi, q_rep (tq_filled (h_queues s)) n (Some <$> fi) ∧
      length pend = (length (reader_unread (h_reader s)) + length fi +
                     length (writer_written (h_writer s)))%nat.
Proof.
  intros Hrep. destruct (handoff_run_inv n writes o0 False _ [] sched (handoff_start_inv _ _ _ _ _ Hrep))
    as (s & fi & Hrun & fr' & lost & done & kept & seen & pend & []).
  pose proof (Forall2_length _ _ _ hi_pend0) as Hl. rewrite !length_app in Hl.
  exists s, done, kept, seen, pend. split_and!; try done.
  2:{ exists fi. split; [by destruct hi_rep0|lia]. }
  rewrite <- (Forall2_length _ _ _ hi_pend0).
  destruct hi_rep0 as [_ _ _ Hroom _]. rewrite !length_app in *.
  destruct (h_reader s), (h_writer s); simpl in *; lia.
Qed.

(** A stop after the last write: the reader ends, and has seen everything. *)
Lemma handoff_complete n t fr writes o0 sched s :
  tq_rep t n fr [] [] →
  handoff_run (handoff_start t writes o0) sched = Some s →
  h_writer s = WIdle → h_todo s = [] → h_reader s ≠ RExit →
  ∀ sched', ∃ s' kept seen,
    handoff_run s (Stop :: sched') = Some s' ∧
    kept `sublist_of` writes ∧ length writes = (length kept + h_dropped s')%nat ∧
    (h_reader s' = RExit → Forall2 made kept seen ∧ h_out s' = foldl (λ o e, process e o) o0 seen).
Proof.
  intros Hrep Hrun Hw Ht Hr sched'.
  destruct (handoff_run_inv n writes o0 False _ [] sched (handoff_start_inv _ _ _ _ _ Hrep))
    as (s1 & fi & Hrun1 & Hinv). rewrite Hrun in Hrun1. injection Hrun1 as <-.
  apply handoff_inv_quiet in Hinv; [|done..].
  destruct (handoff_run_inv _ _ _ _ _ _ (Stop :: sched') Hinv)
    as (s' & fi' & Hrun' & fr' & lost & done & kept & seen & pend & []).
  destruct (hi_quiet0 I) as (Hw' & Ht' & Hfi). exists s', kept, seen.
  rewrite Ht', app_nil_r in hi_writes0. subst done. split_and!; try done.
  intros He. rewrite He, Hw', (Hfi He) in hi_pend0. simpl in hi_pend0.
  apply Forall2_nil_inv_l in hi_pend0 as ->. by rewrite app_nil_r in hi_made0.
Qed.

Lemma handoff_ends n t fr writes o0 sched s :
  tq_rep t n fr [] [] →
  handoff_run (handoff_start t writes o0) sched = Some s →
  ∃ s', handoff_run s (Stop :: replicate (2 * n + 4) Reader) = Some s' ∧ h_reader s' = RExit.
Proof.
  intros Hrep Hrun.
  destruct (handoff_run_inv n writes o0 False _ [] sched (handoff_start_inv _ _ _ _ _ Hrep))
    as (s1 & fi & Hrun1 & Hinv). rewrite Hrun in Hrun1. injection Hrun1 as <-.
  destruct (handoff_run_inv _ _ _ _ _ _ [Stop] Hinv) as (s' & fi' & Hs & Hinv').
  simpl in Hs. injection Hs as <-.
  apply (reader_exits _ _ _ _ _ _ _ Hinv'); [done|].
  destruct Hinv' as (fr' & lost & done & kept & seen & pend & [[_ _ _ Hroom _]]).
  rewrite !length_app in Hroom. simpl in *. destruct (h_reader s); simpl in *; lia.
Qed.

(** *** A stop before the writer is done

    The reader looks at an empty queue and ends; what is submitted afterwards
    has nobody to read it. *)

Lemma handoff_run_app s l1 l2 :
  handoff_run s (l1 ++ l2) = s ← handoff_run s l1; handoff_run s l2.
Proof.
  revert s. induction l1 as [|a l1 IH]; intros s; [done|]. simpl.
  destruct (handoff_step s a); simpl; [apply IH|done].
Qed.

Lemma writer_alone ws :
  ∀ n t fr fi dropped r out running, tq_rep t n fr fi [] → (length ws <= length fr)%nat →
  ∃ s, handoff_run (MkHandoff t WIdle ws dropped r out running)
         (concat (replicate (length ws) [Writer; Writer; Writer])) = Some s ∧
    h_writer s = WIdle ∧ h_todo s = [] ∧ h_dropped s = dropped ∧ h_reader s = r ∧ h_out s = out.
Proof.
  induction ws as [|f ws IH]; intros n t fr fi dropped r out running Hrep Hl.
  - eexists. split; [done|]. by split_and!.
  - destruct fr as [|p fr]; [simpl in Hl; lia|]. cbn [length] in Hl.
    destruct (tq_take_rep _ _ _ _ _ Hrep) as (t1 & H1 & _ & Hrep1). cbn [head tail] in *.
    destruct (tq_write_rep _ _ _ _ _ p f Hrep1) as (e & _ & H2 & Hrep2); [simpl; set_solver|].
    destruct (tq_submit_rep _ _ _ _ _ _ Hrep2) as (t3 & H3 & _ & Hrep3).
    destruct (IH n t3 fr (fi ++ [p]) dropped r out running Hrep3) as (s & Hs & Hsp); [lia|].
    exists s. split; [|done]. cbn [length replicate concat].
    assert (tq_emit t f = Some (t3, true)) as Hemit.
    { unfold tq_emit. rewrite H1. simpl. rewrite H2. simpl. by rewrite H3. }
    by rewrite handoff_run_app, (writer_emit t f ws dropped r out running t3 true Hemit).
Qed.

Lemma handoff_lost n t fr ws o0 :
  tq_rep t n fr [] [] → (length ws <= length fr)%nat →
  ∃ s, handoff_run (handoff_start t ws o0)
         (Stop :: Reader :: Reader :: concat (replicate (length ws) [Writer; Writer; Writer])) =
         Some s ∧
    h_writer s = WIdle ∧ h_todo s = [] ∧ h_dropped s = 0%nat ∧ h_reader s = RExit ∧ h_out s = o0.
Proof.
  intros Hrep Hl. destruct (tq_next_rep _ _ _ _ _ Hrep) as (t1 & H1 & _ & Hrep1).
  destruct (writer_alone ws n t1 fr [] 0 RExit o0 false Hrep1 Hl) as (s & Hs & Hsp).
  exists s. split; [|done]. simpl. rewrite H1. simpl. exact Hs.
Qed.

(** *** A writer whose work comes in pieces *)

(** From every state of a run, every step is defined. *)
Lemma handoff_step_total n t fr writes o0 sched s a :
  tq_rep t n fr [] [] → handoff_run (handoff_start t writes o0) sched = Some s →
  ∃ s', handoff_step s a = Some s' ∧
    handoff_run (handoff_start t writes o0) (sched ++ [a]) = Some s'.
Proof.
  intros Hrep Hrun. rewrite handoff_run_app, Hrun. cbn [mbind option_bind].
  destruct (handoff_run_inv n writes o0 False _ [] sched (handoff_start_inv _ _ _ _ _ Hrep))
    as (s1 & fi & H1 & Hinv). rewrite Hrun in H1. injection H1 as <-.
  destruct (handoff_run_inv _ _ _ _ _ _ [a] Hinv) as (s' & fi' & Hs & _).
  exists s'. rewrite Hs. split; [|done]. cbn in Hs. by destruct (handoff_step s a).
Qed.

Definition more_writes (s : handoff) (ws : list (E → E)) : handoff :=
  MkHandoff (h_queues s) (h_writer s) (h_todo s ++ ws) (h_dropped s) (h_reader s) (h_out s)
    (h_running s).

Lemma writer_step_more s s' ws :
  writer_step s = Some s' → s' = s ∨ writer_step (more_writes s ws) = Some (more_writes s' ws).
Proof.
  destruct s as [t w todo dropped r out running]. destruct w as [|p|p]; cbn [writer_step].
  - destruct todo as [|f todo]; [intros [= <-]; by left|]. right. cbn.
    destruct (tq_take t) as [[t1 [p|]]|]; [| |done]; cbn in *; by simplify_eq.
  - destruct todo as [|f todo]; [done|]. right. cbn.
    destruct (tq_write t p f); cbn in *; [by simplify_eq|done].
  - right. unfold more_writes. cbn. destruct (tq_submit t p); cbn in *; by simplify_eq.
Qed.

Lemma reader_step_more s s' ws :
  reader_step s = Some s' → reader_step (more_writes s ws) = Some (more_writes s' ws).
Proof.
  destruct s as [t w todo dropped r out running]. unfold more_writes. cbn. intros Hs.
  destruct r as [| |p|p| |p|]; try (by injection Hs as <-).
  - destruct (tq_next t) as [[t1 p]|]; [|done]. by injection Hs as <-.
  - destruct (tq_pool t !! p); [|done]. cbn in *. destruct (tq_write t p clear); [|done].
    by injection Hs as <-.
  - destruct (tq_recycle t p); [|done]. by injection Hs as <-.
  - destruct (tq_next t) as [[t1 p]|]; [|done]. by injection Hs as <-.
  - destruct (tq_pool t !! p); [|done]. by injection Hs as <-.
Qed.

(** A run does not depend on what is written later. *)
Lemma handoff_run_more s sched s' ws :
  handoff_run s sched = Some s' →
  ∃ sched', handoff_run (more_writes s ws) sched' = Some (more_writes s' ws).
Proof.
  revert s. induction sched as [|a sched IH]; intros s; cbn [handoff_run].
  - intros [= <-]. by exists [].
  - destruct (handoff_step s a) as [s1|] eqn:Hst; [|done]. cbn [mbind option_bind].
    intros (sched' & Hs)%IH. destruct a; cbn [handoff_step] in Hst.
    + destruct (writer_step_more s s1 ws Hst) as [->|Hm]; [by exists sched'|].
      exists (Writer :: sched'). cbn [handoff_run handoff_step]. by rewrite Hm.
    + exists (Reader :: sched'). cbn [handoff_run handoff_step].
      by rewrite (reader_step_more _ _ _ Hst).
    + injection Hst as <-. by exists (Stop :: sched').
Qed.

(** Only the reader changes what comes out, by one event at a time. *)
Lemma handoff_step_out s a s' :
  handoff_step s a = Some s' →
  h_out s' = h_out s ∨ a = Reader ∧ ∃ e, h_out s' = process e (h_out s).
Proof.
  destruct s as [t w todo dropped r out running]. destruct a; cbn.
  - destruct w, todo; try (by intros [= <-]; left); try done.
    + destruct (tq_take t) as [[t1 [p|]]|]; [| |done]; intros [= <-]; by left.
    + destruct (tq_write t _ _); [|done]. intros [= <-]; by left.
    + destruct (tq_submit t _); [|done]. intros [= <-]; by left.
    + destruct (tq_submit t _); [|done]. intros [= <-]; by left.
  - destruct r as [| |p|p| |p|]; try (by intros [= <-]; left).
    + destruct (tq_next t) as [[t1 p]|]; [|done]. intros [= <-]. by left.
    + destruct (tq_pool t !! p) as [e|]; [|done]. cbn. destruct (tq_write t p clear); [|done].
      intros [= <-]. right. split; [done|]. by exists e.
    + destruct (tq_recycle t p); [|done]. intros [= <-]. by left.
    + destruct (tq_next t) as [[t1 p]|]; [|done]. intros [= <-]. by left.
    + destruct (tq_pool t !! p) as [e|]; [|done]. intros [= <-]. right. split; [done|]. by exists e.
  - intros [= <-]. by left.
Qed.

(** Steps the writer needs for what it has to write. *)
Definition writer_fuel (s : handoff) : nat :=
  match h_writer s with
  | WIdle => 3 * length (h_todo s)
  | WTaken _ => 3 * length (h_todo s) - 1
  | WWritten _ => 3 * length (h_todo s) + 1
  end.

Lemma writer_step_fuel s s' :
  writer_step s = Some s' → (0 < writer_fuel s)%nat → (writer_fuel s' < writer_fuel s)%nat.
Proof.
  destruct s as [t w todo dropped r out running]. unfold writer_fuel.
  destruct w as [|p|p], todo as [|f todo]; cbn [writer_step h_writer h_todo]; try done.
  - cbn. lia.
  - destruct (tq_take t) as [[t1 [p|]]|]; [| |done]; intros [= <-]; cbn; lia.
  - destruct (tq_write t p f); [|done]. intros [= <-]. cbn. lia.
  - destruct (tq_submit t p); [|done]. intros [= <-]. cbn. lia.
  - destruct (tq_submit t p); [|done]. intros [= <-]. cbn. lia.
Qed.

End handoff.
