(* ===== verification/Logger.v ===== *)
(** * The logger (include/logger.h, src/logger.c)

    A log call takes an entry from the free queue, formats into it and submits
    it; the logger thread writes the entries to the file.  The two threads are
    the writer and the reader of Handoff.v with the ring buffers of RingBuffer.v
    as queues.  A log call is given its formatted text; [time_str] is what
    [localtime_r] and [strftime] make of a time, which depends on the time zone
    of the machine.  The stdio buffer counts as part of the file, so [fflush] is
    not visible.  At the end: what two threads that log at once do. *)

From S2P Require Export Printf RingBuffer Handoff.

Inductive log_level_t := LOG_TRACE | LOG_DEBUG | LOG_INFO | LOG_WARN | LOG_ERROR.

Definition LOG_MAX_MSG_LEN : nat := 512.

Record log_entry_t := MkLogEntry {
  le_timestamp_ns : Z;
  le_level : log_level_t;
  le_message : string;
  le_msg_len : Z;
}.

(** An entry of a block from [calloc]. *)
Definition zero_entry : log_entry_t := MkLogEntry 0 LOG_TRACE "" 0.

Definition level_str (level : log_level_t) : string :=
  match level with
  | LOG_TRACE => "TRACE" | LOG_DEBUG => "DEBUG" | LOG_INFO => "INFO "
  | LOG_WARN => "WARN " | LOG_ERROR => "ERROR"
  end.

Definition log_now_nanos (ts : Z * Z) : Z := u64 (u64 (u64 ts.1 * 1000000000) + u64 ts.2).

Definition log_queues : Type := two_queues log_entry_t (ring_buffer_t nat).

Record logger_t := MkLogger {
  lg_queues : log_queues;      (* free_queue_, filled_queue_, entry_pool *)
  lg_file : string;
  lg_running : bool;
  lg_owns_file : bool;
}.

(** *** Opening *)

Record logger_env := MkLoggerEnv {
  lv_calloc : bool;
  lv_fopen : option string;    (* what the file holds, if it can be opened *)
  lv_free_queue : bool;        (* [calloc] in [ring_buffer_init] *)
  lv_filled_queue : bool;
  lv_pool : bool;
  lv_thread : bool;
}.

(** [None] is the null handle; [stdout] is what standard output holds. *)
Definition logger_init (env : logger_env) (stdout : string) (filepath : option string)
    (queue_size : Z) : option logger_t :=
  if negb (lv_calloc env) then None else
  let to_stdout := match filepath with Some p => bool_decide (p = "-") | None => true end in
  file ← (if to_stdout then Some stdout else lv_fopen env);
  let zero := RingBuffer 0 0 None 0 0 in
  match ring_buffer_init (lv_free_queue env) (Some zero) queue_size,
        ring_buffer_init (lv_filled_queue env) (Some zero) queue_size with
  | (Some free, 0), (Some filled, 0) =>
    if negb (lv_pool env) then None else
    free ← push_all free (seq 0 (Z.to_nat queue_size));
    if negb (lv_thread env) then None else
    Some (MkLogger (MkTq free filled (replicate (Z.to_nat queue_size) zero_entry)) file
            true (negb to_stdout))
  | _, _ => None
  end.

(** *** Writing *)

(** The stores of [logger_write] to the entry; [text] is the formatted text. *)
Definition fill_entry (ts : Z * Z) (level : log_level_t) (text : string) (e : log_entry_t)
    : log_entry_t :=
  MkLogEntry (log_now_nanos ts) level (snprintf LOG_MAX_MSG_LEN text)
    (u16 (Z.of_nat (String.length text))).

Definition logger_write (log : option logger_t) (ts : Z * Z) (level : log_level_t)
    (text : option string) : option (option logger_t) :=
  match log, text with
  | Some log, Some text =>
    '(q, _) ← tq_emit (lg_queues log) (fill_entry ts level text);
    Some (Some (MkLogger q (lg_file log) (lg_running log) (lg_owns_file log)))
  | _, _ => Some log
  end.

(** *** The thread *)

Section logger_thread.
Context (time_str : Z → string).

Definition entry_line (e : log_entry_t) : string :=
  time_str (le_timestamp_ns e / 1000000000) +:+ "." +:+
  fmt_digits 9 (le_timestamp_ns e mod 1000000000) +:+
  " [" +:+ level_str (le_level e) +:+ "] " +:+ le_message e +:+
  String (Ascii.ascii_of_nat 10) "".

Definition flush_entry (e : log_entry_t) (file : string) : string :=
  if le_msg_len e =? 0 then file else file +:+ entry_line e.

Definition clear_entry (e : log_entry_t) : log_entry_t :=
  MkLogEntry (le_timestamp_ns e) (le_level e) (le_message e) 0.

(** One access of [logger_thread]. *)
Definition logger_thread_step : handoff (O:=string) → option (handoff (O:=string)) :=
  reader_step flush_entry clear_entry (Q:=ring_buffer_t nat).

(** The interleavings of one logging thread, the logger thread and
    [logger_shutdown], which clears [running] and waits for the thread. *)
Definition logger_run : handoff → list actor → option handoff :=
  handoff_run flush_entry clear_entry (Q:=ring_buffer_t nat).

(** The log calls a thread is going to make. *)
Definition log_call : Type := (Z * Z) * log_level_t * string.
Definition call_entry (c : log_call) : log_entry_t → log_entry_t :=
  let '(ts, level, text) := c in fill_entry ts level text.
Definition logger_start (log : logger_t) (calls : list log_call) : handoff :=
  handoff_start (lg_queues log) (call_entry <$> calls) (lg_file log).

Definition logger_destroy (log : option logger_t) : option string :=
  log ← log; Some (lg_file log).

(** ** Properties *)

(** The line a call makes: none for an empty text. *)
Definition call_line (c : log_call) : string := flush_entry (call_entry c zero_entry) "".
Definition call_lines (cs : list log_call) : string := foldr (λ c s, call_line c +:+ s) "" cs.

Lemma made_entry c e : made (call_entry c) e → e = call_entry c zero_entry.
Proof. destruct c as [[ts level] text]. by intros [e0 ->]. Qed.

Lemma flush_call file c : flush_entry (call_entry c zero_entry) file = file +:+ call_line c.
Proof.
  unfold call_line, flush_entry. case_match; [by rewrite str_app_nil|]. done.
Qed.

Lemma call_lines_app cs1 cs2 : call_lines (cs1 ++ cs2) = call_lines cs1 +:+ call_lines cs2.
Proof.
  induction cs1 as [|c cs1 IH]; [done|]. simpl. by rewrite IH, str_app_assoc.
Qed.

Lemma made_calls cs es file :
  Forall2 made (call_entry <$> cs) es →
  foldl (λ o e, flush_entry e o) file es = file +:+ call_lines cs.
Proof.
  revert es file. induction cs as [|c cs IH]; intros es file H; simpl in H.
  - apply Forall2_nil_inv_l in H as ->. simpl. by rewrite str_app_nil.
  - apply Forall2_cons_inv_l in H as (e & es' & ->%made_entry & Hes & ->).
    simpl. rewrite (IH _ _ Hes), flush_call. by rewrite str_app_assoc.
Qed.

(** Splitting what was written off a list of images. *)
Lemma sublist_calls kept cs :
  kept `sublist_of` (call_entry <$> cs) → ∃ ks, kept = call_entry <$> ks ∧ ks `sublist_of` cs.
Proof.
  revert kept. induction cs as [|c cs IH]; intros kept H; simpl in H.
  - apply sublist_nil_r in H as ->. by exists [].
  - apply sublist_cons_r in H as [H|(k & -> & H)].
    + destruct (IH _ H) as (ks & -> & ?). exists ks. split; [done|]. by constructor.
    + destruct (IH _ H) as (ks & -> & ?). exists (c :: ks). split; [done|]. by constructor.
Qed.

(** A new logger, and how many entries it has. *)
Lemma logger_init_rep env stdout path size :
  lv_calloc env = true → lv_fopen env ≠ None → lv_free_queue env = true →
  lv_filled_queue env = true → lv_pool env = true → lv_thread env = true →
  1 <= size <= 2 ^ 31 →
  let n := Z.to_nat (2 ^ Z.log2_up size - 1) in
  ∃ log, logger_init env stdout path size = Some log ∧
    tq_rep (lg_queues log) n (seq 0 (Nat.min n (Z.to_nat size))) [] [].
Proof.
  intros H1 H2 H3 H4 H5 H6 Hs n. unfold logger_init. rewrite H1, H3, H4, H5, H6. cbn [negb].
  destruct (lv_fopen env) as [file|]; [|done].
  assert (∃ f, (if match path with Some p => bool_decide (p = "-") | None => true end
                then Some stdout else Some file) = Some f) as [f ->]
    by (destruct path as [p|]; [case_bool_decide|]; eauto).
  destruct (ring_buffer_init_wf (A:=nat) (RingBuffer 0 0 None 0 0) size Hs) as (rb & -> & Hwf & Hc).
  assert (q_rep rb n []) as Hrep by (eexists _, _; eauto).
  destruct (tq_init_rep rb rb n (replicate (Z.to_nat size) zero_entry) Hrep Hrep) as (q & Hq & Ht).
  rewrite length_replicate in Hq, Ht. cbn. rewrite Hq. cbn. eauto.
Qed.
(** All system calls of [logger_init] work. *)
Definition logger_env_ok (env : logger_env) : bool :=
  lv_calloc env && bool_decide (is_Some (lv_fopen env)) && lv_free_queue env &&
  lv_filled_queue env && lv_pool env && lv_thread env.

(** How many entries can be under way. *)
Definition logger_capacity (size : Z) : nat := Z.to_nat (2 ^ Z.log2_up size - 1).

Lemma logger_init_ok env stdout path size :
  logger_env_ok env = true → 1 <= size <= 2 ^ 31 →
  ∃ log fr, logger_init env stdout path size = Some log ∧
    tq_rep (lg_queues log) (logger_capacity size) fr [] [].
Proof.
  unfold logger_env_ok. intros Henv Hs. zbool.
  match goal with H : bool_decide (is_Some _) = true |- _ => apply bool_decide_eq_true in H as [? Hf] end.
  destruct (logger_init_rep env stdout path size) as (log & Hi & Hrep); try done; [congruence|].
  eauto.
Qed.

Lemma calls_seen cs seen pend file :
  Forall2 made (call_entry <$> cs) (seen ++ pend) →
  foldl (λ o e, flush_entry e o) file seen = file +:+ call_lines (take (length seen) cs) ∧
  length cs = (length seen + length pend)%nat.
Proof.
  intros H. pose proof (Forall2_length _ _ _ H) as Hl. rewrite length_fmap, length_app in Hl.
  split; [|done]. apply made_calls. rewrite fmap_take.
  apply Forall2_app_inv_r in H as (k1 & k2 & H1 & H2 & ->).
  by rewrite <- (Forall2_length _ _ _ H1), take_app_length.
Qed.

(** C21 -- The log is what was logged, in order: whatever the interleaving of the
    logging thread, the logger thread and a shutdown, no access is undefined,
    the file has grown by the complete lines of the first [k] of the calls that
    found a free entry, in the order of the calls and each with its own text,
    at most the capacity of them are under way, and every other call made so
    far was counted as dropped. *)
Theorem logger_lines_in_order env stdout path size calls sched
    (Henv : logger_env_ok env = true) (Hsize : 1 <= size <= 2 ^ 31) :
  ∃ log s tried kept k,
    logger_init env stdout path size = Some log ∧
    logger_run (logger_start log calls) sched = Some s ∧
    tried `prefix_of` calls ∧ length (h_todo s) = (length calls - length tried)%nat ∧
    kept `sublist_of` tried ∧
    length tried = (length kept + h_dropped s)%nat ∧
    (k <= length kept <= k + logger_capacity size)%nat ∧
    h_out s = lg_file log +:+ call_lines (take k kept).
Proof.
  destruct (logger_init_ok env stdout path size Henv Hsize) as (log & fr & Hi & Hrep).
  destruct (handoff_sound flush_entry clear_entry _ _ _ (call_entry <$> calls) (lg_file log) sched Hrep)
    as (s & done & kept & seen & pend & Hrun & Hw & Hk & Hd & Hm & Ho & Hp & _).
  apply fmap_app_inv in Hw as (c1 & c2 & -> & Ht & ->).
  destruct (sublist_calls _ _ Hk) as (ks & -> & Hks). rewrite !length_fmap in Hd.
  destruct (calls_seen _ _ _ (lg_file log) Hm) as [Hf Hl].
  exists log, s, c1, ks, (length seen). split_and!; try done; try lia.
  - by exists c2.
  - rewrite Ht, length_fmap, length_app. lia.
  - by rewrite Ho.
Qed.

(** C27 -- A shutdown loses nothing: when [logger_shutdown] is called after the
    last log call has returned, the logger thread ends after at most
    [2 * capacity + 4] accesses of its own, and whenever it has ended the file
    holds the line of every call that found a free entry. *)
Theorem logger_shutdown_flushes env stdout path size calls sched log s sched'
    (Henv : logger_env_ok env = true) (Hsize : 1 <= size <= 2 ^ 31)
    (Hlog : logger_init env stdout path size = Some log)
    (Hrun : logger_run (logger_start log calls) sched = Some s)
    (Hdone : h_todo s = [] ∧ h_writer s = WIdle) (Hrunning : h_reader s ≠ RExit) :
  (∃ s', logger_run s (Stop :: replicate (2 * logger_capacity size + 4) Reader) = Some s' ∧
         h_reader s' = RExit) ∧
  ∃ s' kept, logger_run s (Stop :: sched') = Some s' ∧ kept `sublist_of` calls ∧
    length calls = (length kept + h_dropped s')%nat ∧
    (h_reader s' = RExit → h_out s' = lg_file log +:+ call_lines kept).
Proof.
  destruct (logger_init_ok env stdout path size Henv Hsize) as (log' & fr & Hi & Hrep).
  rewrite Hlog in Hi. injection Hi as <-. destruct Hdone as [Ht Hw].
  split; [by eapply handoff_ends|].
  destruct (handoff_complete flush_entry clear_entry _ _ _ _ _ _ _ Hrep Hrun Hw Ht Hrunning sched')
    as (s' & kept & seen & Hs & Hk & Hd & He).
  destruct (sublist_calls _ _ Hk) as (ks & -> & Hks). rewrite !length_fmap in Hd.
  exists s', ks. split_and!; try done. intros [Hm ->]%He. by apply made_calls.
Qed.

(** ** Two threads that log

    [ring_buffer_pop] split into its loads and its store of [tail], so that two
    consumers of the free queue interleave. *)

Definition pop_load {A} (rb : ring_buffer_t A) : option (option (option A * Z)) :=
  let tail := u32 (rb_tail rb) in
  let head := u32 (rb_head rb) in
  if tail =? head then Some None else
  buf ← rb_buffer rb;
  data ← arr_get buf tail;
  Some (Some (data, Z.land (u32 (tail + 1)) (rb_mask rb))).

Lemma pop_load_pop {A} (rb : ring_buffer_t A) :
  ring_buffer_pop rb =
  r ← pop_load rb;
  Some (match r with Some (data, next) => (set_tail rb next, data) | None => (rb, None) end).
Proof.
  unfold ring_buffer_pop, pop_load. destruct (_ =? _); [done|].
  destruct (rb_buffer rb) as [buf|]; [|done]. simpl. by destruct (arr_get buf _).
Qed.

Inductive log_pc :=
  | LIdle
  | LLoaded (c : log_call) (p : nat) (next : Z)   (* about to store [tail] *)
  | LTook (c : log_call) (p : nat)
  | LFilled (p : nat).

Inductive log_action := ActLog (c : log_call) | ActContinue | ActFlush.

Record log_threads := MkLogThreads {
  lt_queues : log_queues;
  lt_pcs : list log_pc;
  lt_file : string;
  lt_dropped : nat;
}.

(** [ActFlush] is one round of the loop of the logger thread. *)
Definition log_threads_step (s : log_threads) (tid : nat) (a : log_action) : option log_threads :=
  let '(MkLogThreads t pcs file dropped) := s in
  match a, pcs !! tid with
  | ActLog c, Some LIdle =>
    r ← pop_load (tq_free t);
    Some (match r with
          | Some (Some p, next) => MkLogThreads t (<[tid := LLoaded c p next]> pcs) file dropped
          | _ => MkLogThreads t pcs file (S dropped)
          end)
  | ActContinue, Some (LLoaded c p next) =>
    Some (MkLogThreads (MkTq (set_tail (tq_free t) next) (tq_filled t) (tq_pool t))
            (<[tid := LTook c p]> pcs) file dropped)
  | ActContinue, Some (LTook c p) =>
    t ← tq_write t p (call_entry c); Some (MkLogThreads t (<[tid := LFilled p]> pcs) file dropped)
  | ActContinue, Some (LFilled p) =>
    t ← tq_submit t p; Some (MkLogThreads t (<[tid := LIdle]> pcs) file dropped)
  | ActFlush, _ =>
    '(t, p) ← tq_next t;
    match p with
    | None => Some (MkLogThreads t pcs file dropped)
    | Some p =>
      e ← tq_pool t !! p;
      t ← tq_write t p clear_entry; t ← tq_recycle t p;
      Some (MkLogThreads t pcs (flush_entry e file) dropped)
    end
  | _, _ => Some s
  end.

Fixpoint log_threads_run (s : log_threads) (sched : list (nat * log_action)) : option log_threads :=
  match sched with
  | [] => Some s
  | (tid, a) :: sched => s ← log_threads_step s tid a; log_threads_run s sched
  end.

(** Threads 0 and 1 make one call each, both reading the free queue before either
    stores its [tail]; then the logger thread goes round twice. *)
Definition racing_calls (c1 c2 : log_call) : list (nat * log_action) :=
  [(0%nat, ActLog c1); (1%nat, ActLog c2); (0%nat, ActContinue); (1%nat, ActContinue);
   (0%nat, ActContinue); (1%nat, ActContinue); (0%nat, ActContinue); (1%nat, ActContinue);
   (2%nat, ActFlush); (2%nat, ActFlush)].

(** The logger takes one logging thread, but [EventPipeline::start] logs from
    the main thread while the I/O thread, already running, logs too: two calls
    that read the free queue at once get the same entry, so that the second
    overwrites the first; both calls have returned, both entries have been
    flushed and nothing counts as dropped, but only one line is in the file. *)
Theorem logger_two_threads_lose_line :
  let c1 := ((1700000000, 5), LOG_INFO, "[INFO]  EventPipeline started"%string) in
  let c2 := ((1700000000, 9), LOG_WARN, "[WARN]  Order 1 REJECTED"%string) in
  ∃ log s, logger_init (MkLoggerEnv true (Some ""%string) true true true true) ""
             (Some "trading.log"%string) 4 = Some log ∧
    log_threads_run (MkLogThreads (lg_queues log) [LIdle; LIdle] (lg_file log) 0)
      (racing_calls c1 c2) = Some s ∧
    lt_pcs s = [LIdle; LIdle] ∧ lt_dropped s = 0%nat ∧
    ring_buffer_empty (Some (tq_filled (lt_queues s))) = true ∧
    lt_file s = call_line c2.
Proof.
  intros c1 c2. eexists _, _. split; [vm_compute; reflexivity|].
  split; [vm_compute; reflexivity|]. split_and!; vm_compute; reflexivity.
Qed.

End logger_thread.

(** ** Witnesses *)

Definition ex_log_env : logger_env := MkLoggerEnv true (Some "old|"%string) true true true true.
Definition ex_calls : list log_call :=
  [((1, 5), LOG_INFO, "one"%string); ((2, 0), LOG_WARN, "two"%string)].
Definition ex_log : logger_t :=
  default (MkLogger (MkTq (RingBuffer 0 0 None 0 0) (RingBuffer 0 0 None 0 0) []) "" false false)
    (logger_init ex_log_env "" (Some "t.log"%string) 4).
Definition ex_sched : list actor :=
  [Writer; Reader; Writer; Writer; Reader; Writer; Writer; Writer; Reader].
Definition ex_logged : option handoff :=
  logger_run (λ _, "T"%string) (logger_start ex_log ex_calls) ex_sched.

Lemma logger_lines_in_order_witness :
  ∃ log s tried kept k,
    logger_init ex_log_env "" (Some "t.log"%string) 4 = Some log ∧
    logger_run (λ _, "T"%string) (logger_start log ex_calls) ex_sched = Some s ∧
    tried `prefix_of` ex_calls ∧ length (h_todo s) = (2 - length tried)%nat ∧
    kept `sublist_of` tried ∧ length tried = (length kept + h_dropped s)%nat ∧
    (k <= length kept <= k + 3)%nat ∧
    h_out s = lg_file log +:+ call_lines (λ _, "T"%string) (take k kept).
Proof.
  apply (logger_lines_in_order (λ _, "T"%string) ex_log_env "" (Some "t.log"%string) 4 ex_calls ex_sched);
    [reflexivity|lia].
Defined.

Lemma logger_shutdown_flushes_witness :
  ∃ s, ex_logged = Some s ∧
  (∃ s', logger_run (λ _, "T"%string) s (Stop :: replicate 10 Reader) = Some s' ∧
         h_reader s' = RExit) ∧
  ∃ s' kept, logger_run (λ _, "T"%string) s [Stop; Reader; Reader] = Some s' ∧
    kept `sublist_of` ex_calls ∧ 2%nat = (length kept + h_dropped s')%nat ∧
    (h_reader s' = RExit → h_out s' = lg_file ex_log +:+ call_lines (λ _, "T"%string) kept).
Proof.
  eexists. split; [vm_compute; reflexivity|].
  apply (logger_shutdown_flushes (λ _, "T"%string) ex_log_env "" (Some "t.log"%string) 4 ex_calls
    ex_sched ex_log); try done; lia.
Defined.
