(* ===== verification/DoubleBounds.v ===== *)
(** * Binary64 arithmetic: results are numbers of a bounded size

    Rounding in [SpecFloat] shifts a mantissa of [d] digits right until it fits
    53 digits or the smallest exponent, rounds, and shifts again if that made a
    digit more.  [fits k x] says that [x] is a number of the format (no infinity,
    no NaN) below [2 ^ k] in size; sums, differences, products and quotients of
    such numbers are such numbers again, for a [k] a little larger.  These bounds
    are crude, and enough to show that conversions to integers are defined and
    that no price of the program is a NaN. *)

From Stdlib Require Import Floats.SpecFloat.
From S2P Require Export Bytes.

Notation fexp64 := (fexp 53 1024).

Lemma fexp_eq x : fexp64 x = Z.max (x - 53) (-1074).
Proof. done. Qed.

(** ** Digits *)

Lemma digits2_pos_log2 p : Zpos (digits2_pos p) = Z.log2 (Zpos p) + 1.
Proof.
  induction p as [p IH|p IH|]; simpl digits2_pos; [| |done].
  - rewrite Pos2Z.inj_succ, IH, (Pos2Z.inj_xI p), Z.log2_succ_double by lia. lia.
  - rewrite Pos2Z.inj_succ, IH, (Pos2Z.inj_xO p), Z.log2_double by lia. lia.
Qed.

Lemma Zdigits2_pos m : 0 < m → Zdigits2 m = Z.log2 m + 1.
Proof. destruct m as [|p|p]; intros; try lia. apply digits2_pos_log2. Qed.

Lemma Zdigits2_le m k : 0 <= k → 0 <= m → Zdigits2 m <= k ↔ m < 2 ^ k.
Proof.
  intros Hk Hm. destruct (decide (m = 0)) as [->|]; [simpl; split; lia|].
  rewrite Zdigits2_pos by lia. rewrite Z.log2_lt_pow2 by lia. lia.
Qed.

Lemma Zdigits2_nonneg m : 0 <= m → 0 <= Zdigits2 m.
Proof. destruct m; simpl; lia. Qed.

Lemma Zdigits2_0 m : 0 <= m → Zdigits2 m = 0 → m = 0.
Proof. destruct m; simpl; lia. Qed.

Lemma Zdigits2_ge m k : 0 <= k → 0 <= m → k < Zdigits2 m ↔ 2 ^ k <= m.
Proof. intros Hk Hm. pose proof (Zdigits2_le m k Hk Hm). lia. Qed.

Lemma Zdigits2_div m n : 0 <= m → 0 <= n → Zdigits2 (m / 2 ^ n) = Z.max 0 (Zdigits2 m - n).
Proof.
  intros Hm Hn. destruct (decide (m = 0)) as [->|]; [rewrite Zdiv_0_l; simpl; lia|].
  pose proof (Zdigits2_pos m ltac:(lia)) as Hd. pose proof (Z.log2_nonneg m).
  assert (0 < 2 ^ n) by lia.
  destruct (Z.lt_ge_cases m (2 ^ n)) as [Hlt|Hge].
  - rewrite Z.div_small by lia. apply Z.log2_lt_pow2 in Hlt; [|lia].
    change (Zdigits2 0) with 0. lia.
  - assert (0 < m / 2 ^ n) by (apply Z.div_str_pos; lia).
    rewrite Zdigits2_pos, <- Z.shiftr_div_pow2, Z.log2_shiftr by lia.
    apply Z.log2_le_pow2 in Hge; lia.
Qed.

Lemma Zdigits2_mul_pow m n : 0 < m → 0 <= n → Zdigits2 (m * 2 ^ n) = Zdigits2 m + n.
Proof.
  intros Hm Hn. rewrite !Zdigits2_pos by nia. rewrite Z.log2_mul_pow2 by lia. lia.
Qed.

(** ** Shifting *)

Lemma shr_1_m r : 0 <= shr_m r → shr_m (shr_1 r) = shr_m r / 2.
Proof.
  destruct r as [m b s]. simpl. destruct m as [|[p|p|]|p]; simpl; intros; try done; try lia.
  - rewrite (Pos2Z.inj_xI p). apply (Z.div_unique _ _ _ 1); lia.
  - rewrite (Pos2Z.inj_xO p). apply (Z.div_unique _ _ _ 0); lia.
Qed.

Lemma iter_shr_1_m p r :
  0 <= shr_m r → shr_m (SpecFloat.iter_pos shr_1 p r) = shr_m r / 2 ^ Zpos p.
Proof.
  revert r. induction p as [p IH|p IH|]; intros r Hr; simpl.
  - assert (0 <= shr_m (shr_1 r)) by (rewrite shr_1_m by done; apply Z.div_pos; lia).
    assert (0 <= shr_m (SpecFloat.iter_pos shr_1 p (shr_1 r))) by (rewrite IH by done; apply Z.div_pos; lia).
    rewrite IH, IH, shr_1_m, !Z.div_div by lia.
    f_equal. rewrite (Pos2Z.inj_xI p), Z.pow_add_r, Z.pow_1_r by lia.
    replace (2 * Zpos p) with (Zpos p + Zpos p) by lia. rewrite Z.pow_add_r by lia. lia.
  - assert (0 <= shr_m (SpecFloat.iter_pos shr_1 p r)) by (rewrite IH by done; apply Z.div_pos; lia).
    rewrite IH, IH, Z.div_div by lia. f_equal. rewrite (Pos2Z.inj_xO p).
    replace (2 * Zpos p) with (Zpos p + Zpos p) by lia. rewrite Z.pow_add_r by lia. lia.
  - rewrite shr_1_m by done. done.
Qed.

Lemma shr_record_m m l : shr_m (shr_record_of_loc m l) = m.
Proof. by destruct l as [|[]]. Qed.

(** [shr_fexp] where it does not have to shift to the left. *)
Lemma shr_fexp_spec m e l :
  0 <= m → e <= fexp64 (Zdigits2 m + e) →
  let e' := fexp64 (Zdigits2 m + e) in
  (shr_fexp 53 1024 m e l).2 = e' ∧
  shr_m (shr_fexp 53 1024 m e l).1 = m / 2 ^ (e' - e).
Proof.
  intros Hm He e'. unfold shr_fexp. fold e'. unfold shr.
  destruct (e' - e) as [|p|p] eqn:En.
  - simpl. rewrite shr_record_m, Z.div_1_r. split; [lia|done].
  - simpl. rewrite iter_shr_1_m; rewrite shr_record_m; [|done]. split; [lia|done].
  - subst e'. lia.
Qed.

Lemma round_nearest_even_cases m l : round_nearest_even m l = m ∨ round_nearest_even m l = m + 1.
Proof. unfold round_nearest_even. repeat case_match; auto. Qed.

(** ** Rounding *)

Definition fits (k : Z) (x : double) : Prop :=
  match x with
  | S754_zero _ => True
  | S754_finite _ m e => valid_double x ∧ Zdigits2 (Zpos m) + e <= k
  | _ => False
  end.

#[export] Instance fits_dec k x : Decision (fits k x).
Proof. destruct x; apply _. Defined.

Lemma fits_valid k x : fits k x → valid_double x.
Proof. destruct x; simpl; tauto. Qed.

Lemma fits_not_nan k x : fits k x → is_nan x = false.
Proof. by destruct x. Qed.

Lemma fits_weaken k k' x : k <= k' → fits k x → fits k' x.
Proof. destruct x; simpl; intuition lia. Qed.

(** The mantissa and exponent after the first shift and the rounding. *)
Lemma rounded_mantissa m e l :
  0 <= m → e <= fexp64 (Zdigits2 m + e) →
  let mrs := (shr_fexp 53 1024 m e l).1 in
  let m2 := round_nearest_even (shr_m mrs) (loc_of_shr_record mrs) in
  let e1 := fexp64 (Zdigits2 m + e) in
  0 <= m2 <= 2 ^ 53 ∧ (e1 ≠ -1074 → 2 ^ 52 <= m2) ∧
  (m2 < 2 ^ 53 → Zdigits2 m2 + e1 <= Z.max (Zdigits2 m + e + 1) (-1073)) ∧
  (m2 = 2 ^ 53 → 53 + e1 <= Zdigits2 m + e).
Proof.
  intros Hm He. cbv zeta. destruct (shr_fexp_spec m e l Hm He) as [_ H1].
  set (mrs := (shr_fexp 53 1024 m e l).1) in *. set (m1 := shr_m mrs) in *.
  rewrite fexp_eq in *. set (d := Zdigits2 m) in *. set (e1 := Z.max _ _) in *.
  pose proof (Zdigits2_nonneg m Hm) as Hd0. fold d in Hd0.
  assert (Zdigits2 m1 = Z.max 0 (d - (e1 - e))) as Hd1.
  { rewrite H1. apply Zdigits2_div; lia. }
  assert (0 <= m1) as Hm1 by (rewrite H1; apply Z.div_pos; lia).
  assert (m1 < 2 ^ 53) as Hlt by (apply Zdigits2_le; lia).
  assert (∀ m2, m2 = m1 ∨ m2 = m1 + 1 → Zdigits2 m2 <= Zdigits2 m1 + 1) as Hup.
  { intros m2 Hm2. apply Zdigits2_le; [lia..|].
    assert (m1 < 2 ^ Zdigits2 m1) by (apply Zdigits2_le; lia).
    rewrite Z.pow_add_r by lia. lia. }
  destruct (round_nearest_even_cases m1 (loc_of_shr_record mrs)) as [E|E]; rewrite E.
  all: split; [lia|]; split;
    [intros Hne; assert (2 ^ 52 <= m1) by (apply Zdigits2_ge; lia); lia|];
    split; [|intros Hf; assert (2 ^ 52 <= m1) as Hge by lia; apply Zdigits2_ge in Hge; lia].
  - intros _. lia.
  - intros _. specialize (Hup (m1 + 1) ltac:(auto)). lia.
Qed.

Lemma binary_round_aux_fits k s m e l :
  0 <= m → e <= fexp64 (Zdigits2 m + e) → Zdigits2 m + e + 1 <= k → -1073 <= k <= 1024 →
  fits k (binary_round_aux 53 1024 s m e l).
Proof.
  intros Hm He Hk Hk2. unfold binary_round_aux.
  pose proof (rounded_mantissa m e l Hm He) as H. cbv zeta in H.
  destruct (shr_fexp_spec m e l Hm He) as [He1 _].
  destruct (shr_fexp 53 1024 m e l) as [mrs e1]. simpl in H, He1. subst e1.
  set (m2 := round_nearest_even _ _) in *. set (e1 := fexp64 (Zdigits2 m + e)) in *.
  destruct H as ((Hm2 & Hmax) & Hnorm & Hdig & Htop).
  assert (-1074 <= e1) as He1 by (unfold e1; rewrite fexp_eq; lia).
  destruct (decide (m2 = 2 ^ 53)) as [Heq|Hne].
  - rewrite Heq. specialize (Htop Heq).
    assert (fexp64 (Zdigits2 (2 ^ 53) + e1) = e1 + 1) as Hfe.
    { rewrite fexp_eq. change (Zdigits2 (2 ^ 53)) with 54. lia. }
    destruct (shr_fexp_spec (2 ^ 53) e1 loc_Exact) as [E2 M2]; [lia|rewrite Hfe; lia|].
    rewrite Hfe in E2, M2. replace (e1 + 1 - e1) with 1 in M2 by lia.
    destruct (shr_fexp 53 1024 (2 ^ 53) e1 loc_Exact) as [mrs2 e2]. cbn [fst snd] in E2, M2.
    rewrite M2, E2. change (2 ^ 53 / 2 ^ 1) with 4503599627370496. cbn [Z.sub].
    rewrite (proj2 (Z.leb_le (e1 + 1) _)) by lia. simpl. lia.
  - specialize (Hdig ltac:(lia)).
    assert (Zdigits2 m2 <= 53) as Hd2 by (apply Zdigits2_le; lia).
    assert (fexp64 (Zdigits2 m2 + e1) = e1) as Hfe.
    { rewrite fexp_eq. destruct (decide (e1 = -1074)) as [->|Hn]; [lia|].
      specialize (Hnorm Hn). apply Zdigits2_ge in Hnorm; lia. }
    destruct (shr_fexp_spec m2 e1 loc_Exact) as [E2 M2]; [lia|rewrite Hfe; lia|].
    rewrite Hfe, Z.sub_diag, Z.div_1_r in M2. rewrite Hfe in E2.
    destruct (shr_fexp 53 1024 m2 e1 loc_Exact) as [mrs2 e2]. cbn [fst snd] in E2, M2.
    rewrite M2, E2. clearbody m2. destruct m2 as [|p|p]; [done| |lia].
    assert (Zpos p < 2 ^ 52 → e1 = -1074) as Hsub.
    { intros Hlt. destruct (decide (e1 = -1074)) as [|Hn]; [done|]. specialize (Hnorm Hn). lia. }
    assert (2 ^ 52 <= Zpos p → e1 <= 971) as Hhi.
    { intros Hge. apply Zdigits2_ge in Hge; lia. }
    rewrite (proj2 (Z.leb_le e1 _)).
    + split; [|simpl Zdigits2 in *; lia]. simpl.
      destruct (Z.lt_ge_cases (Zpos p) (2 ^ 52)) as [Hlt|Hge].
      * left. split; [done|]. by apply Hsub.
      * right. split; [lia|]. split; [lia|]. by apply Hhi.
    + destruct (Z.lt_ge_cases (Zpos p) (2 ^ 52)) as [Hlt|Hge].
      * rewrite Hsub by done. lia.
      * specialize (Hhi Hge). lia.
Qed.

(** ** The operations *)

#[local] Arguments Zdigits2 : simpl never.

Lemma iter_xO p n : Zpos (Pos.iter xO p n) = Zpos p * 2 ^ Zpos n.
Proof.
  induction n as [|n IH] using Pos.peano_ind; [simpl Pos.iter; lia|].
  rewrite Pos.iter_succ, (Pos2Z.inj_xO (Pos.iter xO p n)), IH, Pos2Z.inj_succ, Z.pow_succ_r by lia. lia.
Qed.

Lemma shl_align_spec m e e' :
  Zpos (shl_align m e e').1 = Zpos m * 2 ^ Z.max 0 (e - e') ∧ (shl_align m e e').2 = Z.min e e'.
Proof.
  unfold shl_align. destruct (e' - e) as [|p|p] eqn:E; cbn [fst snd].
  - rewrite Z.max_l, Z.mul_1_r by lia. lia.
  - rewrite Z.max_l, Z.mul_1_r by lia. lia.
  - rewrite iter_xO. replace (Z.max 0 (e - e')) with (Zpos p) by lia. lia.
Qed.

Lemma binary_round_fits k s p e :
  Zdigits2 (Zpos p) + e + 1 <= k → -1073 <= k <= 1024 → fits k (binary_round 53 1024 s p e).
Proof.
  intros Hd Hk. unfold binary_round. change (Zpos (digits2_pos p)) with (Zdigits2 (Zpos p)).
  destruct (shl_align_spec p e (fexp64 (Zdigits2 (Zpos p) + e))) as [Hm He].
  destruct (shl_align _ _ _) as [mz ez]. cbn [fst snd] in Hm, He.
  assert (Zdigits2 (Zpos mz) + ez = Zdigits2 (Zpos p) + e) as Hsum.
  { rewrite Hm, He, Zdigits2_mul_pow by lia. lia. }
  apply binary_round_aux_fits; rewrite ?Hsum; try done; lia.
Qed.

Lemma binary_normalize_fits k m e s :
  Zdigits2 (Z.abs m) + e + 1 <= k → -1073 <= k <= 1024 →
  fits k (binary_normalize 53 1024 m e s).
Proof. destruct m as [|p|p]; intros; [done|..]; by apply binary_round_fits. Qed.

Lemma of_Z_fits k n : Zdigits2 (Z.abs n) + 1 <= k → k <= 1024 → fits k (d_of_Z n).
Proof.
  intros. pose proof (Zdigits2_nonneg (Z.abs n) ltac:(lia)). apply binary_normalize_fits; lia.
Qed.

(** A sum of aligned mantissas. *)
Lemma aligned_digits a m1 e1 m2 e2 (b1 b2 : bool) :
  Zdigits2 (Zpos m1) + e1 <= a → Zdigits2 (Zpos m2) + e2 <= a →
  let ez := Z.min e1 e2 in
  Zdigits2 (Z.abs ((if b1 then - Zpos (shl_align m1 e1 ez).1 else Zpos (shl_align m1 e1 ez).1) +
                   (if b2 then - Zpos (shl_align m2 e2 ez).1 else Zpos (shl_align m2 e2 ez).1)))
  + ez <= a + 1.
Proof.
  intros H1 H2 ez.
  destruct (shl_align_spec m1 e1 ez) as [-> _], (shl_align_spec m2 e2 ez) as [-> _].
  assert (∀ m e, Zdigits2 (Zpos m) + e <= a → ez <= e →
    0 < a - ez ∧ 0 < Zpos m * 2 ^ Z.max 0 (e - ez) < 2 ^ (a - ez)) as Hb.
  { intros m e Hm He. pose proof (Zdigits2_mul_pow (Zpos m) (Z.max 0 (e - ez)) ltac:(lia) ltac:(lia)) as Hd.
    assert (0 < Zdigits2 (Zpos m)) by done. split; [lia|]. split; [lia|].
    apply Zdigits2_le; lia. }
  destruct (Hb m1 e1 H1 ltac:(lia)) as [Ha B1], (Hb m2 e2 H2 ltac:(lia)) as [_ B2].
  set (x := Zpos m1 * _) in *. set (y := Zpos m2 * _) in *.
  assert (Z.abs ((if b1 then - x else x) + (if b2 then - y else y)) < 2 ^ (a - ez + 1)).
  { rewrite Z.pow_add_r by lia. destruct b1, b2; lia. }
  assert (Zdigits2 (Z.abs ((if b1 then - x else x) + (if b2 then - y else y))) <= a - ez + 1);
    [apply Zdigits2_le; lia|lia].
Qed.

Lemma d_add_fits a b k x y :
  fits a x → fits b y → Z.max a b + 2 <= k → -1073 <= k <= 1024 → fits k (d_add x y).
Proof.
  destruct x as [sx| | |sx mx ex], y as [sy| | |sy my ey]; simpl; try done; intros Hx Hy Hk Hk2.
  - by destruct sx, sy.
  - intuition lia.
  - intuition lia.
  - destruct Hx as [_ Hx], Hy as [_ Hy]. apply binary_normalize_fits; [|done].
    pose proof (aligned_digits (Z.max a b) mx ex my ey sx sy ltac:(lia) ltac:(lia)) as H.
    cbv zeta in H. unfold cond_Zopp. set (D := Zdigits2 (Z.abs _)) in *. lia.
Qed.

Lemma d_sub_fits a b k x y :
  fits a x → fits b y → Z.max a b + 2 <= k → -1073 <= k <= 1024 → fits k (d_sub x y).
Proof.
  destruct x as [sx| | |sx mx ex], y as [sy| | |sy my ey]; simpl; try done; intros Hx Hy Hk Hk2.
  - by destruct sx, sy.
  - intuition lia.
  - intuition lia.
  - destruct Hx as [_ Hx], Hy as [_ Hy]. apply binary_normalize_fits; [|done].
    pose proof (aligned_digits (Z.max a b) mx ex my ey sx (negb sy) ltac:(lia) ltac:(lia)) as H.
    cbv zeta in H. unfold cond_Zopp. set (X := if sx then _ else _) in *.
    assert (∀ z, X - (if sy then - z else z) = X + (if negb sy then - z else z)) as ->
      by (intros z; destruct sy; simpl; lia).
    set (D := Zdigits2 (Z.abs _)) in *. lia.
Qed.

(** What a finite number of the format says about its digits. *)
Lemma valid_digits s m e :
  valid_double (S754_finite s m e) →
  -1074 <= e <= 971 ∧ (e ≠ -1074 → Zdigits2 (Zpos m) = 53).
Proof.
  simpl. intros [[Hm ->]|[[Hlo Hhi] He]]; [lia|]. split; [lia|]. intros _.
  apply Zdigits2_ge in Hlo; [|lia..]. apply Zdigits2_le in Hhi; lia.
Qed.

Lemma Zdigits2_mul_bounds a b :
  0 < a → 0 < b → Zdigits2 a + Zdigits2 b - 1 <= Zdigits2 (a * b) <= Zdigits2 a + Zdigits2 b.
Proof.
  intros Ha Hb. rewrite !Zdigits2_pos by nia.
  pose proof (Z.log2_mul_below a b Ha Hb). pose proof (Z.log2_mul_above a b ltac:(lia) ltac:(lia)). lia.
Qed.

Lemma d_mul_fits a b k x y :
  fits a x → fits b y → a + b + 1 <= k → -1073 <= k <= 1024 → fits k (d_mul x y).
Proof.
  destruct x as [sx| | |sx mx ex], y as [sy| | |sy my ey]; try done; intros Hx Hy Hk Hk2.
  destruct Hx as [Vx Hx], Hy as [Vy Hy].
  destruct (valid_digits _ _ _ Vx) as [Ex Dx], (valid_digits _ _ _ Vy) as [Ey Dy].
  pose proof (Zdigits2_mul_bounds (Zpos mx) (Zpos my) ltac:(lia) ltac:(lia)) as Hd.
  rewrite <- Pos2Z.inj_mul in Hd. assert (0 < Zdigits2 (Zpos mx)) by done.
  assert (0 < Zdigits2 (Zpos my)) by done.
  unfold d_mul, SFmul. apply binary_round_aux_fits; [lia| |lia|done].
  rewrite fexp_eq. destruct (decide (ex = -1074)), (decide (ey = -1074)); lia.
Qed.

(** Division by a number not below [2 ^ (c - 1)] in size. *)
Lemma d_div_fits a c k x sy my ey :
  fits a x → c <= Zdigits2 (Zpos my) + ey → a - c + 2 <= k → -1073 <= k <= 1024 →
  fits k (d_div x (S754_finite sy my ey)).
Proof.
  destruct x as [sx| | |sx mx ex]; try done; intros Hx Hy Hk Hk2. destruct Hx as [_ Hx].
  unfold d_div, SFdiv, SFdiv_core_binary.
  set (d1 := Zdigits2 (Zpos mx)) in *. set (d2 := Zdigits2 (Zpos my)) in *.
  set (e' := Z.min _ _). set (s := ex - ey - e').
  assert (0 <= s) as Hs by (unfold s, e'; lia).
  set (m' := match s with Z0 => _ | Zpos _ => _ | Zneg _ => _ end).
  assert (m' = Zpos mx * 2 ^ s) as Hm'.
  { unfold m'. rewrite <- Z.shiftl_mul_pow2 by done. clearbody s.
    destruct s; [by rewrite Z.shiftl_0_r|done|lia]. }
  assert (0 < m') as Hpos by nia.
  assert (Zdigits2 m' = d1 + s) as Hd by (rewrite Hm'; by apply Zdigits2_mul_pow).
  pose proof (Z.div_mod m' (Zpos my) ltac:(lia)) as Hdm.
  pose proof (Z.mod_pos_bound m' (Zpos my) ltac:(lia)) as Hmb.
  unfold Z.div, Z.modulo in Hdm, Hmb. destruct (Z.div_eucl m' (Zpos my)) as [q r].
  assert (0 <= q) as Hq by nia.
  assert (Zdigits2 q <= Z.max 0 (d1 + s - d2 + 1) ∧ d1 + s - d2 <= Zdigits2 q) as [Hq1 Hq2].
  { assert (0 < d2) by done. assert (0 < d1) by done. destruct (decide (q = 0)) as [->|Hq0].
    - assert (m' < Zpos my) by lia.
      assert (m' < 2 ^ d2). { assert (Zpos my < 2 ^ d2) by (apply Zdigits2_le; lia). lia. }
      assert (Zdigits2 m' <= d2) by (apply Zdigits2_le; lia).
      change (Zdigits2 0) with 0. lia.
    - pose proof (Zdigits2_mul_bounds (Zpos my) q ltac:(lia) ltac:(lia)) as [Hlo Hhi]. fold d2 in Hlo, Hhi.
      assert (Zdigits2 (Zpos my * q) <= Zdigits2 m').
      { apply Zdigits2_le; [lia|lia|]. assert (m' < 2 ^ Zdigits2 m') by (apply Zdigits2_le; lia). lia. }
      assert (m' < 2 ^ (d2 + Zdigits2 q)).
      { assert (Zpos my < 2 ^ d2) by (apply Zdigits2_le; lia).
        pose proof (Zdigits2_nonneg q Hq). assert (q < 2 ^ Zdigits2 q) by (apply Zdigits2_le; lia).
        rewrite Z.pow_add_r by lia. nia. }
      assert (Zdigits2 m' <= d2 + Zdigits2 q)
        by (pose proof (Zdigits2_nonneg q Hq); apply Zdigits2_le; lia).
      lia. }
  apply binary_round_aux_fits; [done| | |done].
  - rewrite fexp_eq. unfold s, e' in *. rewrite fexp_eq in *. lia.
  - unfold s, e' in *. rewrite fexp_eq in *. lia.
Qed.
