(* ===== verification/FeedHandler.v ===== *)
(** * The feed handler (include/feed_handler.h, src/feed_handler.c): definitions

    A message lives in an object of the pool; [fh_objects] is the memory behind
    the pool, from the address of an object to the message in it, and the output
    queue carries addresses.  One round of the receive thread is one definition
    per mode, [sim_round] and [udp_datagram], which the loops of
    [recv_thread_func] repeat; the clock readings, the datagrams and the results
    of the system calls are arguments.  A [None] result is undefined behaviour. *)

From S2P Require Export RingBuffer MemoryPool Bytes.

Definition FEED_MAX_SYMBOL : nat := 16.
Definition FEED_MAX_MSG_SIZE : Z := 256.

Record feed_msg_t := MkFeedMsg {
  fm_timestamp_ns : Z;
  fm_bid_price : double;
  fm_ask_price : double;
  fm_last_price : double;
  fm_bid_size : Z;
  fm_ask_size : Z;
  fm_last_size : Z;
  fm_volume : Z;
  fm_symbol : string;
}.

Definition FEED_MSG_SIZE : Z := 64.

Record feed_config_t := MkFeedConfig {
  fc_listen_addr : string;
  fc_listen_port : Z;
  fc_simulation_mode : bool;
  fc_sim_interval_us : Z;
  fc_output_queue_size : Z;
  fc_symbol : string;
}.

Record feed_handler_t := MkFeed {
  fh_config : feed_config_t;
  fh_output_queue : ring_buffer_t Z;
  fh_msg_pool : mempool_t;
  fh_objects : gmap Z feed_msg_t;
  fh_running : bool;
  fh_sockfd : Z;
  fh_msgs_received : Z;
  fh_msgs_dropped : Z;
  fh_bytes_received : Z;
  fh_sim_base_price : double;
  fh_prng_state : Z;
}.

Definition fh_set_queue (fh : feed_handler_t) q : feed_handler_t :=
  MkFeed (fh_config fh) q (fh_msg_pool fh) (fh_objects fh) (fh_running fh) (fh_sockfd fh)
    (fh_msgs_received fh) (fh_msgs_dropped fh) (fh_bytes_received fh) (fh_sim_base_price fh)
    (fh_prng_state fh).
Definition fh_set_pool (fh : feed_handler_t) mp : feed_handler_t :=
  MkFeed (fh_config fh) (fh_output_queue fh) mp (fh_objects fh) (fh_running fh) (fh_sockfd fh)
    (fh_msgs_received fh) (fh_msgs_dropped fh) (fh_bytes_received fh) (fh_sim_base_price fh)
    (fh_prng_state fh).
Definition fh_store (fh : feed_handler_t) (p : Z) (msg : feed_msg_t) : feed_handler_t :=
  MkFeed (fh_config fh) (fh_output_queue fh) (fh_msg_pool fh) (<[p := msg]> (fh_objects fh))
    (fh_running fh) (fh_sockfd fh) (fh_msgs_received fh) (fh_msgs_dropped fh)
    (fh_bytes_received fh) (fh_sim_base_price fh) (fh_prng_state fh).
Definition fh_set_running (fh : feed_handler_t) b : feed_handler_t :=
  MkFeed (fh_config fh) (fh_output_queue fh) (fh_msg_pool fh) (fh_objects fh) b (fh_sockfd fh)
    (fh_msgs_received fh) (fh_msgs_dropped fh) (fh_bytes_received fh) (fh_sim_base_price fh)
    (fh_prng_state fh).
Definition fh_set_sim (fh : feed_handler_t) price prng : feed_handler_t :=
  MkFeed (fh_config fh) (fh_output_queue fh) (fh_msg_pool fh) (fh_objects fh) (fh_running fh)
    (fh_sockfd fh) (fh_msgs_received fh) (fh_msgs_dropped fh) (fh_bytes_received fh) price prng.

(** [__atomic_fetch_add] on the three statistics. *)
Definition fh_count (fh : feed_handler_t) (received dropped bytes : Z) : feed_handler_t :=
  MkFeed (fh_config fh) (fh_output_queue fh) (fh_msg_pool fh) (fh_objects fh) (fh_running fh)
    (fh_sockfd fh) (u64 (fh_msgs_received fh + received)) (u64 (fh_msgs_dropped fh + dropped))
    (u64 (fh_bytes_received fh + bytes)) (fh_sim_base_price fh) (fh_prng_state fh).

(** ** The simulated feed *)

Definition xorshift32 (x : Z) : Z :=
  let x := Z.lxor x (u32 (Z.shiftl x 13)) in
  let x := Z.lxor x (Z.shiftr x 17) in
  Z.lxor x (u32 (Z.shiftl x 5)).

(** The double made of a state of the generator. *)
Definition unit_double (x : Z) : double :=
  d_div (d_of_Z (Z.land x 0xFFFFFF)) (d_of_Z 0x1000000).

Definition rand_double (fh : feed_handler_t) : feed_handler_t * double :=
  let x := xorshift32 (fh_prng_state fh) in
  (fh_set_sim fh (fh_sim_base_price fh) x, unit_double x).

(** [(int32_t)x]: the fraction is cut off; undefined out of range. *)
Definition int32_of_double (x : double) : option Z :=
  let in_range z := if decide (is_i32 z) then Some z else None in
  match x with
  | SpecFloat.S754_zero _ => Some 0
  | SpecFloat.S754_finite s m e =>
    let n := if 0 <=? e then Zpos m * 2 ^ e else Zpos m / 2 ^ (- e) in
    in_range (if s then - n else n)
  | _ => None
  end.

Definition walk (base noise : double) : double :=
  let base := d_add base noise in
  let base := if d_lt base (d_of_Z 10) then d_of_Z 10 else base in
  if d_lt (d_of_Z 1000) base then d_of_Z 1000 else base.

(** [(int32_t)(low + rand_double(fh) * range)] *)
Definition random_size (low range : Z) (fh : feed_handler_t) : option (feed_handler_t * Z) :=
  let '(fh, r) := rand_double fh in
  z ← int32_of_double (d_add (d_of_Z low) (d_mul r (d_of_Z range))); Some (fh, z).

Definition feed_now_nanos (ts : Z * Z) : Z := u64 (u64 (u64 ts.1 * 1000000000) + u64 ts.2).

Definition simulate_message (fh : feed_handler_t) (ts : Z * Z)
    : option (feed_handler_t * feed_msg_t) :=
  let '(fh, r) := rand_double fh in
  let noise := d_mul (d_sub r (d_lit 5 1)) (d_lit 2 2) in
  let fh := fh_set_sim fh (walk (fh_sim_base_price fh) noise) (fh_prng_state fh) in
  let base := fh_sim_base_price fh in
  let '(fh, r) := rand_double fh in
  let spread_pct := d_add (d_lit 1 4) (d_mul r (d_lit 5 4)) in
  let half := d_div spread_pct (d_of_Z 2) in
  '(fh, bid_size) ← random_size 100 9900 fh;
  '(fh, ask_size) ← random_size 100 9900 fh;
  '(fh, last_size) ← random_size 10 990 fh;
  '(fh, volume) ← random_size 10000 990000 fh;
  Some (fh, {|
    fm_timestamp_ns := feed_now_nanos ts;
    fm_bid_price := d_mul base (d_sub (d_of_Z 1) half);
    fm_ask_price := d_mul base (d_add (d_of_Z 1) half);
    fm_last_price := base;
    fm_bid_size := bid_size;
    fm_ask_size := ask_size;
    fm_last_size := last_size;
    fm_volume := volume;
    fm_symbol := strn 15 (if bool_decide (strn 16 (fc_symbol (fh_config fh)) = "") then "AAPL"
                          else fc_symbol (fh_config fh));
  |}).

(** Hand the filled object at [p] to the consumer, or take it back. *)
Definition publish (fh : feed_handler_t) (p : Z) (bytes : Z) : option feed_handler_t :=
  '(q, ok) ← ring_buffer_push (fh_output_queue fh) (Some p);
  let fh := fh_set_queue fh q in
  if negb ok then
    mp ← mempool_free (fh_msg_pool fh) p;
    Some (fh_count (fh_set_pool fh mp) 0 1 0)
  else Some (fh_count fh 1 0 bytes).

Definition sim_round (fh : feed_handler_t) (ts : Z * Z) : option feed_handler_t :=
  '(mp, p) ← mempool_alloc (fh_msg_pool fh);
  let fh := fh_set_pool fh mp in
  if p =? 0 then Some (fh_count fh 0 1 0) else
  '(fh, msg) ← simulate_message fh ts;
  publish (fh_store fh p msg) p FEED_MSG_SIZE.

(** ** The network feed *)

(** What the bytes of a [feed_msg_t] mean. *)
Definition decode_msg (b : list Z) : feed_msg_t :=
  let int off := i32 (le_val (take 4 (drop off b))) in
  let dbl off := double_of_bits (le_val (take 8 (drop off b))) in
  {| fm_timestamp_ns := le_val (take 8 b);
     fm_bid_price := dbl 8%nat; fm_ask_price := dbl 16%nat; fm_last_price := dbl 24%nat;
     fm_bid_size := int 32%nat; fm_ask_size := int 36%nat;
     fm_last_size := int 40%nat; fm_volume := int 44%nat;
     fm_symbol := string_of_bytes (take 16 (drop 48 b)) |}.

(** One readable event: [recv] cuts a datagram to the size of the buffer. *)
Definition udp_datagram (fh : feed_handler_t) (datagram : list Z) : option feed_handler_t :=
  let raw := take (Z.to_nat FEED_MAX_MSG_SIZE) datagram in
  let len := Z.of_nat (length raw) in
  if len <=? 0 then Some fh else
  let fh := fh_count fh 0 0 len in
  if len <? FEED_MSG_SIZE then Some fh else
  '(mp, p) ← mempool_alloc (fh_msg_pool fh);
  let fh := fh_set_pool fh mp in
  if p =? 0 then Some (fh_count fh 0 1 0) else
  publish (fh_store fh p (decode_msg raw)) p 0.

(** ** The receive thread *)

(** What [sleep_us] passes to [nanosleep]: seconds and nanoseconds. *)
Definition sleep_us (us : Z) : Z * Z := (us / 1000000, us mod 1000000 * 1000).

(** The rounds of the simulated feed, with the time of each. *)
Fixpoint sim_loop (fh : feed_handler_t) (rounds : list (Z * Z)) : option feed_handler_t :=
  match rounds with [] => Some fh | ts :: rounds => fh ← sim_round fh ts; sim_loop fh rounds end.

(** An event of [epoll_wait]: is [EPOLLIN] set, and what [recv] then returns (a
    failed [recv] is the empty datagram: neither is looked at further). *)
Definition epoll_event : Type := bool * list Z.

Fixpoint epoll_events (fh : feed_handler_t) (events : list epoll_event) : option feed_handler_t :=
  match events with
  | [] => Some fh
  | (readable, datagram) :: events =>
    fh ← (if readable : bool then udp_datagram fh datagram else Some fh); epoll_events fh events
  end.

(** The results of [epoll_wait], one list per call: at most 64 events, none on a
    timeout or an error. *)
Fixpoint epoll_loop (fh : feed_handler_t) (waits : list (list epoll_event)) : option feed_handler_t :=
  match waits with
  | [] => Some fh
  | events :: waits => fh ← epoll_events fh (take 64 events); epoll_loop fh waits
  end.

(** What a run of [recv_thread_func] meets until [running] is cleared. *)
Record recv_env := MkRecvEnv {
  re_rounds : list (Z * Z);
  re_epoll_create : bool;
  re_epoll_ctl : bool;
  re_waits : list (list epoll_event);
}.

Definition recv_thread_func (env : recv_env) (fh : feed_handler_t) : option feed_handler_t :=
  if fc_simulation_mode (fh_config fh) then
    sim_loop (fh_set_sim fh (d_of_Z 150) (fh_prng_state fh)) (re_rounds env)
  else if negb (re_epoll_create env) then Some fh
  else if negb (re_epoll_ctl env) then Some fh
  else epoll_loop fh (re_waits env).

(** ** The handle *)

Record feed_env := MkFeedEnv {
  fe_handle : Z;             (* [calloc]: the address of the handle, 0 on failure *)
  fe_queue : bool;           (* [calloc] in [ring_buffer_init] *)
  fe_pool : Z;               (* the block of the pool *)
  fe_free_list : bool;
  fe_socket : Z;
  fe_inet_pton : bool;
  fe_bind : bool;
}.

(** The receive thread sets [sim_base_price] when it starts. *)
Definition feed_init (env : feed_env) (config : option feed_config_t) : option feed_handler_t :=
  config ← config;
  if fe_handle env =? 0 then None else
  match ring_buffer_init (fe_queue env) (Some (RingBuffer 0 0 None 0 0))
          (fc_output_queue_size config) with
  | (Some queue, 0) =>
    match mempool_init (fe_pool env) (fe_free_list env) (Some (Mempool 0 0 0 0 []))
            FEED_MSG_SIZE (fc_output_queue_size config) with
    | (Some pool, 0) =>
      let prng := u32 (2463534242 + u32 (fe_handle env)) in
      let fh := MkFeed config queue pool ∅ false 0 0 0 0 d_zero prng in
      if negb (fc_simulation_mode config) then
        if fe_socket env <? 0 then None
        else if negb (fe_inet_pton env) then None
        else if negb (fe_bind env) then None
        else Some (MkFeed config queue pool ∅ false (fe_socket env) 0 0 0 d_zero prng)
      else Some fh
    | _ => None
    end
  | _ => None
  end.

Definition feed_start (thread_ok : bool) (fh : option feed_handler_t)
    : option feed_handler_t * Z :=
  match fh with
  | None => (None, -1)
  | Some fh => if thread_ok then (Some (fh_set_running fh true), 0)
               else (Some (fh_set_running (fh_set_running fh true) false), -1)
  end.

(** What [recv_thread_func] does before its loop. *)
Definition feed_thread_start (fh : feed_handler_t) : feed_handler_t :=
  if fc_simulation_mode (fh_config fh)
  then fh_set_sim fh (d_of_Z 150) (fh_prng_state fh) else fh.

Definition feed_stop (fh : option feed_handler_t) : option feed_handler_t :=
  fh ← fh; Some (fh_set_running fh false).

(** The loop of [feed_destroy]; the queue has fewer than [fuel] elements. *)
Fixpoint feed_drain (fuel : nat) (fh : feed_handler_t) : option feed_handler_t :=
  match fuel with
  | O => Some fh
  | S fuel =>
    '(q, msg) ← ring_buffer_pop (fh_output_queue fh);
    match msg with
    | None => Some (fh_set_queue fh q)
    | Some p =>
      mp ← mempool_free (fh_msg_pool fh) p;
      feed_drain fuel (fh_set_pool (fh_set_queue fh q) mp)
    end
  end.

Definition feed_get_output_queue (fh : option feed_handler_t) : option (ring_buffer_t Z) :=
  fh_output_queue <$> fh.

(** The consumer takes a message from the output queue. *)
Definition feed_pop (fh : feed_handler_t) : option (feed_handler_t * option Z) :=
  '(q, p) ← ring_buffer_pop (fh_output_queue fh); Some (fh_set_queue fh q, p).

Definition feed_return_msg (fh : option feed_handler_t) (msg : option Z)
    : option (option feed_handler_t) :=
  match fh, msg with
  | Some fh, Some p => mp ← mempool_free (fh_msg_pool fh) p; Some (Some (fh_set_pool fh mp))
  | _, _ => Some fh
  end.

Definition feed_get_stats (fh : feed_handler_t) : Z * Z * Z :=
  (fh_msgs_received fh, fh_msgs_dropped fh, fh_bytes_received fh).

(** Drain the queue into the pool, then free everything. *)
Definition feed_destroy (fh : option feed_handler_t) : option (option feed_handler_t) :=
  match fh with
  | None => Some None
  | Some fh =>
    fh ← feed_drain (Z.to_nat (rb_capacity (fh_output_queue fh))) fh;
    Some (Some (fh_set_pool (fh_set_queue fh
            (default (fh_output_queue fh) (ring_buffer_destroy (Some (fh_output_queue fh)))))
            (default (fh_msg_pool fh) (mempool_destroy (Some (fh_msg_pool fh))))))
  end.
