(* ===== verification/FeedProps.v ===== *)
(** * The feed handler: its properties

    The generator is a permutation that never reaches 0, and the numbers of a
    simulated message are in range: the casts from [double] are never undefined,
    the prices are finite and bounded, and what is simulated is a function of the
    state of the generator.  FeedQueue.v has the runs of the whole handler. *)

From Stdlib Require Import Floats.SpecFloat.
From S2P Require Export FeedHandler DoubleBounds.

(** ** The generator: a permutation of the words, with 0 as a fixed point *)

Definition shift_left (a x : Z) : Z := Z.lxor x (u32 (Z.shiftl x a)).
Definition shift_right (a x : Z) : Z := Z.lxor x (Z.shiftr x a).

Lemma u32_testbit x i : 0 <= i → Z.testbit (u32 x) i = (i <? 32) && Z.testbit x i.
Proof.
  intros Hi. unfold u32. destruct (Z.ltb_spec i 32).
  - by rewrite Z.mod_pow2_bits_low by lia.
  - by rewrite Z.mod_pow2_bits_high by lia.
Qed.

Lemma shift_left_testbit a x i :
  0 <= i → Z.testbit (shift_left a x) i =
    xorb (Z.testbit x i) ((i <? 32) && Z.testbit x (i - a)).
Proof.
  intros Hi. unfold shift_left.
  by rewrite Z.lxor_spec, u32_testbit, Z.shiftl_spec by lia.
Qed.

Lemma u32_bits_high x i : is_u32 x → 32 <= i → Z.testbit x i = false.
Proof.
  intros Hx Hi. rewrite <- (u32_id x Hx), u32_testbit by lia.
  by rewrite (proj2 (Z.ltb_ge _ _)) by lia.
Qed.

Lemma shift_left_inj a x y :
  0 < a → is_u32 x → is_u32 y → shift_left a x = shift_left a y → x = y.
Proof.
  intros Ha Hx Hy He. apply Z.bits_inj'. intros i Hi.
  assert (∀ n j, 0 <= j < Z.of_nat n → Z.testbit x j = Z.testbit y j) as H.
  { induction n as [|n IH]; [lia|]. intros j Hj.
    pose proof (f_equal (λ z, Z.testbit z j) He) as Hb. simpl in Hb.
    rewrite !shift_left_testbit in Hb by lia.
    destruct (decide (j < a)).
    - rewrite !(Z.testbit_neg_r _ (j - a)), !andb_false_r, !xorb_false_r in Hb by lia. done.
    - rewrite (IH (j - a)) in Hb by lia. by apply xorb_eq_r in Hb || (revert Hb;
        destruct (Z.testbit x j), (Z.testbit y j), ((j <? 32) && _)). }
  apply (H (S (Z.to_nat i))). lia.
Qed.

Lemma shift_right_inj a x y :
  0 < a → is_u32 x → is_u32 y → shift_right a x = shift_right a y → x = y.
Proof.
  intros Ha Hx Hy He. apply Z.bits_inj'. intros i Hi.
  assert (∀ n j, 0 <= j → 32 - Z.of_nat n <= j → Z.testbit x j = Z.testbit y j) as H.
  { induction n as [|n IH]; intros j Hj Hn; [by rewrite !u32_bits_high by (done || lia)|].
    pose proof (f_equal (λ z, Z.testbit z j) He) as Hb. unfold shift_right in Hb. simpl in Hb.
    rewrite !Z.lxor_spec, !Z.shiftr_spec in Hb by lia. rewrite (IH (j + a)) in Hb by lia.
    revert Hb. by destruct (Z.testbit x j), (Z.testbit y j), (Z.testbit y (j + a)). }
  apply (H 32%nat); lia.
Qed.

Lemma shift_left_u32 a x : is_u32 x → is_u32 (shift_left a x).
Proof. intros Hx. apply lxor_u32; [done|apply u32_range]. Qed.

Lemma shift_right_u32 a x : 0 <= a → is_u32 x → is_u32 (shift_right a x).
Proof.
  intros Ha Hx. apply lxor_u32; [done|]. unfold is_u32 in *. rewrite Z.shiftr_div_pow2 by done.
  split; [apply Z.div_pos; lia|]. apply Z.le_lt_trans with x; [|lia].
  apply Z.div_le_upper_bound; nia.
Qed.

Lemma xorshift32_shifts x : xorshift32 x = shift_left 5 (shift_right 17 (shift_left 13 x)).
Proof. done. Qed.

Lemma xorshift32_u32 x : is_u32 x → is_u32 (xorshift32 x).
Proof.
  intros Hx. rewrite xorshift32_shifts.
  by apply shift_left_u32, shift_right_u32, shift_left_u32.
Qed.

Lemma xorshift32_inj x y : is_u32 x → is_u32 y → xorshift32 x = xorshift32 y → x = y.
Proof.
  intros Hx Hy. rewrite !xorshift32_shifts. intros He.
  apply shift_left_inj in He; [|lia|by apply shift_right_u32, shift_left_u32..].
  apply shift_right_inj in He; [|lia|by apply shift_left_u32..].
  by apply shift_left_inj in He.
Qed.

(** The seed of the simulated feed is not 0 for any handle a [calloc] can
    return (a multiple of 4), so the generator never reaches its fixed point 0:
    after any number of draws the state is a nonzero 32-bit word, and it is a
    bijection, so the numbers of a run are a cycle without a tail. *)
Theorem prng_never_stuck handle draws :
  handle mod 4 = 0 →
  let seed := u32 (2463534242 + u32 handle) in
  is_u32 (Nat.iter draws xorshift32 seed) ∧ Nat.iter draws xorshift32 seed ≠ 0 ∧
  ∀ k, Nat.iter (draws + k) xorshift32 seed = Nat.iter draws xorshift32 seed →
       Nat.iter k xorshift32 seed = seed.
Proof.
  intros Hh seed. assert (seed ≠ 0) as Hs.
  { unfold seed, u32. rewrite Zplus_mod_idemp_r.
    change (2 ^ 32) with 4294967296. Z.div_mod_to_equations. lia. }
  assert (∀ n, is_u32 (Nat.iter n xorshift32 seed)) as Hu.
  { induction n as [|n IH]; simpl; [apply u32_range|by apply xorshift32_u32]. }
  split; [apply Hu|]. split.
  - induction draws as [|n IH]; simpl; [done|]. intros H0. apply IH.
    apply xorshift32_inj; [apply Hu|by split|done].
  - intros k. induction draws as [|n IH]; simpl; [done|]. intros He.
    apply xorshift32_inj in He; [by apply IH|apply Hu..].
Qed.

Lemma prng_never_stuck_witness :
  let seed := u32 (2463534242 + u32 0x55555555a2a0) in
  is_u32 (Nat.iter 6 xorshift32 seed) ∧ Nat.iter 6 xorshift32 seed ≠ 0 ∧
  ∀ k, Nat.iter (6 + k) xorshift32 seed = Nat.iter 6 xorshift32 seed →
       Nat.iter k xorshift32 seed = seed.
Proof. apply (prng_never_stuck 0x55555555a2a0 6). reflexivity. Defined.

(** ** The random numbers *)

Lemma unit_double_fits x : fits 2 (unit_double x).
Proof.
  unfold unit_double.
  assert (d_of_Z 0x1000000 = S754_finite false 4503599627370496 (-28)) as -> by reflexivity.
  apply (d_div_fits 25 25); [|simpl; lia..].
  change 0xFFFFFF with (Z.ones 24). rewrite Z.land_ones by lia.
  pose proof (Z.mod_pos_bound x (2 ^ 24) ltac:(lia)).
  assert (Zdigits2 (Z.abs (x mod 2 ^ 24)) <= 24) by (apply Zdigits2_le; lia).
  apply of_Z_fits; lia.
Qed.

Lemma int32_of_fits x : fits 31 x → ∃ z, int32_of_double x = Some z ∧ is_i32 z.
Proof.
  destruct x as [s| | |s m e]; try done; [intros _; exists 0; split; [done|unfold is_i32; lia]|].
  intros [_ Hd]. unfold int32_of_double. pose proof (Zdigits2_nonneg (Zpos m) ltac:(lia)).
  set (n := if 0 <=? e then _ else _).
  assert (0 <= n < 2 ^ 31) as Hn.
  { unfold n. destruct (Z.leb_spec 0 e).
    - split; [lia|]. apply Zdigits2_le; [lia..|]. rewrite Zdigits2_mul_pow; lia.
    - split; [apply Z.div_pos; lia|]. apply Zdigits2_le; [lia|apply Z.div_pos; lia|].
      rewrite Zdigits2_div by lia. lia. }
  exists (if s then - n else n). rewrite decide_True; [split; [done|]|];
    unfold is_i32; destruct s; lia.
Qed.

(** Constants of the code. *)
Ltac const_fits :=
  match goal with |- fits ?k ?x => apply (bool_decide_eq_true_1 (fits k x)); vm_compute; reflexivity end.

(** The size made of a state of the generator. *)
Definition size_of (low range x : Z) : Z :=
  default 0 (int32_of_double (d_add (d_of_Z low) (d_mul (unit_double x) (d_of_Z range)))).

Lemma size_of_ok low range x :
  (Zdigits2 (Z.abs low) <=? 20) = true → (Zdigits2 (Z.abs range) <=? 20) = true →
  int32_of_double (d_add (d_of_Z low) (d_mul (unit_double x) (d_of_Z range))) =
    Some (size_of low range x) ∧ is_i32 (size_of low range x).
Proof.
  intros Hl%Z.leb_le Hr%Z.leb_le. unfold size_of.
  destruct (int32_of_fits (d_add (d_of_Z low) (d_mul (unit_double x) (d_of_Z range))))
    as (z & E & Hz); [|by rewrite E].
  apply (d_add_fits 21 24); [by apply of_Z_fits; lia| |lia..].
  apply (d_mul_fits 2 21); [apply unit_double_fits|by apply of_Z_fits; lia|lia..].
Qed.

(** ** The random walk *)

Definition feed_price_ok (x : double) : Prop :=
  fits 10 x ∧ d_le (d_of_Z 10) x = true ∧ d_le x (d_of_Z 1000) = true.

Lemma between_fits x k : fits k x → d_le (d_of_Z 10) x = true → d_le x (d_of_Z 1000) = true → fits 10 x.
Proof.
  destruct x as [s| | |s m e]; try done. intros [Hv _] Hlo Hhi.
  assert (d_of_Z 10 = S754_finite false 5629499534213120 (-49)) as E10 by reflexivity.
  assert (d_of_Z 1000 = S754_finite false 8796093022208000 (-43)) as E1000 by reflexivity.
  rewrite E10 in Hlo. rewrite E1000 in Hhi. clear E10 E1000.
  unfold d_le, SFleb, SFcompare in Hlo, Hhi. destruct s; [done|]. split; [done|].
  destruct (valid_digits _ _ _ Hv) as [_ He]. destruct (Z.compare_spec e (-43)); [| |done].
  - rewrite He by lia. lia.
  - assert (Zpos m < 2 ^ 53) as Hm by (simpl in Hv; lia).
    apply Zdigits2_le in Hm; lia.
Qed.

Lemma noise_fits r : fits 2 r → fits 0 (d_mul (d_sub r (d_lit 5 1)) (d_lit 2 2)).
Proof.
  intros Hr. apply (d_mul_fits 4 (-5)); [|const_fits|lia..].
  apply (d_sub_fits 2 0); [done|const_fits|lia..].
Qed.

Lemma d_of_Z_le_10_1000 : feed_price_ok (d_of_Z 10) ∧ feed_price_ok (d_of_Z 1000) ∧ feed_price_ok (d_of_Z 150).
Proof.
  split_and!; (split; [const_fits|split; reflexivity]).
Qed.

Lemma walk_ok base noise : feed_price_ok base → fits 0 noise → feed_price_ok (walk base noise).
Proof.
  intros (Hb & _ & _) Hn. unfold walk.
  assert (fits 12 (d_add base noise)) as Hs by (apply (d_add_fits 10 0); [done..|lia|lia]).
  destruct d_of_Z_le_10_1000 as (H10 & H1000 & _).
  destruct (d_lt (d_add base noise) (d_of_Z 10)) eqn:E1.
  - by assert (d_lt (d_of_Z 1000) (d_of_Z 10) = false) as -> by reflexivity.
  - destruct (d_lt (d_of_Z 1000) (d_add base noise)) eqn:E2; [done|].
    pose proof (fits_not_nan _ _ Hs) as Hnan.
    assert (d_le (d_of_Z 10) (d_add base noise) = true) as L1.
    { pose proof (d_not_lt (d_add base noise) (d_of_Z 10) Hnan eq_refl) as H.
      rewrite E1 in H. by destruct (d_le (d_of_Z 10) (d_add base noise)). }
    assert (d_le (d_add base noise) (d_of_Z 1000) = true) as L2.
    { pose proof (d_not_lt (d_of_Z 1000) (d_add base noise) eq_refl Hnan) as H.
      rewrite E2 in H. by destruct (d_le (d_add base noise) (d_of_Z 1000)). }
    split; [|done]. by eapply between_fits.
Qed.

(** ** Simulated messages *)

(** The numbers of a simulated message. *)
Record sim_msg_ok (msg : feed_msg_t) : Prop := {
  sm_bid : fits 14 (fm_bid_price msg);
  sm_ask : fits 14 (fm_ask_price msg);
  sm_last : feed_price_ok (fm_last_price msg);
  sm_bid_size : is_i32 (fm_bid_size msg);
  sm_ask_size : is_i32 (fm_ask_size msg);
  sm_last_size : is_i32 (fm_last_size msg);
  sm_volume : is_i32 (fm_volume msg);
  sm_timestamp : is_u64 (fm_timestamp_ns msg);
  sm_symbol : (String.length (fm_symbol msg) <= 15)%nat;
}.

(** What the generator does to the fields, as equations for rewriting. *)
Lemma fh_set_sim_twice fh p x p' x' : fh_set_sim (fh_set_sim fh p x) p' x' = fh_set_sim fh p' x'.
Proof. reflexivity. Qed.

Lemma fh_sim_price fh p x : fh_sim_base_price (fh_set_sim fh p x) = p.
Proof. reflexivity. Qed.

Lemma fh_sim_prng fh p x : fh_prng_state (fh_set_sim fh p x) = x.
Proof. reflexivity. Qed.

Lemma fh_sim_config fh p x : fh_config (fh_set_sim fh p x) = fh_config fh.
Proof. reflexivity. Qed.

Lemma rand_double_eq fh :
  rand_double fh = (fh_set_sim fh (fh_sim_base_price fh) (xorshift32 (fh_prng_state fh)),
                    unit_double (xorshift32 (fh_prng_state fh))).
Proof. reflexivity. Qed.

Lemma bind_Some {A B} (f : A → option B) x : (Some x ≫= f) = f x.
Proof. reflexivity. Qed.

Ltac sim_step :=
  rewrite ?rand_double_eq, ?bind_Some; cbv beta zeta match;
  rewrite ?fh_set_sim_twice, ?fh_sim_price, ?fh_sim_prng, ?fh_sim_config.

(** The state of the generator after the six numbers of a message. *)
Definition after_message (x : Z) : Z :=
  xorshift32 (xorshift32 (xorshift32 (xorshift32 (xorshift32 (xorshift32 x))))).

(** The symbol of the messages. *)
Definition feed_symbol (config : feed_config_t) : string :=
  strn 15 (if bool_decide (strn 16 (fc_symbol config) = "") then "AAPL" else fc_symbol config).

(** The last price, half the spread and the message of a state of the generator. *)
Definition next_price (price : double) (x : Z) : double :=
  walk price (d_mul (d_sub (unit_double (xorshift32 x)) (d_lit 5 1)) (d_lit 2 2)).

Definition half_spread (x : Z) : double :=
  d_div (d_add (d_lit 1 4) (d_mul (unit_double (xorshift32 (xorshift32 x))) (d_lit 5 4)))
    (d_of_Z 2).

Lemma next_price_ok price x : feed_price_ok price → feed_price_ok (next_price price x).
Proof. intros Hp. apply walk_ok; [exact Hp|]. apply noise_fits, unit_double_fits. Qed.

Lemma half_spread_fits x : fits (-5) (half_spread x).
Proof.
  unfold half_spread.
  assert (d_of_Z 2 = S754_finite false 4503599627370496 (-51)) as -> by reflexivity.
  apply (d_div_fits (-5) 2); [|simpl; lia..]. apply (d_add_fits (-13) (-7)); [const_fits| |lia..].
  apply (d_mul_fits 2 (-10)); [apply unit_double_fits|const_fits|lia..].
Qed.

Lemma random_size_eq low range fh :
  (Zdigits2 (Z.abs low) <=? 20) = true → (Zdigits2 (Z.abs range) <=? 20) = true →
  random_size low range fh =
    Some (fh_set_sim fh (fh_sim_base_price fh) (xorshift32 (fh_prng_state fh)),
          size_of low range (xorshift32 (fh_prng_state fh))).
Proof.
  intros Hl Hr. unfold random_size. rewrite rand_double_eq.
  destruct (size_of_ok low range (xorshift32 (fh_prng_state fh)) Hl Hr) as [E _].
  rewrite E. reflexivity.
Qed.

(** The message as a function of the configuration and the state of the
    simulation: six numbers of the generator, in the order of the code. *)
Definition sim_msg (config : feed_config_t) (price : double) (x : Z) (ts : Z * Z) : feed_msg_t :=
  let x3 := xorshift32 (xorshift32 (xorshift32 x)) in
  let x4 := xorshift32 x3 in
  let x5 := xorshift32 x4 in
  MkFeedMsg (feed_now_nanos ts)
    (d_mul (next_price price x) (d_sub (d_of_Z 1) (half_spread x)))
    (d_mul (next_price price x) (d_add (d_of_Z 1) (half_spread x)))
    (next_price price x) (size_of 100 9900 x3) (size_of 100 9900 x4)
    (size_of 10 990 x5) (size_of 10000 990000 (xorshift32 x5)) (feed_symbol config).

#[local] Opaque xorshift32 unit_double walk d_add d_sub d_mul d_div d_of_Z d_lit strn random_size
  size_of.

Lemma simulate_message_eq fh ts :
  simulate_message fh ts =
    Some (fh_set_sim fh (next_price (fh_sim_base_price fh) (fh_prng_state fh))
            (after_message (fh_prng_state fh)),
          sim_msg (fh_config fh) (fh_sim_base_price fh) (fh_prng_state fh) ts).
Proof.
  unfold simulate_message. do 2 sim_step.
  do 4 (rewrite random_size_eq by reflexivity; sim_step).
  unfold sim_msg, next_price, half_spread, after_message, feed_symbol. reflexivity.
Qed.

Lemma sim_msg_numbers config price x ts :
  feed_price_ok price → sim_msg_ok (sim_msg config price x ts).
Proof.
  intros Hp. pose proof (next_price_ok price x Hp) as Hn. pose proof (half_spread_fits x) as Hh.
  unfold sim_msg. cbv zeta. constructor; cbn [fm_timestamp_ns fm_bid_price
    fm_ask_price fm_last_price fm_bid_size fm_ask_size fm_last_size fm_volume fm_symbol].
  - apply (d_mul_fits 10 3); [apply Hn| |lia..].
    apply (d_sub_fits 1 (-5)); [const_fits|exact Hh|lia..].
  - apply (d_mul_fits 10 3); [apply Hn| |lia..].
    apply (d_add_fits 1 (-5)); [const_fits|exact Hh|lia..].
  - exact Hn.
  - apply size_of_ok; reflexivity.
  - apply size_of_ok; reflexivity.
  - apply size_of_ok; reflexivity.
  - apply size_of_ok; reflexivity.
  - apply u64_range.
  - apply strn_length.
Qed.
