(* ===== verification/FeedQueue.v ===== *)
(** * The feed handler refines a bounded queue of messages

    [feed_step] runs one round of the receive thread or one call of the consumer
    on the real structures: the pool, the ring buffer of addresses and the
    memory behind them.  [spec_step] runs it on a list of messages.  The two
    agree over every sequence of operations: a message is neither overwritten
    while it is queued or held by the consumer, nor lost, nor duplicated. *)

From S2P Require Export FeedProps.

(** ** Operations *)

Inductive feed_op :=
  | FSim (ts : Z * Z)              (* a round of the simulated feed *)
  | FUdp (datagram : list Z)       (* a datagram arrives *)
  | FPop                           (* the consumer takes a message and keeps it *)
  | FReturn (i : nat).             (* the consumer returns the [i]-th message it keeps *)

(** The handler and the addresses the consumer keeps; what [FPop] saw. *)
Definition feed_step (s : feed_handler_t * list Z) (op : feed_op)
    : option (feed_handler_t * list Z * option feed_msg_t) :=
  let '(fh, held) := s in
  match op with
  | FSim ts => fh ← sim_round fh ts; Some (fh, held, None)
  | FUdp datagram => fh ← udp_datagram fh datagram; Some (fh, held, None)
  | FPop =>
    '(fh, p) ← feed_pop fh;
    match p with
    | None => Some (fh, held, None)
    | Some p => msg ← fh_objects fh !! p; Some (fh, held ++ [p], Some msg)
    end
  | FReturn i =>
    p ← held !! i;
    fh' ← feed_return_msg (Some fh) (Some p); fh ← fh'; Some (fh, delete i held, None)
  end.

Fixpoint feed_run (s : feed_handler_t * list Z) (ops : list feed_op)
    : option (feed_handler_t * list Z * list feed_msg_t) :=
  match ops with
  | [] => Some (s, [])
  | op :: ops =>
    '(s, seen) ← feed_step s op;
    '(s, rest) ← feed_run s ops; Some (s, option_list seen ++ rest)
  end.

(** ** The specification *)

Record feed_spec := MkFeedSpec {
  fs_queue : list feed_msg_t;
  fs_held : list feed_msg_t;
  fs_price : double;
  fs_prng : Z;
  fs_received : Z;
  fs_dropped : Z;
  fs_bytes : Z;
}.

Definition fs_count (s : feed_spec) received dropped bytes : feed_spec :=
  MkFeedSpec (fs_queue s) (fs_held s) (fs_price s) (fs_prng s) (u64 (fs_received s + received))
    (u64 (fs_dropped s + dropped)) (u64 (fs_bytes s + bytes)).
Definition fs_set_sim (s : feed_spec) price prng : feed_spec :=
  MkFeedSpec (fs_queue s) (fs_held s) price prng (fs_received s) (fs_dropped s) (fs_bytes s).
Definition fs_set_lists (s : feed_spec) queue held : feed_spec :=
  MkFeedSpec queue held (fs_price s) (fs_prng s) (fs_received s) (fs_dropped s) (fs_bytes s).

(** An object is free if fewer than [cap] messages are queued or kept. *)
Definition spec_object (cap : nat) (s : feed_spec) : bool :=
  bool_decide (length (fs_queue s) + length (fs_held s) < cap)%nat.

(** A message is queued, or dropped if the queue has [n] messages. *)
Definition spec_publish (n : nat) (s : feed_spec) (msg : feed_msg_t) (bytes : Z) : feed_spec :=
  if decide (length (fs_queue s) < n)%nat
  then fs_count (fs_set_lists s (fs_queue s ++ [msg]) (fs_held s)) 1 0 bytes
  else fs_count s 0 1 0.

Definition spec_step (config : feed_config_t) (n cap : nat) (s : feed_spec) (op : feed_op)
    : feed_spec * option feed_msg_t :=
  match op with
  | FSim ts =>
    (if spec_object cap s
     then spec_publish n (fs_set_sim s (next_price (fs_price s) (fs_prng s))
                                       (after_message (fs_prng s)))
            (sim_msg config (fs_price s) (fs_prng s) ts) FEED_MSG_SIZE
     else fs_count s 0 1 0, None)
  | FUdp datagram =>
    let raw := take (Z.to_nat FEED_MAX_MSG_SIZE) datagram in
    let len := Z.of_nat (length raw) in
    (if len <=? 0 then s
     else
       let s := fs_count s 0 0 len in
       if len <? FEED_MSG_SIZE then s
       else if spec_object cap s then spec_publish n s (decode_msg raw) 0
       else fs_count s 0 1 0, None)
  | FPop =>
    match fs_queue s with
    | [] => (s, None)
    | msg :: queue => (fs_set_lists s queue (fs_held s ++ [msg]), Some msg)
    end
  | FReturn i => (fs_set_lists s (fs_queue s) (delete i (fs_held s)), None)
  end.

Fixpoint spec_run (config : feed_config_t) (n cap : nat) (s : feed_spec) (ops : list feed_op)
    : feed_spec * list feed_msg_t :=
  match ops with
  | [] => (s, [])
  | op :: ops =>
    let '(s, seen) := spec_step config n cap s op in
    let '(s, rest) := spec_run config n cap s ops in (s, option_list seen ++ rest)
  end.

(** The consumer returns only messages it keeps. *)
Fixpoint feed_ops_ok (config : feed_config_t) (n cap : nat) (s : feed_spec)
    (ops : list feed_op) : Prop :=
  match ops with
  | [] => True
  | op :: ops =>
    (match op with FReturn i => (i < length (fs_held s))%nat | _ => True end) ∧
    feed_ops_ok config n cap (spec_step config n cap s op).1 ops
  end.

#[export] Instance feed_ops_ok_dec config n cap s ops : Decision (feed_ops_ok config n cap s ops).
Proof. revert s. induction ops as [|[] ops IH]; intros s; simpl; apply _. Defined.

(** The receive thread as operations. *)
Definition event_ops (ev : epoll_event) : list feed_op := if ev.1 then [FUdp ev.2] else [].
Definition wait_ops (events : list epoll_event) : list feed_op :=
  concat (event_ops <$> take 64 events).
Definition recv_ops (simulation : bool) (env : recv_env) : list feed_op :=
  if simulation then FSim <$> re_rounds env
  else if re_epoll_create env && re_epoll_ctl env then concat (wait_ops <$> re_waits env) else [].

(** ** The pool and the addresses in use *)

#[export] Instance holds_perm mp : Proper ((≡ₚ) ==> iff) (holds mp).
Proof.
  assert (∀ l1 l2, l1 ≡ₚ l2 → holds mp l1 → holds mp l2) as H.
  { intros l1 l2 Hp (used & -> & Hinv). symmetry in Hp.
    apply Permutation_map_inv in Hp as (used' & -> & Hu).
    exists used'. split; [done|]. by eapply pool_inv_permute. }
  intros l1 l2 Hp. split; apply H; [done|by symmetry].
Qed.

Lemma holds_length mp held :
  holds mp held → Z.of_nat (length held) + free_top mp = mp_capacity mp ∧ 0 <= free_top mp.
Proof.
  intros (used & -> & Hinv). rewrite length_fmap. pose proof (pool_inv_length _ _ Hinv).
  destruct Hinv. lia.
Qed.

Lemma holds_full mp held :
  holds mp held → mp_capacity mp <= Z.of_nat (length held) → mempool_alloc mp = Some (mp, 0).
Proof. intros Hh Hl. apply alloc_exhausted. apply holds_length in Hh. lia. Qed.

Lemma holds_alloc mp held :
  holds mp held → Z.of_nat (length held) < mp_capacity mp →
  ∃ mp' p, mempool_alloc mp = Some (mp', p) ∧ (p =? 0) = false ∧ p ∉ held ∧
    holds mp' (p :: held) ∧ mp_capacity mp' = mp_capacity mp.
Proof.
  intros Hh Hl. pose proof (holds_length _ _ Hh). destruct Hh as (used & -> & Hinv).
  destruct (alloc_inv mp used Hinv) as (mp' & i & Ha & Hi & Hu & -> & Hinv'); [lia|].
  eexists _, _. split; [done|]. split_and!.
  - apply Z.eqb_neq. pose proof (object_addr_pos mp used i Hinv). lia.
  - intros (j & He & Hj)%list_elem_of_fmap.
    apply (object_addr_inj mp used i j Hinv) in He; [by subst|done|by eapply pool_inv_used].
  - by exists (i :: used).
  - done.
Qed.

Lemma holds_free mp p held :
  holds mp (p :: held) →
  ∃ mp', mempool_free mp p = Some mp' ∧ holds mp' held ∧ mp_capacity mp' = mp_capacity mp.
Proof.
  intros (used & He & Hinv). symmetry in He.
  apply fmap_cons_inv in He as (i & used' & -> & -> & ->).
  destruct (free_inv mp used' i Hinv) as (mp' & -> & -> & Hinv').
  eexists. split; [done|]. split; [|done]. by exists used'.
Qed.

(** ** The handler and its specification *)

Section refinement.
Context (config : feed_config_t) (n cap : nat).

(** Each address holds its message. *)
Definition stored (fh : feed_handler_t) (ptrs : list Z) (msgs : list feed_msg_t) : Prop :=
  Forall2 (λ p msg, fh_objects fh !! p = Some msg) ptrs msgs.

(** [ptrs] are the addresses in the queue, [own] those the receive thread has. *)
Record feed_rep (s : feed_handler_t * list Z) (a : feed_spec) (ptrs own : list Z) : Prop := {
  fr_queue : q_rep (fh_output_queue s.1) n (Some <$> ptrs);
  fr_pool : holds (fh_msg_pool s.1) (own ++ ptrs ++ s.2);
  fr_cap : mp_capacity (fh_msg_pool s.1) = Z.of_nat cap;
  fr_queued : stored s.1 ptrs (fs_queue a);
  fr_kept : stored s.1 s.2 (fs_held a);
  fr_config : fh_config s.1 = config;
  fr_price : fh_sim_base_price s.1 = fs_price a;
  fr_prng : fh_prng_state s.1 = fs_prng a;
  fr_received : fh_msgs_received s.1 = fs_received a;
  fr_dropped : fh_msgs_dropped s.1 = fs_dropped a;
  fr_bytes : fh_bytes_received s.1 = fs_bytes a;
}.

Lemma stored_other fh ptrs msgs p msg :
  p ∉ ptrs → stored fh ptrs msgs → stored (fh_store fh p msg) ptrs msgs.
Proof.
  intros Hp Hs. induction Hs as [|q m ptrs msgs Hq _ IH]; constructor; simpl.
  - rewrite lookup_insert_ne; [done|]. set_solver.
  - apply IH. set_solver.
Qed.

Lemma stored_length fh ptrs msgs : stored fh ptrs msgs → length ptrs = length msgs.
Proof. apply Forall2_length. Qed.

(** The counters. *)
Lemma rep_count fh held a ptrs own r d b :
  feed_rep (fh, held) a ptrs own →
  feed_rep (fh_count fh r d b, held) (fs_count a r d b) ptrs own.
Proof. intros []. split; simpl in *; congruence || done. Qed.

(** The object of a round: taken from the pool and filled, or none. *)
Lemma rep_alloc fh held a ptrs :
  feed_rep (fh, held) a ptrs [] → spec_object cap a = true →
  ∃ mp p, mempool_alloc (fh_msg_pool fh) = Some (mp, p) ∧ (p =? 0) = false ∧
    ∀ msg price prng, feed_rep (fh_store (fh_set_sim (fh_set_pool fh mp) price prng) p msg, held)
      (fs_set_sim a price prng) ptrs [p] ∧
      fh_objects (fh_store (fh_set_sim (fh_set_pool fh mp) price prng) p msg) !! p = Some msg.
Proof.
  intros [Hq Hp Hc Hs Hk] Ho%bool_decide_eq_true. cbn [fst snd app] in *.
  pose proof (stored_length _ _ _ Hs) as L1. pose proof (stored_length _ _ _ Hk) as L2.
  destruct (holds_alloc _ _ Hp) as (mp & p & Ha & Hp0 & Hnew & Hp' & Hcap);
    [rewrite length_app; lia|].
  apply not_elem_of_app in Hnew as [Hn1 Hn2].
  exists mp, p. split_and!; [done..|]. intros msg price prng. split; [|apply lookup_insert_eq].
  split; simpl; try done; [congruence| |]; by apply stored_other.
Qed.

Lemma rep_exhausted fh held a ptrs :
  feed_rep (fh, held) a ptrs [] → spec_object cap a = false →
  mempool_alloc (fh_msg_pool fh) = Some (fh_msg_pool fh, 0).
Proof.
  intros [_ Hp Hc Hs Hk] Ho%bool_decide_eq_false. cbn [fst snd app] in *.
  pose proof (stored_length _ _ _ Hs) as L1. pose proof (stored_length _ _ _ Hk) as L2.
  apply (holds_full _ _ Hp). rewrite length_app. lia.
Qed.

Lemma rep_publish fh held a ptrs p msg bytes :
  feed_rep (fh, held) a ptrs [p] → fh_objects fh !! p = Some msg →
  ∃ fh' ptrs', publish fh p bytes = Some fh' ∧
    feed_rep (fh', held) (spec_publish n a msg bytes) ptrs' [].
Proof.
  intros [Hq Hp Hc Hs Hk] Hm. cbn [fst snd app] in *. unfold publish, spec_publish.
  destruct (q_push_rep _ _ _ (Some p) Hq) as (q & Hpush & Hq'). cbn [q_push ring_buffer_ops] in Hpush.
  rewrite Hpush. unfold queue_push in *. rewrite length_fmap in *.
  pose proof (stored_length _ _ _ Hs) as L1. rewrite <- L1.
  destruct (decide (length ptrs < n)%nat); cbn [fst snd negb mbind option_bind].
  - eexists _, (ptrs ++ [p]). split; [done|]. split; simpl; try (done || congruence).
    + by rewrite fmap_app.
    + rewrite <- (assoc_L (++)). simpl. by rewrite <- Permutation_middle.
    + apply Forall2_app; [done|]. by repeat constructor.
  - destruct (holds_free _ _ _ Hp) as (mp & Hf & Hp' & Hcap).
    cbn [fh_set_queue fh_msg_pool]. rewrite Hf. cbn [mbind option_bind].
    eexists _, ptrs. split; [done|]. split; simpl; done || congruence.
Qed.

Lemma fh_set_pool_id fh : fh_set_pool fh (fh_msg_pool fh) = fh.
Proof. by destruct fh. Qed.

Lemma rep_sim_same fh held a ptrs own mp :
  feed_rep (fh, held) a ptrs own →
  fh_set_pool fh mp = fh_set_sim (fh_set_pool fh mp) (fs_price a) (fs_prng a).
Proof. intros []. simpl in *. unfold fh_set_sim. by rewrite <- fr_price0, <- fr_prng0. Qed.

(** ** One operation *)

Lemma rep_sim fh held a ptrs ts :
  feed_rep (fh, held) a ptrs [] →
  ∃ fh' ptrs', sim_round fh ts = Some fh' ∧
    feed_rep (fh', held) (spec_step config n cap a (FSim ts)).1 ptrs' [].
Proof.
  intros Hr. cbn [spec_step fst]. unfold sim_round. destruct (spec_object cap a) eqn:Ho.
  - destruct (rep_alloc _ _ _ _ Hr Ho) as (mp & p & -> & Hp0 & Hst).
    cbn [mbind option_bind]. rewrite Hp0, simulate_message_eq. cbn [mbind option_bind].
    change (fh_config (fh_set_pool fh mp)) with (fh_config fh).
    change (fh_prng_state (fh_set_pool fh mp)) with (fh_prng_state fh).
    change (fh_sim_base_price (fh_set_pool fh mp)) with (fh_sim_base_price fh).
    pose proof (fr_config _ _ _ _ Hr) as E1. pose proof (fr_prng _ _ _ _ Hr) as E2.
    pose proof (fr_price _ _ _ _ Hr) as E3. cbn [fst] in E1, E2, E3. rewrite E1, E2, E3.
    destruct (Hst (sim_msg config (fs_price a) (fs_prng a) ts)
      (next_price (fs_price a) (fs_prng a)) (after_message (fs_prng a))) as [Hr' Hm].
    destruct (rep_publish _ _ _ _ _ _ FEED_MSG_SIZE Hr' Hm) as (fh' & ptrs' & -> & Hr'').
    by eexists _, ptrs'.
  - rewrite (rep_exhausted _ _ _ _ Hr Ho). cbn [mbind option_bind].
    rewrite fh_set_pool_id. eexists _, ptrs. split; [done|]. by apply rep_count.
Qed.

Lemma rep_udp fh held a ptrs dg :
  feed_rep (fh, held) a ptrs [] →
  ∃ fh' ptrs', udp_datagram fh dg = Some fh' ∧
    feed_rep (fh', held) (spec_step config n cap a (FUdp dg)).1 ptrs' [].
Proof.
  intros Hr. cbn [spec_step fst]. unfold udp_datagram. cbv zeta.
  set (raw := take _ dg). set (len := Z.of_nat (length raw)).
  destruct (len <=? 0); [by eexists _, ptrs|].
  apply (rep_count _ _ _ _ _ 0 0 len) in Hr. set (fh1 := fh_count fh 0 0 len) in *.
  set (a1 := fs_count a 0 0 len) in *.
  destruct (len <? FEED_MSG_SIZE); [by eexists _, ptrs|].
  destruct (spec_object cap a1) eqn:Ho.
  - destruct (rep_alloc _ _ _ _ Hr Ho) as (mp & p & -> & Hp0 & Hst).
    cbn [mbind option_bind]. rewrite Hp0.
    destruct (Hst (decode_msg raw) (fs_price a1) (fs_prng a1)) as [Hr' Hm].
    replace (fh_set_sim (fh_set_pool fh1 mp) (fs_price a1) (fs_prng a1))
      with (fh_set_pool fh1 mp) in Hr', Hm
      by by apply (rep_sim_same _ _ _ _ _ mp Hr).
    destruct (rep_publish _ _ _ _ _ _ 0 Hr' Hm) as (fh' & ptrs' & -> & Hr'').
    by eexists _, ptrs'.
  - rewrite (rep_exhausted _ _ _ _ Hr Ho). cbn [mbind option_bind].
    rewrite fh_set_pool_id. eexists _, ptrs. split; [done|]. by apply rep_count.
Qed.

(** *** The receive thread *)

Lemma rep_sim_loop fh held a ptrs tss :
  feed_rep (fh, held) a ptrs [] →
  ∃ fh' ptrs', sim_loop fh tss = Some fh' ∧
    feed_rep (fh', held) (spec_run config n cap a (FSim <$> tss)).1 ptrs' [].
Proof.
  revert fh a ptrs. induction tss as [|ts tss IH]; intros fh a ptrs Hr; [by eexists _, ptrs|].
  destruct (rep_sim _ _ _ _ ts Hr) as (fh1 & ptrs1 & H1 & Hr1).
  cbn [sim_loop fmap list_fmap spec_run]. rewrite H1. cbn [mbind option_bind].
  destruct (spec_step config n cap a (FSim ts)) as [a1 ?]. cbn [fst] in Hr1.
  destruct (IH _ _ _ Hr1) as (fh2 & ptrs2 & H2 & Hr2). exists fh2, ptrs2. split; [exact H2|].
  by destruct (spec_run config n cap a1 (FSim <$> tss)).
Qed.

Lemma rep_epoll_events fh held a ptrs events :
  feed_rep (fh, held) a ptrs [] →
  ∃ fh' ptrs', epoll_events fh events = Some fh' ∧
    feed_rep (fh', held) (spec_run config n cap a (concat (event_ops <$> events))).1 ptrs' [].
Proof.
  revert fh a ptrs. induction events as [|[[] dg] events IH]; intros fh a ptrs Hr;
    [by eexists _, ptrs| |].
  - destruct (rep_udp _ _ _ _ dg Hr) as (fh1 & ptrs1 & H1 & Hr1).
    cbn [epoll_events fmap list_fmap concat event_ops fst snd app spec_run]. rewrite H1.
    cbn [mbind option_bind]. destruct (spec_step config n cap a (FUdp dg)) as [a1 ?].
    cbn [fst] in Hr1. destruct (IH _ _ _ Hr1) as (fh2 & ptrs2 & H2 & Hr2).
    exists fh2, ptrs2. split; [exact H2|].
    by destruct (spec_run config n cap a1 (concat (event_ops <$> events))).
  - exact (IH _ _ _ Hr).
Qed.

Lemma spec_run_app a ops1 ops2 :
  (spec_run config n cap a (ops1 ++ ops2)).1 =
  (spec_run config n cap (spec_run config n cap a ops1).1 ops2).1.
Proof.
  revert a. induction ops1 as [|op ops1 IH]; intros a; [done|]. cbn [app spec_run].
  destruct (spec_step config n cap a op) as [a1 ?]. specialize (IH a1).
  destruct (spec_run config n cap a1 (ops1 ++ ops2)), (spec_run config n cap a1 ops1). exact IH.
Qed.

Lemma rep_epoll_loop fh held a ptrs waits :
  feed_rep (fh, held) a ptrs [] →
  ∃ fh' ptrs', epoll_loop fh waits = Some fh' ∧
    feed_rep (fh', held) (spec_run config n cap a (concat (wait_ops <$> waits))).1 ptrs' [].
Proof.
  revert fh a ptrs. induction waits as [|events waits IH]; intros fh a ptrs Hr;
    [by eexists _, ptrs|].
  destruct (rep_epoll_events _ _ _ _ (take 64 events) Hr) as (fh1 & ptrs1 & H1 & Hr1).
  cbn [epoll_loop]. rewrite H1. cbn [mbind option_bind fmap list_fmap concat].
  destruct (IH _ _ _ Hr1) as (fh2 & ptrs2 & H2 & Hr2). exists fh2, ptrs2. split; [exact H2|].
  unfold wait_ops at 1. by rewrite spec_run_app.
Qed.

Lemma rep_pop s a ptrs :
  feed_rep s a ptrs [] →
  ∃ s' ptrs', feed_step s FPop = Some (s', (spec_step config n cap a FPop).2) ∧
    feed_rep s' (spec_step config n cap a FPop).1 ptrs' [].
Proof.
  destruct s as [fh held]. cbn [feed_step spec_step]. unfold feed_pop.
  intros [Hq Hp Hc Hs Hk]. cbn [fst snd app] in *.
  destruct (q_pop_rep _ _ _ Hq) as (q & Hpop & Hq'). cbn [q_pop ring_buffer_ops] in Hpop.
  rewrite Hpop. remember (fs_queue a) as fsq eqn:Efsq.
  destruct Hs as [|p msg ptrs msgs Hm Hs]; cbn [mbind option_bind queue_pop fst snd fmap list_fmap] in *.
  - eexists _, []. split; [done|]. split; simpl; rewrite <- ?Efsq; done || by constructor.
  - cbn [fh_set_queue fh_objects]. rewrite Hm. cbn [mbind option_bind].
    eexists _, ptrs. split; [done|]. split; simpl; try (done || congruence).
    + by rewrite (assoc_L (++)), (comm (++) _ [p]).
    + apply Forall2_app; [done|]. by repeat constructor.
Qed.

(** The messages in the queue are what the consumer pops. *)
Lemma rep_pop_all s a ptrs :
  feed_rep s a ptrs [] →
  ∃ s', feed_run s (replicate (length (fs_queue a)) FPop) = Some (s', fs_queue a).
Proof.
  remember (fs_queue a) as q eqn:Hq. revert s a ptrs Hq.
  induction q as [|msg q IH]; intros s a ptrs Hq Hr; [by exists s|].
  destruct (rep_pop _ _ _ Hr) as (s1 & ptrs1 & H1 & Hr1).
  cbn [length replicate feed_run]. rewrite H1. cbn [mbind option_bind spec_step] in *.
  rewrite <- Hq in *. cbn [fst snd option_list] in *.
  destruct (IH s1 (fs_set_lists a q (fs_held a ++ [msg])) ptrs1 eq_refl Hr1) as (s2 & H2). rewrite H2. by exists s2.
Qed.

Lemma rep_return s a ptrs i :
  feed_rep s a ptrs [] → (i < length (fs_held a))%nat →
  ∃ s' ptrs', feed_step s (FReturn i) = Some (s', None) ∧
    feed_rep s' (spec_step config n cap a (FReturn i)).1 ptrs' [].
Proof.
  destruct s as [fh held]. cbn [feed_step spec_step]. intros [Hq Hp Hc Hs Hk] Hok.
  cbn [fst snd app] in *. pose proof (stored_length _ _ _ Hk) as L2.
  destruct (lookup_lt_is_Some_2 held i) as [p Hi]; [lia|]. rewrite Hi.
  cbn [mbind option_bind feed_return_msg].
  assert (held ≡ₚ p :: delete i held) as Hperm by by apply delete_Permutation.
  rewrite Hperm, <- Permutation_middle in Hp.
  destruct (holds_free _ _ _ Hp) as (mp & -> & Hp' & Hcap). cbn [mbind option_bind].
  eexists _, ptrs. split; [done|]. split; simpl; try (done || congruence).
  by apply Forall2_delete.
Qed.

Lemma rep_step s a ptrs op :
  feed_rep s a ptrs [] →
  match op with FReturn i => (i < length (fs_held a))%nat | _ => True end →
  ∃ s' ptrs', feed_step s op = Some (s', (spec_step config n cap a op).2) ∧
    feed_rep s' (spec_step config n cap a op).1 ptrs' [].
Proof.
  intros Hr Hok. destruct op as [ts|dg| |i]; [| |exact (rep_pop _ _ _ Hr)|exact (rep_return _ _ _ _ Hr Hok)];
    destruct s as [fh held]; cbn [feed_step].
  - destruct (rep_sim _ _ _ _ ts Hr) as (fh' & ptrs' & -> & H). by eexists _, ptrs'.
  - destruct (rep_udp _ _ _ _ dg Hr) as (fh' & ptrs' & -> & H). by eexists _, ptrs'.
Qed.

Lemma rep_run s a ptrs ops :
  feed_rep s a ptrs [] → feed_ops_ok config n cap a ops →
  ∃ s' ptrs', feed_run s ops = Some (s', (spec_run config n cap a ops).2) ∧
    feed_rep s' (spec_run config n cap a ops).1 ptrs' [].
Proof.
  revert s a ptrs. induction ops as [|op ops IH]; intros s a ptrs Hr Hok; cbn [feed_run spec_run].
  - by eexists _, ptrs.
  - destruct Hok as [Ho Hok]. destruct (rep_step s a ptrs op Hr Ho) as (s1 & p1 & -> & Hr1).
    destruct (spec_step config n cap a op) as [a1 seen]. cbn [fst snd mbind option_bind] in *.
    destruct (IH s1 a1 p1 Hr1 Hok) as (s2 & p2 & -> & Hr2).
    destruct (spec_run config n cap a1 ops) as [a2 rest]. by eexists _, p2.
Qed.

End refinement.

(** ** The handler of [feed_init] *)

(** Every system call succeeds, and the pool is an ordinary block of memory. *)
Record feed_env_ok (env : feed_env) (config : feed_config_t) : Prop := {
  fo_handle : fe_handle env ≠ 0;
  fo_queue : fe_queue env = true;
  fo_free_list : fe_free_list env = true;
  fo_pool : 0 < fe_pool env;
  fo_pool_end : fe_pool env + fc_output_queue_size config * FEED_MSG_SIZE <= 2 ^ 64;
  fo_network : fc_simulation_mode config = false →
    0 <= fe_socket env ∧ fe_inet_pton env = true ∧ fe_bind env = true;
}.

(** How many messages the ring buffer takes, and the pool. *)
Definition queue_room (config : feed_config_t) : nat :=
  Z.to_nat (2 ^ Z.log2_up (fc_output_queue_size config) - 1).
Definition pool_room (config : feed_config_t) : nat := Z.to_nat (fc_output_queue_size config).

Definition spec_start (env : feed_env) (config : feed_config_t) : feed_spec :=
  MkFeedSpec [] [] (if fc_simulation_mode config then d_of_Z 150 else d_zero)
    (u32 (2463534242 + u32 (fe_handle env))) 0 0 0.

Lemma feed_init_rep env config :
  feed_env_ok env config → 1 <= fc_output_queue_size config <= 2 ^ 31 →
  ∃ fh, feed_init env (Some config) = Some fh ∧
    feed_rep config (queue_room config) (pool_room config) (feed_thread_start fh, [])
      (spec_start env config) [] [].
Proof.
  intros [] Hcap. unfold feed_init. cbn [mbind option_bind].
  rewrite (proj2 (Z.eqb_neq _ _)) by done. rewrite fo_queue0, fo_free_list0.
  destruct (ring_buffer_init_wf (RingBuffer 0 0 None 0 0 : ring_buffer_t Z)
              (fc_output_queue_size config) Hcap) as (q & -> & Hwf & Hnil).
  destruct (mempool_init_inv (Mempool 0 0 0 0 []) (fe_pool env) FEED_MSG_SIZE
              (fc_output_queue_size config)) as (mp & -> & Hc & _ & _ & _ & Hinv);
    [unfold FEED_MSG_SIZE in *; lia..|].
  unfold spec_start, feed_thread_start.
  destruct (fc_simulation_mode config) eqn:Hsim; cbn [negb];
    [|destruct (fo_network0 eq_refl) as (Hsock & -> & ->);
      rewrite (proj2 (Z.ltb_ge _ _) Hsock); cbn [negb]];
    eexists; (split; [done|]);
    (split; simpl; rewrite ?Hsim; simpl; try done;
      [by eexists _, _|by exists []|unfold pool_room; rewrite Z2Nat.id by lia; congruence
      |constructor|constructor]).
Qed.

(** C9 -- A feed handler with any queue size from 1 to [2 ^ 31] refines a queue
    of messages: over every sequence of simulated rounds, datagrams, pops and
    returns, nothing undefined happens, the consumer sees exactly the messages
    the specification queues, in order and as they were written, and the three
    counters are those of the specification.  The queue holds
    [2 ^ ceil (log2 size) - 1] messages; queued and kept messages together are
    at most the queue size. *)
Theorem feed_refines_queue env config ops :
  feed_env_ok env config → 1 <= fc_output_queue_size config <= 2 ^ 31 →
  feed_ops_ok config (queue_room config) (pool_room config) (spec_start env config) ops →
  ∃ fh fh' held,
    feed_init env (Some config) = Some fh ∧
    let '(s, seen) := spec_run config (queue_room config) (pool_room config)
                        (spec_start env config) ops in
    feed_run (feed_thread_start fh, []) ops = Some (fh', held, seen) ∧
    length held = length (fs_held s) ∧
    feed_get_stats fh' = (fs_received s, fs_dropped s, fs_bytes s).
Proof.
  intros Henv Hcap Hops. destruct (feed_init_rep env config Henv Hcap) as (fh & Hi & Hr).
  destruct (rep_run _ _ _ _ _ _ _ Hr Hops) as ([fh' held] & ptrs & Hrun & Hr').
  exists fh, fh', held. split; [done|].
  destruct (spec_run _ _ _ _ _) as [s seen]. cbn [fst snd] in *. split; [done|].
  destruct Hr'. cbn [fst snd] in *. split; [by eapply stored_length|].
  unfold feed_get_stats. congruence.
Qed.

(** C15 -- A whole run of the receive thread, in either mode: whatever [epoll_wait] and
    [recv] return, however many rounds it makes, nothing is undefined, it ends when
    [running] is cleared, the counters are those of the specification, and a
    consumer that pops the output queue afterwards gets the specification's queue,
    message by message.  In the simulated mode the rounds are messages of the random
    walk from 150; in the network mode they are the datagrams of the readable events,
    and when epoll cannot be set up there are none. *)
Theorem recv_thread_delivers env config renv :
  feed_env_ok env config → 1 <= fc_output_queue_size config <= 2 ^ 31 →
  let a := (spec_run config (queue_room config) (pool_room config) (spec_start env config)
              (recv_ops (fc_simulation_mode config) renv)).1 in
  ∃ fh fh' s,
    feed_init env (Some config) = Some fh ∧ recv_thread_func renv fh = Some fh' ∧
    feed_get_stats fh' = (fs_received a, fs_dropped a, fs_bytes a) ∧
    feed_run (fh', []) (replicate (length (fs_queue a)) FPop) = Some (s, fs_queue a).
Proof.
  intros Henv Hcap a. destruct (feed_init_rep env config Henv Hcap) as (fh & Hi & Hr).
  assert (∃ fh' ptrs, recv_thread_func renv fh = Some fh' ∧
    feed_rep config (queue_room config) (pool_room config) (fh', []) a ptrs []) as (fh' & ptrs & H & Hr').
  { pose proof (fr_config _ _ _ _ _ _ _ Hr) as Hc. cbn [fst] in Hc.
    unfold recv_thread_func, recv_ops in *. subst a. unfold feed_thread_start in *.
    destruct (fc_simulation_mode (fh_config fh)) eqn:E; cbn [fh_set_sim fh_config] in Hc; rewrite Hc in E;
      rewrite E in *.
    - exact (rep_sim_loop _ _ _ _ _ _ _ _ Hr).
    - destruct (re_epoll_create renv), (re_epoll_ctl renv); cbn [negb andb]; try by exists fh, [].
      exact (rep_epoll_loop _ _ _ _ _ _ _ _ Hr). }
  destruct (rep_pop_all _ _ _ _ _ _ Hr') as (s & Hs). exists fh, fh', s.
  split; [exact Hi|]. split; [exact H|]. split; [|exact Hs].
  destruct Hr'. cbn [fst] in *. unfold feed_get_stats. congruence.
Qed.

(** The time slept is the interval, and one that [nanosleep] accepts. *)
Lemma sleep_us_exact us :
  0 <= us → let ts := sleep_us us in
  ts.1 * 1000000000 + ts.2 = us * 1000 ∧ 0 <= ts.1 ∧ 0 <= ts.2 < 1000000000.
Proof.
  intros H. cbn. pose proof (Z.div_mod us 1000000 ltac:(lia)).
  pose proof (Z.mod_pos_bound us 1000000 ltac:(lia)). pose proof (Z.div_pos us 1000000). lia.
Qed.

(** *** Nobody reads *)

Lemma spec_unread config n cap s tss :
  fs_held s = [] → (length (fs_queue s) <= Nat.min n cap)%nat →
  fs_received s = Z.of_nat (length (fs_queue s)) →
  0 <= fs_dropped s → fs_received s + fs_dropped s + Z.of_nat (length tss) < 2 ^ 64 →
  let s' := (spec_run config n cap s (FSim <$> tss)).1 in
  let stored := Nat.min (Nat.min n cap) (length (fs_queue s) + length tss) in
  fs_received s' = Z.of_nat stored ∧
  fs_received s' + fs_dropped s' = fs_received s + fs_dropped s + Z.of_nat (length tss).
Proof.
  revert s. induction tss as [|ts tss IH]; intros s Hh Hl Hr Hd Hb; cbn [spec_run fmap list_fmap length];
    [cbn; lia|].
  cbn [spec_step]. unfold spec_object, spec_publish. rewrite Hh. cbn [length].
  destruct (spec_run _ _ _ _ _) as [s' rest] eqn:E; cbn [fst].
  set (s1 := if bool_decide _ then _ else _) in E.
  assert (fs_held s1 = [] ∧ (length (fs_queue s1) <= Nat.min n cap)%nat ∧
    fs_received s1 = Z.of_nat (length (fs_queue s1)) ∧ 0 <= fs_dropped s1 ∧
    fs_received s1 + fs_dropped s1 = fs_received s + fs_dropped s + 1 ∧
    Nat.min (Nat.min n cap) (length (fs_queue s1) + length tss) =
    Nat.min (Nat.min n cap) (length (fs_queue s) + S (length tss)))
    as (I1 & I2 & I3 & I4 & I5 & I6).
  { cbn [length] in Hb. unfold s1. case_bool_decide; [case_decide|]; simpl in *;
      rewrite ?length_app, ?Z.add_0_r, ?Hh; simpl;
      rewrite ?u64_id by (unfold is_u64; lia); split_and!; done || lia. }
  cbn [length] in Hb.
  destruct (IH s1 I1 I2 I3 I4) as [H1 H2]; [lia|]. rewrite E in H1, H2. cbn [fst] in H1, H2.
  rewrite H1, I6 in *. lia.
Qed.

(** When nobody reads the output queue, the simulated feed keeps the first
    [min (size, 2 ^ ceil (log2 size) - 1)] messages and drops every other one, and
    received plus dropped is the number of rounds.  So a queue size that is a
    power of two loses one message to the ring buffer's empty slot (size 1 keeps
    none at all), and for any other size it is the pool that runs out first. *)
Theorem feed_unread_capacity env config tss :
  feed_env_ok env config → 1 <= fc_output_queue_size config <= 2 ^ 31 →
  Z.of_nat (length tss) < 2 ^ 64 →
  ∃ fh fh' bytes kept,
    feed_init env (Some config) = Some fh ∧
    feed_run (feed_thread_start fh, []) (FSim <$> tss) = Some (fh', [], []) ∧
    feed_get_stats fh' = (kept, Z.of_nat (length tss) - kept, bytes) ∧
    kept = Z.min (Z.of_nat (length tss))
             (Z.min (fc_output_queue_size config)
                    (2 ^ Z.log2_up (fc_output_queue_size config) - 1)).
Proof.
  intros Henv Hcap Hlen.
  assert (0 < 2 ^ Z.log2_up (fc_output_queue_size config)) as Hpow
    by (apply Z.pow_pos_nonneg; [lia|apply Z.log2_up_nonneg]).
  destruct (feed_init_rep env config Henv Hcap) as (fh & Hi & Hr).
  set (n := queue_room config) in *. set (cap := pool_room config) in *.
  set (a := spec_start env config) in *.
  assert (∀ s, feed_ops_ok config n cap s (FSim <$> tss)) as Hops
    by (induction tss; intros s; split; [done|apply IHtss; simpl in Hlen; lia]).
  assert (∀ s, (spec_run config n cap s (FSim <$> tss)).2 = [] ∧
               fs_held (spec_run config n cap s (FSim <$> tss)).1 = fs_held s) as Hseen.
  { clear. induction tss as [|ts tss IH]; intros s; [done|]. cbn [fmap list_fmap spec_run spec_step].
    set (s1 := if spec_object _ _ then _ else _).
    destruct (IH s1) as [H1 H2]. fold (list_fmap _ _ FSim) in *.
    destruct (spec_run _ _ _ _ _) as [s' rest]. cbn [fst snd] in *. rewrite H1, H2. split; [done|].
    unfold s1, spec_publish. by repeat case_match. }
  destruct (rep_run _ _ _ _ _ _ _ Hr (Hops a)) as ([fh' held] & ptrs & Hrun & Hr').
  destruct (Hseen a) as [H1 H2]. rewrite H1 in Hrun.
  destruct (spec_unread config n cap a tss) as [H3 H4]; [done|simpl; lia|done..|simpl; lia|].
  destruct Hr'. cbn [fst snd] in *. pose proof (stored_length _ _ _ fr_kept0) as Hk.
  rewrite H2 in Hk. destruct held; [|done].
  eexists fh, fh', _, _. split; [done|]. split; [done|]. unfold feed_get_stats.
  rewrite fr_received0, fr_dropped0. change (fs_received a) with 0 in H4.
  change (fs_dropped a) with 0 in H4. split; [f_equal; f_equal; lia|].
  rewrite H3. simpl. unfold n, cap, queue_room, pool_room. lia.
Qed.

(** *** What the simulated feed sends *)

Definition simulated (op : feed_op) : Prop := match op with FUdp _ => False | _ => True end.

(** The range of a message, with its time and symbol as configured. *)
Definition sim_quote (config : feed_config_t) (msg : feed_msg_t) : Prop :=
  sim_msg_ok msg ∧ fm_symbol msg = feed_symbol config.

Lemma spec_step_quotes config n cap s op :
  simulated op → feed_price_ok (fs_price s) → Forall (sim_quote config) (fs_queue s) →
  let '(s', seen) := spec_step config n cap s op in
  feed_price_ok (fs_price s') ∧ Forall (sim_quote config) (fs_queue s') ∧
  Forall (sim_quote config) (option_list seen).
Proof.
  intros Hop Hp Hq. destruct op as [ts| | |i]; cbn [spec_step]; [|done| |].
  - destruct (spec_object cap s); [|by split_and!].
    unfold spec_publish. cbn [fs_queue fs_set_sim]. case_decide; cbn;
      (split; [by apply next_price_ok|split; [|constructor]]); [|exact Hq].
    apply Forall_app. split; [exact Hq|]. constructor; [|constructor].
    split; [by apply sim_msg_numbers|reflexivity].
  - destruct (fs_queue s) as [|msg queue] eqn:E; cbn; [by rewrite E|].
    apply Forall_cons in Hq as [??]. split_and!; [done..|]. by apply Forall_singleton.
  - by split_and!.
Qed.

Lemma spec_run_quotes config n cap s ops :
  Forall simulated ops → feed_price_ok (fs_price s) → Forall (sim_quote config) (fs_queue s) →
  Forall (sim_quote config) (spec_run config n cap s ops).2.
Proof.
  intros Hops. revert s. induction Hops as [|op ops Hop _ IH]; intros s Hp Hq; [constructor|].
  cbn [spec_run]. pose proof (spec_step_quotes config n cap s op Hop Hp Hq) as H.
  destruct (spec_step config n cap s op) as [s1 seen]. destruct H as (Hp1 & Hq1 & Hs).
  specialize (IH s1 Hp1 Hq1). destruct (spec_run _ _ _ _ _) as [s2 rest]. cbn [snd] in *.
  by apply Forall_app.
Qed.

(** C34 -- Every message the consumer of a simulated feed sees, over any
    interleaving of rounds, pops and returns, has a last price between 10 and
    1000, finite bid and ask prices below [2 ^ 14], sizes and volume inside
    [int32_t] (the casts from [double] are never undefined), a 64-bit time and
    the configured symbol, cut to 15 characters, or AAPL. *)
Theorem simulated_messages_in_range env config ops :
  feed_env_ok env config → 1 <= fc_output_queue_size config <= 2 ^ 31 →
  fc_simulation_mode config = true → Forall simulated ops →
  feed_ops_ok config (queue_room config) (pool_room config) (spec_start env config) ops →
  ∃ fh s seen,
    feed_init env (Some config) = Some fh ∧
    feed_run (feed_thread_start fh, []) ops = Some (s, seen) ∧
    Forall (λ msg, sim_msg_ok msg ∧ fm_symbol msg = feed_symbol config) seen.
Proof.
  intros Henv Hcap Hsim Hs Hops. destruct (feed_init_rep env config Henv Hcap) as (fh & Hi & Hr).
  destruct (rep_run _ _ _ _ _ _ _ Hr Hops) as (s & ptrs & Hrun & _).
  eexists fh, s, _. split; [done|]. split; [done|].
  apply spec_run_quotes; [done| |constructor]. unfold spec_start. cbn [fs_price]. rewrite Hsim.
  apply d_of_Z_le_10_1000.
Qed.

(** *** Witnesses *)

Definition demo_feed_env : feed_env := MkFeedEnv 4096 true 65536 true 3 true true.
Definition demo_feed_config : feed_config_t :=
  MkFeedConfig "127.0.0.1" 9999 true 1000 4 "MSFT".
(** Two rounds, both messages taken, the second returned, two more rounds. *)
Definition demo_feed_ops : list feed_op :=
  [FSim (1, 0); FPop; FSim (1, 5); FPop; FReturn 1; FSim (2, 0); FPop; FPop].

Lemma demo_feed_env_ok : feed_env_ok demo_feed_env demo_feed_config.
Proof. split; done || (cbn; lia). Qed.

Lemma demo_feed_ops_ok :
  feed_ops_ok demo_feed_config (queue_room demo_feed_config) (pool_room demo_feed_config)
    (spec_start demo_feed_env demo_feed_config) demo_feed_ops.
Proof. apply (bool_decide_eq_true_1 (feed_ops_ok _ _ _ _ _)). vm_compute. reflexivity. Qed.

Lemma feed_refines_queue_witness :
  ∃ fh fh' held,
    feed_init demo_feed_env (Some demo_feed_config) = Some fh ∧
    let '(s, seen) := spec_run demo_feed_config (queue_room demo_feed_config)
                        (pool_room demo_feed_config)
                        (spec_start demo_feed_env demo_feed_config) demo_feed_ops in
    feed_run (feed_thread_start fh, []) demo_feed_ops = Some (fh', held, seen) ∧
    length held = length (fs_held s) ∧
    feed_get_stats fh' = (fs_received s, fs_dropped s, fs_bytes s).
Proof.
  apply (feed_refines_queue demo_feed_env demo_feed_config demo_feed_ops).
  - exact demo_feed_env_ok.
  - cbn. lia.
  - exact demo_feed_ops_ok.
Defined.

Lemma feed_unread_capacity_witness :
  ∃ fh fh' bytes kept,
    feed_init demo_feed_env (Some demo_feed_config) = Some fh ∧
    feed_run (feed_thread_start fh, []) (FSim <$> replicate 9 (1, 2)) = Some (fh', [], []) ∧
    feed_get_stats fh' = (kept, 9 - kept, bytes) ∧ kept = 3.
Proof.
  apply (feed_unread_capacity demo_feed_env demo_feed_config (replicate 9 (1, 2))).
  - exact demo_feed_env_ok.
  - cbn. lia.
  - cbn. lia.
Defined.

Lemma simulated_messages_in_range_witness :
  ∃ fh s seen,
    feed_init demo_feed_env (Some demo_feed_config) = Some fh ∧
    feed_run (feed_thread_start fh, []) demo_feed_ops = Some (s, seen) ∧
    Forall (λ msg, sim_msg_ok msg ∧ fm_symbol msg = "MSFT") seen.
Proof.
  apply (simulated_messages_in_range demo_feed_env demo_feed_config demo_feed_ops).
  - exact demo_feed_env_ok.
  - cbn. lia.
  - reflexivity.
  - repeat constructor.
  - exact demo_feed_ops_ok.
Defined.


(** A network feed: a whole message, a short datagram, a timeout, and a long one. *)
Definition demo_udp_config : feed_config_t :=
  MkFeedConfig "127.0.0.1" 9999 false 1000 4 "MSFT".
Definition demo_recv_env : recv_env :=
  MkRecvEnv [] true true
    [[(true, replicate 64 65); (false, []); (true, replicate 63 66)]; []; [(true, replicate 300 67)]].

Lemma recv_thread_delivers_witness :
  ∃ fh fh' s,
    feed_init demo_feed_env (Some demo_udp_config) = Some fh ∧
    recv_thread_func demo_recv_env fh = Some fh' ∧
    feed_get_stats fh' = (2, 0, 383) ∧
    feed_run (fh', []) [FPop; FPop] =
      Some (s, [decode_msg (replicate 64 65); decode_msg (replicate 64 67)]).
Proof.
  apply (recv_thread_delivers demo_feed_env demo_udp_config demo_recv_env).
  - split; done || (cbn; lia).
  - cbn. lia.
Defined.
