(* ===== verification/FeedThreads.v ===== *)
(** * The feed handler: the receive thread and the consumer at once

    The receive thread takes objects from the pool while the consumer gives objects
    back.  Here the two threads are interleaved at every atomic access to the pool;
    a push, a pop, and the writing and reading of a message are one step each (the
    queue has one producer and one consumer, as RingBufferSPSC.v allows).

    The pool is not made for this (see [mempool_not_thread_safe]): an allocation can
    read the entry of a free that has claimed its slot and not yet written it.
    [feed_threads_keeping_up] shows that nothing goes wrong as long as the consumer
    keeps up, that is as long as no message waits when the receive thread takes an
    object; [feed_threads_behind] shows that one waiting message is enough for a
    message to be lost and another to be seen twice. *)

From S2P Require Export FeedQueue.

(** ** The two threads *)

Inductive recv_pc :=
  | RAlloc                       (* about to call [mempool_alloc] *)
  | RUndo                        (* the pool was empty *)
  | RClaimed (old_top : Z)       (* a position is claimed and not yet read *)
  | RFill (p : Z)
  | RPush (p : Z)
  | RFree (p : Z)                (* the queue was full *)
  | RFreeing (pc : free_pc).

Inductive cons_pc :=
  | CPop
  | CRead (p : Z)
  | CFree (p : Z)
  | CFreeing (pc : free_pc).

(** [ft_sent] and [ft_seen] are history: the messages the receive thread has made
    and those the consumer has read. *)
Record feed_threads := MkThreads {
  ft_feed : feed_handler_t;
  ft_recv : recv_pc;
  ft_cons : cons_pc;
  ft_sent : list feed_msg_t;
  ft_seen : list feed_msg_t;
}.

Definition recv_step (ts : Z * Z) (s : feed_threads) : option feed_threads :=
  let '(MkThreads fh pc cp sent seen) := s in
  let mp := fh_msg_pool fh in
  match pc with
  | RAlloc =>
    let '(mp, old_top) := pool_fetch_sub mp in
    Some (MkThreads (fh_set_pool fh mp) (if old_top =? 0 then RUndo else RClaimed old_top)
            cp sent seen)
  | RUndo =>
    Some (MkThreads (fh_count (fh_set_pool fh (pool_fetch_add mp).1) 0 1 0) RAlloc cp sent seen)
  | RClaimed old_top =>
    p ← pool_load mp old_top;
    Some (if p =? 0 then MkThreads (fh_count fh 0 1 0) RAlloc cp sent seen
          else MkThreads fh (RFill p) cp sent seen)
  | RFill p =>
    '(fh, msg) ← simulate_message fh ts;
    Some (MkThreads (fh_store fh p msg) (RPush p) cp (sent ++ [msg]) seen)
  | RPush p =>
    '(q, ok) ← ring_buffer_push (fh_output_queue fh) (Some p);
    let fh := fh_set_queue fh q in
    Some (if ok : bool then MkThreads (fh_count fh 1 0 FEED_MSG_SIZE) RAlloc cp sent seen
          else MkThreads fh (RFree p) cp sent seen)
  | RFree p =>
    '(mp, pc) ← free_begin mp p;
    Some (MkThreads (fh_set_pool fh mp) (RFreeing pc) cp sent seen)
  | RFreeing pc =>
    mp ← free_next mp pc;
    Some (MkThreads (fh_count (fh_set_pool fh mp) 0 1 0) RAlloc cp sent seen)
  end.

(** The consumer reads a message and returns it. *)
Definition cons_step (s : feed_threads) : option feed_threads :=
  let '(MkThreads fh recv pc sent seen) := s in
  match pc with
  | CPop =>
    '(fh, p) ← feed_pop fh;
    Some (MkThreads fh recv (match p with Some p => CRead p | None => CPop end) sent seen)
  | CRead p =>
    msg ← fh_objects fh !! p; Some (MkThreads fh recv (CFree p) sent (seen ++ [msg]))
  | CFree p =>
    '(mp, pc) ← free_begin (fh_msg_pool fh) p;
    Some (MkThreads (fh_set_pool fh mp) recv (CFreeing pc) sent seen)
  | CFreeing pc =>
    mp ← free_next (fh_msg_pool fh) pc; Some (MkThreads (fh_set_pool fh mp) recv CPop sent seen)
  end.

(** The receive thread does not change what was seen; the consumer adds what it reads. *)
Lemma recv_step_seen ts s s' :
  recv_step ts s = Some s' → ft_seen s' = ft_seen s ∧ ft_cons s' = ft_cons s.
Proof.
  destruct s as [fh pc cp sent seen]. destruct pc; cbn [recv_step].
  - destruct (pool_fetch_sub _) as [mp top]. by intros [= <-].
  - by intros [= <-].
  - destruct (pool_load _ _) as [p|]; [|done]. cbn. by destruct (p =? 0); intros [= <-].
  - destruct (simulate_message fh ts) as [[fh' msg]|]; [|done]. by intros [= <-].
  - destruct (ring_buffer_push _ _) as [[q ok]|]; [|done]. by destruct ok; intros [= <-].
  - destruct (free_begin _ _) as [[mp pc]|]; [|done]. by intros [= <-].
  - destruct (free_next _ _) as [mp|]; [|done]. by intros [= <-].
Qed.

Lemma cons_step_seen s s' :
  cons_step s = Some s' →
  match ft_cons s with
  | CRead p => ∃ msg, fh_objects (ft_feed s) !! p = Some msg ∧ ft_seen s' = ft_seen s ++ [msg]
  | _ => ft_seen s' = ft_seen s
  end.
Proof.
  destruct s as [fh recv pc sent seen]. destruct pc; cbn.
  - unfold feed_pop. destruct (ring_buffer_pop _) as [[q ptr]|]; [|done]. by intros [= <-].
  - destruct (fh_objects fh !! p) as [msg|]; [|done]. intros [= <-]. by exists msg.
  - destruct (free_begin _ _) as [[mp pc]|]; [|done]. by intros [= <-].
  - destruct (free_next _ _) as [mp|]; [|done]. by intros [= <-].
Qed.

Inductive ft_action := Recv (ts : Z * Z) | Cons.

Definition ft_step (s : feed_threads) (a : ft_action) : option feed_threads :=
  match a with Recv ts => recv_step ts s | Cons => cons_step s end.

Fixpoint ft_run (s : feed_threads) (sched : list ft_action) : option feed_threads :=
  match sched with [] => Some s | a :: sched => s ← ft_step s a; ft_run s sched end.

Definition ft_start (fh : feed_handler_t) : feed_threads := MkThreads fh RAlloc CPop [] [].

(** *** One thread alone is the sequential code *)

Lemma ft_run_app s sched1 sched2 :
  ft_run s (sched1 ++ sched2) = s ← ft_run s sched1; ft_run s sched2.
Proof.
  revert s. induction sched1 as [|a sched1 IH]; intros s; [done|]. cbn [app ft_run].
  destruct (ft_step s a); [apply IH|done].
Qed.

Lemma recv_alone fh cp sent seen ts fh' :
  sim_round fh ts = Some fh' →
  ∃ k sent', ft_run (MkThreads fh RAlloc cp sent seen) (replicate k (Recv ts)) =
             Some (MkThreads fh' RAlloc cp sent' seen).
Proof.
  unfold sim_round. rewrite alloc_accesses. unfold pool_fetch_sub.
  destruct (free_top (fh_msg_pool fh) =? 0) eqn:Ht.
  - intros [= <-]. exists 2%nat, sent. cbn. by rewrite Ht.
  - set (mp := set_free_top _ _).
    destruct (pool_load mp (free_top (fh_msg_pool fh))) as [p|] eqn:Hl; [|done].
    cbn [mbind option_bind]. destruct (p =? 0) eqn:Hp.
    + intros [= <-]. exists 2%nat, sent. cbn. rewrite Ht. cbn. fold mp. rewrite Hl. cbn.
      by rewrite Hp.
    + destruct (simulate_message (fh_set_pool fh mp) ts) as [[fh1 msg]|] eqn:Hs; [|done].
      cbn [mbind option_bind]. unfold publish. set (fh2 := fh_store fh1 p msg).
      destruct (ring_buffer_push (fh_output_queue fh2) (Some p)) as [[q ok]|] eqn:Hq; [|done].
      cbn [mbind option_bind].
      assert (∀ k, ft_run (MkThreads fh RAlloc cp sent seen) (replicate (4 + k) (Recv ts)) =
        ft_run (if ok then MkThreads (fh_count (fh_set_queue fh2 q) 1 0 FEED_MSG_SIZE) RAlloc cp
                              (sent ++ [msg]) seen
                else MkThreads (fh_set_queue fh2 q) (RFree p) cp (sent ++ [msg]) seen)
          (replicate k (Recv ts))) as Hk.
      { intros k. cbn [Nat.add replicate ft_run ft_step recv_step pool_fetch_sub mbind option_bind].
        unfold pool_fetch_sub. rewrite Ht. fold mp. cbn [ft_run ft_step recv_step mbind option_bind].
        change (fh_msg_pool (fh_set_pool fh mp)) with mp. rewrite Hl. cbn [mbind option_bind].
        rewrite Hp. cbn [ft_run ft_step recv_step mbind option_bind]. rewrite Hs.
        cbn [mbind option_bind ft_run ft_step recv_step]. fold fh2. rewrite Hq. by destruct ok. }
      destruct ok; cbn [negb].
      * intros [= <-]. exists 4%nat, (sent ++ [msg]). apply (Hk 0%nat).
      * rewrite free_accesses. cbn [fh_set_queue fh_msg_pool].
        destruct (free_begin (fh_msg_pool fh2) p) as [[mp1 pc]|] eqn:Hb; [|done].
        cbn [mbind option_bind]. destruct (free_next mp1 pc) as [mp2|] eqn:Hn; [|done].
        intros [= <-]. exists (4 + 2)%nat, (sent ++ [msg]). rewrite Hk. cbn.
        cbn in Hb. rewrite Hb. cbn. by rewrite Hn.
Qed.

(** ** A consumer that keeps up *)

(** No message waits: the queue is empty, and the consumer has read what it took. *)
Definition consumer_idle (s : feed_threads) : bool :=
  ring_buffer_empty (Some (fh_output_queue (ft_feed s))) &&
  match ft_cons s with CPop | CFreeing _ => true | _ => false end.

(** Whenever the receive thread begins to take an object, no message waits. *)
Fixpoint keeps_up (s : feed_threads) (sched : list ft_action) : bool :=
  match sched with
  | [] => true
  | a :: sched =>
    match a, ft_recv s with Recv _, RAlloc => consumer_idle s | _, _ => true end &&
    match ft_step s a with Some s => keeps_up s sched | None => true end
  end.

Section keeping_up.
Context (mp0 : mempool_t) (n : nat) (a : Z).
Context (Hmp : pool_inv mp0 []) (Hn : (0 < n)%nat).
Context (Ha : arr_get (free_list mp0) (mp_capacity mp0 - 1) = Some a).

(** Only the object on top of the stack is ever used. *)
Definition cap : Z := mp_capacity mp0.
Definition obj : Z := object_addr mp0 a.

Inductive quiet : cons_pc → Prop :=
  | QuietPop : quiet CPop
  | QuietStore : quiet (CFreeing (FreeStore a (cap - 1))).

(** What the threads may be doing, with the addresses in the queue, the top of the
    stack, and the message that is made and not yet seen. *)
Inductive phase : recv_pc → cons_pc → list Z → Z → option feed_msg_t → Prop :=
  | PhIdle c : quiet c → phase RAlloc c [] cap None
  | PhClaimed c : quiet c → phase (RClaimed cap) c [] (cap - 1) None
  | PhFill c : quiet c → phase (RFill obj) c [] (cap - 1) None
  | PhPush c msg : quiet c → phase (RPush obj) c [] (cap - 1) (Some msg)
  | PhQueued c msg : quiet c → phase RAlloc c [obj] (cap - 1) (Some msg)
  | PhRead msg : phase RAlloc (CRead obj) [] (cap - 1) (Some msg)
  | PhFree : phase RAlloc (CFree obj) [] (cap - 1) None.

Record ft_inv (s : feed_threads) : Prop := {
  fi_phase : ∃ q top pend,
    phase (ft_recv s) (ft_cons s) q top pend ∧
    q_rep (fh_output_queue (ft_feed s)) n (Some <$> q) ∧
    fh_msg_pool (ft_feed s) = set_free_top mp0 top ∧
    ft_sent s = ft_seen s ++ option_list pend ∧
    (∀ msg, pend = Some msg → fh_objects (ft_feed s) !! obj = Some msg);
  fi_dropped : fh_msgs_dropped (ft_feed s) = 0;
}.

Lemma cap_top : free_top mp0 = cap ∧ 0 < cap < 2 ^ 32.
Proof.
  pose proof (pool_inv_length _ _ Hmp) as Hl. destruct Hmp. cbn in Hl. unfold cap. lia.
Qed.

Lemma obj_pos : (obj =? 0) = false ∧ object_index mp0 obj = Some a ∧ 0 <= a < cap.
Proof.
  assert (0 <= a < cap) as Hb.
  { destruct Hmp. assert (a ∈ free_indices mp0 ++ []) as Hin.
    { rewrite app_nil_r. unfold free_indices. destruct cap_top as [Ht ?]. rewrite Ht, take_ge.
      - unfold arr_get in Ha. destruct (decide _); [|done]. by eapply list_elem_of_lookup_2.
      - unfold cap in *. lia. }
    rewrite pool_perm in Hin. by apply elem_of_all_indices in Hin. }
  split; [|split; [by eapply object_index_addr|done]].
  apply Z.eqb_neq. pose proof (object_addr_pos _ _ a Hmp ltac:(lia)). unfold obj. lia.
Qed.

(** A pending store writes what is there already. *)
Lemma store_same top :
  pool_store (set_free_top mp0 top) (cap - 1) a = Some (set_free_top mp0 top).
Proof.
  unfold pool_store, arr_set. cbn [free_list set_free_top].
  pose proof (arr_get_inv _ _ _ Ha). rewrite decide_True by done. cbn. unfold set_free_list.
  cbn. rewrite list_insert_id; [done|]. unfold arr_get in Ha. unfold cap. by case_decide.
Qed.

Lemma consumer_idle_queue s q :
  q_rep (fh_output_queue (ft_feed s)) n (Some <$> q) → consumer_idle s = true → q = [].
Proof.
  intros (buf & k & Hwf & _ & Hq) Hi. unfold consumer_idle in Hi. apply andb_true_iff in Hi as [Hi _].
  apply (ring_buffer_queries_exact _ _ _ Hwf) in Hi. rewrite Hi in Hq. by destruct q.
Qed.

Lemma cons_step_inv s : ft_inv s → ∃ s', cons_step s = Some s' ∧ ft_inv s'.
Proof.
  destruct s as [fh r c sent seen].
  intros [(q & top & pend & Hph & Hq & Hp & Hsent & Hpend) Hd]. cbn [ft_feed ft_recv ft_cons ft_sent ft_seen] in *.
  destruct cap_top as [Htop Hcap]. destruct obj_pos as (Hobj & Hidx & Hab).
  assert (quiet c → ∃ s', cons_step (MkThreads fh r c sent seen) = Some s' ∧ ft_inv s') as Hquiet.
  { intros Hc. inversion Hc; subst c.
    - cbn [cons_step]. unfold feed_pop. destruct (q_pop_rep _ _ _ Hq) as (q' & Hpop & Hq').
      cbn [q_pop ring_buffer_ops] in Hpop. rewrite Hpop. cbn [mbind option_bind].
      eexists. split; [reflexivity|]. split; [|exact Hd].
      destruct q as [|p q]; cbn [queue_pop fst snd fmap list_fmap] in *.
      + exists [], top, pend. split_and!; try done.
      + exists q, top, pend. split_and!; try done. inversion Hph; subst. constructor.
    - cbn. rewrite Hp, store_same. cbn. eexists. split; [reflexivity|]. split; [|exact Hd].
      exists q, top, pend. split_and!; try done. inversion Hph; subst; repeat constructor. }
  inversion Hph; subst; try (by apply Hquiet).
  - cbn [cons_step]. rewrite (Hpend msg eq_refl). cbn. eexists. split; [reflexivity|].
    split; [|exact Hd]. exists [], (cap - 1), None. cbn. split; [constructor|].
    split; [exact Hq|]. split; [exact Hp|]. by rewrite app_nil_r.
  - cbn [cons_step]. unfold free_begin. rewrite Hobj, Hp.
    change (object_index (set_free_top mp0 (cap - 1)) obj) with (object_index mp0 obj).
    rewrite Hidx. cbn [mbind option_bind]. unfold pool_fetch_add.
    cbn [mp_capacity set_free_top free_top]. fold cap.
    rewrite (proj2 (Z.leb_gt cap a)), (proj2 (Z.leb_gt cap (cap - 1))) by lia.
    rewrite u32_id by (unfold is_u32; lia). eexists. split; [reflexivity|].
    split; [|exact Hd]. exists [], cap, None. cbn. split; [repeat constructor|].
    split; [exact Hq|]. split; [by rewrite Z.sub_add|]. done.
Qed.

Lemma recv_step_inv ts s :
  ft_inv s → (ft_recv s = RAlloc → consumer_idle s = true) →
  ∃ s', recv_step ts s = Some s' ∧ ft_inv s'.
Proof.
  destruct s as [fh r c sent seen].
  intros [(q & top & pend & Hph & Hq & Hp & Hsent & Hpend) Hd] Hidle.
  pose proof (λ H, consumer_idle_queue _ _ Hq (Hidle H)) as Hempty.
  cbn [ft_feed ft_recv ft_cons ft_sent ft_seen] in *.
  destruct cap_top as [Htop Hcap]. destruct obj_pos as (Hobj & Hidx & Hab).
  inversion Hph as [c' Hc|c' Hc|c' Hc|c' msg Hc|c' msg Hc|msg|]; subst; cbn [recv_step].
  - unfold pool_fetch_sub. rewrite Hp. cbn [free_top set_free_top].
    rewrite (proj2 (Z.eqb_neq _ _)) by lia. rewrite u32_id by (unfold is_u32; lia).
    eexists. split; [reflexivity|]. split; [|exact Hd]. exists [], (cap - 1), None. cbn.
    split; [by constructor|]. by split_and!.
  - unfold pool_load. rewrite Hp. cbn [free_list set_free_top].
    rewrite u32_id by (unfold is_u32; lia). unfold cap. rewrite Ha. cbn [mbind option_bind].
    change (object_addr (set_free_top mp0 _) a) with obj. rewrite Hobj.
    eexists. split; [reflexivity|]. split; [|exact Hd]. exists [], (cap - 1), None. cbn.
    split; [by constructor|]. by split_and!.
  - rewrite simulate_message_eq. cbn [mbind option_bind]. eexists. split; [reflexivity|].
    split; [|exact Hd]. eexists [], (cap - 1), (Some _). cbn. split; [by constructor|].
    split; [exact Hq|]. split; [exact Hp|]. split; [by rewrite app_nil_r in *|].
    intros msg [= <-]. apply lookup_insert_eq.
  - destruct (q_push_rep _ _ _ (Some obj) Hq) as (q' & Hpush & Hq').
    cbn [q_push ring_buffer_ops] in Hpush. rewrite Hpush. unfold queue_push in *.
    cbn [fmap list_fmap length] in *. rewrite decide_True in Hq' by done.
    rewrite decide_True by done. cbn [mbind option_bind fst snd]. eexists. split; [reflexivity|].
    split; [|by cbn; rewrite Hd]. exists [obj], (cap - 1), (Some msg). cbn.
    split; [by constructor|]. by split_and!.
  - discriminate (Hempty eq_refl).
  - specialize (Hidle eq_refl). unfold consumer_idle in Hidle. cbn in Hidle.
    by rewrite andb_false_r in Hidle.
  - specialize (Hidle eq_refl). unfold consumer_idle in Hidle. cbn in Hidle.
    by rewrite andb_false_r in Hidle.
Qed.

Lemma ft_run_inv sched s :
  ft_inv s → keeps_up s sched = true → ∃ s', ft_run s sched = Some s' ∧ ft_inv s'.
Proof.
  revert s. induction sched as [|act sched IH]; intros s Hs Hk; [by exists s|].
  cbn [keeps_up ft_run] in *. apply andb_true_iff in Hk as [Hi Hk].
  assert (∃ s', ft_step s act = Some s' ∧ ft_inv s') as (s1 & H1 & Hs1).
  { destruct act as [ts|]; [|by apply cons_step_inv]. apply recv_step_inv; [done|].
    intros E. by rewrite E in Hi. }
  rewrite H1 in *. cbn [mbind option_bind]. by apply IH.
Qed.

End keeping_up.

(** ** Properties *)

(** A handler with nothing in its queue. *)
Lemma ft_start_rep config fh spec :
  2 <= fc_output_queue_size config <= 2 ^ 31 → fs_dropped spec = 0 →
  feed_rep config (queue_room config) (pool_room config) (fh, []) spec [] [] →
  ∃ mp0 a, pool_inv mp0 [] ∧ (0 < queue_room config)%nat ∧
    arr_get (free_list mp0) (mp_capacity mp0 - 1) = Some a ∧
    mp_capacity mp0 = fc_output_queue_size config ∧
    ft_inv mp0 (queue_room config) a (ft_start fh).
Proof.
  intros Hsize Hd0 [Hq (used & Hu & Hinv) Hcap _ _ _ _ _ _ Hd _]. cbn [fst snd app] in *.
  symmetry in Hu. apply fmap_nil_inv in Hu as ->.
  destruct (arr_get_Some (free_list (fh_msg_pool fh)) (mp_capacity (fh_msg_pool fh) - 1))
    as [a Ha]; [destruct Hinv; lia|].
  exists (fh_msg_pool fh), a. split; [exact Hinv|]. split; [|split; [exact Ha|]].
  - unfold queue_room. assert (2 ^ 1 <= 2 ^ Z.log2_up (fc_output_queue_size config)); [|lia].
    apply Z.pow_le_mono_r; [lia|].
    pose proof (Z.log2_up_pos (fc_output_queue_size config)). lia.
  - split; [rewrite Hcap; unfold pool_room; lia|]. split; [|cbn; congruence].
    exists [], (cap (fh_msg_pool fh)), None. split; [repeat constructor|].
    split; [exact Hq|]. split; [|done]. cbn.
    pose proof (pool_inv_length _ _ Hinv) as Ht. cbn in Ht. unfold cap. rewrite <- Ht.
    by destruct (fh_msg_pool fh).
Qed.

(** The handler that [feed_init] makes. *)
Lemma ft_start_inv env config fh :
  feed_env_ok env config → 2 <= fc_output_queue_size config <= 2 ^ 31 →
  feed_init env (Some config) = Some fh →
  ∃ mp0 a, pool_inv mp0 [] ∧ (0 < queue_room config)%nat ∧
    arr_get (free_list mp0) (mp_capacity mp0 - 1) = Some a ∧
    mp_capacity mp0 = fc_output_queue_size config ∧
    ft_inv mp0 (queue_room config) a (ft_start (feed_thread_start fh)).
Proof.
  intros Henv Hsize Hi. destruct (feed_init_rep env config Henv) as (fh' & Hi' & Hr); [lia|].
  rewrite Hi in Hi'. injection Hi' as <-.
  by apply (ft_start_rep config _ (spec_start env config)).
Qed.

(** *** The messages that are made *)

(** Every message made is in range, whatever the two threads do. *)
Definition sent_ok (s : feed_threads) : Prop :=
  feed_price_ok (fh_sim_base_price (ft_feed s)) ∧ Forall sim_msg_ok (ft_sent s).

Lemma recv_step_sent_ok ts s s' : sent_ok s → recv_step ts s = Some s' → sent_ok s'.
Proof.
  destruct s as [fh pc cp sent seen]. intros [Hp Hm]. cbn in Hp, Hm.
  destruct pc; cbn [recv_step].
  - destruct (pool_fetch_sub _) as [mp top]. by intros [= <-].
  - by intros [= <-].
  - destruct (pool_load _ _) as [p|]; [|done]. cbn. by destruct (p =? 0); intros [= <-].
  - rewrite simulate_message_eq. cbn [mbind option_bind]. intros [= <-].
    split; [by apply next_price_ok|]. apply Forall_app. split; [exact Hm|].
    constructor; [by apply sim_msg_numbers|constructor].
  - destruct (ring_buffer_push _ _) as [[q ok]|]; [|done]. by destruct ok; intros [= <-].
  - destruct (free_begin _ _) as [[mp pc]|]; [|done]. by intros [= <-].
  - destruct (free_next _ _) as [mp|]; [|done]. by intros [= <-].
Qed.

Lemma cons_step_sent_ok s s' : sent_ok s → cons_step s = Some s' → sent_ok s'.
Proof.
  destruct s as [fh recv pc sent seen]. intros [Hp Hm]. cbn in Hp, Hm.
  destruct pc; cbn [cons_step].
  - unfold feed_pop. destruct (ring_buffer_pop _) as [[q ptr]|]; [|done]. cbn.
    destruct ptr; by intros [= <-].
  - destruct (fh_objects fh !! p); [|done]. by intros [= <-].
  - destruct (free_begin _ _) as [[mp pc]|]; [|done]. by intros [= <-].
  - destruct (free_next _ _) as [mp|]; [|done]. by intros [= <-].
Qed.

Lemma ft_run_sent_ok sched s s' : sent_ok s → ft_run s sched = Some s' → sent_ok s'.
Proof.
  revert s. induction sched as [|a sched IH]; intros s Hs; cbn [ft_run]; [by intros [= <-]|].
  destruct (ft_step s a) as [s1|] eqn:Ha; [|done]. cbn [mbind option_bind]. apply IH.
  destruct a as [ts|]; [by apply (recv_step_sent_ok ts s)|by apply (cons_step_sent_ok s)].
Qed.

(** As long as the consumer keeps up, sharing the pool is harmless: for a handler
    of any queue size from 2, and any interleaving of the two threads' accesses to the
    pool, the queue and the messages in which no message waits whenever the receive
    thread begins to take an object (the consumer may still be giving the last one
    back), no access is undefined, the consumer sees every message exactly once and in
    order, at most one message behind, and none is dropped. *)
Theorem feed_threads_keeping_up env config fh sched
    (Henv : feed_env_ok env config) (Hsize : 2 <= fc_output_queue_size config <= 2 ^ 31)
    (Hinit : feed_init env (Some config) = Some fh)
    (Hup : keeps_up (ft_start (feed_thread_start fh)) sched = true) :
  ∃ s, ft_run (ft_start (feed_thread_start fh)) sched = Some s ∧
    ft_seen s `prefix_of` ft_sent s ∧ (length (ft_sent s) <= S (length (ft_seen s)))%nat ∧
    fh_msgs_dropped (ft_feed s) = 0 ∧
    fc_output_queue_size config - 1 <= mempool_available (Some (fh_msg_pool (ft_feed s))).
Proof.
  destruct (ft_start_inv env config fh Henv Hsize Hinit) as (mp0 & a & Hmp & Hn & Ha & Hc & Hs).
  destruct (ft_run_inv mp0 _ a Hmp Hn Ha sched _ Hs Hup) as (s & Hr & [(q & top & pend & Hph & _ & Hp & Hsent & _) Hd]).
  exists s. split; [exact Hr|]. rewrite Hsent. split; [by apply prefix_app_r|].
  split; [rewrite length_app; destruct pend; cbn; lia|]. split; [exact Hd|].
  rewrite Hp. cbn. rewrite <- Hc. change (mp_capacity mp0) with (cap mp0). inversion Hph; lia.
Qed.

(** The configuration of the event pipeline. *)
Definition behind_config : feed_config_t := MkFeedConfig "" 0 true 500 4096 "AAPL".

(** Two messages are made; the consumer reads the first and begins to return it; the
    receive thread makes a third message before the consumer's store. *)
Definition behind_sched : list ft_action :=
  replicate 4 (Recv (1, 0)) ++ replicate 4 (Recv (2, 0)) ++ replicate 3 Cons ++
  replicate 4 (Recv (3, 0)) ++ replicate 9 Cons.

(** The handler when [feed_start] has created the receive thread. *)
Definition started (fh : feed_handler_t) : feed_handler_t :=
  feed_thread_start (fh_set_running fh true).

(** What a run has to show; the handler stays abstract. *)
Lemma behind_shown (o : option feed_handler_t) sched ts st av :
  let run := fh ← o; ft_run (ft_start fh) sched in
  (λ s, (ft_seen s, ft_cons s)) <$> run =
    (λ s, (match ft_sent s with [m1; m2; m3] => [m1; m3; m3] | _ => [] end, CPop)) <$> run →
  (λ s, (fm_timestamp_ns <$> ft_sent s, feed_get_stats (ft_feed s),
         mempool_available (Some (fh_msg_pool (ft_feed s))),
         drop 4094 (free_list (fh_msg_pool (ft_feed s))))) <$> run = Some (ts, st, av, [1; 1]) →
  length ts = 3%nat →
  ∃ fh s m1 m2 m3,
    o = Some fh ∧ ft_run (ft_start fh) sched = Some s ∧
    ts = fm_timestamp_ns <$> [m1; m2; m3] ∧
    ft_sent s = [m1; m2; m3] ∧ ft_seen s = [m1; m3; m3] ∧
    feed_get_stats (ft_feed s) = st ∧
    mempool_available (Some (fh_msg_pool (ft_feed s))) = av ∧
    ¬ NoDup (free_list (fh_msg_pool (ft_feed s))).
Proof.
  destruct o as [fh|]; [|done]. cbn [mbind option_bind]. cbv zeta.
  destruct (ft_run _ sched) as [s|] eqn:Hrun; [|done]. intros [= Hseen _] [= <- <- <- Hl] Hts.
  rewrite length_fmap in Hts.
  destruct (ft_sent s) as [|m1 [|m2 [|m3 [|]]]] eqn:Hsent; try done.
  exists fh, s, m1, m2, m3. split_and!; try done.
  intros Hnd. rewrite <- (take_drop 4094 (free_list _)), Hl in Hnd.
  apply NoDup_app in Hnd as (_ & _ & Hnd). apply NoDup_cons in Hnd as [Hin _].
  apply Hin. by left.
Qed.

(** One message of backlog is enough to break the feed, in the configuration of
    the pipeline: with a second message waiting while the consumer returns the first,
    the receive thread can be given the object that holds the waiting message. The
    consumer then sees the first message, and the third one twice; the second is lost,
    no message counts as dropped, and the pool afterwards says that all 4096 objects
    are free while one of them is in its stack twice. *)
Theorem feed_threads_behind :
  ∃ fh fh1 s m1 m2 m3,
    feed_init demo_feed_env (Some behind_config) = Some fh ∧
    feed_start true (Some fh) = (Some fh1, 0) ∧
    ft_run (ft_start (feed_thread_start fh1)) behind_sched = Some s ∧
    fm_timestamp_ns m1 = 1000000000 ∧ fm_timestamp_ns m2 = 2000000000 ∧
    fm_timestamp_ns m3 = 3000000000 ∧
    ft_sent s = [m1; m2; m3] ∧ ft_seen s = [m1; m3; m3] ∧
    feed_get_stats (ft_feed s) = (3, 0, 192) ∧
    mempool_available (Some (fh_msg_pool (ft_feed s))) = 4096 ∧
    ¬ NoDup (free_list (fh_msg_pool (ft_feed s))).
Proof.
  destruct (behind_shown (started <$> feed_init demo_feed_env (Some behind_config))
    behind_sched [1000000000; 2000000000; 3000000000] (3, 0, 192) 4096)
    as (fh1 & s & m1 & m2 & m3 & (fh & H1 & ->)%fmap_Some & H2 & [= T1 T2 T3] & H);
    [vm_compute; reflexivity..|].
  by exists fh, (fh_set_running fh true), s, m1, m2, m3.
Qed.

(** ** Witness *)

(** Three messages, each taken while the store that returns the one before is still
    to come. *)
Definition ex_keep_up : list ft_action :=
  replicate 4 (Recv (1, 0)) ++ replicate 3 Cons ++ replicate 4 (Recv (2, 0)) ++ [Cons] ++
  replicate 3 Cons ++ replicate 2 (Recv (3, 0)) ++ [Cons] ++ replicate 2 (Recv (3, 0)) ++
  replicate 4 Cons.

Lemma feed_threads_keeping_up_witness :
  match feed_init demo_feed_env (Some demo_feed_config) with
  | Some fh => ∃ s, ft_run (ft_start (feed_thread_start fh)) ex_keep_up = Some s ∧
                 ft_seen s `prefix_of` ft_sent s ∧ fh_msgs_dropped (ft_feed s) = 0
  | None => False
  end.
Proof.
  destruct (feed_init demo_feed_env (Some demo_feed_config)) as [fh|] eqn:Hi;
    [|vm_compute in Hi; discriminate Hi].
  destruct (feed_threads_keeping_up demo_feed_env demo_feed_config fh ex_keep_up
              demo_feed_env_ok ltac:(cbn; lia) Hi) as (s & H1 & H2 & _ & H3 & _).
  - assert ((λ fh, keeps_up (ft_start (feed_thread_start fh)) ex_keep_up) <$>
              feed_init demo_feed_env (Some demo_feed_config) = Some true) as Hk
      by (vm_compute; reflexivity).
    rewrite Hi in Hk. cbn [fmap option_fmap option_map] in Hk. by injection Hk.
  - exists s. by split_and!.
Defined.
