(* ===== verification/Gateway.v ===== *)
(** * The execution gateway (include/execution_gateway.h, src/execution_gateway.c)

    The log file of the simulation mode is the text written to it; the
    acknowledgement callback is a function on the state [U] of its user and does
    not call the gateway.  The monotonic clock, the time of day and the results
    of [calloc] and [fopen] are arguments.  Sending over a socket is not
    implemented by the source. *)

From S2P Require Export Printf.

Inductive gw_conn_state_t := GW_DISCONNECTED | GW_CONNECTING | GW_CONNECTED | GW_ERROR.

#[export] Instance gw_conn_state_eq_dec : EqDecision gw_conn_state_t.
Proof. solve_decision. Defined.

Record gw_config_t := MkGwConfig {
  gc_host : string;
  gc_port : Z;
  gc_max_retries : Z;
  gc_retry_delay_ns : Z;
  gc_connect_timeout_ns : Z;
  gc_max_pending_acks : Z;
  gc_simulation_mode : bool;
  gc_sim_log_file : string;
}.

(** The C string at the start of [s]. *)
Definition cstr (s : string) : string := strn (String.length s) s.

Definition newline : string := String (Ascii.ascii_of_nat 10) EmptyString.

Section gateway.
Context {U : Type}.

(** order id, status, user data *)
Notation gw_ack_callback_t := (Z → Z → Z → U → U).

Record execution_gateway_t := MkGateway {
  gw_config : gw_config_t;
  gw_state : gw_conn_state_t;
  gw_sim_file : option string;
  gw_ack_cb : option gw_ack_callback_t;
  gw_ack_user_data : Z;
  gw_orders_sent : Z;
  gw_orders_acked : Z;
  gw_orders_rejected : Z;
}.

Definition gw_set_state (gw : execution_gateway_t) st : execution_gateway_t :=
  MkGateway (gw_config gw) st (gw_sim_file gw) (gw_ack_cb gw) (gw_ack_user_data gw)
    (gw_orders_sent gw) (gw_orders_acked gw) (gw_orders_rejected gw).
Definition gw_set_file (gw : execution_gateway_t) f : execution_gateway_t :=
  MkGateway (gw_config gw) (gw_state gw) f (gw_ack_cb gw) (gw_ack_user_data gw)
    (gw_orders_sent gw) (gw_orders_acked gw) (gw_orders_rejected gw).
Definition gw_set_counts (gw : execution_gateway_t) sent acked : execution_gateway_t :=
  MkGateway (gw_config gw) (gw_state gw) (gw_sim_file gw) (gw_ack_cb gw) (gw_ack_user_data gw)
    sent acked (gw_orders_rejected gw).

(** [fprintf] to the log file, which is open in append mode. *)
Definition gw_print (gw : execution_gateway_t) (s : string) : execution_gateway_t :=
  gw_set_file gw ((λ f, f +:+ s) <$> gw_sim_file gw).

(** [log]: the contents of the log file if [fopen] works. *)
Definition gw_init (calloc_ok : bool) (log : option string) (now : Z)
    (config : option gw_config_t) : option execution_gateway_t :=
  config ← config;
  if negb calloc_ok then None else
  let gw := MkGateway config GW_DISCONNECTED None None 0 0 0 0 in
  Some
    (if gc_simulation_mode config then
       let gw := gw_set_file gw log in
       let gw := gw_print gw ("=== Execution Gateway Started at " +:+ fmt_d (u64 now) +:+
                              " ===" +:+ newline) in
       gw_set_state gw GW_CONNECTED
     else if negb (bool_decide (cstr (gc_host config) = "")) then
       gw_set_state gw GW_CONNECTED
     else gw_set_state gw GW_DISCONNECTED).

Definition gw_shutdown (gw : option execution_gateway_t) : option execution_gateway_t :=
  gw ← gw;
  let gw := gw_print gw ("=== Execution Gateway Shutdown ===" +:+ newline) in
  let gw := gw_print gw ("  Orders sent:     " +:+ fmt_d (gw_orders_sent gw) +:+ newline) in
  let gw := gw_print gw ("  Orders acked:    " +:+ fmt_d (gw_orders_acked gw) +:+ newline) in
  let gw := gw_print gw ("  Orders rejected: " +:+ fmt_d (gw_orders_rejected gw) +:+ newline) in
  Some (gw_set_state gw GW_DISCONNECTED).

(** What is left of a destroyed gateway: the log file. *)
Definition gw_destroy (gw : option execution_gateway_t) : option string :=
  gw ← gw; gw_sim_file gw.

Definition gw_now_nanos (ts : Z * Z) : Z := u64 (u64 (u64 ts.1 * 1000000000) + u64 ts.2).

Definition send_line (send_time : Z) (msg : string) : string :=
  "SEND | " +:+ fmt_d send_time +:+ " | " +:+ cstr msg +:+ newline.

(** [msg = None] is the null pointer; [u] is the state the callback works on. *)
Definition gw_send_order (ts : Z * Z) (gw : option execution_gateway_t) (msg : option string)
    (msg_len order_id : Z) (u : U) : option execution_gateway_t * U * Z :=
  match gw, msg with
  | Some g, Some msg =>
    if msg_len =? 0 then (gw, u, -1)
    else if negb (bool_decide (gw_state g = GW_CONNECTED)) then (gw, u, -1)
    else
      let send_time := gw_now_nanos ts in
      let '(g, u) :=
        match gw_sim_file g with
        | Some _ =>
          let g := gw_print g (send_line send_time msg) in
          let g := gw_set_counts g (gw_orders_sent g) (u64 (gw_orders_acked g + 1)) in
          (g, match gw_ack_cb g with
              | Some cb => cb order_id 0 (gw_ack_user_data g) u
              | None => u
              end)
        | None => (g, u)
        end in
      (Some (gw_set_counts g (u64 (gw_orders_sent g + 1)) (gw_orders_acked g)), u, 0)
  | _, _ => (gw, u, -1)
  end.

Definition gw_set_ack_callback (gw : option execution_gateway_t)
    (cb : option gw_ack_callback_t) (user_data : Z) : option execution_gateway_t :=
  gw ← gw;
  Some (MkGateway (gw_config gw) (gw_state gw) (gw_sim_file gw) cb user_data
          (gw_orders_sent gw) (gw_orders_acked gw) (gw_orders_rejected gw)).

Definition gw_get_state (gw : option execution_gateway_t) : gw_conn_state_t :=
  match gw with Some gw => gw_state gw | None => GW_ERROR end.

Definition gw_pending_acks (gw : option execution_gateway_t) : Z :=
  match gw with
  | Some gw => u32 (u64 (gw_orders_sent gw - gw_orders_acked gw))
  | None => 0
  end.

End gateway.

#[global] Arguments execution_gateway_t : clear implicits.

(** ** Serialization *)

Definition order_line (order_id : Z) (symbol : string) (side order_type : Ascii.ascii)
    (price : double) (quantity timestamp_ns : Z) : string :=
  let side_str := if decide (side = Ascii.ascii_of_nat 66) then "BUY" else "SELL" in
  let type_str := if decide (order_type = Ascii.ascii_of_nat 76) then "LIMIT" else "MARKET" in
  "ORDER|" +:+ fmt_d order_id +:+ "|" +:+ cstr symbol +:+ "|" +:+ side_str +:+ "|" +:+
  type_str +:+ "|" +:+ fmt_f 4 price +:+ "|" +:+ fmt_d quantity +:+ "|" +:+
  fmt_d timestamp_ns.

(** What the buffer holds afterwards and the return value. *)
Definition gw_serialize_order (buf_given : bool) (buf_size : Z) (order_id : Z) (symbol : string)
    (side order_type : Ascii.ascii) (price : double) (quantity timestamp_ns : Z)
    : option string * Z :=
  if negb buf_given || (buf_size =? 0) then (None, -1) else
  let line := order_line order_id symbol side order_type price quantity timestamp_ns in
  let written := Z.of_nat (String.length line) in
  (Some (snprintf (Z.to_nat buf_size) line),
   if (0 <? written) && (written <? buf_size) then 0 else -1).
