(* ===== verification/GatewayProps.v ===== *)
(** * The execution gateway: its properties *)

From stdpp Require Import pretty.
From S2P Require Export Gateway.

(** ** Fields separated by bars, in C strings *)

Definition bar : Ascii.ascii := Ascii.ascii_of_nat 124.

Fixpoint free_of (c : Ascii.ascii) (s : string) : bool :=
  match s with
  | EmptyString => true
  | String d s => negb (bool_decide (d = c)) && free_of c s
  end.

Notation no_bar := (free_of bar).
Notation no_nul := (free_of Ascii.zero).

Lemma free_of_app c a b : free_of c (a +:+ b) = free_of c a && free_of c b.
Proof.
  induction a as [|d a IH]; [done|].
  change (String d a +:+ b) with (String d (a +:+ b)). simpl. by rewrite IH, andb_assoc.
Qed.

(** The first bar ends the first field. *)
Lemma field_split a b x y :
  no_bar a = true → no_bar b = true → a +:+ ("|" +:+ x) = b +:+ ("|" +:+ y) → a = b ∧ x = y.
Proof.
  revert b. induction a as [|c a IH]; intros [|d b] Ha Hb He.
  - by injection He.
  - injection He as <- _. done.
  - injection He as -> _. done.
  - injection He as -> He. simpl in Ha, Hb. apply andb_true_iff in Ha as [_ Ha].
    apply andb_true_iff in Hb as [_ Hb]. by destruct (IH b Ha Hb He) as [-> ->].
Qed.

(** The conversions of [printf] make neither bars nor NULs. *)
Section conversions.
Context (c : Ascii.ascii) (Hc : c = bar ∨ c = Ascii.zero).

Lemma free_of_digit x : free_of c (String (pretty_N_char x) "") = true.
Proof. destruct Hc as [->| ->]; unfold pretty_N_char; by repeat case_match. Qed.

Lemma free_of_pretty_go x s : free_of c s = true → free_of c (pretty_N_go x s) = true.
Proof.
  revert s. induction (N.lt_wf_0 x) as [x _ IH]; intros s Hs.
  destruct (decide (x = 0)%N) as [->|Hx]; [done|].
  rewrite pretty_N_go_step by lia. apply IH; [apply N.div_lt; lia|].
  pose proof (free_of_digit (x `mod` 10)%N) as Hd. simpl in *.
  by rewrite andb_true_r in Hd; rewrite Hd.
Qed.

Lemma free_of_N (x : N) : free_of c (pretty x) = true.
Proof.
  unfold pretty, pretty_N. case_decide; [by destruct Hc as [->| ->]|]. by apply free_of_pretty_go.
Qed.

Lemma free_of_Z (z : Z) : free_of c (fmt_d z) = true.
Proof.
  unfold fmt_d. destruct z; [by destruct Hc as [->| ->]|apply free_of_N|].
  unfold pretty, pretty_Z. rewrite free_of_app. apply andb_true_iff.
  split; [by destruct Hc as [->| ->]|apply (free_of_N (Npos p))].
Qed.

Lemma free_of_zeros n : free_of c (zeros n) = true.
Proof. induction n; simpl; [done|]. rewrite IHn. by destruct Hc as [->| ->]. Qed.

Lemma free_of_digits k n : free_of c (fmt_digits k n) = true.
Proof. unfold fmt_digits. rewrite free_of_app, free_of_zeros. apply free_of_Z. Qed.

Lemma free_of_fixed s n k : free_of c (fmt_fixed s n k) = true.
Proof.
  unfold fmt_fixed. rewrite free_of_app, free_of_app.
  change (pretty (n / 10 ^ Z.of_nat k)) with (fmt_d (n / 10 ^ Z.of_nat k)). rewrite free_of_Z.
  destruct k; [|rewrite free_of_app, free_of_digits]; by destruct Hc as [->| ->], s.
Qed.

Lemma free_of_f k x : free_of c (fmt_f k x) = true.
Proof.
  destruct x as [s|[]| |s m e]; simpl; auto using free_of_fixed; by destruct Hc as [->| ->].
Qed.

End conversions.

Lemma no_bar_Z z : no_bar (fmt_d z) = true.
Proof. apply free_of_Z. by left. Qed.
Lemma no_bar_f k x : no_bar (fmt_f k x) = true.
Proof. apply free_of_f. by left. Qed.
Lemma no_nul_Z z : no_nul (fmt_d z) = true.
Proof. apply free_of_Z. by right. Qed.
Lemma no_nul_f k x : no_nul (fmt_f k x) = true.
Proof. apply free_of_f. by right. Qed.

(** A string that fits and has no NUL is kept whole. *)
Lemma strn_no_nul n s : no_nul s = true → (String.length s <= n)%nat → strn n s = s.
Proof.
  revert s. induction n as [|n IH]; intros [|c s] Hs Hl; try done; [simpl in Hl; lia|].
  unfold strn; fold strn. simpl in Hs, Hl. apply andb_true_iff in Hs as [Hc Hs].
  rewrite decide_False by (intros ->; done). rewrite IH; [done..|lia].
Qed.

Lemma no_nul_strn n s : no_nul (strn n s) = true.
Proof.
  revert s. induction n as [|n IH]; intros [|c s]; try done.
  unfold strn; fold strn. case_decide as Hc; [done|]. simpl.
  by rewrite bool_decide_false, IH by done.
Qed.

Lemma app_prefix_inj (p a b : string) : p +:+ a = p +:+ b → a = b.
Proof.
  induction p as [|c p IH]; [done|]. intros H. apply IH. by injection H.
Qed.

Lemma no_bar_if (c d : Ascii.ascii) a b :
  no_bar a = true → no_bar b = true → no_bar (if decide (c = d) then a else b) = true.
Proof. intros Ha Hb. by destruct (decide (c = d)). Qed.

(** Peel one field off both lines. *)
Ltac split_field H :=
  apply field_split in H as [? H]; [|auto using no_bar_Z, no_bar_f..].

(** C31 -- The order message says which order it is: two orders with symbols
    free of bars give the same line only if they agree in id, symbol, side,
    type, quantity and timestamp, and in price to four decimals; the call
    returns 0 exactly if the buffer holds the whole line, and never writes more
    than the buffer. *)
Theorem order_message_faithful size id1 id2 sym1 sym2 sd1 sd2 ty1 ty2 p1 p2 q1 q2 ts1 ts2
    (Hs1 : no_bar (cstr sym1) = true) (Hs2 : no_bar (cstr sym2) = true) (Hsize : 0 < size) :
  let line1 := order_line id1 sym1 sd1 ty1 p1 q1 ts1 in
  (line1 = order_line id2 sym2 sd2 ty2 p2 q2 ts2 →
   id1 = id2 ∧ cstr sym1 = cstr sym2 ∧
   (sd1 = Ascii.ascii_of_nat 66 ↔ sd2 = Ascii.ascii_of_nat 66) ∧
   (ty1 = Ascii.ascii_of_nat 76 ↔ ty2 = Ascii.ascii_of_nat 76) ∧
   fmt_f 4 p1 = fmt_f 4 p2 ∧ q1 = q2 ∧ ts1 = ts2) ∧
  ∃ buf rc, gw_serialize_order true size id1 sym1 sd1 ty1 p1 q1 ts1 = (Some buf, rc) ∧
    (String.length buf < Z.to_nat size)%nat ∧
    (rc = 0 ↔ Z.of_nat (String.length line1) < size).
Proof.
  cbv zeta. split.
  - unfold order_line. intros H. apply app_prefix_inj in H.
    split_field H. split_field H.
    apply field_split in H as [Hside H]; [|by apply no_bar_if..].
    apply field_split in H as [Htype H]; [|by apply no_bar_if..].
    split_field H. split_field H. unfold fmt_d in *. simplify_eq.
    split_and!; try done; repeat case_decide; naive_solver.
  - unfold gw_serialize_order. simpl. rewrite (proj2 (Z.eqb_neq size 0)) by lia.
    eexists _, _. split; [done|]. split; [apply snprintf_length; lia|].
    assert (0 < Z.of_nat (String.length (order_line id1 sym1 sd1 ty1 p1 q1 ts1))) as H0.
    { unfold order_line. simpl. lia. }
    zcases; simpl; lia.
Qed.

(** ** Sending *)

Section sending.
Context {U : Type}.

(** A message to send: clock, text, length, order id. *)
Definition send_req : Type := Z * Z * string * Z * Z.

Fixpoint send_all (gw : option (execution_gateway_t U)) (u : U) (reqs : list send_req)
    : option (execution_gateway_t U) * U * list Z :=
  match reqs with
  | [] => (gw, u, [])
  | (ts, msg, len, id) :: reqs =>
    let '(gw, u, rc) := gw_send_order ts gw (Some msg) len id u in
    let '(gw, u, rcs) := send_all gw u reqs in (gw, u, rc :: rcs)
  end.

Definition req_line (r : send_req) : string :=
  let '(ts, msg, _, _) := r in send_line (gw_now_nanos ts) msg.

(** The callback called for every id in order. *)
Definition ack_all (cb : Z → Z → Z → U → U) (data : Z) (u : U) (reqs : list send_req) : U :=
  foldl (λ u r, cb r.2 0 data u) u reqs.

Definition total_lines (reqs : list send_req) : string :=
  foldr (λ r s, req_line r +:+ s) "" reqs.

(** A connected gateway in simulation mode with an open log file. *)
Lemma send_all_logged g log u reqs cb :
  gw_state g = GW_CONNECTED → gw_sim_file g = Some log → gw_ack_cb g = Some cb →
  is_u64 (gw_orders_sent g) → is_u64 (gw_orders_acked g) →
  gw_orders_acked g + Z.of_nat (length reqs) < 2 ^ 64 →
  gw_orders_sent g + Z.of_nat (length reqs) < 2 ^ 64 →
  Forall (λ r, r.1.2 ≠ 0) reqs →
  ∃ g', send_all (Some g) u reqs =
          (Some g', ack_all cb (gw_ack_user_data g) u reqs, replicate (length reqs) 0) ∧
    gw_sim_file g' = Some (log +:+ total_lines reqs) ∧ gw_state g' = GW_CONNECTED ∧
    gw_orders_sent g' = gw_orders_sent g + Z.of_nat (length reqs) ∧
    gw_orders_acked g' = gw_orders_acked g + Z.of_nat (length reqs).
Proof.
  intros Hst Hf Hcb Hs Ha Hla Hls Hreqs. revert g log u Hst Hf Hcb Hs Ha Hla Hls.
  induction Hreqs as [|[[[ts msg] len] id] reqs Hlen _ IH]; intros g log u Hst Hf Hcb Hs Ha Hla Hls.
  - exists g. simpl. split_and!; try done; [|lia..]. rewrite Hf. by rewrite str_app_nil.
  - cbn [send_all length replicate]. unfold gw_send_order. simpl in Hlen.
    rewrite (proj2 (Z.eqb_neq len 0)) by done. rewrite bool_decide_true by done. cbn [negb].
    rewrite Hf. cbn [length] in *. simpl. rewrite Hcb.
    set (g1 := gw_set_counts _ _ _).
    assert (gw_orders_sent g1 = gw_orders_sent g + 1 ∧ gw_orders_acked g1 = gw_orders_acked g + 1)
      as [Hs1 Ha1].
    { unfold g1. simpl. unfold is_u64 in *. rewrite !u64_id by (unfold is_u64; lia). done. }
    unfold is_u64 in *.
    destruct (IH g1 (log +:+ send_line (gw_now_nanos ts) msg) (cb id 0 (gw_ack_user_data g) u))
      as (g' & -> & Hf' & Hst' & Hs' & Ha'); try lia; try done.
    { unfold g1, gw_print. simpl. by rewrite Hf. }
    exists g'. split_and!; [done| |done|lia|lia].
    rewrite Hf'. by rewrite str_app_assoc.
Qed.

(** A connected gateway whose log file could not be opened. *)
Lemma send_all_unlogged g u reqs :
  gw_state g = GW_CONNECTED → gw_sim_file g = None → is_u64 (gw_orders_sent g) →
  gw_orders_sent g + Z.of_nat (length reqs) < 2 ^ 64 → Forall (λ r, r.1.2 ≠ 0) reqs →
  ∃ g', send_all (Some g) u reqs = (Some g', u, replicate (length reqs) 0) ∧
    gw_sim_file g' = None ∧ gw_state g' = GW_CONNECTED ∧
    gw_orders_sent g' = gw_orders_sent g + Z.of_nat (length reqs) ∧
    gw_orders_acked g' = gw_orders_acked g.
Proof.
  intros Hst Hf Hs Hls Hreqs. revert g u Hst Hf Hs Hls.
  induction Hreqs as [|[[[ts msg] len] id] reqs Hlen _ IH]; intros g u Hst Hf Hs Hls.
  - exists g. simpl. split_and!; try done; lia.
  - cbn [send_all length replicate] in *. unfold gw_send_order. simpl in Hlen.
    rewrite (proj2 (Z.eqb_neq len 0)) by done. rewrite bool_decide_true by done. cbn [negb].
    rewrite Hf. set (g1 := gw_set_counts _ _ _). unfold is_u64 in *.
    assert (gw_orders_sent g1 = gw_orders_sent g + 1) as Hs1.
    { unfold g1. simpl. rewrite u64_id by (unfold is_u64; lia). done. }
    destruct (IH g1 u) as (g' & -> & Hf' & Hst' & Hs' & Ha'); try lia; try done.
    exists g'. split_and!; try done; lia.
Qed.

(** C30 -- In simulation mode every order that is sent is logged and
    acknowledged exactly once and in order: from a gateway whose log file
    opened, sending any non-empty messages returns 0 for each, appends one
    line per message to the log in the order of the calls, calls the callback
    once per order id with status 0 in the same order, and leaves nothing
    pending. *)
Theorem simulated_orders_acknowledged config log now cb data u reqs
    (Hsim : gc_simulation_mode config = true)
    (Hreqs : Forall (λ r, r.1.2 ≠ 0) reqs) (Hfew : Z.of_nat (length reqs) < 2 ^ 64) :
  ∃ g g', gw_set_ack_callback (gw_init true (Some log) now (Some config)) (Some cb) data = Some g ∧
    send_all (Some g) u reqs = (Some g', ack_all cb data u reqs, replicate (length reqs) 0) ∧
    gw_destroy (Some g') = Some (log +:+ ("=== Execution Gateway Started at " +:+ fmt_d (u64 now) +:+
                                  " ===" +:+ newline) +:+ total_lines reqs) ∧
    gw_pending_acks (Some g') = 0.
Proof.
  unfold gw_init. simpl. rewrite Hsim. simpl.
  match goal with |- ∃ g g', Some ?g0 = Some g ∧ _ =>
    destruct (send_all_logged g0 (log +:+ ("=== Execution Gateway Started at " +:+
      fmt_d (u64 now) +:+ " ===" +:+ newline)) u reqs cb) as (g' & Hsend & Hf & Hst & Hs & Ha);
      try done; simpl; try lia; exists g0, g' end.
  split; [done|]. split; [exact Hsend|]. split.
  - simpl. rewrite Hf. by rewrite str_app_assoc.
  - simpl. rewrite Hs, Ha. simpl. by rewrite Z.sub_diag.
Qed.

(** Without its log file the simulated gateway drops orders silently: if
    [fopen] fails, [gw_init] still returns a connected gateway, every send
    returns 0, no callback is called and nothing is written, and all orders
    stay pending. *)
Theorem missing_log_drops_orders config now cb data u reqs
    (Hsim : gc_simulation_mode config = true)
    (Hreqs : Forall (λ r, r.1.2 ≠ 0) reqs) (Hfew : Z.of_nat (length reqs) < 2 ^ 32) :
  ∃ g g', gw_set_ack_callback (gw_init true None now (Some config)) (Some cb) data = Some g ∧
    gw_get_state (Some g) = GW_CONNECTED ∧
    send_all (Some g) u reqs = (Some g', u, replicate (length reqs) 0) ∧
    gw_destroy (Some g') = None ∧ gw_pending_acks (Some g') = Z.of_nat (length reqs).
Proof.
  unfold gw_init. simpl. rewrite Hsim. simpl.
  match goal with |- ∃ g g', Some ?g0 = Some g ∧ _ =>
    destruct (send_all_unlogged g0 u reqs) as (g' & Hsend & Hf & Hst & Hs & Ha);
      try done; simpl; try lia; exists g0, g' end.
  split; [done|]. split; [done|]. split; [exact Hsend|]. split; [exact Hf|].
  simpl. rewrite Hs, Ha. simpl. rewrite Z.sub_0_r.
  rewrite u64_id, u32_id by (unfold is_u64, is_u32; lia). done.
Qed.

End sending.


(** ** Witnesses *)

Definition ex_gw_config : gw_config_t :=
  MkGwConfig "" 0 3 1000 1000 64 true "orders.log".

Definition ex_reqs : list send_req := [((1, 5), "ORDER|7|A", 9, 7); ((2, 0), "ORDER|8|A", 9, 8)].

Lemma order_message_faithful_witness :
  ∃ buf rc, gw_serialize_order true 64 7 "AAPL" (Ascii.ascii_of_nat 66) (Ascii.ascii_of_nat 76)
              (d_zero) 10 99 = (Some buf, rc) ∧
    (String.length buf < Z.to_nat 64)%nat ∧
    (rc = 0 ↔ Z.of_nat (String.length (order_line 7 "AAPL" (Ascii.ascii_of_nat 66)
       (Ascii.ascii_of_nat 76) (d_zero) 10 99)) < 64).
Proof.
  exact (proj2 (order_message_faithful 64 7 7 "AAPL" "AAPL" _ (Ascii.ascii_of_nat 66) _
    (Ascii.ascii_of_nat 76) _ (d_zero) 10 10 99 99 eq_refl eq_refl eq_refl)).
Defined.

Lemma simulated_orders_acknowledged_witness :
  ∃ g g', gw_set_ack_callback (gw_init true (Some "") 3 (Some ex_gw_config))
            (Some (λ id _ _ u, u ++ [id])) 0 = Some g ∧
    send_all (Some g) [] ex_reqs = (Some g', [7; 8], [0; 0]) ∧
    gw_destroy (Some g') = Some ("=== Execution Gateway Started at 3 ===" +:+ newline +:+
      "SEND | 1000000005 | ORDER|7|A" +:+ newline +:+ "SEND | 2000000000 | ORDER|8|A" +:+ newline) ∧
    gw_pending_acks (Some g') = 0.
Proof.
  apply (simulated_orders_acknowledged ex_gw_config "" 3 (λ id _ _ u, u ++ [id]) 0 [] ex_reqs eq_refl);
    [by repeat constructor|done].
Defined.

Lemma missing_log_drops_orders_witness :
  ∃ g g', gw_set_ack_callback (gw_init true None 3 (Some ex_gw_config))
            (Some (λ id _ _ u, u ++ [id])) 0 = Some g ∧
    gw_get_state (Some g) = GW_CONNECTED ∧
    send_all (Some g) [] ex_reqs = (Some g', [], [0; 0]) ∧
    gw_destroy (Some g') = None ∧ gw_pending_acks (Some g') = 2.
Proof.
  apply (missing_log_drops_orders ex_gw_config 3 (λ id _ _ u, u ++ [id]) 0 [] ex_reqs eq_refl);
    [by repeat constructor|done].
Defined.
