(* ===== verification/Pipeline.v ===== *)
(** * The event pipeline (include/event_pipeline.h, src/event_pipeline.cpp):
    definitions

    The hot path ([strategy_on_market_data], [process_market_data]) composes the
    order book, the risk engine, the feed handler and the serialization of the
    gateway; what it has for the I/O thread are writes to event objects, which
    it emits into the two queues of TwoQueues.v.  An event object is reused, and
    a write sets only some of its fields: it is a function on the object.  The
    I/O stage ([process_io_event]) composes the journal, the gateway and the
    logger, the last as the list of log calls it makes, whose fate is told in
    Logger.v.

    [clock] is the clock of the book; the other clock readings and the results
    of system calls are in records of one per message or event.  The code is
    compiled with TRADING_MEASURE_LATENCY, as CMakeLists.txt has it.  A [None]
    result is undefined behaviour. *)

From S2P Require Export OrderBook RiskEngine Journal Gateway Logger FeedHandler.

(** ** Data *)

(** The counters of the hot path; [io_events_dropped] is [ep_dropped] below, since
    it is counted where the events are emitted. *)
Record PipelineStats := MkStats {
  market_data_msgs : Z;
  orders_created : Z;
  orders_accepted : Z;
  orders_rejected : Z;
  trades_generated : Z;
  orders_executed : Z;
  avg_latency_us : double;
}.

Definition zero_stats : PipelineStats := MkStats 0 0 0 0 0 0 d_zero.

(** Adding to the counters, which are [uint64_t]. *)
Definition count_stats (st : PipelineStats) (msgs created accepted rejected trades executed : Z)
    : PipelineStats :=
  MkStats (u64 (market_data_msgs st + msgs)) (u64 (orders_created st + created))
    (u64 (orders_accepted st + accepted)) (u64 (orders_rejected st + rejected))
    (u64 (trades_generated st + trades)) (u64 (orders_executed st + executed))
    (avg_latency_us st).

Inductive IOEventType := ORDER_ACCEPTED | ORDER_REJECTED | ORDER_FILLED | TRADE.

#[export] Instance IOEventType_eq_dec : EqDecision IOEventType.
Proof. solve_decision. Defined.

Record IOEvent := MkIOEvent {
  ev_type : IOEventType;
  ev_order_id : Z;
  ev_account_id : Z;
  ev_price : double;
  ev_quantity : Z;
  ev_filled_qty : Z;
  ev_timestamp_ns : Z;
  ev_side : Z;
  ev_order_type : Z;
  ev_status : Z;
  ev_symbol : string;
  ev_reject_reason : string;
  ev_trade_id : Z;
  ev_buy_order_id : Z;
  ev_sell_order_id : Z;
  ev_trade_price : double;
  ev_trade_qty : Z;
  ev_trade_ts_ns : Z;
  ev_trade_symbol : string;
  ev_send_to_gateway : bool;
  ev_gw_msg : string;          (* up to the last byte that is not NUL *)
  ev_gw_msg_len : Z;
}.

(** An object of the block from [calloc]. *)
Definition zero_event : IOEvent :=
  MkIOEvent ORDER_ACCEPTED 0 0 d_zero 0 0 0 0 0 0 "" "" 0 0 0 d_zero 0 0 "" false "" 0.

(** *** The writes of the hot path *)

Definition write_rejected (o : Order) (reason : string) (e : IOEvent) : IOEvent :=
  MkIOEvent ORDER_REJECTED (o_id o) (o_account_id o) (o_price o) (o_quantity o) 0
    (o_timestamp_ns o) (if is_buy o then 0 else 1) (if is_limit o then 0 else 1)
    (status_code REJECTED) (o_symbol o) (strn 255 reason)
    (ev_trade_id e) (ev_buy_order_id e) (ev_sell_order_id e) (ev_trade_price e) (ev_trade_qty e)
    (ev_trade_ts_ns e) (ev_trade_symbol e) false (ev_gw_msg e) (ev_gw_msg_len e).

(** [memcpy] of the first [n] bytes at the C string [src] over [dst]. *)
Definition memcpy_str (dst src : string) (n : nat) : string :=
  String.substring 0 n (src +:+ String Ascii.zero "") +:+
  String.substring n (String.length dst - n) dst.

Definition write_order (r : Order) (send : bool) (gw_msg : string) (gw_msg_len : Z) (e : IOEvent)
    : IOEvent :=
  MkIOEvent (if 0 <? o_filled_qty r then ORDER_FILLED else ORDER_ACCEPTED)
    (o_id r) (o_account_id r) (o_price r) (o_quantity r) (o_filled_qty r)
    (o_timestamp_ns r) (if is_buy r then 0 else 1) (if is_limit r then 0 else 1)
    (status_code (o_status r)) (o_symbol r) (ev_reject_reason e)
    (ev_trade_id e) (ev_buy_order_id e) (ev_sell_order_id e) (ev_trade_price e) (ev_trade_qty e)
    (ev_trade_ts_ns e) (ev_trade_symbol e) send
    (if send then memcpy_str (ev_gw_msg e) gw_msg (Z.to_nat (gw_msg_len + 1)) else ev_gw_msg e)
    (if send then gw_msg_len else ev_gw_msg_len e).

(** The sixteen bytes of the symbol are copied, with a NUL among them or not. *)
Definition write_trade (t : Trade) (e : IOEvent) : IOEvent :=
  MkIOEvent TRADE (ev_order_id e) (ev_account_id e) (ev_price e) (ev_quantity e) (ev_filled_qty e)
    (ev_timestamp_ns e) (ev_side e) (ev_order_type e) (ev_status e) (ev_symbol e)
    (ev_reject_reason e)
    (t_trade_id t) (t_buy_order_id t) (t_sell_order_id t) (t_price t) (t_quantity t)
    (t_timestamp_ns t) (t_symbol t) (ev_send_to_gateway e) (ev_gw_msg e) (ev_gw_msg_len e).

Notation io_write := (IOEvent → IOEvent) (only parsing).

(** ** The hot path *)

(** What only the hot path touches. *)
Record hot_state := MkHot {
  ht_book : OrderBook;
  ht_risk : RiskEngine;
  ht_next_order_id : Z;
  ht_stats : PipelineStats;
}.

(** [fetch_add(1)] on an [std::atomic<int32_t>], which wraps. *)
Definition generate_order_id (counter : Z) : Z * Z := (i32 (counter + 1), counter).

Definition strategy_order (id : Z) (price : double) (side : Side) (msg : feed_msg_t) : Order :=
  MkOrder id 1 price 100 (o_filled_qty default_order) (fm_timestamp_ns msg) side LIMIT
    (o_status default_order) (fm_symbol msg).

Definition msg_mid (msg : feed_msg_t) : double :=
  d_div (d_add (fm_bid_price msg) (fm_ask_price msg)) (d_of_Z 2).
Definition msg_offset (msg : feed_msg_t) : double :=
  d_mul (d_sub (fm_ask_price msg) (fm_bid_price msg)) (d_lit 1 1).

(** The new counter and the orders. *)
Definition strategy_on_market_data (counter : Z) (msg : feed_msg_t) : Z * list Order :=
  let '(counter, id1) := generate_order_id counter in
  let '(counter, id2) := generate_order_id counter in
  (counter, [strategy_order id1 (d_sub (msg_mid msg) (msg_offset msg)) BUY msg;
             strategy_order id2 (d_add (msg_mid msg) (msg_offset msg)) SELL msg]).

(** Is the result of [add_order] sent on, and with which text? *)
Definition sends (r : Order) : bool :=
  bool_decide (o_status r = NEW) || bool_decide (o_status r = PARTIAL).

Definition GW_MAX_MSG_SIZE : Z := 512.

(** [gw_serialize_order] prints [result.symbol] with [%s]. *)
Definition gateway_message (r : Order) : option (option string * Z) :=
  symbol ← read_symbol (o_symbol r);
  Some (gw_serialize_order true GW_MAX_MSG_SIZE (o_id r) symbol
    (Ascii.ascii_of_nat (if is_buy r then 66 else 83))
    (Ascii.ascii_of_nat (if is_limit r then 76 else 77))
    (o_price r) (o_quantity r) (o_timestamp_ns r)).

(** The text, its length, and whether it counts as executed. *)
Definition prepare_message (r : Order) : option (string * Z * Z) :=
  if sends r then
    '(msg, rc) ← gateway_message r;
    let msg := default ""%string msg in
    Some (if rc =? 0 then (msg, Z.of_nat (String.length (cstr msg)), 1) else (msg, 0, 0))
  else Some (""%string, 0, 0).

Section hot_path.
Context (clock : nat → Z * Z).

(** The body of the loop over the orders, with the second that [validate]
    reads: the state after it and the writes for the I/O thread, in order. *)
Definition process_order (sec : Z) (h : hot_state) (order : Order)
    : option (hot_state * list io_write) :=
  let st := count_stats (ht_stats h) 0 1 0 0 0 0 in
  let mid := mid_price (ht_book h) in
  let '(risk, ok) := validate (ht_risk h) order mid sec in
  if negb ok then
    Some (MkHot (ht_book h) risk (ht_next_order_id h) (count_stats st 0 0 0 1 0 0),
          [write_rejected order (last_reject_reason risk)])
  else
    let st := count_stats st 0 0 1 0 0 0 in
    let '(book, result) := add_order clock (ht_book h) order in
    '(gw_msg, gw_msg_len, executed) ← prepare_message result;
    let st := count_stats st 0 0 0 0 0 executed in
    let '(book, trades) := drain_trades book in
    let st := count_stats st 0 0 0 0 (Z.of_nat (length trades)) 0 in
    let risk :=
      if 0 <? o_filled_qty result then
        on_order_executed risk result (o_filled_qty result)
          (if d_lt d_zero (o_price result) then o_price result else mid)
      else risk in
    Some (MkHot book risk (ht_next_order_id h) st,
          write_order result (sends result) gw_msg gw_msg_len :: (write_trade <$> trades)).

Fixpoint process_orders (secs : list Z) (h : hot_state) (orders : list Order)
    : option (hot_state * list io_write) :=
  match orders with
  | [] => Some (h, [])
  | order :: orders =>
    '(h, w1) ← process_order (default 0 (head secs)) h order;
    '(h, w2) ← process_orders (tail secs) h orders;
    Some (h, w1 ++ w2)
  end.

(** The clock readings for one message. *)
Record md_env := MkMdEnv {
  me_secs : list Z;          (* of [validate], one per order *)
  me_start : Z * Z;
  me_end : Z * Z;
}.

Definition latency_us (env : md_env) : double :=
  d_div (d_of_Z (u64 (feed_now_nanos (me_end env) - feed_now_nanos (me_start env)))) (d_of_Z 1000).

Definition update_latency (st : PipelineStats) (l : double) : PipelineStats :=
  MkStats (market_data_msgs st) (orders_created st) (orders_accepted st) (orders_rejected st)
    (trades_generated st) (orders_executed st)
    (if d_eq (avg_latency_us st) d_zero then l
     else d_add (d_mul (avg_latency_us st) (d_lit 9 1)) (d_mul l (d_lit 1 1))).

Definition set_hot_stats (h : hot_state) st : hot_state :=
  MkHot (ht_book h) (ht_risk h) (ht_next_order_id h) st.

(** The part of [process_market_data] on the state of the hot path. *)
Definition hot_message (env : md_env) (h : hot_state) (msg : feed_msg_t)
    : option (hot_state * list io_write) :=
  let h := set_hot_stats h (count_stats (ht_stats h) 1 0 0 0 0 0) in
  let '(counter, orders) := strategy_on_market_data (ht_next_order_id h) msg in
  let h := MkHot (ht_book h) (ht_risk h) counter (ht_stats h) in
  '(h, writes) ← process_orders (me_secs env) h orders;
  Some (set_hot_stats h (update_latency (ht_stats h) (latency_us env)), writes).

(** ** The pipeline *)

Definition io_queues : Type := two_queues IOEvent (ring_buffer_t nat).

(** Pop, write and push, or count the event as dropped. *)
Fixpoint emit_all (q : io_queues) (dropped : Z) (writes : list io_write)
    : option (io_queues * Z) :=
  match writes with
  | [] => Some (q, dropped)
  | w :: writes =>
    r ← tq_emit q w;
    emit_all r.1 (if (r : io_queues * bool).2 then dropped else u64 (dropped + 1)) writes
  end.

(** What the I/O thread works on; the logger as the calls made to it. *)
Record io_state := MkIoState {
  io_log_calls : list log_call;
  io_journal : option journal_t;
  io_gateway : option (execution_gateway_t unit);
}.

Record EventPipeline := MkPipeline {
  ep_hot : hot_state;
  ep_feed : feed_handler_t;
  ep_queues : io_queues;
  ep_dropped : Z;
  ep_io : io_state;
  ep_running : bool;
}.

Definition process_market_data (env : md_env) (p : EventPipeline) (msg : option Z)
    : option EventPipeline :=
  match msg with
  | None => Some p
  | Some ptr =>
    msg ← fh_objects (ep_feed p) !! ptr;
    '(h, writes) ← hot_message env (ep_hot p) msg;
    '(q, dropped) ← emit_all (ep_queues p) (ep_dropped p) writes;
    feed ← feed_return_msg (Some (ep_feed p)) (Some ptr);
    feed ← feed;
    Some (MkPipeline h feed q dropped (ep_io p) (ep_running p))
  end.

(** One round of [consumer_loop], and of its drain: is there more? *)
Definition consumer_round (env : md_env) (p : EventPipeline) : option (EventPipeline * bool) :=
  '(feed, msg) ← feed_pop (ep_feed p);
  let p := MkPipeline (ep_hot p) feed (ep_queues p) (ep_dropped p) (ep_io p) (ep_running p) in
  p ← process_market_data env p msg;
  Some (p, bool_decide (is_Some msg)).

End hot_path.

(** ** The I/O stage *)

(** The clock readings and results of system calls for one event; [ie_junk]
    is stack contents that no log of the pipeline shows. *)
Record io_env := MkIoEnv {
  ie_log_time : Z * Z;
  ie_append : append_env;
  ie_gw_time : Z * Z;
  ie_junk : list Z;
}.

Definition log_io (env : io_env) (level : log_level_t) (text : string) (s : io_state) : io_state :=
  MkIoState (io_log_calls s ++ [(ie_log_time env, level, text)]) (io_journal s) (io_gateway s).

(** [if (journal_) journal_log_order(...)], the result ignored. *)
Definition journal_order (env : io_env) (type : journal_record_type_t) (e : IOEvent)
    (filled_qty status : Z) (s : io_state) : option io_state :=
  match io_journal s with
  | None => Some s
  | Some j =>
    '(j, _) ← journal_log_order (ie_append env) (Some j) type (ev_order_id e) (ev_account_id e)
                (ev_price e) (ev_quantity e) filled_qty (ev_timestamp_ns e) (ev_side e)
                (ev_order_type e) status (Some (ev_symbol e)) (ie_junk env);
    Some (MkIoState (io_log_calls s) j (io_gateway s))
  end.

Definition journal_trade (env : io_env) (e : IOEvent) (s : io_state) : option io_state :=
  match io_journal s with
  | None => Some s
  | Some j =>
    '(j, _) ← journal_log_trade (ie_append env) (Some j) (ev_trade_id e) (ev_buy_order_id e)
                (ev_sell_order_id e) (ev_trade_price e) (ev_trade_qty e) (ev_trade_ts_ns e)
                (Some (ev_trade_symbol e)) (ie_junk env);
    Some (MkIoState (io_log_calls s) j (io_gateway s))
  end.

(** [if (event.send_to_gateway) gw_send_order(...)] *)
Definition dispatch (env : io_env) (e : IOEvent) (s : io_state) : io_state :=
  if ev_send_to_gateway e then
    let '(gw, _, _) := gw_send_order (ie_gw_time env) (io_gateway s) (Some (ev_gw_msg e))
                         (ev_gw_msg_len e) (ev_order_id e) tt in
    MkIoState (io_log_calls s) (io_journal s) gw
  else s.

Definition rejected_text (e : IOEvent) : string :=
  "[WARN]  Order " +:+ fmt_d (ev_order_id e) +:+ " REJECTED: " +:+ ev_reject_reason e.
Definition filled_text (e : IOEvent) : string :=
  "[INFO]  Order " +:+ fmt_d (ev_order_id e) +:+ " FILLED: " +:+
  (if ev_side e =? 0 then "BUY" else "SELL") +:+ " " +:+ fmt_d (ev_filled_qty e) +:+ "@" +:+
  fmt_f 2 (ev_price e) +:+ " status=" +:+ fmt_d (ev_status e).
(** The symbol is printed with [%s]: undefined if [trade_symbol] has no NUL.  (So it is
    here also when the logger has no free entry and does not format the line.) *)
Definition trade_text (e : IOEvent) : option string :=
  symbol ← read_symbol (ev_trade_symbol e);
  Some ("[INFO]  TRADE id=" +:+ fmt_d (ev_trade_id e) +:+ " " +:+ symbol +:+ " " +:+
        fmt_d (ev_trade_qty e) +:+ "@" +:+ fmt_f 2 (ev_trade_price e) +:+ " (buy=" +:+
        fmt_d (ev_buy_order_id e) +:+ ", sell=" +:+ fmt_d (ev_sell_order_id e) +:+ ")").

Definition process_io_event (env : io_env) (e : IOEvent) (s : io_state) : option io_state :=
  match ev_type e with
  | ORDER_REJECTED =>
    let s := log_io env LOG_WARN (rejected_text e) s in
    journal_order env JRNL_ORDER_REJECT e 0 (status_code REJECTED) s
  | ORDER_ACCEPTED =>
    s ← journal_order env JRNL_ORDER_NEW e (ev_filled_qty e) (ev_status e) s;
    Some (dispatch env e s)
  | ORDER_FILLED =>
    let s := log_io env LOG_INFO (filled_text e) s in
    s ← journal_order env JRNL_ORDER_FILLED e (ev_filled_qty e) (ev_status e) s;
    Some (dispatch env e s)
  | TRADE =>
    text ← trade_text e;
    let s := log_io env LOG_INFO text s in
    journal_trade env e s
  end.

(** ** The two threads

    [io_loop] is the reader of Handoff.v; what it works on is the state of the
    I/O stage with the number of events processed, which selects the
    environment of the next. *)
Section io_thread.
Context (envs : nat → io_env).

Definition io_process (e : IOEvent) (o : nat * option io_state) : nat * option io_state :=
  (S o.1, o.2 ≫= process_io_event (envs o.1) e).

Notation io_handoff := (handoff (E:=IOEvent) (Q:=ring_buffer_t nat) (O:=nat * option io_state)).

(** One access of [io_loop]; the object is left as it is. *)
Definition io_loop_step : io_handoff → option io_handoff := reader_step io_process (λ e, e).

Definition pipeline_run : io_handoff → list actor → option io_handoff :=
  handoff_run io_process (λ e, e).

Definition pipeline_start (q : io_queues) (writes : list io_write) (s : io_state) : io_handoff :=
  handoff_start q writes (0%nat, Some s).

End io_thread.

(** ** Initialisation *)

Definition pipeline_limits : RiskLimits :=
  MkLimits 10000 10000000 50000000 (d_of_Z 500000000) (d_of_Z 10) 50000 true.

Definition pipeline_gw_config : gw_config_t :=
  MkGwConfig "" 0 0 0 0 0 true "execution_gateway.log".

Definition pipeline_feed_config (symbol : string) : feed_config_t :=
  MkFeedConfig "" 0 true 500 4096 (strn 15 symbol).

Record init_env := MkInitEnv {
  iv_logger : option logger_t;       (* the result of [logger_init] *)
  iv_gw_calloc : bool;
  iv_gw_log : option string;
  iv_gw_time : Z;
  iv_feed : feed_env;
  iv_free_queue : bool;
  iv_filled_queue : bool;
  iv_event_pool : bool;
  iv_log_time : Z * Z;
}.

Definition IO_EVENTS : Z := 4096.

(** The pipeline and the return value; a failed initialisation leaves no
    pipeline that can be used. *)
Definition pipeline_init (env : init_env) (symbol : string) : option (option EventPipeline * Z) :=
  match iv_logger env with
  | None => Some (None, -1)
  | Some _ =>
    let calls := [(iv_log_time env, LOG_INFO,
                   "[INFO]  EventPipeline initializing for symbol " +:+ cstr symbol)] in
    let risk := set_limits new_risk_engine pipeline_limits in
    match gw_init (iv_gw_calloc env) (iv_gw_log env) (iv_gw_time env) (Some pipeline_gw_config),
          feed_init (iv_feed env) (Some (pipeline_feed_config symbol)) with
    | Some gw, Some feed =>
      let zero := RingBuffer 0 0 None 0 0 in
      match ring_buffer_init (iv_free_queue env) (Some zero) IO_EVENTS,
            ring_buffer_init (iv_filled_queue env) (Some zero) IO_EVENTS with
      | (Some free, 0), (Some filled, 0) =>
        if negb (iv_event_pool env) then Some (None, -1) else
        free ← push_all free (seq 0 (Z.to_nat IO_EVENTS));
        let calls := calls ++ [(iv_log_time env, LOG_INFO,
                                "[INFO]  EventPipeline initialized successfully"%string)] in
        Some (Some (MkPipeline (MkHot (new_book symbol) risk 1 zero_stats) feed
                      (MkTq free filled (replicate (Z.to_nat IO_EVENTS) zero_event)) 0
                      (MkIoState calls None (Some gw)) false), 0)
      | _, _ => Some (None, -1)
      end
    | _, _ => Some (None, -1)
    end
  end.

Definition set_journal (p : EventPipeline) (j : option journal_t) : EventPipeline :=
  MkPipeline (ep_hot p) (ep_feed p) (ep_queues p) (ep_dropped p)
    (MkIoState (io_log_calls (ep_io p)) j (io_gateway (ep_io p))) (ep_running p).

Definition stats (p : EventPipeline) : PipelineStats * Z := (ht_stats (ep_hot p), ep_dropped p).

Definition order_book (p : EventPipeline) : OrderBook := ht_book (ep_hot p).
Definition risk_engine (p : EventPipeline) : RiskEngine := ht_risk (ep_hot p).

(** ** Rounds

    One round of a thread as one step: what it does between two looks at its
    queue. *)

(** The next event, if there is one, is processed; then its object is released. *)
Definition io_next (release : io_queues → nat → option io_queues) (env : io_env)
    (p : EventPipeline) : option EventPipeline :=
  '(q, ptr) ← tq_next (ep_queues p);
  match ptr with
  | None => Some (MkPipeline (ep_hot p) (ep_feed p) q (ep_dropped p) (ep_io p) (ep_running p))
  | Some ptr =>
    e ← tq_pool q !! ptr;
    io ← process_io_event env e (ep_io p);
    q ← release q ptr;
    Some (MkPipeline (ep_hot p) (ep_feed p) q (ep_dropped p) io (ep_running p))
  end.

(** One round of [io_loop], and one of its drain loop, which does not return the
    object to the free queue. *)
Definition io_round (env : io_env) (p : EventPipeline) : option EventPipeline :=
  io_next tq_recycle env p.
Definition io_drain_round (env : io_env) (p : EventPipeline) : option EventPipeline :=
  io_next (λ q _, Some q) env p.

(** ** Starting and stopping *)

Definition log_main (time : Z * Z) (level : log_level_t) (text : string) (p : EventPipeline)
    : EventPipeline :=
  MkPipeline (ep_hot p) (ep_feed p) (ep_queues p) (ep_dropped p)
    (MkIoState (io_log_calls (ep_io p) ++ [(time, level, text)]) (io_journal (ep_io p))
       (io_gateway (ep_io p))) (ep_running p).

Definition set_feed_running (p : EventPipeline) feed running : EventPipeline :=
  MkPipeline (ep_hot p) feed (ep_queues p) (ep_dropped p) (ep_io p) running.

(** Which of the three [pthread_create] calls work. *)
Record start_env := MkStartEnv {
  se_feed : bool;
  se_io : bool;
  se_consumer : bool;
  se_time : Z * Z;
}.

(** The dash in the last text is a UTF-8 character; it is [dash] here. *)
Definition dash : string :=
  String (Ascii.ascii_of_nat 226) (String (Ascii.ascii_of_nat 128)
    (String (Ascii.ascii_of_nat 148) "")).

Definition start (env : start_env) (p : EventPipeline) : EventPipeline * Z :=
  if ep_running p then (p, 0) else
  let t := se_time env in
  let p := log_main t LOG_INFO "[INFO]  EventPipeline starting..." p in
  match feed_start (se_feed env) (Some (ep_feed p)) with
  | (Some feed, 0) =>
    let p := set_feed_running p feed true in
    if negb (se_io env) then
      (log_main t LOG_ERROR "[ERROR] Failed to create I/O thread"
         (set_feed_running p (fh_set_running feed false) false), -1)
    else if negb (se_consumer env) then
      (log_main t LOG_ERROR "[ERROR] Failed to create consumer thread"
         (set_feed_running p (fh_set_running feed false) false), -1)
    else
      (log_main t LOG_INFO ("[INFO]  EventPipeline started " +:+ dash +:+
                            " 2-stage pipeline active")
         (set_feed_running p (feed_thread_start feed) true), 0)
  | (feed, _) =>
    (log_main t LOG_ERROR "[ERROR] Failed to start feed handler"
       (set_feed_running p (default (ep_feed p) feed) false), -1)
  end.

(** What [stop] does first; the threads then drain their queues and end. *)
Definition stop_begin (time : Z * Z) (p : EventPipeline) : EventPipeline :=
  set_feed_running (log_main time LOG_INFO "[INFO]  EventPipeline stopping..." p) (ep_feed p) false.

Definition stats_texts (st : PipelineStats) (dropped : Z) : list string :=
  ["[INFO]  === Final Pipeline Statistics ===";
   "[INFO]    Market data msgs:  " +:+ fmt_d (market_data_msgs st);
   "[INFO]    Orders created:    " +:+ fmt_d (orders_created st);
   "[INFO]    Orders accepted:   " +:+ fmt_d (orders_accepted st);
   "[INFO]    Orders rejected:   " +:+ fmt_d (orders_rejected st);
   "[INFO]    Orders executed:   " +:+ fmt_d (orders_executed st);
   "[INFO]    Trades generated:  " +:+ fmt_d (trades_generated st);
   "[INFO]    I/O events dropped:" +:+ fmt_d dropped;
   "[INFO]    Avg latency (us):  " +:+ fmt_f 2 (avg_latency_us st)].

(** What [stop] does when the threads have ended, up to [logger_shutdown]. *)
Definition stop_end (time : Z * Z) (p : EventPipeline) : EventPipeline :=
  let p := set_feed_running p (fh_set_running (ep_feed p) false) false in
  let p := MkPipeline (ep_hot p) (ep_feed p) (ep_queues p) (ep_dropped p)
             (MkIoState (io_log_calls (ep_io p)) (io_journal (ep_io p))
                (gw_shutdown (io_gateway (ep_io p)))) false in
  foldl (λ p text, log_main time LOG_INFO text p) p
    (stats_texts (ht_stats (ep_hot p)) (ep_dropped p)).

(** The drain loops of the destructor; the queue has fewer than [fuel] elements. *)
Fixpoint drain_queue {A} (fuel : nat) (q : ring_buffer_t A) : option (ring_buffer_t A) :=
  match fuel with
  | O => Some q
  | S fuel =>
    '(q, x) ← ring_buffer_pop q;
    match x with None => Some q | Some _ => drain_queue fuel q end
  end.

(** The destructor of a stopped pipeline: what is left is the gateway's log. *)
Definition destroy (p : EventPipeline) : option (option string) :=
  _ ← feed_destroy (Some (ep_feed p));
  let log := gw_destroy (io_gateway (ep_io p)) in
  _ ← drain_queue (Z.to_nat (rb_capacity (tq_free (ep_queues p)))) (tq_free (ep_queues p));
  _ ← drain_queue (Z.to_nat (rb_capacity (tq_filled (ep_queues p)))) (tq_filled (ep_queues p));
  Some log.

(** The end of its lifetime.  [logger_destroy] frees what the logger's thread works on:
    undefined, unless the [stop] of a running pipeline has shut that thread down. *)
Definition destructor (logger_runs : bool) (p : EventPipeline) : option (option string) :=
  if logger_runs then None else destroy p.

(** The same after an [init] that has failed: there is a logger, and its thread, if
    [logger_init] worked. *)
Definition destructor_failed (env : init_env) : option unit :=
  match iv_logger env with Some _ => None | None => Some tt end.

Section rounds.
Context (clock : nat → Z * Z).

(** A round of the feed's thread, of the hot path or of the I/O thread; the last
    is one of its drain loop. *)
Inductive pipeline_action :=
  | AFeed (ts : Z * Z)
  | AConsume (env : md_env)
  | AIO (env : io_env)
  | ADrain (env : io_env).

Definition pipeline_step (p : EventPipeline) (a : pipeline_action) : option EventPipeline :=
  match a with
  | AFeed ts =>
    feed ← sim_round (ep_feed p) ts;
    Some (MkPipeline (ep_hot p) feed (ep_queues p) (ep_dropped p) (ep_io p) (ep_running p))
  | AConsume env => '(p, _) ← consumer_round clock env p; Some p
  | AIO env => io_round env p
  | ADrain env => io_drain_round env p
  end.

Fixpoint pipeline_rounds (p : EventPipeline) (acts : list pipeline_action) : option EventPipeline :=
  match acts with [] => Some p | a :: acts => p ← pipeline_step p a; pipeline_rounds p acts end.

(** [stop]; [drain] are the rounds of the threads before they end. *)
Definition stop (time : Z * Z) (drain : list pipeline_action) (p : EventPipeline)
    : option EventPipeline :=
  if negb (ep_running p) then Some p else
  p ← pipeline_rounds (stop_begin time p) drain;
  Some (stop_end time p).

End rounds.
