(* ===== verification/PipelineHot.v ===== *)
(** * The event pipeline: the hot path

    What one order and one message do to the state of the hot path, and its
    invariant over any number of messages: the composition of the theorems about
    the order book and the risk engine. *)

From S2P Require Export Pipeline OrderBookProps RiskProps.

(** ** Ids of the abstract book *)

Lemma pt_match_ids taker q queue taken rest r :
  pt_match taker q queue = (taken, rest) → r ∈ rest → ∃ r0, r0 ∈ queue ∧ o_id r0 = o_id r.
Proof.
  revert q taken rest. induction queue as [|x queue IH]; intros q taken rest; simpl.
  - intros [= _ <-] Hr. by apply not_elem_of_nil in Hr.
  - destruct (_ && _); [|intros [= _ <-]; by eauto].
    destruct (pt_match taker _ queue) as [taken' rest'] eqn:E. intros [= _ <-].
    pose proof (IH _ _ _ E) as H. destruct (_ =? _).
    + intros Hr. destruct (H Hr) as (r0 & ? & ?). exists r0. split; [by right|done].
    + intros [->|Hr]%elem_of_cons; [by exists x; split; [left|]|].
      destruct (H Hr) as (r0 & ? & ?). exists r0. split; [by right|done].
Qed.

Lemma pt_add_ids b o b' r' taken r :
  pt_add b o = (b', r', taken) → r ∈ pt_orders b' →
  o_id r = o_id o ∨ ∃ r0, r0 ∈ pt_orders b ∧ o_id r0 = o_id r.
Proof.
  unfold pt_add. destruct (pt_cross b o) as [tk b1] eqn:Hc. intros [= <- _ _] Hr.
  assert (∀ x, x ∈ pt_orders b1 → ∃ r0, r0 ∈ pt_orders b ∧ o_id r0 = o_id x) as Hx.
  { intros x. unfold pt_cross, pt_orders in *.
    destruct (is_buy o), (pt_match _ _ _) as [tk' rest] eqn:E; injection Hc as _ <-; simpl;
      intros [Hin|Hin]%elem_of_app; try (by exists x; split; [apply elem_of_app; auto|]);
      destruct (pt_match_ids _ _ _ _ _ _ E Hin) as (r0 & ? & ?);
      exists r0; (split; [apply elem_of_app; auto|done]). }
  destruct ((_ <? _) && _); [|by right; apply Hx].
  unfold pt_rest, pt_orders in Hr. destruct (is_buy _); simpl in Hr;
    apply elem_of_app in Hr as [Hr|Hr];
    try (rewrite pt_insert_perm in Hr; apply elem_of_cons in Hr as [->|Hr]; [by left|]);
    right; apply Hx; apply elem_of_app; auto.
Qed.

(** The ids in the index are those of the abstract book. *)
Lemma index_ids bk id :
  book_wf bk → ob_index bk !! id = None ↔ id ∉ o_id <$> pt_orders (abs bk).
Proof.
  intros Hwf. rewrite <- node_ids. apply index_ok_None. apply Hwf.
Qed.

Section hot.
Context (clock : nat → Z * Z).

(** ** One order *)

(** Nothing waits in the trade buffers between two orders. *)
Definition drained (bk : OrderBook) : Prop := active_trades bk = [] ∧ inactive_trades bk = [].

(** All resting ids are ones given out, below [next]. *)
Definition ids_below (next : Z) (bk : OrderBook) : Prop :=
  ∀ r, r ∈ pt_orders (abs bk) → 1 <= o_id r < next.

Record book_ready (next : Z) (bk : OrderBook) : Prop := {
  br_wf : book_wf bk;
  br_drained : drained bk;
  br_ids : ids_below next bk;
}.

Lemma drain_trades_abs bk : abs (drain_trades bk).1 = abs bk.
Proof. done. Qed.

Lemma drain_trades_drained bk :
  inactive_trades bk = [] → drained (drain_trades bk).1 ∧ (drain_trades bk).2 = active_trades bk.
Proof. intros H. destruct bk as [????? b ????]. by destruct b. Qed.

Lemma add_order_ready next bk o :
  book_ready next bk → add_ok bk o → 1 <= o_id o < next →
  ∃ bk' r fs, add_order clock bk o = (bk', r) ∧ add_result clock bk o bk' r fs ∧
    book_ready next (drain_trades bk').1 ∧
    (drain_trades bk').2 = fill_trades clock (ob_symbol bk) o (ob_next_trade_id bk) (ob_clock bk) fs.
Proof.
  intros [Hwf [Ha Hi] Hids] Hok Hid.
  destruct (add_order_spec clock bk o Hwf Hok) as (bk' & r & fs & Hadd & Hr).
  exists bk', r, fs. split; [done|]. split; [done|].
  destruct (add_result_flow clock _ _ _ _ _ Hi Hr) as [Hi' _].
  destruct (drain_trades_drained bk' Hi') as [Hd ->].
  pose proof (ar_trades _ _ _ _ _ _ Hr) as Ht. rewrite Ha in Ht. split; [|done].
  split; [apply drain_trades_wf, Hr|done|].
  intros x Hx. rewrite drain_trades_abs in Hx.
  destruct (pt_add_ids _ _ _ _ _ _ (ar_abs _ _ _ _ _ _ Hr) Hx) as [->|(r0 & Hr0 & <-)];
    [done|by apply Hids].
Qed.

(** The orders of the strategy: fresh, a hundred units, a number for a price. *)
Definition strategy_ok (o : Order) : Prop :=
  o_quantity o = 100 ∧ o_filled_qty o = 0 ∧ o_type o = LIMIT ∧ is_nan (o_price o) = false.

Lemma strategy_add_ok next bk o :
  book_ready next bk → strategy_ok o → next <= o_id o → add_ok bk o.
Proof.
  intros [Hwf _ Hids] (Hq & Hf & Ht & Hp) Hid. split; [unfold qty_ok, is_i32; lia|].
  split; [done|]. apply index_ids; [done|]. intros (r & He & Hr)%list_elem_of_fmap.
  apply Hids in Hr. lia.
Qed.

(** What [process_order] did with one order. *)
Inductive order_outcome (h : hot_state) (o : Order) (sec : Z) (h' : hot_state) (ws : list io_write) : Prop :=
  | outcome_rejected risk :
      validate (ht_risk h) o (mid_price (ht_book h)) sec = (risk, false) →
      ht_book h' = ht_book h → ht_risk h' = risk →
      ht_stats h' = count_stats (count_stats (ht_stats h) 0 1 0 0 0 0) 0 0 0 1 0 0 →
      ws = [write_rejected o (last_reject_reason risk)] →
      order_outcome h o sec h' ws
  | outcome_accepted risk r trades taken :
      validate (ht_risk h) o (mid_price (ht_book h)) sec = (risk, true) →
      pt_add (abs (ht_book h)) o = (abs (ht_book h'), r, taken) →
      Forall2 (reports o) taken trades →
      r = pt_result o (taken_total taken) → 0 <= taken_total taken <= 100 →
      (ht_risk h' = if 0 <? taken_total taken
                    then on_order_executed risk o (taken_total taken)
                      (if d_lt d_zero (o_price o) then o_price o else mid_price (ht_book h))
                    else risk) →
      (∃ executed, ht_stats h' =
        count_stats (count_stats (count_stats (count_stats (ht_stats h) 0 1 0 0 0 0) 0 0 1 0 0 0)
                      0 0 0 0 0 executed) 0 0 0 0 (Z.of_nat (length trades)) 0) →
      (∃ msg len executed, prepare_message r = Some (msg, len, executed) ∧
        ws = write_order r (sends r) msg len :: (write_trade <$> trades)) →
      order_outcome h o sec h' ws.

Lemma pt_result_fields o q :
  o_symbol (pt_result o q) = o_symbol o ∧ is_buy (pt_result o q) = is_buy o ∧
  o_price (pt_result o q) = o_price o ∧ o_filled_qty (pt_result o q) = o_filled_qty o + q.
Proof. unfold pt_result. by repeat case_match. Qed.

Lemma on_order_executed_same e o o' q p :
  o_symbol o = o_symbol o' → is_buy o = is_buy o' →
  on_order_executed e o q p = on_order_executed e o' q p.
Proof. intros Hs Hb. unfold on_order_executed, apply_execution. by rewrite Hs, Hb. Qed.

(** An order whose symbol is terminated has its message prepared. *)
Lemma prepare_message_defined r : symbol_fits (o_symbol r) → is_Some (prepare_message r).
Proof.
  intros H. unfold prepare_message, gateway_message. destruct (sends r); [|by eexists].
  rewrite read_symbol_fits by done. cbn [mbind option_bind]. case_match. by eexists.
Qed.

Lemma process_order_outcome next sec h o :
  book_ready next (ht_book h) → strategy_ok o → symbol_fits (o_symbol o) →
  next <= o_id o → 1 <= next →
  ∃ h' ws, process_order clock sec h o = Some (h', ws) ∧ order_outcome h o sec h' ws ∧
    book_ready (o_id o + 1) (ht_book h') ∧ ht_next_order_id h' = ht_next_order_id h.
Proof.
  intros Hb Hs Hsym Hid Hn. pose proof (strategy_add_ok _ _ _ Hb Hs Hid) as Hok.
  assert (book_ready (o_id o + 1) (ht_book h)) as Hb'.
  { destruct Hb as [? ? Hids]. split; [done..|]. intros r Hr%Hids. lia. }
  unfold process_order.
  destruct (validate (ht_risk h) o (mid_price (ht_book h)) sec) as [risk ok] eqn:Hv.
  destruct ok; cbn [negb].
  - destruct (add_order_ready _ _ _ Hb' Hok) as (bk' & r & fs & -> & Hr & Hb2 & Ht); [lia|].
    assert (symbol_fits (o_symbol r)) as Hrsym
      by (rewrite (ar_result _ _ _ _ _ _ Hr); by rewrite (proj1 (pt_result_fields _ _))).
    destruct (prepare_message_defined r Hrsym) as [[[msg len] ex] Hp]. rewrite Hp.
    cbn [mbind option_bind].
    destruct (drain_trades bk') as [bk2 trades] eqn:Hd. cbn [fst snd] in Hb2, Ht. subst trades.
    eexists _, _. split; [done|]. split; [|done].
    destruct Hs as (Hq & Hf & _ & _).
    pose proof (ar_result _ _ _ _ _ _ Hr) as Hres.
    pose proof (ar_total _ _ _ _ _ _ Hr) as Htot. rewrite remaining_exact in Htot by apply Hok.
    destruct (pt_result_fields o (fills_total fs)) as (F1 & F2 & F3 & F4).
    rewrite <- Hres in F1, F2, F3, F4.
    eapply (outcome_accepted _ _ _ _ _ risk r _ (fill_taken <$> fs)); rewrite ?taken_fills; simpl.
    + done.
    + rewrite (ar_abs _ _ _ _ _ _ Hr), <- (drain_trades_abs bk'), Hd. done.
    + apply reports_fills. apply Hr.
    + done.
    + lia.
    + rewrite F4, Hf, F3, Z.add_0_l. destruct (0 <? fills_total fs); [|done].
      by apply on_order_executed_same.
    + by eexists.
    + eexists _, _, _. done.
  - eexists _, _. split; [done|]. split; [|done]. by eapply outcome_rejected.
Qed.

(** The risk engine after an order: one [risk_step], or none if the order was
    accepted and nothing of it filled, which [validate_within] covers. *)
Lemma outcome_within l h o sec h' ws :
  limits_fit l → strategy_ok o → engine_within l (ht_risk h) →
  order_outcome h o sec h' ws → engine_within l (ht_risk h').
Proof.
  intros Hfit (Hq & _) He [risk Hv _ -> _ _|risk r trades taken Hv _ _ _ Ht Hr _ _].
  - apply (risk_step_within l _ _ Hfit He). by eapply step_rejected.
  - rewrite Hr. destruct (0 <? taken_total taken).
    + apply (risk_step_within l _ _ Hfit He). eapply step_executed; [done|]. lia.
    + by destruct (validate_within _ _ _ _ _ _ _ Hfit He Hv).
Qed.

(** ** Counting *)

Record counted (h h' : hot_state) (msgs orders : Z) (trades : nat) : Prop := {
  ct_msgs : market_data_msgs (ht_stats h') = u64 (market_data_msgs (ht_stats h) + msgs);
  ct_created : orders_created (ht_stats h') = u64 (orders_created (ht_stats h) + orders);
  ct_sum : ∃ a b, 0 <= a ∧ 0 <= b ∧ a + b = orders ∧
    orders_accepted (ht_stats h') = u64 (orders_accepted (ht_stats h) + a) ∧
    orders_rejected (ht_stats h') = u64 (orders_rejected (ht_stats h) + b);
  ct_trades : trades_generated (ht_stats h') =
              u64 (trades_generated (ht_stats h) + Z.of_nat trades);
}.

Lemma u64_add_u64 a b : u64 (u64 a + b) = u64 (a + b).
Proof. unfold u64. apply Zplus_mod_idemp_l. Qed.

Lemma u64_u64 a : u64 (u64 a) = u64 a.
Proof. apply u64_id, u64_range. Qed.

(** Nested additions to a [uint64_t]. *)
Ltac u64_norm := repeat (rewrite u64_add_u64 || rewrite u64_u64 || rewrite Z.add_0_r).

Lemma counted_trans h1 h2 h3 m1 m2 o1 o2 t1 t2 :
  counted h1 h2 m1 o1 t1 → counted h2 h3 m2 o2 t2 →
  counted h1 h3 (m1 + m2) (o1 + o2) (t1 + t2).
Proof.
  intros [M1 C1 (a1 & b1 & ? & ? & ? & A1 & R1) T1] [M2 C2 (a2 & b2 & ? & ? & ? & A2 & R2) T2].
  split.
  - by rewrite M2, M1, u64_add_u64, Z.add_assoc.
  - by rewrite C2, C1, u64_add_u64, Z.add_assoc.
  - exists (a1 + a2), (b1 + b2). rewrite A2, A1, R2, R1, !u64_add_u64, !Z.add_assoc.
    split_and!; (done || lia).
  - by rewrite T2, T1, u64_add_u64, Nat2Z.inj_add, Z.add_assoc.
Qed.

(** The counters are [uint64_t] values. *)
Definition stats_ok (st : PipelineStats) : Prop :=
  is_u64 (market_data_msgs st) ∧ is_u64 (orders_created st) ∧ is_u64 (orders_accepted st) ∧
  is_u64 (orders_rejected st) ∧ is_u64 (trades_generated st) ∧ is_u64 (orders_executed st).

Lemma count_stats_ok st a b c d e f : stats_ok (count_stats st a b c d e f).
Proof. unfold stats_ok, count_stats. simpl. split_and!; apply u64_range. Qed.

Lemma u64_plus_0 a : is_u64 a → u64 (a + 0) = a.
Proof. rewrite Z.add_0_r. apply u64_id. Qed.

Lemma outcome_counted h o sec h' ws :
  stats_ok (ht_stats h) → order_outcome h o sec h' ws →
  ∃ t, counted h h' 0 1 t ∧ length ws = S t ∧ stats_ok (ht_stats h').
Proof.
  intros (S1 & S2 & S3 & S4 & S5 & S6)
    [risk _ _ _ Hs ->|risk r trades taken _ _ _ _ _ _ [ex Hs] (msg & len & ex' & _ & ->)].
  - exists 0%nat. rewrite Hs. split; [|split; [done|apply count_stats_ok]].
    split; rewrite Hs; simpl; u64_norm; try done.
    exists 0, 1. u64_norm. split_and!; (done || lia).
  - exists (length trades). rewrite Hs. split; [|split; [|apply count_stats_ok]].
    + split; rewrite Hs; simpl; u64_norm; try done.
      exists 1, 0. u64_norm. split_and!; (done || lia).
    + simpl. by rewrite length_fmap.
Qed.

(** ** Messages *)

(** The quotes give the strategy numbers for prices. *)
Definition quotes_ok (msg : feed_msg_t) : Prop :=
  is_nan (d_sub (msg_mid msg) (msg_offset msg)) = false ∧
  is_nan (d_add (msg_mid msg) (msg_offset msg)) = false.

#[export] Instance quotes_ok_dec msg : Decision (quotes_ok msg).
Proof. unfold quotes_ok. apply _. Defined.

(** The invariant of the hot path, between two messages. *)
Record hot_inv (h : hot_state) : Prop := {
  hv_book : book_ready (ht_next_order_id h) (ht_book h);
  hv_id : 1 <= ht_next_order_id h;
  hv_risk : engine_within pipeline_limits (ht_risk h);
  hv_stats : stats_ok (ht_stats h);
}.

Lemma pipeline_limits_fit : limits_fit pipeline_limits.
Proof. unfold limits_fit. simpl. lia. Qed.

Lemma update_latency_counted h l :
  counted h (set_hot_stats h (update_latency (ht_stats h) l)) 0 0 0 ↔ counted h h 0 0 0.
Proof. split; intros []; by split. Qed.

Lemma counted_refl h : stats_ok (ht_stats h) → counted h h 0 0 0.
Proof.
  intros (?&?&?&?&?&?). split; rewrite ?u64_plus_0 by done; try done.
  exists 0, 0. by rewrite !u64_plus_0.
Qed.

Lemma hot_message_inv env h msg :
  hot_inv h → quotes_ok msg → symbol_fits (fm_symbol msg) → ht_next_order_id h < 2 ^ 31 - 2 →
  ∃ h' ws t, hot_message clock env h msg = Some (h', ws) ∧ hot_inv h' ∧
    ht_next_order_id h' = ht_next_order_id h + 2 ∧ counted h h' 1 2 t ∧ length ws = (2 + t)%nat.
Proof.
  intros [Hb Hid Hrisk Hst] [Hq1 Hq2] Hsym Hlt. unfold hot_message, strategy_on_market_data.
  cbn [generate_order_id set_hot_stats ht_book ht_risk ht_next_order_id ht_stats].
  set (n := ht_next_order_id h) in *.
  assert (i32 (n + 1) = n + 1) as -> by (apply i32_id; unfold is_i32; lia).
  assert (i32 (n + 1 + 1) = n + 2) as -> by (rewrite i32_id; unfold is_i32; lia).
  set (h0 := MkHot _ _ _ _). cbn [process_orders].
  assert (counted h h0 1 0 0) as C0.
  { destruct Hst as (?&?&?&?&?&?). split; simpl; try by rewrite ?u64_plus_0.
    exists 0, 0. by rewrite !u64_plus_0. }
  set (o1 := strategy_order n _ BUY msg).
  destruct (process_order_outcome n (default 0 (head (me_secs env))) h0 o1)
    as (h1 & w1 & -> & O1 & B1 & N1); [done..|]. cbn [mbind option_bind].
  assert (engine_within pipeline_limits (ht_risk h1)) as R1
    by (eapply (outcome_within _ h0 o1 _ h1 w1 pipeline_limits_fit); done).
  destruct (outcome_counted h0 _ _ _ _ (count_stats_ok _ _ _ _ _ _ _) O1) as (t1 & C1 & L1 & S1).
  set (o2 := strategy_order (n + 1) _ SELL msg).
  destruct (process_order_outcome (n + 1) (default 0 (head (tail (me_secs env)))) h1 o2)
    as (h2 & w2 & -> & O2 & B2 & N2); [done..|simpl; lia|lia|]. cbn [mbind option_bind].
  assert (engine_within pipeline_limits (ht_risk h2)) as R2
    by (eapply (outcome_within _ h1 o2 _ h2 w2 pipeline_limits_fit); done).
  destruct (outcome_counted _ _ _ _ _ S1 O2) as (t2 & C2 & L2 & S2).
  pose proof (counted_trans _ _ _ _ _ _ _ _ _ (counted_trans _ _ _ _ _ _ _ _ _ C0 C1) C2) as C.
  assert (ht_next_order_id h2 = n + 2) as Hn2 by (rewrite N2, N1; simpl; lia).
  eexists _, _, (t1 + t2)%nat. split; [done|]. split_and!.
  - split; simpl; rewrite ?Hn2; [|lia|done|].
    + change (o_id o2) with (n + 1) in B2. by replace (n + 1 + 1) with (n + 2) in B2 by lia.
    + destruct S2 as (?&?&?&?&?&?). split_and!; done.
  - done.
  - destruct C as [M Cr Su T]. by split.
  - rewrite app_nil_r, length_app. lia.
Qed.

Fixpoint hot_run (ms : list (md_env * feed_msg_t)) (h : hot_state)
    : option (hot_state * list io_write) :=
  match ms with
  | [] => Some (h, [])
  | (env, msg) :: ms =>
    '(h, w1) ← hot_message clock env h msg;
    '(h, w2) ← hot_run ms h;
    Some (h, w1 ++ w2)
  end.

Lemma hot_run_inv ms h :
  hot_inv h → Forall (λ m, quotes_ok m.2 ∧ symbol_fits (fm_symbol m.2)) ms →
  ht_next_order_id h + 2 * Z.of_nat (length ms) < 2 ^ 31 - 1 →
  ∃ h' ws t, hot_run ms h = Some (h', ws) ∧ hot_inv h' ∧
    ht_next_order_id h' = ht_next_order_id h + 2 * Z.of_nat (length ms) ∧
    counted h h' (Z.of_nat (length ms)) (2 * Z.of_nat (length ms)) t ∧
    length ws = (2 * length ms + t)%nat.
Proof.
  intros Hh Hms. revert h Hh. induction Hms as [|[env msg] ms [Hq Hsym] _ IH]; intros h Hh Hn.
  - exists h, [], 0%nat. split_and!; simpl; try done; [lia|]. by apply counted_refl, Hh.
  - cbn [hot_run length] in *. rewrite Nat2Z.inj_succ in Hn.
    destruct (hot_message_inv env h msg Hh Hq Hsym) as (h1 & w1 & t1 & -> & H1 & N1 & C1 & L1); [lia|].
    cbn [mbind option_bind]. destruct (IH h1 H1) as (h2 & w2 & t2 & -> & H2 & N2 & C2 & L2); [lia|].
    exists h2, (w1 ++ w2), (t1 + t2)%nat. split_and!; [done..|lia| |rewrite length_app; lia].
    pose proof (counted_trans _ _ _ _ _ _ _ _ _ C1 C2) as C.
    by replace (2 * Z.of_nat (S (length ms))) with (2 + 2 * Z.of_nat (length ms)) by lia;
      replace (Z.of_nat (S (length ms))) with (1 + Z.of_nat (length ms)) by lia.
Qed.

End hot.
