(* ===== verification/PipelineProps.v ===== *)
(** * The event pipeline: its properties

    What [pipeline_init] makes of its components, and the invariant of the hot
    path over whole runs. *)

From S2P Require Export PipelineHot JournalProps FeedQueue.

(** ** The hot path from its initialisation *)

(** The state of the hot path that [pipeline_init] makes. *)
Definition initial_hot (symbol : string) : hot_state :=
  MkHot (new_book symbol) (set_limits new_risk_engine pipeline_limits) 1 zero_stats.

Lemma pipeline_init_hot env symbol p :
  pipeline_init env symbol = Some (Some p, 0) → ep_hot p = initial_hot symbol.
Proof.
  unfold pipeline_init. destruct (iv_logger env); [|done].
  destruct (gw_init (iv_gw_calloc env) (iv_gw_log env) (iv_gw_time env) (Some pipeline_gw_config)),
    (feed_init (iv_feed env) (Some (pipeline_feed_config symbol))); try done.
  destruct (ring_buffer_init (iv_free_queue env) (Some (RingBuffer 0 0 None 0 0)) IO_EVENTS) as [[free|] [| |]]; try done.
  destruct (ring_buffer_init (iv_filled_queue env) (Some (RingBuffer 0 0 None 0 0)) IO_EVENTS) as [[filled|] [| |]]; try done.
  destruct (iv_event_pool env); [|done]. cbn [negb].
  destruct (push_all free (seq 0 (Z.to_nat IO_EVENTS))); [|done]. intros [= <-]. done.
Qed.

Lemma initial_hot_inv symbol : hot_inv (initial_hot symbol).
Proof.
  split; simpl; [|lia| |].
  - split; [apply new_book_wf|done|]. intros r Hr. by apply not_elem_of_nil in Hr.
  - split; [done|]. intros sym. unfold position_at. simpl. rewrite lookup_empty.
    split; simpl; lia.
  - unfold stats_ok, is_u64. simpl. lia.
Qed.

(** C11 -- The hot path keeps its components sound over whole runs: from an
    initialised pipeline, whatever the messages (with quotes that make numbers and
    symbols that are terminated, of at most fifteen characters) and the clocks,
    it is defined, the book satisfies its invariant and no trade waits in its
    buffers; the orders have the ids 1, 2, 3, ..., none of which rests twice;
    no position exceeds its limits; two orders are created for each message,
    each is either accepted or rejected, and the I/O thread is given exactly
    one event for each order and one for each trade. *)
Theorem hot_path_invariant clock env symbol p ms sym
    (Hinit : pipeline_init env symbol = Some (Some p, 0))
    (Hms : Forall (λ m, quotes_ok m.2 ∧ symbol_fits (fm_symbol m.2)) ms)
    (Hfew : Z.of_nat (length ms) < 2 ^ 30 - 1) :
  let n := Z.of_nat (length ms) in
  ∃ h ws t, hot_run clock ms (ep_hot p) = Some (h, ws) ∧
    book_wf (ht_book h) ∧ active_trades (ht_book h) = [] ∧ inactive_trades (ht_book h) = [] ∧
    ht_next_order_id h = 2 * n + 1 ∧
    (∀ r, r ∈ pt_orders (abs (ht_book h)) → 1 <= o_id r <= 2 * n) ∧
    Z.abs (net_position (get_position (ht_risk h) sym)) <= 10000000 ∧
    0 <= gross_exposure (get_position (ht_risk h) sym) <= 50000000 ∧
    market_data_msgs (ht_stats h) = n ∧ orders_created (ht_stats h) = 2 * n ∧
    orders_accepted (ht_stats h) + orders_rejected (ht_stats h) = 2 * n ∧
    trades_generated (ht_stats h) = u64 (Z.of_nat t) ∧ length ws = (2 * length ms + t)%nat.
Proof.
  cbv zeta. rewrite (pipeline_init_hot _ _ _ Hinit).
  destruct (hot_run_inv clock ms _ (initial_hot_inv symbol) Hms) as
    (h & ws & t & -> & [[Hwf [Ha Hi] Hids] _ [_ Hpos] _] & Hn & [M C (a & b & ? & ? & ? & A & R) T] & Hl);
    [simpl; lia|].
  simpl in M, C, A, R, T, Hn. rewrite u64_id in M, C, A, R by (unfold is_u64; lia).
  destruct (Hpos (SymbolKey_of_chars sym)) as [Hnet Hgross]. simpl in Hnet, Hgross.
  exists h, ws, t. unfold get_position. split_and!; try done; try lia.
  intros r Hr%Hids. lia.
Qed.

(** ** Initialisation *)

(** All system calls work, and [calloc] returns blocks that fit the address
    space. *)
Record init_env_ok (env : init_env) (symbol : string) : Prop := {
  io_logger : iv_logger env ≠ None;
  io_gw_calloc : iv_gw_calloc env = true;
  io_free_queue : iv_free_queue env = true;
  io_filled_queue : iv_filled_queue env = true;
  io_event_pool : iv_event_pool env = true;
  io_feed : feed_env_ok (iv_feed env) (pipeline_feed_config symbol);
}.

(** The objects in flight at most: the ring buffers' capacity. *)
Definition io_capacity : nat := logger_capacity IO_EVENTS.

(** What the pool of objects becomes in [pipeline_init]. *)
Lemma io_queues_ok ok1 ok2 :
  ok1 = true → ok2 = true →
  ∃ free filled free' fr,
    ring_buffer_init ok1 (Some (RingBuffer 0 0 None 0 0 : ring_buffer_t nat)) IO_EVENTS
      = (Some free, 0) ∧
    ring_buffer_init ok2 (Some (RingBuffer 0 0 None 0 0 : ring_buffer_t nat)) IO_EVENTS
      = (Some filled, 0) ∧
    push_all free (seq 0 (Z.to_nat IO_EVENTS)) = Some free' ∧
    tq_rep (MkTq free' filled (replicate (Z.to_nat IO_EVENTS) zero_event)) io_capacity fr [] [] ∧
    length fr = Nat.min io_capacity (Z.to_nat IO_EVENTS).
Proof.
  intros -> ->. unfold io_capacity, logger_capacity. assert (1 <= IO_EVENTS <= 2 ^ 31) as Hs by done.
  revert Hs. generalize IO_EVENTS. intros size Hs.
  destruct (ring_buffer_init_wf (A:=nat) (RingBuffer 0 0 None 0 0) size Hs) as (rb & -> & Hwf & Hc).
  assert (q_rep rb (Z.to_nat (2 ^ Z.log2_up size - 1)) []) as Hrep by (eexists _, _; eauto).
  destruct (tq_init_rep rb rb _ (replicate (Z.to_nat size) zero_event) Hrep Hrep) as (q & Hq & Ht).
  rewrite length_replicate in Hq, Ht. eexists rb, rb, q, _. split_and!; try done.
  apply length_seq.
Qed.

(** The feed handler of the pipeline. *)
Definition pipeline_feed_rep (symbol : string) (s : feed_handler_t * list Z) (a : feed_spec)
    (ptrs : list Z) : Prop :=
  feed_rep (pipeline_feed_config symbol) (queue_room (pipeline_feed_config symbol))
    (pool_room (pipeline_feed_config symbol)) s a ptrs [].

Lemma pipeline_init_ok env symbol :
  init_env_ok env symbol →
  ∃ p fr gw, pipeline_init env symbol = Some (Some p, 0) ∧
    (tq_rep (ep_queues p) io_capacity fr [] [] ∧
     length fr = Nat.min io_capacity (Z.to_nat IO_EVENTS)) ∧ ep_dropped p = 0 ∧
    ep_hot p = initial_hot symbol ∧
    pipeline_feed_rep symbol (feed_thread_start (ep_feed p), [])
      (spec_start (iv_feed env) (pipeline_feed_config symbol)) [] ∧
    io_journal (ep_io p) = None ∧ length (io_log_calls (ep_io p)) = 2%nat ∧
    io_gateway (ep_io p) = Some gw ∧ gw_state gw = GW_CONNECTED ∧
    gw_orders_sent gw = 0 ∧ gw_orders_acked gw = 0 ∧ gw_ack_cb gw = None ∧
    (iv_gw_log env = None ↔ gw_sim_file gw = None).
Proof.
  intros [Hl Hg Hf1 Hf2 He Hfeed]. unfold pipeline_init.
  destruct (iv_logger env); [|done]. unfold gw_init. rewrite Hg. cbn [negb mbind option_bind].
  destruct (feed_init_rep (iv_feed env) (pipeline_feed_config symbol) Hfeed) as (fh & -> & Hr);
    [cbn; lia|].
  destruct (io_queues_ok _ _ Hf1 Hf2) as (free & filled & free' & fr & -> & -> & Hp & Hq).
  rewrite He. cbn [negb]. rewrite Hp. cbn [mbind option_bind].
  eexists _, fr, _. split; [reflexivity|].
  cbn [ep_queues ep_dropped ep_hot ep_feed ep_io io_journal io_log_calls io_gateway].
  split; [exact Hq|]. split; [reflexivity|]. split; [reflexivity|]. split; [exact Hr|].
  split; [reflexivity|]. split; [reflexivity|]. split; [reflexivity|].
  cbn. split_and!; try reflexivity. by destruct (iv_gw_log env).
Qed.

(** ** Concrete inputs *)

Definition ex_init_env : init_env :=
  MkInitEnv (Some ex_log) true (Some ""%string) 0
    (MkFeedEnv 4096 true 65536 true 3 true true) true true true (1, 0).

Lemma ex_init_env_ok : init_env_ok ex_init_env "AAPL".
Proof. by split. Qed.

Definition ex_quote (bid ask : double) : feed_msg_t :=
  MkFeedMsg 77 bid ask (d_of_Z 100) 100 100 10 1000 "AAPL".
Definition ex_md_env : md_env := MkMdEnv [5; 5] (9, 0) (9, 2500).

(** Quotes of 100 and 110, then of 98 and 100: the second sell order, at 99.2,
    takes the first buy order, at 104. *)
Definition ex_messages : list (md_env * feed_msg_t) :=
  [(ex_md_env, ex_quote (d_of_Z 100) (d_of_Z 110)); (ex_md_env, ex_quote (d_of_Z 98) (d_of_Z 100))].

Lemma ex_messages_ok :
  Forall (λ m, quotes_ok m.2 ∧ symbol_fits (fm_symbol m.2)) ex_messages.
Proof. apply (bool_decide_eq_true_1 (Forall _ ex_messages)). vm_compute. reflexivity. Qed.

Definition ex_clock (i : nat) : Z * Z := (1, 0).

Lemma ex_writes clock :
  ∃ h ws, hot_run clock ex_messages (initial_hot "AAPL") = Some (h, ws) ∧ length ws = 5%nat.
Proof.
  assert (length ∘ snd <$> hot_run clock ex_messages (initial_hot "AAPL") = Some 5%nat) as H
    by (vm_compute; reflexivity).
  destruct (hot_run clock ex_messages _) as [[h ws]|]; [|done]. exists h, ws.
  by injection H.
Qed.

Lemma hot_path_invariant_witness :
  ∃ p, pipeline_init ex_init_env "AAPL" = Some (Some p, 0) ∧
  ∃ h ws t, hot_run ex_clock ex_messages (ep_hot p) = Some (h, ws) ∧
    book_wf (ht_book h) ∧ active_trades (ht_book h) = [] ∧ inactive_trades (ht_book h) = [] ∧
    ht_next_order_id h = 5 ∧
    (∀ r, r ∈ pt_orders (abs (ht_book h)) → 1 <= o_id r <= 4) ∧
    Z.abs (net_position (get_position (ht_risk h) "AAPL")) <= 10000000 ∧
    0 <= gross_exposure (get_position (ht_risk h) "AAPL") <= 50000000 ∧
    market_data_msgs (ht_stats h) = 2 ∧ orders_created (ht_stats h) = 4 ∧
    orders_accepted (ht_stats h) + orders_rejected (ht_stats h) = 4 ∧
    trades_generated (ht_stats h) = u64 (Z.of_nat t) ∧ length ws = (4 + t)%nat.
Proof.
  destruct (pipeline_init_ok ex_init_env "AAPL" ex_init_env_ok) as (p & _ & _ & Hi & _).
  exists p. split; [exact Hi|].
  apply (hot_path_invariant ex_clock ex_init_env "AAPL" p ex_messages "AAPL" Hi ex_messages_ok).
  cbn. lia.
Defined.
