(* ===== verification/PipelineSymbols.v ===== *)
(** * The event pipeline: the symbols it prints

    The program prints two kinds of [char symbol[16]] with [%s]: the symbol of an order,
    which is that of the message it was made for, and the symbol of a trade, which is
    that of the book.  When both have at most fifteen characters every read ends at a
    NUL, whatever the messages, the clocks and the state of the book; and a book whose
    symbol has sixteen or more makes trades that cannot be logged. *)

From S2P Require Export PipelineProps.

(** ** The trades of a book carry its symbol *)

Definition named (sym : string) (t : Trade) : Prop := t_symbol t = strn 16 sym.

Record trades_named (sym : string) (bk : OrderBook) : Prop := {
  tn_symbol : ob_symbol bk = sym;
  tn_a : Forall (named sym) (ob_trades_a bk);
  tn_b : Forall (named sym) (ob_trades_b bk);
}.

Section symbols.
Context (clock : nat → Z * Z).

Lemma generate_trade_named sym bk buy sell qty price :
  trades_named sym bk → trades_named sym (generate_trade clock bk buy sell qty price).
Proof.
  intros [Hs Ha Hb]. unfold generate_trade, push_trade, active_trades.
  destruct (ob_active bk) eqn:E; split; cbn; try done; apply Forall_app; (split; [done|]);
    repeat constructor; unfold named; cbn; by rewrite Hs.
Qed.

Lemma match_level_symbols sym level bk o price bk' o' level' :
  match_level clock bk o price level = (bk', o', level') → trades_named sym bk →
  trades_named sym bk' ∧ o_symbol o' = o_symbol o.
Proof.
  revert bk o bk' o' level'. induction level as [|n level IH]; intros bk o bk' o' level' H Hn;
    cbn [match_level] in H; [by simplify_eq|].
  destruct (0 <? remaining o); [|by simplify_eq].
  set (q := Z.min _ _) in H. set (bk1 := if is_buy _ then _ else _) in H.
  assert (trades_named sym bk1) as H1 by (unfold bk1; destruct (is_buy _); by apply generate_trade_named).
  destruct (is_filled _).
  - apply IH in H as [? ?]; [done|]. by destruct H1.
  - destruct (match_level clock bk1 (fill o q) price level) as [[bk2 o2] l2] eqn:E.
    simplify_eq. by destruct (IH _ _ _ _ _ E H1).
Qed.

Lemma match_levels_symbols sym stops levels bk o bk' o' levels' :
  match_levels clock stops bk o levels = (bk', o', levels') → trades_named sym bk →
  trades_named sym bk' ∧ o_symbol o' = o_symbol o.
Proof.
  revert bk o bk' o' levels'. induction levels as [|[price level] levels IH];
    intros bk o bk' o' levels' H Hn; cbn [match_levels] in H; [by simplify_eq|].
  destruct (0 <? remaining o); [|by simplify_eq]. destruct (stops price); [by simplify_eq|].
  destruct (match_level clock bk o price level) as [[bk1 o1] l1] eqn:E1.
  destruct (match_levels clock stops bk1 o1 levels) as [[bk2 o2] l2] eqn:E2. simplify_eq.
  destruct (match_level_symbols sym _ _ _ _ _ _ _ E1 Hn) as [H1 <-]. by apply IH in E2.
Qed.

(** [add_order] on any book: its trades have the symbol of the book, its result that of
    the order. *)
Lemma add_order_symbols sym bk o bk' r :
  add_order clock bk o = (bk', r) → trades_named sym bk →
  trades_named sym bk' ∧ o_symbol r = o_symbol o.
Proof.
  intros H Hn. unfold add_order in H.
  destruct (match_limit_order clock bk o) as [bk1 r1] eqn:Em.
  assert (trades_named sym bk1 ∧ o_symbol r1 = o_symbol o) as [H1 Hr1].
  { unfold match_limit_order in Em.
    destruct (is_buy o), (match_levels _ _ _ _ _) as [[bk2 o2] l2] eqn:El;
      destruct (match_levels_symbols sym _ _ _ _ _ _ _ El Hn) as [[] Ho];
      injection Em as <- <-; (split; [by split|by repeat case_match]). }
  destruct (_ && _); simplify_eq; [|done]. destruct H1. split; [by split|by case_match].
Qed.

Lemma drain_trades_symbols sym bk :
  trades_named sym bk →
  trades_named sym (drain_trades bk).1 ∧ Forall (named sym) (drain_trades bk).2.
Proof. intros []. unfold drain_trades. by destruct (ob_active bk) eqn:E. Qed.

(** ** Whole runs of the hot path *)

(** The log can print the event. *)
Definition printable (e : IOEvent) : Prop := ev_type e = TRADE → symbol_fits (ev_trade_symbol e).
Definition writes_printable (w : io_write) : Prop := ∀ e, printable (w e).

Lemma write_order_printable r send msg len : writes_printable (write_order r send msg len).
Proof. intros e. unfold printable, write_order. cbn. by destruct (0 <? o_filled_qty r). Qed.

Lemma write_trade_printable sym t :
  symbol_fits sym → named sym t → writes_printable (write_trade t).
Proof. intros Hs Ht e _. cbn. rewrite Ht. by apply strn_fits. Qed.

(** What one order does to the symbols. *)
Lemma process_order_symbols sym sec h o :
  trades_named sym (ht_book h) → symbol_fits (o_symbol o) → is_Some (process_order clock sec h o).
Proof.
  intros Hn Ho. unfold process_order. destruct (validate _ _ _ _) as [risk [|]]; cbn [negb]; [|done].
  destruct (add_order clock (ht_book h) o) as [bk r] eqn:Ha.
  destruct (add_order_symbols sym _ _ _ _ Ha Hn) as [_ Hr]. rewrite <- Hr in Ho.
  destruct (prepare_message_defined r Ho) as [[[msg len] ex] ->]. cbn [mbind option_bind].
  by destruct (drain_trades bk).
Qed.

Lemma process_order_named sym sec h o h' ws :
  process_order clock sec h o = Some (h', ws) → trades_named sym (ht_book h) →
  trades_named sym (ht_book h') ∧ (symbol_fits sym → Forall writes_printable ws).
Proof.
  intros H Hn. unfold process_order in H.
  destruct (validate _ _ _ _) as [risk [|]]; cbn [negb] in H; [|simplify_eq; split; [done|by repeat constructor]].
  destruct (add_order clock (ht_book h) o) as [bk r] eqn:Ha.
  destruct (add_order_symbols sym _ _ _ _ Ha Hn) as [Hb _].
  destruct (prepare_message r) as [[[msg len] ex]|]; [|done]. cbn [mbind option_bind] in H.
  destruct (drain_trades_symbols sym bk Hb) as [Hb' Ht].
  destruct (drain_trades bk) as [bk' trades]. simplify_eq. split; [done|]. intros Hs.
  constructor; [apply write_order_printable|]. apply Forall_fmap.
  eapply Forall_impl; [exact Ht|]. intros t. by apply write_trade_printable.
Qed.

Lemma process_orders_symbols sym os secs h :
  trades_named sym (ht_book h) → Forall (λ o, symbol_fits (o_symbol o)) os →
  is_Some (process_orders clock secs h os).
Proof.
  intros Hn Hos. revert secs h Hn. induction Hos as [|o os Ho _ IH]; intros secs h Hn; [done|].
  cbn [process_orders].
  destruct (process_order_symbols sym (default 0 (head secs)) h o Hn Ho) as [[h1 w1] Hp].
  destruct (process_order_named sym _ _ _ _ _ Hp Hn) as [H1 _]. rewrite Hp. cbn [mbind option_bind].
  destruct (IH (tail secs) h1 H1) as [[h2 w2] ->]. by eexists.
Qed.

Lemma process_orders_named sym os secs h h' ws :
  process_orders clock secs h os = Some (h', ws) → trades_named sym (ht_book h) →
  trades_named sym (ht_book h') ∧ (symbol_fits sym → Forall writes_printable ws).
Proof.
  revert secs h ws. induction os as [|o os IH]; intros secs h ws H Hn; cbn [process_orders] in H;
    [by simplify_eq|].
  destruct (process_order _ _ _ _) as [[h1 w1]|] eqn:E1; [|done]. cbn [mbind option_bind] in H.
  destruct (process_orders _ _ _ _) as [[h2 w2]|] eqn:E2; [|done]. simplify_eq/=.
  destruct (process_order_named sym _ _ _ _ _ E1 Hn) as [H1 P1].
  destruct (IH _ _ _ E2 H1) as [H2 P2]. split; [done|]. intros Hs. apply Forall_app. auto.
Qed.

Lemma hot_message_symbols sym env h msg :
  trades_named sym (ht_book h) → symbol_fits (fm_symbol msg) → is_Some (hot_message clock env h msg).
Proof.
  intros Hn Hm. unfold hot_message, strategy_on_market_data. cbn [generate_order_id].
  match goal with |- context [process_orders clock ?secs ?h0 ?os] =>
    destruct (process_orders_symbols sym os secs h0 Hn) as [[h1 w1] ->] end;
    [by rewrite !Forall_cons, Forall_nil|]. by eexists.
Qed.

Lemma hot_message_named sym env h msg h' ws :
  hot_message clock env h msg = Some (h', ws) → trades_named sym (ht_book h) →
  trades_named sym (ht_book h') ∧ (symbol_fits sym → Forall writes_printable ws).
Proof.
  intros H Hn. unfold hot_message, strategy_on_market_data in H. cbn [generate_order_id] in H.
  destruct (process_orders _ _ _ _) as [[h1 w1]|] eqn:E; [|done].
  cbn [mbind option_bind] in H. injection H as <- <-.
  by apply (process_orders_named sym _ _ _ _ _ E).
Qed.

(** The hot path is defined on all messages whose symbols are terminated, *)
Lemma hot_run_symbols sym ms h :
  trades_named sym (ht_book h) → Forall (λ m, symbol_fits (fm_symbol m.2)) ms →
  is_Some (hot_run clock ms h).
Proof.
  intros Hn Hms. revert h Hn. induction Hms as [|[env msg] ms Hm _ IH]; intros h Hn; [done|].
  cbn [hot_run]. destruct (hot_message_symbols sym env h msg Hn Hm) as [[h1 w1] Hr].
  destruct (hot_message_named sym _ _ _ _ _ Hr Hn) as [H1 _]. rewrite Hr. cbn [mbind option_bind].
  destruct (IH h1 H1) as [[h2 w2] ->]. by eexists.
Qed.

(** and what it writes can be printed if the symbol of its book is. *)
Lemma hot_run_named sym ms h h' ws :
  hot_run clock ms h = Some (h', ws) → trades_named sym (ht_book h) →
  trades_named sym (ht_book h') ∧ (symbol_fits sym → Forall writes_printable ws).
Proof.
  revert h ws. induction ms as [|[env msg] ms IH]; intros h ws H Hn; cbn [hot_run] in H;
    [by simplify_eq|].
  destruct (hot_message _ _ _ _) as [[h1 w1]|] eqn:E1; [|done]. cbn [mbind option_bind] in H.
  destruct (hot_run _ _ _) as [[h2 w2]|] eqn:E2; [|done]. simplify_eq/=.
  destruct (hot_message_named sym _ _ _ _ _ E1 Hn) as [H1 P1].
  destruct (IH _ _ E2 H1) as [H2 P2]. split; [done|]. intros Hs. apply Forall_app. auto.
Qed.

Lemma initial_hot_named symbol : trades_named symbol (ht_book (initial_hot symbol)).
Proof. by split. Qed.

Lemma hot_run_printable symbol ms h ws :
  symbol_fits symbol → hot_run clock ms (initial_hot symbol) = Some (h, ws) →
  Forall writes_printable ws.
Proof. intros Hs Hr. by apply (hot_run_named symbol _ _ _ _ Hr (initial_hot_named symbol)). Qed.

(** ** Sixteen characters or more *)

(** A book whose symbol has sixteen characters before a NUL makes trades whose symbol
    has no NUL, and the I/O thread that logs one reads behind the array. *)
Lemma long_symbol_trade_undefined sym bk t w env s :
  trades_named sym bk → String.length (strn 16 sym) = 16%nat → t ∈ active_trades bk →
  process_io_event env (write_trade t w) s = None.
Proof.
  intros [_ Ha Hb] Hl Ht. assert (named sym t) as Hn.
  { rewrite Forall_forall in Ha, Hb. unfold active_trades in Ht.
    destruct (ob_active bk); [by apply Ha|by apply Hb]. }
  unfold process_io_event, trade_text, read_symbol. cbn. rewrite Hn, decide_False; [done|].
  unfold symbol_fits. lia.
Qed.

End symbols.

(** It happens: two quotes that trade, in a book for a symbol of sixteen characters. *)
Example long_symbol_run env s :
  ∃ h ws, hot_run ex_clock ex_messages (initial_hot "ABCDEFGHIJKLMNOP") = Some (h, ws) ∧
    process_io_event env (default id (last ws) zero_event) s = None.
Proof.
  assert ((λ r : hot_state * list io_write, let e := default id (last r.2) zero_event in (ev_type e, ev_trade_symbol e)) <$>
            hot_run ex_clock ex_messages (initial_hot "ABCDEFGHIJKLMNOP") =
          Some (TRADE, "ABCDEFGHIJKLMNOP"%string)) as He by (vm_compute; reflexivity).
  destruct (hot_run ex_clock ex_messages _) as [[h ws]|]; [|done]. exists h, ws.
  split; [done|]. cbn [fmap option_fmap option_map snd] in He. injection He as Ht Hs.
  unfold process_io_event, trade_text, read_symbol. rewrite Ht, Hs. reflexivity.
Qed.
