(* ===== verification/PipelineIO.v ===== *)
(** * The event pipeline: from the hot path to the I/O thread

    What the I/O thread makes of the writes of the hot path, under every
    interleaving of the two threads: the writes hide what an object held before,
    so the thread processes the events of the hot path in order; the journal of a
    run; and a stop, which can come between the two. *)

From S2P Require Export PipelineSymbols.

(** ** Reused objects *)

(** A write hides what the object held before. *)
Definition fresh (w : io_write) : Prop :=
  ∀ env s e, process_io_event env (w e) s = process_io_event env (w zero_event) s.

Lemma write_rejected_fresh o reason : fresh (write_rejected o reason).
Proof. by intros env s e. Qed.

Lemma write_trade_fresh t : fresh (write_trade t).
Proof. by intros env s e. Qed.


Lemma cstr_cons c s :
  cstr (String c s) = if decide (c = Ascii.zero) then "" else String c (cstr s).
Proof. reflexivity. Qed.

(** The copied text, up to its NUL, is what a reader of the object sees. *)
Lemma cstr_memcpy old msg :
  cstr (memcpy_str old msg (String.length (cstr msg) + 1)) = cstr msg.
Proof.
  unfold memcpy_str. generalize (String.substring (String.length (cstr msg) + 1)
    (String.length old - (String.length (cstr msg) + 1)) old). intros rest.
  induction msg as [|c msg IH]; [reflexivity|].
  rewrite !cstr_cons. destruct (decide (c = Ascii.zero)) as [->|Hc].
  - reflexivity.
  - cbn [String.length Nat.add].
    change (String.substring 0 (S (String.length (cstr msg) + 1))
              (String c msg +:+ String Ascii.zero "") +:+ rest)
      with (String c (String.substring 0 (String.length (cstr msg) + 1)
              (msg +:+ String Ascii.zero "") +:+ rest)).
    by rewrite cstr_cons, decide_False, IH.
Qed.

Lemma bind_cong {A B} (o1 o2 : option A) (f g : A → option B) :
  o1 = o2 → (∀ x, f x = g x) → (o1 ≫= f) = (o2 ≫= g).
Proof. intros -> H. by destruct o2; simpl. Qed.

(** What the gateway does depends on the C string of the message. *)
Lemma gw_send_order_cstr {U} ts gw (m1 m2 : string) len id (u : U) :
  cstr m1 = cstr m2 →
  gw_send_order ts gw (Some m1) len id u = gw_send_order ts gw (Some m2) len id u.
Proof.
  intros He. unfold gw_send_order, send_line. rewrite He. destruct gw as [g|]; [|done].
  by repeat case_match.
Qed.

Lemma gw_send_order_empty {U} ts gw (m1 m2 : option string) id (u : U) :
  gw_send_order ts gw m1 0 id u = gw_send_order ts gw m2 0 id u.
Proof. unfold gw_send_order. by destruct gw, m1, m2. Qed.

Lemma prepare_message_length r msg len ex :
  prepare_message r = Some (msg, len, ex) →
  len = Z.of_nat (String.length (cstr msg)) ∨ len = 0.
Proof.
  unfold prepare_message. destruct (sends r); [|intros [= <- <- <-]; auto].
  destruct (gateway_message r) as [[m rc]|]; [|done]. cbn [mbind option_bind].
  destruct (rc =? 0); intros [= <- <- <-]; auto.
Qed.

Lemma write_order_fresh r msg len ex :
  prepare_message r = Some (msg, len, ex) → fresh (write_order r (sends r) msg len).
Proof.
  intros Hp env s e. unfold process_io_event, write_order. cbn [ev_type].
  assert (∀ s, dispatch env (write_order r (sends r) msg len e) s =
               dispatch env (write_order r (sends r) msg len zero_event) s) as Hd.
  { intros s'. unfold dispatch, write_order.
    cbn [ev_send_to_gateway ev_gw_msg ev_gw_msg_len ev_order_id].
    destruct (sends r); [|done].
    apply prepare_message_length in Hp as [->| ->]; [|by rewrite (gw_send_order_empty _ _ _ (Some (memcpy_str (ev_gw_msg zero_event) msg (Z.to_nat (0 + 1)))))].
    rewrite (gw_send_order_cstr _ _ _ (memcpy_str (ev_gw_msg zero_event) msg
      (Z.to_nat (Z.of_nat (String.length (cstr msg)) + 1)))); [done|].
    replace (Z.to_nat (Z.of_nat (String.length (cstr msg)) + 1))
      with (String.length (cstr msg) + 1)%nat by lia.
    by rewrite !cstr_memcpy. }
  unfold write_order in Hd.
  destruct (0 <? o_filled_qty r); apply bind_cong; [reflexivity| |reflexivity|];
    intros s'; by rewrite Hd.
Qed.

(** All writes of the hot path are like that. *)
Lemma process_order_fresh clock sec h o h' ws :
  process_order clock sec h o = Some (h', ws) → Forall fresh ws.
Proof.
  unfold process_order. destruct (validate _ _ _ _) as [risk [|]]; cbn [negb].
  - destruct (add_order _ _ _) as [book r].
    destruct (prepare_message r) as [[[msg len] ex]|] eqn:Hp; [|done]. cbn [mbind option_bind].
    destruct (drain_trades book) as [book' trades]. intros [= _ <-]. constructor.
    + by eapply write_order_fresh.
    + apply Forall_fmap, Forall_true. intros t. apply write_trade_fresh.
  - intros [= _ <-]. constructor; [apply write_rejected_fresh|constructor].
Qed.

Lemma process_orders_fresh clock os secs h h' ws :
  process_orders clock secs h os = Some (h', ws) → Forall fresh ws.
Proof.
  revert secs h ws. induction os as [|o os IH]; intros secs h ws; cbn [process_orders];
    [intros [= _ <-]; constructor|].
  destruct (process_order _ _ _ _) as [[h1 w1]|] eqn:E1; [|done]. cbn [mbind option_bind].
  destruct (process_orders _ _ _ _) as [[h2 w2]|] eqn:E2; [|done]. cbn [mbind option_bind].
  intros [= <- <-]. apply Forall_app. split; [by eapply process_order_fresh|by eapply IH].
Qed.

Lemma hot_message_fresh clock env h msg h' ws :
  hot_message clock env h msg = Some (h', ws) → Forall fresh ws.
Proof.
  unfold hot_message, strategy_on_market_data. cbn [generate_order_id].
  destruct (process_orders _ _ _ _) as [[h1 w1]|] eqn:E; [|done]. cbn [mbind option_bind].
  intros [= _ <-]. by apply process_orders_fresh in E.
Qed.

Lemma hot_run_fresh clock ms h h' ws : hot_run clock ms h = Some (h', ws) → Forall fresh ws.
Proof.
  revert h ws. induction ms as [|[env msg] ms IH]; intros h ws; cbn [hot_run];
    [intros [= _ <-]; constructor|].
  destruct (hot_message _ _ _ _) as [[h1 w1]|] eqn:E1; [|done]. cbn [mbind option_bind].
  destruct (hot_run _ _ _) as [[h2 w2]|] eqn:E2; [|done]. cbn [mbind option_bind].
  intros [= <- <-]. apply Forall_app. split; [by eapply hot_message_fresh|by eapply IH].
Qed.

(** ** The I/O thread *)

(** [process_io_event] on the events in order, with the environment of each. *)
Fixpoint io_run (envs : nat → io_env) (k : nat) (es : list IOEvent) (s : io_state)
    : option io_state :=
  match es with
  | [] => Some s
  | e :: es => s ← process_io_event (envs k) e s; io_run envs (S k) es s
  end.

(** The event a write makes. *)
Definition event_of (w : io_write) : IOEvent := w zero_event.

Lemma events_printable ws : Forall writes_printable ws → Forall printable (event_of <$> ws).
Proof. intros H. apply Forall_fmap. eapply Forall_impl; [exact H|]. intros w Hw. apply Hw. Qed.

Lemma trade_text_printable e : printable e → ev_type e = TRADE → is_Some (trade_text e).
Proof.
  intros Hp Ht. unfold trade_text. rewrite read_symbol_fits by by apply Hp. by eexists.
Qed.

Lemma process_io_event_printable env e s s' : process_io_event env e s = Some s' → printable e.
Proof.
  unfold process_io_event, printable, trade_text, read_symbol. intros H Ht. rewrite Ht in H.
  by case_decide.
Qed.

(** Without a journal, an event that can be printed is processed. *)
Lemma process_io_event_unjournaled env e s :
  printable e → io_journal s = None →
  ∃ s', process_io_event env e s = Some s' ∧ io_journal s' = None.
Proof.
  intros Hp Hj. unfold process_io_event, journal_order, journal_trade, dispatch, log_io.
  pose proof (trade_text_printable e Hp) as Ht.
  destruct (ev_type e); cbn [io_journal io_log_calls io_gateway]; rewrite ?Hj;
    cbn [mbind option_bind];
    [| | |destruct (Ht eq_refl) as [text ->]; cbn [mbind option_bind]];
    eexists; (split; [done|]); repeat case_match; simpl in *; by simplify_eq.
Qed.

Lemma io_run_unjournaled envs k es s :
  Forall printable es → io_journal s = None → is_Some (io_run envs k es s).
Proof.
  intros Hes. revert k s. induction Hes as [|e es He _ IH]; intros k s Hj; [done|].
  cbn [io_run]. destruct (process_io_event_unjournaled (envs k) e s He Hj) as (s' & -> & Hj').
  by apply IH.
Qed.

Lemma io_process_fold envs ws es k os :
  Forall2 made ws es → Forall fresh ws →
  foldl (λ o e, io_process envs e o) (k, os) es =
  ((k + length ws)%nat, os ≫= io_run envs k (event_of <$> ws)).
Proof.
  intros Hm. revert k os. induction Hm as [|w e ws es [e0 ->] _ IH]; intros k os Hf.
  - simpl. rewrite Nat.add_0_r. by destruct os.
  - apply Forall_cons in Hf as [Hw Hf]. cbn [foldl]. unfold io_process at 2. cbn [fst snd].
    rewrite IH by done. cbn [length fmap list_fmap io_run]. f_equal; [lia|].
    destruct os as [s|]; [|done]. simpl. by rewrite Hw.
Qed.


(** The events submitted or written and not yet taken over by the I/O thread. *)
Definition in_flight {E O} (s : handoff (E:=E) (Q:=ring_buffer_t nat) (O:=O)) : Z :=
  Z.of_nat (length (reader_unread (h_reader s))) +
  ring_buffer_count (Some (tq_filled (h_queues s))) +
  Z.of_nat (length (writer_written (h_writer s))).

(** The I/O state under any schedule. *)
Lemma io_handoff_exact q n fr envs ws sched s0 :
  tq_rep q n fr [] [] → Forall fresh ws →
  ∃ s tried kept k,
    pipeline_run envs (pipeline_start q ws s0) sched = Some s ∧
    ws = tried ++ h_todo s ∧ kept `sublist_of` tried ∧
    length tried = (length kept + h_dropped s)%nat ∧ (k <= length kept <= k + n)%nat ∧
    Z.of_nat (length kept) = Z.of_nat k + in_flight s ∧
    h_out s = (k, io_run envs 0 (event_of <$> take k kept) s0).
Proof.
  intros Hrep Hfresh.
  destruct (handoff_sound (io_process envs) (λ e, e) _ _ _ ws (0%nat, Some s0) sched Hrep)
    as (s & done & kept & seen & pend & Hrun & Hw & Hk & Hd & Hm & Ho & Hp & fi & Hfi & Hfl).
  exists s, done, kept, (length seen).
  pose proof (Forall2_length _ _ _ Hm) as Hl. rewrite length_app in Hl.
  split; [exact Hrun|]. split; [exact Hw|]. split; [exact Hk|]. split; [exact Hd|].
  split; [lia|].
  split; [unfold in_flight; rewrite (q_rep_count _ _ _ Hfi), length_fmap; lia|].
  apply Forall2_app_inv_r in Hm as (k1 & k2 & H1 & _ & ->).
  assert (Forall fresh (k1 ++ k2)) as [Hf1 _]%Forall_app.
  { apply (sublist_Forall _ _ _ Hk). rewrite Hw in Hfresh. by apply Forall_app in Hfresh as [? _]. }
  rewrite Ho, (io_process_fold envs k1 seen 0 _ H1 Hf1).
  rewrite <- (Forall2_length _ _ _ H1), take_app_length. reflexivity.
Qed.

(** C4 -- The I/O thread does what the hot path says, in order: for a book and messages
    whose symbols have at most fifteen characters, so that they are terminated, and
    whatever the interleaving of the two threads' accesses to the queues and the
    events, and of a stop, no access is undefined and the state of the I/O thread is
    [process_io_event] run over the events of the first [k] of the writes that
    found a free object, in the order of the hot path and none of them changed
    by what the reused object held before; those after them are in the queue or in
    the hands of one of the threads, at most 4095, and every other write tried so far
    was counted as dropped. *)
Theorem pipeline_io_exact clock env symbol envs ms sched
    (Henv : init_env_ok env symbol) (Hsym : symbol_fits symbol)
    (Hms : Forall (λ m, symbol_fits (fm_symbol m.2)) ms) :
  ∃ p h ws, pipeline_init env symbol = Some (Some p, 0) ∧
    hot_run clock ms (ep_hot p) = Some (h, ws) ∧
    ∃ s tried kept k st,
      pipeline_run envs (pipeline_start (ep_queues p) ws (ep_io p)) sched = Some s ∧
      ws = tried ++ h_todo s ∧ kept `sublist_of` tried ∧
      length tried = (length kept + h_dropped s)%nat ∧
      (k <= length kept <= k + io_capacity)%nat ∧ Z.of_nat io_capacity = 4095 ∧
      Z.of_nat (length kept) = Z.of_nat k + in_flight s ∧
      h_out s = (k, Some st) ∧ io_run envs 0 (event_of <$> take k kept) (ep_io p) = Some st.
Proof.
  destruct (pipeline_init_ok env symbol Henv) as (p & fr & gw & Hi & [Hrep _] & _ & Hhot & _ & Hj & _).
  destruct (hot_run_symbols clock symbol ms _ (initial_hot_named symbol) Hms) as [[h ws] Hr].
  exists p, h, ws. split; [exact Hi|]. rewrite Hhot. split; [exact Hr|].
  destruct (io_handoff_exact _ _ _ envs _ sched (ep_io p) Hrep (hot_run_fresh _ _ _ _ _ Hr))
    as (s & tried & kept & k & H1 & H2 & H3 & H4 & H5 & H6 & H7).
  destruct (io_run_unjournaled envs 0 (event_of <$> take k kept) (ep_io p)) as [st Hst]; [|done|].
  { apply events_printable, Forall_take, (sublist_Forall _ _ _ H3).
    pose proof (hot_run_printable clock symbol ms h ws Hsym Hr) as Hp. rewrite H2 in Hp.
    by apply Forall_app in Hp as [? _]. }
  exists s, tried, kept, k, st. rewrite H7, Hst. split; [exact H1|]. split; [exact H2|].
  split; [exact H3|]. split; [exact H4|]. split; [exact H5|]. split; [by apply Z2Nat.id|by split].
Qed.


(** C39 -- [stop] clears [running_] before it waits for the hot path, and the I/O
    thread ends when it finds its queue empty after that: there is an
    interleaving in which it does so before the hot path, which still has
    messages to drain, submits anything.  All events of a run that fits the
    queue are then submitted, none counts as dropped, and none is ever
    journaled, logged or sent. *)
Theorem stop_loses_events clock env symbol envs ms p h ws
    (Henv : init_env_ok env symbol) (Hinit : pipeline_init env symbol = Some (Some p, 0))
    (Hhot : hot_run clock ms (ep_hot p) = Some (h, ws)) (Hl : Z.of_nat (length ws) <= 4095) :
  ∃ sched s,
    pipeline_run envs (pipeline_start (ep_queues p) ws (ep_io p)) (Stop :: sched) = Some s ∧
    h_todo s = [] ∧ h_writer s = WIdle ∧ h_reader s = RExit ∧ h_dropped s = 0%nat ∧
    h_out s = (0%nat, Some (ep_io p)).
Proof.
  destruct (pipeline_init_ok env symbol Henv) as (p' & fr & gw & Hi & [Hrep Hfr] & _).
  rewrite Hinit in Hi. injection Hi as <-.
  assert (Z.of_nat io_capacity = 4095) as Hc by (apply Z2Nat.id; done).
  assert (0 <= IO_EVENTS) as H0 by done. assert (4095 <= IO_EVENTS) as H1 by done.
  destruct (handoff_lost (io_process envs) (λ e, e) _ _ _ ws (0%nat, Some (ep_io p)) Hrep)
    as (s & Hs & Hw & Ht & Hd & Hr & Ho).
  { rewrite Hfr.  revert Hl Hc H0 H1. generalize io_capacity, IO_EVENTS. intros c n. lia. }
  eexists _, s. split; [exact Hs|]. by split_and!.
Qed.

(** ** The journal of a run *)

(** The record of an event: its type and payload. *)
Definition event_record (e : IOEvent) : journal_record_type_t * list Z :=
  let order filled status :=
    order_payload_bytes (ev_order_id e) (ev_account_id e) (ev_price e) (ev_quantity e) filled
      (ev_timestamp_ns e) (ev_side e) (ev_order_type e) status (Some (ev_symbol e)) [] in
  match ev_type e with
  | ORDER_REJECTED => (JRNL_ORDER_REJECT, order 0 (status_code REJECTED))
  | ORDER_ACCEPTED => (JRNL_ORDER_NEW, order (ev_filled_qty e) (ev_status e))
  | ORDER_FILLED => (JRNL_ORDER_FILLED, order (ev_filled_qty e) (ev_status e))
  | TRADE =>
    (JRNL_TRADE, trade_payload_bytes (ev_trade_id e) (ev_buy_order_id e) (ev_sell_order_id e)
       (ev_trade_price e) (ev_trade_qty e) (ev_trade_ts_ns e) (Some (ev_trade_symbol e)) [])
  end.

Definition journal_entry (env : io_env) (e : IOEvent) : JournalProps.log_entry :=
  (ie_append env, record_type_code (event_record e).1, (event_record e).2).

Fixpoint journal_entries (envs : nat → io_env) (k : nat) (es : list IOEvent)
    : list JournalProps.log_entry :=
  match es with
  | [] => []
  | e :: es => journal_entry (envs k) e :: journal_entries envs (S k) es
  end.

Lemma event_record_bytes e :
  length (event_record e).2 = 52%nat ∧ Forall is_u8 (event_record e).2.
Proof.
  unfold event_record, order_payload_bytes, trade_payload_bytes, payload_symbol, le_i32, le_double.
  assert (∀ n x, Forall is_u8 (le_bytes n x)) as Hb by apply le_bytes_u8.
  destruct (ev_type e); cbn [snd];
    (split; [by rewrite !length_app, !le_bytes_length, symbol_bytes_length|
             rewrite !Forall_app; split_and!;
               first [apply Hb | apply symbol_bytes_u8 | by apply Forall_replicate]]).
Qed.

(** One event: the record it makes is appended, whatever else happens. *)
Lemma process_io_event_journal env e s j :
  printable e → io_journal s = Some j →
  ∃ F, (∀ j' : journal_t, io_journal (F j') = Some j') ∧
    process_io_event env e s =
      '(j', _) ← journal_append_to (ie_append env) j (record_type_code (event_record e).1)
                   (Some (event_record e).2) 52; Some (F j').
Proof.
  intros Hp Hj. unfold process_io_event, event_record.
  pose proof (trade_text_printable e Hp) as Ht.
  destruct (ev_type e); try destruct (Ht eq_refl) as [text ->]; unfold journal_order, journal_trade, log_io, journal_log_order,
    journal_log_trade, journal_append, ORDER_PAYLOAD_SIZE, TRADE_PAYLOAD_SIZE;
    cbn [io_journal io_log_calls io_gateway fst snd mbind option_bind]; rewrite Hj;
    cbn [mbind option_bind].
  - exists (λ j', dispatch env e (MkIoState (io_log_calls s) (Some j') (io_gateway s))).
    split; [|by destruct (journal_append_to _ _ _ _ _) as [[]|]].
    intros j'. unfold dispatch. case_match; [|done]. by case_match; case_match.
  - exists (λ j', MkIoState (io_log_calls s ++ [(ie_log_time env, LOG_WARN, rejected_text e)])
                    (Some j') (io_gateway s)).
    split; [done|]. by destruct (journal_append_to _ _ _ _ _) as [[]|].
  - exists (λ j', dispatch env e (MkIoState
                    (io_log_calls s ++ [(ie_log_time env, LOG_INFO, filled_text e)])
                    (Some j') (io_gateway s))).
    split; [|by destruct (journal_append_to _ _ _ _ _) as [[]|]].
    intros j'. unfold dispatch. case_match; [|done]. by case_match; case_match.
  - exists (λ j', MkIoState (io_log_calls s ++ [(ie_log_time env, LOG_INFO, text)])
                    (Some j') (io_gateway s)).
    split; [done|]. by destruct (journal_append_to _ _ _ _ _) as [[]|].
Qed.

(** Every [fwrite] of a run writes all it is given. *)
Definition writes_work (envs : nat → io_env) : Prop :=
  ∀ k, ae_fwrite_header (ie_append (envs k)) = 32 ∧ ae_fwrite_payload (ie_append (envs k)) = 52.

Lemma journal_entries_ok envs k es :
  writes_work envs → Forall entry_ok (journal_entries envs k es).
Proof.
  intros Hw. revert k. induction es as [|e es IH]; intros k; constructor; [|apply IH].
  destruct (Hw k) as [H1 H2]. destruct (event_record_bytes e) as [Hl Hu].
  unfold entry_ok, journal_entry. rewrite Hl. by split_and!.
Qed.

(** Every extension of the mapping works. *)
Lemma journal_entries_mapped envs k es :
  (∀ k, ae_ftruncate (ie_append (envs k)) = true ∧ ae_mmap (ie_append (envs k)) = true) →
  Forall mapped_entry_ok (journal_entries envs k es).
Proof.
  intros Hw. revert k. induction es as [|e es IH]; intros k; constructor; [|apply IH].
  destruct (Hw k) as [H1 H2]. destruct (event_record_bytes e) as [Hl Hu].
  unfold mapped_entry_ok, journal_entry. rewrite Hl. by split_and!.
Qed.

Lemma journal_entries_length envs k es : length (journal_entries envs k es) = length es.
Proof. revert k. induction es as [|e es IH]; intros k; simpl; [done|]. by rewrite IH. Qed.

(** A run appends the records of its events, if the appends work. *)
Lemma io_run_appends envs k es s j j' :
  Forall printable es → io_journal s = Some j → append_all j (journal_entries envs k es) = Some j' →
  ∃ s', io_run envs k es s = Some s' ∧ io_journal s' = Some j'.
Proof.
  intros Hes. revert k s j. induction Hes as [|e es He _ IH]; intros k s j Hj Ha;
    [exists s; simpl in Ha; by simplify_eq|].
  cbn [io_run journal_entries append_all] in *. unfold journal_entry in Ha at 1.
  destruct (process_io_event_journal (envs k) e s j He Hj) as (F & HF & ->).
  destruct (event_record_bytes e) as [Hl _]. rewrite Hl in Ha. change (Z.of_nat 52) with 52 in Ha.
  destruct (journal_append_to _ _ _ _ _) as [[j1 rc]|]; [|done]. cbn [mbind option_bind] in *.
  destruct (rc =? 0); [|done]. by apply (IH (S k) (F j1) j1).
Qed.

(** A pipeline that journals to a file opened for it. *)
Definition fresh_journal : option journal_t :=
  journal_open (MkOpenEnv true (Some empty_file) true true true) true false.

(** C8 -- The journal of a run is the run: for a symbol of at most fifteen characters and
    a journal in file mode, opened on an empty file, whose writes work, and whatever the
    interleaving, as long as the hot path was done when the pipeline was stopped,
    replaying the closed file gives exactly one record for each order and each trade of
    the hot path that found a free object, in the order of the hot path, numbered 0, 1,
    2, ..., each with the type and the payload of its event and a checksum that holds. *)
Theorem pipeline_journal_replays clock env symbol envs ms sched sched' p h ws s s' out
    (Henv : init_env_ok env symbol) (Hinit : pipeline_init env symbol = Some (Some p, 0))
    (Hsym : symbol_fits symbol) (Hhot : hot_run clock ms (ep_hot p) = Some (h, ws))
    (Hwrites : writes_work envs) (Hfew : Z.of_nat (length ws) < 2 ^ 64)
    (Hrun : pipeline_run envs (pipeline_start (ep_queues p) ws
              (ep_io (set_journal p fresh_journal))) sched = Some s)
    (Hdone : h_todo s = [] ∧ h_writer s = WIdle) (Hrunning : h_reader s ≠ RExit)
    (Hstop : pipeline_run envs s (Stop :: sched') = Some s') (Hexit : h_reader s' = RExit)
    (Hout : h_out s' = out) :
  ∃ kept st f,
    kept `sublist_of` ws ∧ length ws = (length kept + h_dropped s')%nat ∧
    out = (length kept, Some st) ∧ journal_close true (io_journal st) = Some f ∧
    replay (contents f) =
      (λ r, (sealed_header r.1 r.2, r.2)) <$>
        session_records 0 (journal_entries envs 0 (event_of <$> kept)).
Proof.
  destruct (pipeline_init_ok env symbol Henv) as (p' & fr & gw & Hi & [Hrep _] & _).
  rewrite Hinit in Hi. injection Hi as <-. destruct Hdone as [Ht Hw].
  pose proof (hot_run_fresh _ _ _ _ _ Hhot) as Hfresh.
  rewrite (pipeline_init_hot _ _ _ Hinit) in Hhot.
  pose proof (hot_run_printable _ _ _ _ _ Hsym Hhot) as Hprint.
  destruct (handoff_complete (io_process envs) (λ e, e) _ _ _ _ _ _ _ Hrep Hrun Hw Ht Hrunning sched')
    as (s1 & kept & seen & Hs & Hk & Hd & He).
  assert (s1 = s') as -> by (unfold pipeline_run in Hstop; congruence).
  destruct (He Hexit) as [Hm Ho].
  rewrite (io_process_fold envs kept seen 0 _ Hm) in Ho by by apply (sublist_Forall _ _ _ Hk).
  set (j0 := MkJournal false 0 0 0 false 0 0 empty_file).
  pose proof (journal_entries_ok envs 0 (event_of <$> kept) Hwrites) as Hok.
  assert (Z.of_nat (length (journal_entries envs 0 (event_of <$> kept))) < 2 ^ 64) as Hlen.
  { rewrite journal_entries_length, length_fmap.  lia. }
  destruct (append_all_contents j0 _ eq_refl ltac:(done) Hok ltac:(done) Hlen)
    as (j' & Ha' & Hm' & _ & Hc).
  destruct (io_run_appends envs 0 (event_of <$> kept) (ep_io (set_journal p fresh_journal)) j0 j')
    as (st & Hr & Hj); [by apply events_printable, (sublist_Forall _ _ _ Hk)|done|exact Ha'|].
  exists kept, st, (j_file j'). split; [exact Hk|]. split; [exact Hd|]. split.
  { rewrite <- Hout, Ho. cbn [mbind option_bind]. by rewrite Hr. }
  split; [unfold journal_close; rewrite Hj; cbn; by rewrite Hm'|].
  rewrite Hc. apply replay_seals. by apply session_records_ok.
Qed.

(** C40 -- The journal as main opens it, memory-mapped and new, keeps every record where
    replaying it does not find it: for a symbol of at most fifteen characters, every
    run, schedule and point of it, with system calls that work, the first [k] events of
    those that found a free object have been processed, each of them was appended to the
    journal with return value 0, and the closed file has exactly their records, in
    order, behind its first 256 MB; these are zero, so that replaying any part of the
    file from its beginning finds none of them. *)
Theorem mapped_pipeline_journal_unreadable clock env symbol envs ms sched truncated n p h ws
    (Henv : init_env_ok env symbol) (Hinit : pipeline_init env symbol = Some (Some p, 0))
    (Hsym : symbol_fits symbol) (Hhot : hot_run clock ms (ep_hot p) = Some (h, ws))
    (Hworks : ∀ k, ae_ftruncate (ie_append (envs k)) = true ∧ ae_mmap (ie_append (envs k)) = true)
    (Hfew : Z.of_nat (length ws) < 2 ^ 32) :
  ∃ s kept k st j0 j f,
    pipeline_run envs (pipeline_start (ep_queues p) ws
      (ep_io (set_journal p new_mapped_journal))) sched = Some s ∧
    kept `sublist_of` ws ∧ (k <= length kept <= k + io_capacity)%nat ∧
    (length ws = length kept + length (h_todo s) + h_dropped s)%nat ∧
    h_out s = (k, Some st) ∧
    let entries := journal_entries envs 0 (event_of <$> take k kept) in
    new_mapped_journal = Some j0 ∧ append_all j0 entries = Some j ∧
    io_journal st = Some j ∧ j_sequence j = Z.of_nat k ∧
    journal_close truncated (Some j) = Some f ∧
    replay (f_read f DEFAULT_MMAP_SIZE (length (session_bytes 0 entries))) =
      (λ r, (sealed_header r.1 r.2, r.2)) <$> session_records 0 entries ∧
    replay (f_read f 0 n) = [].
Proof.
  destruct (pipeline_init_ok env symbol Henv) as (p' & fr & gw & Hi & [Hrep _] & _).
  rewrite Hinit in Hi. injection Hi as <-.
  destruct (io_handoff_exact _ _ _ envs ws sched (ep_io (set_journal p new_mapped_journal)) Hrep
    (hot_run_fresh _ _ _ _ _ Hhot)) as (s & tried & kept & k & H1 & H2 & H3 & H4 & H5 & _ & H6).
  rewrite (pipeline_init_hot _ _ _ Hinit) in Hhot.
  pose proof (hot_run_printable _ _ _ _ _ Hsym Hhot) as Hprint.
  assert (kept `sublist_of` ws) as Hsub by (rewrite H2; by apply sublist_inserts_r).
  set (entries := journal_entries envs 0 (event_of <$> take k kept)).
  assert (length entries = k) as Hlen
    by (unfold entries; rewrite journal_entries_length, length_fmap, length_take; lia).
  pose proof (journal_entries_mapped envs 0 (event_of <$> take k kept) Hworks) as Hok.
  apply sublist_length in Hsub as Hle. rewrite H2, length_app in Hle.
  rewrite H2, length_app in Hfew.
  destruct (new_mapped_appends entries truncated n Hok) as (j0 & j & f & Hj0 & Ha & Hc & Hq & _ & Hrd & Hr);
    [lia|].
  destruct (io_run_appends envs 0 _ (ep_io (set_journal p new_mapped_journal)) j0 j
    (events_printable _ (Forall_take _ k _ (sublist_Forall _ _ _ Hsub Hprint))) Hj0 Ha)
    as (st & Hst & Hj).
  exists s, kept, k, st, j0, j, f. rewrite H6, Hst, Hq, Hlen. cbv zeta.
  split; [exact H1|]. split; [exact Hsub|]. split; [exact H5|].
  split; [rewrite H2, length_app; lia|]. split; [done|]. split; [exact Hj0|]. split; [exact Ha|].
  split; [exact Hj|]. split; [done|]. split; [exact Hc|]. split; [|exact Hr].
  fold entries. rewrite Hrd. apply replay_seals, session_records_bytes; [|done|lia].
    eapply Forall_impl; [exact Hok|]. apply mapped_entry_bytes.
Qed.

(** ** Witnesses *)

Definition ex_io_env (k : nat) : io_env :=
  MkIoEnv (2, Z.of_nat k) (MkAppendEnv (3, Z.of_nat k) true true 32 52) (4, Z.of_nat k) [].

(** A run in which the hot path submits everything before the I/O thread starts. *)
Definition ex_submit : list actor := concat (replicate 5 [Writer; Writer; Writer]).

Lemma ex_run jrnl :
  ∃ p h ws, pipeline_init ex_init_env "AAPL" = Some (Some p, 0) ∧
    hot_run ex_clock ex_messages (ep_hot p) = Some (h, ws) ∧ length ws = 5%nat ∧
    ∃ s, pipeline_run ex_io_env (pipeline_start (ep_queues p) ws (ep_io (set_journal p jrnl)))
           ex_submit = Some s ∧ h_todo s = [] ∧ h_writer s = WIdle ∧ h_reader s ≠ RExit ∧
    ∃ s', pipeline_run ex_io_env s (Stop :: replicate (2 * io_capacity + 4) Reader) = Some s' ∧
          h_reader s' = RExit.
Proof.
  destruct (pipeline_init_ok ex_init_env "AAPL" ex_init_env_ok)
    as (p & fr & gw & Hi & [Hrep Hfr] & _ & Hhot & _).
  destruct (ex_writes ex_clock) as (h & ws & Hr & Hl).
  exists p, h, ws. split; [exact Hi|]. rewrite Hhot. split; [exact Hr|]. split; [exact Hl|].
  clear Hr. destruct (writer_alone (io_process ex_io_env) (λ e, e) ws _ _ fr [] 0 RCheck
    (0%nat, Some (ep_io (set_journal p jrnl))) true Hrep) as (s & Hs & Hw & Ht & _ & Hr & _).
  { rewrite Hl, Hfr. assert (5 <= Z.of_nat io_capacity) by (by unfold io_capacity, logger_capacity; rewrite Z2Nat.id).
    assert (5 <= IO_EVENTS) as HI by done. revert H HI. generalize io_capacity, IO_EVENTS. lia. }
  rewrite Hl in Hs. exists s. split; [exact Hs|]. split; [exact Ht|]. split; [exact Hw|].
  split; [by rewrite Hr|]. exact (handoff_ends (io_process ex_io_env) (λ e, e) _ _ _ _ _ _ _ Hrep Hs).
Qed.

Lemma aapl_fits : symbol_fits "AAPL".
Proof. unfold symbol_fits. simpl. lia. Qed.

Lemma ex_messages_fit : Forall (λ m, symbol_fits (fm_symbol m.2)) ex_messages.
Proof. eapply Forall_impl; [exact ex_messages_ok|]. by intros m [_ ?]. Qed.

Lemma pipeline_io_exact_witness :
  ∃ p h ws, pipeline_init ex_init_env "AAPL" = Some (Some p, 0) ∧
    hot_run ex_clock ex_messages (ep_hot p) = Some (h, ws) ∧
    ∃ s tried kept k st,
      pipeline_run ex_io_env (pipeline_start (ep_queues p) ws (ep_io p))
        [Writer; Writer; Writer; Reader; Reader; Reader; Writer] = Some s ∧
      ws = tried ++ h_todo s ∧ kept `sublist_of` tried ∧
      length tried = (length kept + h_dropped s)%nat ∧
      (k <= length kept <= k + io_capacity)%nat ∧ Z.of_nat io_capacity = 4095 ∧
      Z.of_nat (length kept) = Z.of_nat k + in_flight s ∧
      h_out s = (k, Some st) ∧ io_run ex_io_env 0 (event_of <$> take k kept) (ep_io p) = Some st.
Proof.
  exact (pipeline_io_exact ex_clock ex_init_env "AAPL" ex_io_env ex_messages
    [Writer; Writer; Writer; Reader; Reader; Reader; Writer] ex_init_env_ok aapl_fits
    ex_messages_fit).
Defined.


Lemma stop_loses_events_witness :
  ∃ p h ws, pipeline_init ex_init_env "AAPL" = Some (Some p, 0) ∧
    hot_run ex_clock ex_messages (ep_hot p) = Some (h, ws) ∧ length ws = 5%nat ∧
    ∃ sched s,
      pipeline_run ex_io_env (pipeline_start (ep_queues p) ws (ep_io p)) (Stop :: sched) = Some s ∧
      h_todo s = [] ∧ h_writer s = WIdle ∧ h_reader s = RExit ∧ h_dropped s = 0%nat ∧
      h_out s = (0%nat, Some (ep_io p)).
Proof.
  destruct (ex_run None) as (p & h & ws & Hi & Hh & Hl & _).
  exists p, h, ws. split; [exact Hi|]. split; [exact Hh|]. split; [exact Hl|].
  apply (stop_loses_events ex_clock ex_init_env "AAPL" ex_io_env ex_messages p h ws
    ex_init_env_ok Hi Hh). rewrite Hl. lia.
Defined.

Lemma ex_mappings_work k :
  ae_ftruncate (ie_append (ex_io_env k)) = true ∧ ae_mmap (ie_append (ex_io_env k)) = true.
Proof. done. Qed.

Lemma ex_writes_work : writes_work ex_io_env.
Proof. by intros k. Qed.

Lemma pipeline_journal_replays_witness :
  ∃ p h ws s s', pipeline_init ex_init_env "AAPL" = Some (Some p, 0) ∧
    hot_run ex_clock ex_messages (ep_hot p) = Some (h, ws) ∧
    pipeline_run ex_io_env s (Stop :: replicate (2 * io_capacity + 4) Reader) = Some s' ∧
  ∃ kept st f,
    kept `sublist_of` ws ∧ length ws = (length kept + h_dropped s')%nat ∧
    h_out s' = (length kept, Some st) ∧ journal_close true (io_journal st) = Some f ∧
    replay (contents f) =
      (λ r, (sealed_header r.1 r.2, r.2)) <$>
        session_records 0 (journal_entries ex_io_env 0 (event_of <$> kept)).
Proof.
  destruct (ex_run fresh_journal) as (p & h & ws & Hi & Hh & Hl & s & Hs & Ht & Hw & Hr & s' & Hs' & He).
  exists p, h, ws, s, s'. split; [exact Hi|]. split; [exact Hh|]. split; [exact Hs'|].
  apply (pipeline_journal_replays ex_clock ex_init_env "AAPL" ex_io_env ex_messages ex_submit
    (replicate (2 * io_capacity + 4) Reader) p h ws s s' (h_out s') ex_init_env_ok Hi aapl_fits Hh
    ex_writes_work);
    [rewrite Hl; reflexivity|exact Hs|exact (conj Ht Hw)|exact Hr|exact Hs'|exact He|reflexivity].
Defined.

Lemma mapped_pipeline_journal_unreadable_witness :
  ∃ p h ws, pipeline_init ex_init_env "AAPL" = Some (Some p, 0) ∧
    hot_run ex_clock ex_messages (ep_hot p) = Some (h, ws) ∧ length ws = 5%nat ∧
  ∃ s (kept : list io_write) k st j f,
    pipeline_run ex_io_env (pipeline_start (ep_queues p) ws
      (ep_io (set_journal p new_mapped_journal))) ex_submit = Some s ∧
    (length ws = length kept + length (h_todo s) + h_dropped s)%nat ∧
    h_out s = (k, Some st) ∧ io_journal st = Some j ∧ j_sequence j = Z.of_nat k ∧
    journal_close true (Some j) = Some f ∧ replay (f_read f 0 100) = [].
Proof.
  destruct (ex_run None) as (p & h & ws & Hi & Hh & Hl & _).
  destruct (mapped_pipeline_journal_unreadable ex_clock ex_init_env "AAPL" ex_io_env ex_messages
    ex_submit true 100 p h ws ex_init_env_ok Hi aapl_fits Hh ex_mappings_work ltac:(rewrite Hl; reflexivity))
    as (s & kept & k & st & j0 & j & f & H1 & _ & _ & H2 & H3 & _ & _ & H4 & H5 & H6 & _ & H7).
  exists p, h, ws. split; [exact Hi|]. split; [exact Hh|]. split; [exact Hl|].
  exists s, kept, k, st, j, f.
  split; [exact H1|]. split; [exact H2|]. split; [exact H3|]. split; [exact H4|].
  split; [exact H5|]. split; [exact H6|exact H7].
Defined.
