(* ===== verification/PipelineSpec.v ===== *)
(** * The event pipeline refines one without memory

    The specification of the pipeline has no pool of messages, no ring buffers, no
    addresses and no event objects that are reused: the feed is the queue of
    messages of FeedQueue.v, and what is on its way to the I/O thread is a list of
    events, of which there are at most [io_capacity] less those the drain loop of the
    I/O thread did not return.  Rounds of the three threads in any order, those of
    the drain loop among them, do to the book, the risk engine, the statistics, the
    journal, the log and the gateway what they do in the specification. *)

From S2P Require Export PipelineIO.

Record pipeline_spec := MkSpec {
  sp_feed : feed_spec;
  sp_hot : hot_state;
  sp_events : list IOEvent;
  sp_lost : nat;             (* objects the drain loop has not returned *)
  sp_dropped : Z;
  sp_io : io_state;
}.

(** Events of the hot path are queued while there is room, or dropped. *)
Fixpoint spec_emit (room : nat) (events : list IOEvent) (dropped : Z) (ws : list io_write)
    : list IOEvent * Z :=
  match ws with
  | [] => (events, dropped)
  | w :: ws =>
    if decide (length events < room)%nat
    then spec_emit room (events ++ [event_of w]) dropped ws
    else spec_emit room events (u64 (dropped + 1)) ws
  end.

Section spec.
Context (clock : nat → Z * Z) (symbol : string).

Notation config := (pipeline_feed_config symbol).
Notation feed_spec_step := (spec_step config (queue_room config) (pool_room config)).

Definition spec_consume (env : md_env) (s : pipeline_spec) : option pipeline_spec :=
  match fs_queue (sp_feed s) with
  | [] => Some s
  | msg :: queue =>
    '(h, ws) ← hot_message clock env (sp_hot s) msg;
    let '(events, dropped) :=
      spec_emit (io_capacity - sp_lost s) (sp_events s) (sp_dropped s) ws in
    Some (MkSpec (fs_set_lists (sp_feed s) queue []) h events (sp_lost s) dropped (sp_io s))
  end.

Definition spec_io (lost : nat) (env : io_env) (s : pipeline_spec) : option pipeline_spec :=
  match sp_events s with
  | [] => Some s
  | e :: events =>
    io ← process_io_event env e (sp_io s);
    Some (MkSpec (sp_feed s) (sp_hot s) events (lost + sp_lost s) (sp_dropped s) io)
  end.

Definition spec_round (s : pipeline_spec) (a : pipeline_action) : option pipeline_spec :=
  match a with
  | AFeed ts => Some (MkSpec (feed_spec_step (sp_feed s) (FSim ts)).1 (sp_hot s) (sp_events s)
                        (sp_lost s) (sp_dropped s) (sp_io s))
  | AConsume env => spec_consume env s
  | AIO env => spec_io 0 env s
  | ADrain env => spec_io 1 env s
  end.

Fixpoint spec_rounds (s : pipeline_spec) (acts : list pipeline_action) : option pipeline_spec :=
  match acts with [] => Some s | a :: acts => s ← spec_round s a; spec_rounds s acts end.

(** What is queued can be printed if what is written can. *)
Lemma spec_emit_printable room es dropped ws :
  Forall printable es → Forall writes_printable ws →
  Forall printable (spec_emit room es dropped ws).1.
Proof.
  intros He Hws. revert es dropped He. induction Hws as [|w ws Hw _ IH]; intros es dropped He;
    [done|]. cbn [spec_emit]. case_decide; apply IH; [|done].
  apply Forall_app. split; [done|]. constructor; [apply Hw|constructor].
Qed.

(** ** The abstraction *)

(** The object at [ptr] holds the event, up to what its writes leave behind. *)
Definition holds_event (pool : list IOEvent) (ptr : nat) (e : IOEvent) : Prop :=
  ∃ w e0, pool !! ptr = Some (w e0) ∧ fresh w ∧ e = event_of w.

(** [ptrs] are the addresses in the feed's queue; [fr], [fi] and [lost] the free
    and the filled events and those not returned. *)
Record pipeline_rep_at (p : EventPipeline) (s : pipeline_spec) (ptrs : list Z)
    (fr fi lost : list nat) : Prop := {
  pr_feed : pipeline_feed_rep symbol (ep_feed p, []) (sp_feed s) ptrs;
  pr_hot : ep_hot p = sp_hot s;
  pr_queues : tq_rep (ep_queues p) io_capacity fr fi lost;
  pr_count : (length fr + length fi + length lost = io_capacity)%nat;
  pr_lost : length lost = sp_lost s;
  pr_events : Forall2 (holds_event (tq_pool (ep_queues p))) fi (sp_events s);
  pr_dropped : ep_dropped p = sp_dropped s;
  pr_io : ep_io p = sp_io s;
}.

Definition pipeline_rep (p : EventPipeline) (s : pipeline_spec) : Prop :=
  ∃ ptrs fr fi lost, pipeline_rep_at p s ptrs fr fi lost.

Lemma rep_held_nil s a ptrs : pipeline_feed_rep symbol (s, []) a ptrs → fs_held a = [].
Proof. intros []. by apply Forall2_nil_inv_l in fr_kept. Qed.

Lemma holds_event_other pool ptr f fi es :
  ptr ∉ fi → Forall2 (holds_event pool) fi es → Forall2 (holds_event (<[ptr := f]> pool)) fi es.
Proof.
  intros Hp H. induction H as [|q e fi es (w & e0 & Hq & ?) _ IH]; constructor.
  - exists w, e0. rewrite list_lookup_insert_ne; [done|]. set_solver.
  - apply IH. set_solver.
Qed.

(** The hot path emits. *)
Lemma emit_all_rep q n room fr fi lost es dropped ws :
  tq_rep q n fr fi lost → (length fr + length fi = room)%nat →
  Forall2 (holds_event (tq_pool q)) fi es → Forall fresh ws →
  ∃ q' fr' fi', emit_all q dropped ws = Some (q', (spec_emit room es dropped ws).2) ∧
    tq_rep q' n fr' fi' lost ∧ (length fr' + length fi' = room)%nat ∧
    Forall2 (holds_event (tq_pool q')) fi' (spec_emit room es dropped ws).1.
Proof.
  intros Hq Hl He Hf. revert q fr fi es dropped Hq Hl He.
  induction Hf as [|w ws Hw _ IH]; intros q fr fi es dropped Hq Hl He; cbn [emit_all spec_emit].
  - by exists q, fr, fi.
  - pose proof (Forall2_length _ _ _ He) as Hle. unfold tq_emit.
    destruct (tq_take_rep _ _ _ _ _ Hq) as (t1 & -> & P1 & H1).
    destruct fr as [|p fr]; cbn [head tail option_list app mbind option_bind length] in *.
    + rewrite decide_False by lia. apply (IH t1 [] fi); [done|cbn; lia|by rewrite P1].
    + rewrite decide_True by lia.
      destruct (tq_held_only _ _ _ _ _ _ H1) as (_ & Hp & _).
      destruct (tq_write_rep _ _ _ _ _ p w H1) as (e & Hle' & -> & H2); [set_solver|].
      cbn [mbind option_bind]. destruct (tq_submit_rep _ _ _ _ _ _ H2) as (t3 & -> & P3 & H3).
      apply (IH t3 fr (fi ++ [p])); [done|rewrite length_app; cbn; lia|].
      rewrite P3. cbn [tq_pool]. rewrite P1 in *. apply Forall2_app.
      * by apply holds_event_other.
      * constructor; [|constructor]. exists w, e. split; [|done].
        apply list_lookup_insert_eq. by eapply lookup_lt_Some.
Qed.

(** ** Each round *)

Lemma feed_round_rep p s ts :
  pipeline_rep p s →
  ∃ p' s', pipeline_step clock p (AFeed ts) = Some p' ∧ spec_round s (AFeed ts) = Some s' ∧
    pipeline_rep p' s'.
Proof.
  intros (ptrs & fr & fi & lost & []). cbn [pipeline_step spec_round].
  pose proof (rep_held_nil _ _ _ pr_feed0) as Hheld.
  destruct (rep_step _ _ _ _ _ _ (FSim ts) pr_feed0 I) as ([fh held] & ptrs' & Hs & Hr).
  cbn [feed_step] in Hs. destruct (sim_round (ep_feed p) ts) as [fh'|]; [|done].
  cbn [mbind option_bind] in *. injection Hs as -> <-.
  eexists _, _. split; [reflexivity|]. split; [reflexivity|]. exists ptrs', fr, fi, lost. by split.
Qed.

(** A round of the I/O thread, whatever it does with the object. *)
Lemma io_next_rep release k p s env :
  (∀ t fr fi lost ptr, tq_rep t io_capacity fr fi (ptr :: lost) →
     ∃ t' fr' lost', release t ptr = Some t' ∧ tq_pool t' = tq_pool t ∧
       tq_rep t' io_capacity fr' fi lost' ∧ length lost' = (k + length lost)%nat ∧
       (length fr' + length lost' = S (length fr + length lost))%nat) →
  pipeline_rep p s →
  match spec_io k env s with
  | None => io_next release env p = None
  | Some s' => ∃ p', io_next release env p = Some p' ∧ pipeline_rep p' s'
  end.
Proof.
  intros Hrel (ptrs & fr & fi & lost & []). unfold io_next, spec_io.
  destruct (tq_next_rep _ _ _ _ _ pr_queues0) as (t1 & -> & P1 & H1).
  remember (sp_events s) as evs eqn:Eevs.
  destruct pr_events0 as [|ptr e fi es (w & e0 & Hptr & Hw & ->) He];
    cbn [head tail option_list app mbind option_bind] in *.
  - eexists. split; [reflexivity|]. exists ptrs, fr, [], lost.
    split; try done. cbn. rewrite <- Eevs. constructor.
  - rewrite P1, Hptr. cbn [mbind option_bind]. rewrite Hw, pr_io0.
    change (w zero_event) with (event_of w).
    destruct (process_io_event env (event_of w) (sp_io s)) as [io|]; [|reflexivity].
    cbn [mbind option_bind].
    destruct (Hrel _ _ _ _ _ H1) as (t2 & fr' & lost' & -> & P2 & H2 & Hk & Hl).
    cbn [mbind option_bind]. eexists. split; [reflexivity|]. exists ptrs, fr', fi, lost'.
    split; try done; cbn in *; try lia. by rewrite P2, P1.
Qed.

Lemma io_round_rep p s env :
  pipeline_rep p s →
  match spec_round s (AIO env) with
  | None => pipeline_step clock p (AIO env) = None
  | Some s' => ∃ p', pipeline_step clock p (AIO env) = Some p' ∧ pipeline_rep p' s'
  end.
Proof.
  apply (io_next_rep tq_recycle 0). intros t fr fi lost ptr Ht.
  destruct (tq_recycle_rep _ _ _ _ _ _ Ht) as (t' & ? & ? & ?). exists t', (fr ++ [ptr]), lost.
  split_and!; try done. rewrite length_app. cbn. lia.
Qed.

Lemma drain_round_rep p s env :
  pipeline_rep p s →
  match spec_round s (ADrain env) with
  | None => pipeline_step clock p (ADrain env) = None
  | Some s' => ∃ p', pipeline_step clock p (ADrain env) = Some p' ∧ pipeline_rep p' s'
  end.
Proof.
  apply (io_next_rep (λ q _, Some q) 1). intros t fr fi lost ptr Ht.
  exists t, fr, (ptr :: lost). split_and!; try done.
Qed.

Lemma consume_round_rep p s env :
  pipeline_rep p s →
  match spec_round s (AConsume env) with
  | None => pipeline_step clock p (AConsume env) = None
  | Some s' => ∃ p', pipeline_step clock p (AConsume env) = Some p' ∧ pipeline_rep p' s'
  end.
Proof.
  intros (ptrs & fr & fi & lost & []). cbn [pipeline_step spec_round].
  unfold consumer_round, spec_consume.
  pose proof (rep_held_nil _ _ _ pr_feed0) as Hheld.
  destruct (rep_step _ _ _ _ _ _ FPop pr_feed0 I) as ([fh held] & ptrs1 & Hs & Hr).
  cbn [feed_step] in Hs. destruct (feed_pop (ep_feed p)) as [[fh1 ptr]|]; [|done].
  cbn [mbind option_bind] in *. cbn [spec_step] in Hs, Hr.
  destruct ptr as [ptr|].
  2:{ destruct (fs_queue (sp_feed s)) as [|msg queue] eqn:Eq; [|by injection Hs].
      cbn [snd fst] in *. injection Hs as -> <-. cbn [process_market_data mbind option_bind].
      eexists. split; [reflexivity|]. exists ptrs1, fr, fi, lost. by split. }
  destruct (fh_objects fh1 !! ptr) as [msg1|] eqn:Emsg; [|done]. cbn [mbind option_bind] in Hs.
  destruct (fs_queue (sp_feed s)) as [|msg queue] eqn:Eq; cbn [snd fst] in *; [by injection Hs|].
  simplify_eq. rewrite Hheld in Hr. cbn [app] in *.
  unfold process_market_data. cbn [ep_feed ep_hot ep_queues ep_dropped ep_io ep_running].
  rewrite Emsg. cbn [mbind option_bind]. rewrite pr_hot0, pr_dropped0.
  destruct (hot_message clock env (sp_hot s) msg) as [[h ws]|] eqn:Hmsg; [|reflexivity].
  pose proof (hot_message_fresh _ _ _ _ _ _ Hmsg) as Hfresh. cbn [mbind option_bind].
  assert (length fr + length fi = io_capacity - sp_lost s)%nat as Hroom by lia.
  destruct (emit_all_rep _ _ _ _ _ _ _ (sp_dropped s) ws pr_queues0 Hroom pr_events0 Hfresh)
    as (q & fr' & fi' & -> & Hq & Hl & He).
  destruct (spec_emit _ _ _ ws) as [es d]. cbn [mbind option_bind fst snd] in *.
  destruct (rep_step _ _ _ _ _ _ (FReturn 0) Hr) as ([fh2 held2] & ptrs2 & Hs2 & Hr2);
    [simpl; lia|].
  cbn [feed_step lookup list_lookup mbind option_bind feed_return_msg] in Hs2.
  cbn [feed_return_msg]. destruct (mempool_free (fh_msg_pool fh) ptr) as [mp|]; [|done].
  cbn [mbind option_bind] in *. cbn in Hs2. injection Hs2 as <- <-.
  eexists. split; [reflexivity|]. exists ptrs2, fr', fi', lost. split; try done. cbn. lia.
Qed.

(** Any schedule, as long as the specification goes on. *)
Lemma pipeline_round_rep p s a :
  pipeline_rep p s →
  match spec_round s a with
  | None => pipeline_step clock p a = None
  | Some s' => ∃ p', pipeline_step clock p a = Some p' ∧ pipeline_rep p' s'
  end.
Proof.
  intros Hp. destruct a as [ts|env|env|env].
  - destruct (feed_round_rep _ _ ts Hp) as (p' & s' & -> & -> & H). by exists p'.
  - exact (consume_round_rep _ _ env Hp).
  - exact (io_round_rep _ _ env Hp).
  - exact (drain_round_rep _ _ env Hp).
Qed.

Lemma pipeline_rounds_rep acts p s :
  pipeline_rep p s →
  match spec_rounds s acts with
  | None => pipeline_rounds clock p acts = None
  | Some s' => ∃ p', pipeline_rounds clock p acts = Some p' ∧ pipeline_rep p' s'
  end.
Proof.
  revert p s. induction acts as [|a acts IH]; intros p s Hp; cbn [spec_rounds pipeline_rounds].
  - by exists p.
  - pose proof (pipeline_round_rep _ _ a Hp) as H. destruct (spec_round s a) as [s1|].
    + destruct H as (p1 & -> & H1). exact (IH _ _ H1).
    + by rewrite H.
Qed.

(** ** From the start *)

Lemma rep_running s a ptrs b :
  pipeline_feed_rep symbol (s, []) a ptrs → pipeline_feed_rep symbol (fh_set_running s b, []) a ptrs.
Proof. intros []. by split. Qed.

Definition spec_initial (env : init_env) (io : io_state) : pipeline_spec :=
  MkSpec (spec_start (iv_feed env) config) (initial_hot symbol) [] 0 0 io.

Lemma start_rep env senv p0 jrnl :
  init_env_ok env symbol → pipeline_init env symbol = Some (Some p0, 0) →
  se_feed senv = true → se_io senv = true → se_consumer senv = true →
  ∃ p, start senv (set_journal p0 jrnl) = (p, 0) ∧ ep_running p = true ∧
    io_journal (ep_io p) = jrnl ∧ pipeline_rep p (spec_initial env (ep_io p)).
Proof.
  intros Henv Hinit H1 H2 H3.
  destruct (pipeline_init_ok env symbol Henv) as
    (p & fr & gw & Hi & [Hq Hfr] & Hd & Hh & Hf & Hjn & _).
  rewrite Hinit in Hi. injection Hi as <-.
  assert (ep_running p0 = false) as Hrun.
  { clear -Hinit. unfold pipeline_init in Hinit. repeat case_match; try done.
    destruct (push_all _ _); simpl in Hinit; [|done]. injection Hinit as <-. done. }
  unfold start, set_journal. cbn [ep_running ep_feed log_main feed_start]. rewrite Hrun, H1, H2, H3.
  cbn [negb]. eexists. split; [reflexivity|]. split; [reflexivity|]. split; [reflexivity|].
  exists [], fr, [], []. split; cbn; rewrite ?Hh; try done.
  - apply (rep_running _ _ _ true) in Hf. unfold feed_thread_start in *. cbn in *.
    by destruct (fc_simulation_mode (fh_config (ep_feed p0))).
  - rewrite !Nat.add_0_r, Hfr. by apply Nat.min_l, Nat2Z.inj_le.
Qed.

(** What can be seen of a pipeline from outside. *)
Definition observe (p : EventPipeline) : hot_state * Z * io_state * (Z * Z * Z) :=
  (ep_hot p, ep_dropped p, ep_io p, feed_get_stats (ep_feed p)).
Definition spec_observe (s : pipeline_spec) : hot_state * Z * io_state * (Z * Z * Z) :=
  (sp_hot s, sp_dropped s, sp_io s,
   (fs_received (sp_feed s), fs_dropped (sp_feed s), fs_bytes (sp_feed s))).

Lemma rep_observe p s : pipeline_rep p s → observe p = spec_observe s.
Proof.
  intros (ptrs & fr & fi & lost & [[]]). unfold observe, spec_observe, feed_get_stats. cbn in *. congruence.
Qed.

(** C2 -- The pipeline is the specification: initialised and started, and after any
    rounds of the three threads in any order, the book, the risk engine, the
    statistics and counters, the journal, the calls of the log and the gateway are
    those of a pipeline whose feed is a list of messages and whose events are a
    list of values; and where one is undefined (the log of a trade whose symbol of
    sixteen characters has no NUL, or a journal that can no longer be written to), the
    other is. *)
Theorem pipeline_refines_spec env senv jrnl acts
    (Henv : init_env_ok env symbol)
    (Hstart : se_feed senv = true ∧ se_io senv = true ∧ se_consumer senv = true) :
  ∃ p0 p1,
    pipeline_init env symbol = Some (Some p0, 0) ∧
    start senv (set_journal p0 jrnl) = (p1, 0) ∧
    io_journal (ep_io p1) = jrnl ∧
    observe <$> pipeline_rounds clock p1 acts =
    spec_observe <$> spec_rounds (spec_initial env (ep_io p1)) acts.
Proof.
  destruct (pipeline_init_ok env symbol Henv) as (p0 & _ & _ & Hinit & _).
  destruct Hstart as (H1 & H2 & H3).
  destruct (start_rep env senv p0 jrnl Henv Hinit H1 H2 H3) as (p1 & Hst & _ & Hj & Hp1).
  exists p0, p1. split; [exact Hinit|]. split; [exact Hst|]. split; [exact Hj|].
  pose proof (pipeline_rounds_rep acts _ _ Hp1) as H.
  destruct (spec_rounds _ acts) as [s|]; [|by rewrite H].
  destruct H as (p & -> & Hp). cbn. f_equal. by apply rep_observe.
Qed.

End spec.

(** ** Witness *)

Definition ex_actions : list pipeline_action :=
  [AFeed (1, 0); AConsume ex_md_env; AFeed (1, 5); AIO (ex_io_env 0); AConsume ex_md_env;
   AIO (ex_io_env 1); AConsume ex_md_env; ADrain (ex_io_env 2)].

Lemma pipeline_refines_spec_witness :
  ∃ p0 p1,
    pipeline_init ex_init_env "AAPL" = Some (Some p0, 0) ∧
    start (MkStartEnv true true true (1, 1)) (set_journal p0 fresh_journal) = (p1, 0) ∧
    io_journal (ep_io p1) = fresh_journal ∧
    observe <$> pipeline_rounds ex_clock p1 ex_actions =
    spec_observe <$> spec_rounds ex_clock "AAPL" (spec_initial "AAPL" ex_init_env (ep_io p1))
                       ex_actions.
Proof.
  apply (pipeline_refines_spec ex_clock "AAPL" ex_init_env (MkStartEnv true true true (1, 1))
    fresh_journal ex_actions ex_init_env_ok). by split_and!.
Defined.
