(* ===== verification/PipelineOrders.v ===== *)
(** * The event pipeline: what becomes of an order

    The text an accepted order is sent as, whole and within its buffer; and what
    of its executions the hot path tells the risk engine. *)

From stdpp Require Import pretty.
From Stdlib Require Import Floats.SpecFloat.
From S2P Require Export PipelineIO GatewayProps.

(** ** How long numbers print *)

Lemma str_app_length (a b : string) :
  String.length (a +:+ b) = (String.length a + String.length b)%nat.
Proof.
  induction a as [|c a IH]; [done|].
  change (String.length (String c a +:+ b)) with (S (String.length (a +:+ b))).
  by rewrite IH.
Qed.

Lemma pretty_go_length k x s :
  (x < 10 ^ N.of_nat k)%N → (String.length (pretty_N_go x s) <= k + String.length s)%nat.
Proof.
  revert x s. induction k as [|k IH]; intros x s Hx.
  - assert (x = 0)%N as -> by (simpl in Hx; lia). rewrite pretty_N_go_0. lia.
  - destruct (decide (x = 0)%N) as [->|Hne]; [rewrite pretty_N_go_0; lia|].
    rewrite pretty_N_go_step by lia. etrans; [apply IH|simpl; lia].
    apply N.Div0.div_lt_upper_bound. rewrite Nat2N.inj_succ, N.pow_succ_r' in Hx. lia.
Qed.

Lemma pretty_length k (z : Z) :
  (0 < k)%nat → 0 <= z < 10 ^ Z.of_nat k → (String.length (fmt_d z) <= k)%nat.
Proof.
  intros Hk [H0 Hz]. unfold fmt_d. destruct z as [|p|p]; [simpl; lia| |lia].
  change (pretty (Zpos p)) with (pretty (Npos p)). unfold pretty, pretty_N.
  rewrite decide_False by done. etrans; [apply (pretty_go_length k)|simpl; lia].
  apply N2Z.inj_lt. rewrite N2Z.inj_pow, nat_N_Z. exact Hz.
Qed.

(** A number of at most [k] digits, with its sign. *)
Lemma fmt_d_length k (z : Z) :
  (0 < k)%nat → Z.abs z < 10 ^ Z.of_nat k → (String.length (fmt_d z) <= S k)%nat.
Proof.
  intros Hk Hz. destruct z as [|p|p]; [simpl; lia| |].
  - pose proof (pretty_length k (Zpos p) Hk (conj (Pos2Z.is_nonneg p) Hz)). lia.
  - change (fmt_d (Zneg p)) with ("-" +:+ fmt_d (Zpos p)). rewrite str_app_length.
    pose proof (pretty_length k (Zpos p) Hk (conj (Pos2Z.is_nonneg p) Hz)) as H.
    change (String.length "-") with 1%nat. lia.
Qed.

Lemma zeros_length n : String.length (zeros n) = n.
Proof. induction n; simpl; congruence. Qed.

Lemma fmt_digits_length k z :
  (0 < k)%nat → 0 <= z < 10 ^ Z.of_nat k → String.length (fmt_digits k z) = k.
Proof.
  intros Hk Hz. unfold fmt_digits. rewrite str_app_length, zeros_length.
  pose proof (pretty_length k z Hk Hz) as H. unfold fmt_d in H. lia.
Qed.

(** The largest double has 309 digits before the point. *)
Lemma scaled_bound m e :
  Zpos m < 2 ^ 53 → e <= 971 → 0 <= scaled (Zpos m) e 4 / 10 ^ 4 < 10 ^ 309.
Proof.
  intros Hm He. unfold scaled. change (Z.of_nat 4) with 4. destruct (Z.leb_spec 0 e).
  - replace (Zpos m * 10 ^ 4 * 2 ^ e) with (Zpos m * 2 ^ e * 10 ^ 4) by lia.
    rewrite Z.div_mul by done.
    assert (2 ^ e <= 2 ^ 971) as H2 by (apply Z.pow_le_mono_r; lia).
    assert (0 < 2 ^ e) by (apply Z.pow_pos_nonneg; lia).
    assert (2 ^ 53 * 2 ^ 971 < 10 ^ 309) as H3 by (vm_compute; reflexivity).
    revert H3 H2 Hm. generalize (2 ^ 971), (10 ^ 309), (2 ^ 53). intros. nia.
  - set (d := 2 ^ (- e)). assert (1 <= d) by (pose proof (Z.pow_pos_nonneg 2 (- e)); lia).
    set (t := Zpos m * 10 ^ 4).
    assert (0 <= t / d <= t) as Hq.
    { split; [apply Z.div_pos; lia|]. apply Z.div_le_upper_bound; nia. }
    assert (∀ n, 0 <= n <= t + 1 → 0 <= n / 10 ^ 4 < 10 ^ 309) as Hn.
    { intros n Hn. split; [apply Z.div_pos; lia|]. apply Z.div_lt_upper_bound; [lia|].
      assert (2 ^ 53 * 10 ^ 4 + 1 < 10 ^ 4 * 10 ^ 309) as H3 by (vm_compute; reflexivity).
      assert (t <= 2 ^ 53 * 10 ^ 4) by (unfold t; lia). lia. }
    case_match; apply Hn; lia.
Qed.

Lemma fmt_fixed_length s n :
  0 <= n → 0 <= n / 10 ^ 4 < 10 ^ 309 → (String.length (fmt_fixed s n 4) <= 315)%nat.
Proof.
  intros H0 Hn. unfold fmt_fixed. change (Z.of_nat 4) with 4. rewrite !str_app_length.
  change (pretty (n / 10 ^ 4)) with (fmt_d (n / 10 ^ 4)).
  pose proof (pretty_length 309 (n / 10 ^ 4) ltac:(lia) Hn).
  rewrite (fmt_digits_length 4) by (lia || apply Z.mod_pos_bound; lia).
  destruct s; simpl String.length; lia.
Qed.

(** [%.4f] of any double. *)
Lemma fmt_f_length x : valid_double x → (String.length (fmt_f 4 x) <= 315)%nat.
Proof.
  destruct x as [s|[]| |s m e]; intros Hv; simpl fmt_f; try (simpl; lia).
  - apply fmt_fixed_length; [lia|vm_compute; done].
  - assert (Zpos m < 2 ^ 53 ∧ e <= 971) as [Hm He] by (simpl in Hv; lia).
    pose proof (scaled_bound m e Hm He) as Hs. apply fmt_fixed_length; [|exact Hs].
    unfold scaled. case_match; [apply Z.mul_nonneg_nonneg; [lia|apply Z.pow_nonneg; lia]|].
    assert (0 <= Zpos m * 10 ^ Z.of_nat 4 / 2 ^ (- e))
      by (apply Z.div_pos; [lia|apply Z.pow_pos_nonneg; lia]).
    case_match; lia.
Qed.

(** ** The message of an order *)

Definition order_fields_ok (r : Order) : Prop :=
  is_i32 (o_id r) ∧ is_i32 (o_quantity r) ∧ is_u64 (o_timestamp_ns r) ∧
  valid_double (o_price r) ∧ symbol_fits (o_symbol r).

Lemma cstr_length s : (String.length (cstr s) <= String.length s)%nat.
Proof. apply strn_length. Qed.

Definition message_of (r : Order) : string :=
  order_line (o_id r) (o_symbol r) (Ascii.ascii_of_nat (if is_buy r then 66 else 83))
    (Ascii.ascii_of_nat (if is_limit r then 76 else 77))
    (o_price r) (o_quantity r) (o_timestamp_ns r).

Lemma message_of_length r : order_fields_ok r → (String.length (message_of r) <= 394)%nat.
Proof.
  intros (Hid & Hq & Hts & Hp & Hs). unfold symbol_fits in Hs. unfold message_of, order_line. rewrite !str_app_length.
  pose proof (fmt_d_length 10 (o_id r) ltac:(lia)
    ltac:(unfold is_i32 in Hid; change (10 ^ Z.of_nat 10) with 10000000000; lia)).
  pose proof (fmt_d_length 10 (o_quantity r) ltac:(lia)
    ltac:(unfold is_i32 in Hq; change (10 ^ Z.of_nat 10) with 10000000000; lia)).
  pose proof (pretty_length 20 (o_timestamp_ns r) ltac:(lia)
    ltac:(unfold is_u64 in Hts; change (10 ^ Z.of_nat 20) with 100000000000000000000; lia)).
  pose proof (fmt_f_length _ Hp). pose proof (cstr_length (o_symbol r)).
  repeat match goal with |- context [String.length (if ?b then ?x else ?y)] =>
    let n := fresh "n" in
    assert (String.length (if b then x else y) <= Nat.max (String.length x) (String.length y))%nat
      by (destruct b; lia);
    generalize dependent (String.length (if b then x else y)); intros n ? end.
  change (String.length "ORDER|") with 6%nat in *. change (String.length "|") with 1%nat in *.
  change (String.length "BUY") with 3%nat in *. change (String.length "SELL") with 4%nat in *.
  change (String.length "LIMIT") with 5%nat in *. change (String.length "MARKET") with 6%nat in *.
  lia.
Qed.

Lemma message_of_no_nul r : no_nul (message_of r) = true.
Proof.
  unfold message_of, order_line. rewrite !free_of_app, !no_nul_Z, no_nul_f.
  unfold cstr. rewrite no_nul_strn. destruct (decide _), (decide _); reflexivity.
Qed.

(** C35 -- The text of every order fits the 512 bytes of its buffer: for any id,
    quantity, time and price of their types and any symbol of at most fifteen
    characters, so that its array is terminated, nothing is read outside it, the line
    has at most 394 characters, [gw_serialize_order] returns 0 with the whole line, and
    the event carries it with its length; so every accepted order that is new or
    partially filled counts as executed and is sent.  The line has the whole quantity of
    the order, also when part of it is filled already.  (For a symbol of sixteen
    characters the read is undefined.) *)
Theorem gateway_message_complete r :
  order_fields_ok r →
  gateway_message r = Some (Some (message_of r), 0) ∧
  (String.length (message_of r) <= 394)%nat ∧
  prepare_message r =
    Some (if sends r then (message_of r, Z.of_nat (String.length (message_of r)), 1)
          else (""%string, 0, 0)) ∧
  ∀ o q, r = pt_result o q → 0 < o_filled_qty r < o_quantity r →
    sends r = true ∧ message_of r = message_of o.
Proof.
  intros Hr. pose proof (message_of_length r Hr) as Hl. pose proof (message_of_no_nul r) as Hn.
  assert (gateway_message r = Some (Some (message_of r), 0)) as Hg.
  { unfold gateway_message. rewrite read_symbol_fits by apply Hr. cbn [mbind option_bind].
    unfold gw_serialize_order, GW_MAX_MSG_SIZE. fold (message_of r).
    cbn [negb orb Z.eqb]. unfold snprintf. rewrite strn_no_nul by (done || lia).
    assert (0 < String.length (message_of r))%nat by (unfold message_of, order_line; simpl; lia).
    rewrite (proj2 (Z.ltb_lt _ _)), (proj2 (Z.ltb_lt _ _)) by lia. reflexivity. }
  split; [exact Hg|]. split; [exact Hl|]. split.
  - unfold prepare_message. destruct (sends r); [|done]. rewrite Hg. cbn [mbind option_bind default].
    unfold cstr. by rewrite strn_no_nul by done.
  - intros o q -> Hf. clear -Hf. revert Hf. unfold pt_result.
    assert (∀ o1 st, message_of (set_status o1 st) = message_of o1 ∧
                     message_of (set_filled o (o_filled_qty o + q)) = message_of o) as Hm
      by (by intros []).
    set (o1 := set_filled o (o_filled_qty o + q)) in *.
    unfold open. destruct (Z.leb_spec (o_quantity o1 - o_filled_qty o1) 0); [intros; exfalso; simpl in *; lia|].
    destruct (Z.ltb_spec 0 (o_filled_qty o1)); [|intros; exfalso; simpl in *; lia]. intros _. split; [reflexivity|].
    destruct (Hm o1 PARTIAL) as [-> ->]. reflexivity.
Qed.

(** A symbol that fills its array is read beyond it. *)
Lemma gateway_message_unterminated r :
  String.length (o_symbol r) = 16%nat → gateway_message r = None.
Proof.
  intros H. unfold gateway_message, read_symbol. rewrite decide_False; [done|].
  unfold symbol_fits. lia.
Qed.

Definition ex_order : Order :=
  MkOrder 7 1 (d_lit 1005 1) 100 40 99 BUY LIMIT PARTIAL "AAPL".

Lemma gateway_message_complete_witness :
  gateway_message ex_order = Some (Some "ORDER|7|AAPL|BUY|LIMIT|100.5000|100|99"%string, 0) ∧
  sends (pt_result (set_filled ex_order 0) 40) = true.
Proof.
  assert (order_fields_ok ex_order) as Hok by (vm_compute; intuition congruence || lia).
  destruct (gateway_message_complete ex_order Hok) as (H1 & _ & _ & H4).
  split; [exact H1|]. exact (proj1 (H4 (set_filled ex_order 0) 40 eq_refl ltac:(cbn; lia))).
Defined.

(** ** What the risk engine is told *)

Lemma validate_positions e o mid sec e' ok :
  enabled (r_limits e) = true → validate e o mid sec = (e', ok) → r_positions e' = r_positions e.
Proof.
  intros He Hv. destruct (r_killed e) eqn:Hk.
  - revert Hv. unfold validate. simpl. rewrite Hk. by intros [= <- _].
  - pose proof (validate_shape e o mid sec e' ok Hk He Hv) as Hs. cbv zeta in Hs.
    assert (r_positions (update_rate_window (set_reject e "") sec) = r_positions e) as Hw
      by (unfold update_rate_window; by destruct (_ =? _)).
    destruct ok; [destruct Hs as [_ ->]|destruct Hs as [msg ->]]; exact Hw.
Qed.

(** C36 -- Executions are reported to the risk engine for the incoming order only, and
    at its limit price: for an order of the strategy whose symbol has at most fifteen
    characters, whatever trades an order makes with resting orders of the same
    account, the engine's position in its symbol moves by the quantity traded on
    the side of the incoming order, nothing is booked for the resting side, and
    the notional grows by that quantity at the limit of the incoming order,
    while each trade was made at the price of the resting one. *)
Theorem executions_reported_for_incoming_only clock next sec h o sym
    (Hbook : book_ready next (ht_book h)) (Ho : strategy_ok o) (Hsym : symbol_fits (o_symbol o))
    (Hid : 1 <= next <= o_id o)
    (Hrisk : engine_within pipeline_limits (ht_risk h)) (Hprice : d_lt d_zero (o_price o) = true) :
  ∃ h' w taken trades,
    process_order clock sec h o = Some (h', w :: (write_trade <$> trades)) ∧
    Forall2 (reports o) taken trades ∧
    let before := get_position (ht_risk h) sym in
    let after := get_position (ht_risk h') sym in
    let q := taken_total taken in
    let mine := SymbolKey_of_chars (o_symbol o) = SymbolKey_of_chars sym in
    net_position after = net_position before + (if decide mine then signed o q else 0) ∧
    total_notional after =
      (if decide (mine ∧ 0 < q) then d_add (total_notional before) (d_mul (o_price o) (d_of_Z q))
       else total_notional before).
Proof.
  destruct (process_order_outcome clock next sec h o Hbook Ho Hsym ltac:(lia) ltac:(lia))
    as (h' & ws & Hp & Hout & _ & _).
  pose proof (outcome_within _ _ _ _ _ _ pipeline_limits_fit Ho Hrisk Hout) as Hw'.
  destruct Hrisk as [Hlim Hw]. assert (enabled (r_limits (ht_risk h)) = true) as He by by rewrite Hlim.
  destruct Hout as [risk Hv _ Hr _ ->|risk r trades taken Hv _ Ht Hrr Htot Hr _ (m & len & ex & _ & ->)].
  - exists h', (write_rejected o (last_reject_reason risk)), [], [].
    split; [exact Hp|]. split; [constructor|]. cbv zeta. subst risk.
    unfold get_position, position_at. rewrite (validate_positions _ _ _ _ _ _ He Hv).
    split; [|case_decide as Hc; [destruct Hc; cbn in *; lia|done]].
    unfold signed. cbn. case_decide; [destruct (is_buy o)|]; cbn; lia.
  - exists h', (write_order r (sends r) m len), taken, trades.
    split; [exact Hp|]. split; [exact Ht|]. cbv zeta.
    destruct Hw' as [_ Hw']. specialize (Hw' (SymbolKey_of_chars sym)).
    specialize (Hw (SymbolKey_of_chars sym)). unfold get_position.
    assert (∀ s, position_at risk s = position_at (ht_risk h) s) as Hsame.
    { intros s. unfold position_at. by rewrite (validate_positions _ _ _ _ _ _ He Hv). }
    destruct (Z.ltb_spec 0 (taken_total taken)) as [Hq|Hq].
    + rewrite Hprice in Hr. rewrite Hr in Hw' |- *. unfold on_order_executed in *.
      rewrite position_at_insert, !Hsame in Hw' |- *.
      destruct (decide (SymbolKey_of_chars (o_symbol o) = SymbolKey_of_chars sym)) as [Hs|Hs].
      * rewrite Hs in *. unfold apply_execution in *. cbn [net_position total_notional] in *.
        split; [|case_decide as Hc; [done|by destruct Hc]].
        unfold position_within in *. cbn in Hw. cbn in Hw'. unfold signed.
        destruct (is_buy o); rewrite i32_id; unfold is_i32; lia.
      * split; [lia|]. case_decide as Hc; [by destruct Hc|done].
    + rewrite Hr, Hsame. split; [|case_decide as Hc; [destruct Hc; lia|done]].
      assert (taken_total taken = 0) as -> by lia. unfold signed.
      case_decide; [destruct (is_buy o)|]; lia.
Qed.

(** The first buy order of ex_messages rests; the second sell order, at 99.2,
    takes it at 104. *)
Definition ex_resting_hot : hot_state :=
  default (initial_hot "AAPL")
    (fst <$> hot_run ex_clock (take 1 ex_messages) (initial_hot "AAPL")).
Definition ex_taker : Order := strategy_order 4 (d_lit 992 1) SELL (ex_quote (d_of_Z 98) (d_of_Z 100)).

Lemma ex_resting_inv : hot_inv ex_resting_hot ∧ ht_next_order_id ex_resting_hot = 3.
Proof.
  destruct (hot_run_inv ex_clock (take 1 ex_messages) _ (initial_hot_inv "AAPL"))
    as (h & ws & t & Hr & Hh & Hn & _).
  - exact (Forall_take _ 1 _ ex_messages_ok).
  - cbn. lia.
  - unfold ex_resting_hot. rewrite Hr. split; [exact Hh|exact Hn].
Qed.

Lemma executions_reported_for_incoming_only_witness :
  ∃ h' w taken trades,
    process_order ex_clock 5 ex_resting_hot ex_taker =
      Some (h', w :: (write_trade <$> trades)) ∧
    Forall2 (reports ex_taker) taken trades ∧
    let q := taken_total taken in
    net_position (get_position (ht_risk h') "AAPL") =
      net_position (get_position (ht_risk ex_resting_hot) "AAPL") + (0 - q).
Proof.
  destruct ex_resting_inv as [[Hb Hi Hr _] Hn]. rewrite Hn in Hb.
  destruct (executions_reported_for_incoming_only ex_clock 3 5 ex_resting_hot ex_taker "AAPL" Hb)
    as (h' & w & taken & trades & H1 & H2 & H3 & _).
  - by split_and!.
  - exact aapl_fits.
  - cbn. lia.
  - exact Hr.
  - reflexivity.
  - exists h', w, taken, trades. split; [exact H1|]. split; [exact H2|]. cbv zeta in H3 |- *.
    rewrite H3. reflexivity.
Defined.

(** The account is flat after it, and the engine is short. *)
Lemma resting_fill_not_reported clock :
  (λ r : hot_state * list io_write,
     ((λ w : io_write, let e := w zero_event in
         (ev_type e, ev_trade_qty e, fmt_f 2 (ev_trade_price e))) <$> drop 4 r.2,
      net_position (get_position (ht_risk r.1) "AAPL"),
      fmt_f 2 (total_notional (get_position (ht_risk r.1) "AAPL")))) <$>
    hot_run clock ex_messages (initial_hot "AAPL") =
  Some ([(TRADE, 100, "104.00"%string)], -100, "9920.00"%string).
Proof. vm_compute. reflexivity. Qed.
