(* ===== verification/PipelineSafe.v ===== *)
(** * The event pipeline: runs of the whole pipeline

    Rounds of the feed's thread, of the hot path and of the I/O thread in any
    order, on the whole state: nothing is undefined, every component keeps its
    invariant, and messages and events are conserved.  The invariant [spec_inv] is
    kept by the specification of PipelineSpec.v, which the pipeline refines. *)

From S2P Require Export PipelineSpec.

(** ** Simulated quotes are prices the strategy can use *)

Lemma sim_quotes_ok msg : sim_msg_ok msg → quotes_ok msg.
Proof.
  intros []. unfold quotes_ok, msg_mid, msg_offset.
  assert (fits 17 (d_div (d_add (fm_bid_price msg) (fm_ask_price msg)) (d_of_Z 2))) as Hm.
  { assert (d_of_Z 2 = SpecFloat.S754_finite false 4503599627370496 (-51)) as -> by reflexivity.
    apply (d_div_fits 16 2); [|simpl; lia..]. by apply (d_add_fits 14 14); [..|lia|lia]. }
  assert (fits 14 (d_mul (d_sub (fm_ask_price msg) (fm_bid_price msg)) (d_lit 1 1))) as Ho.
  { apply (d_mul_fits 16 (-3)); [|const_fits|lia..]. by apply (d_sub_fits 14 14); [..|lia|lia]. }
  split; apply (fits_not_nan 20).
  - by apply (d_sub_fits 17 14); [..|lia|lia].
  - by apply (d_add_fits 17 14); [..|lia|lia].
Qed.

(** ** The journal keeps working *)

(** Ready for [n] more records: in file mode, or mapped with room to grow. *)
Definition journal_ready (n : nat) (j : journal_t) : Prop :=
  j_use_mmap j = false ∨
  mapped_ok j ∧ j_mmap_size j + Z.of_nat (S n) * DEFAULT_MMAP_SIZE < 2 ^ 62.

(** [ftruncate] and [mmap] work; what [fwrite] does is free. *)
Definition io_env_works (env : io_env) : Prop :=
  ae_ftruncate (ie_append env) = true ∧ ae_mmap (ie_append env) = true.

Lemma journal_ready_le n m j : (m <= n)%nat → journal_ready n j → journal_ready m j.
Proof.
  intros Hl [?|[? Hb]]; [by left|right]. split; [done|]. unfold DEFAULT_MMAP_SIZE in *. lia.
Qed.

Lemma append_ready env j n type data :
  journal_ready (S n) j → Forall is_u8 data → length data = 52%nat →
  ae_ftruncate env = true → ae_mmap env = true →
  ∃ j' rc, journal_append_to env j type (Some data) 52 = Some (j', rc) ∧ journal_ready n j'.
Proof.
  intros Hj Hd Hl Ht Hm. destruct Hj as [Hj|[Hj Hb]].
  - change 52 with (Z.of_nat 52). rewrite <- Hl.
    rewrite append_unfold by (done || rewrite Hl; lia). cbv zeta. rewrite Hj.
    unfold fwrite. repeat case_match; simplify_eq; eexists _, _; (split; [done|]); by left.
  - unfold DEFAULT_MMAP_SIZE in *.
    destruct (append_mapped env j type data Hj) as (j' & rc & Ha & _ & _ & Hrc & H);
      [unfold DEFAULT_MMAP_SIZE; lia|done|unfold DEFAULT_MMAP_SIZE; rewrite Hl; lia|].
    specialize (Hrc Ht Hm). subst rc. rewrite Hl in *. change (Z.of_nat 52) with 52 in *.
    exists j', 0. split; [done|]. right. unfold DEFAULT_MMAP_SIZE in *.
    destruct H as [(_ & ? & ? & _)|[? _]]; [|done]. split; [done|]. lia.
Qed.

Lemma process_io_event_ready env e s n :
  printable e → io_env_works env → (∀ j, io_journal s = Some j → journal_ready (S n) j) →
  ∃ s', process_io_event env e s = Some s' ∧ ∀ j, io_journal s' = Some j → journal_ready n j.
Proof.
  intros Hp [Ht Hm] Hj. destruct (io_journal s) as [j|] eqn:E.
  - destruct (process_io_event_journal env e s j Hp E) as (F & HF & ->).
    destruct (event_record_bytes e) as [Hl Hu].
    destruct (append_ready (ie_append env) j n (record_type_code (event_record e).1) _
      (Hj j eq_refl) Hu Hl Ht Hm) as (j' & rc & -> & Hr).
    exists (F j'). split; [done|]. intros j1 H1. rewrite HF in H1. by simplify_eq.
  - destruct (process_io_event_unjournaled env e s Hp E) as (s' & -> & Hs').
    exists s'. split; [done|]. intros j H1. congruence.
Qed.

Lemma io_run_ready envs k es s n :
  Forall printable es → (∀ k, io_env_works (envs k)) →
  (∀ j, io_journal s = Some j → journal_ready n j) →
  (length es <= n)%nat → ∃ s', io_run envs k es s = Some s'.
Proof.
  intros Hes Hw. revert k s n. induction Hes as [|e es He _ IH]; intros k s n Hj Hn; [by exists s|].
  cbn [io_run length] in *. destruct n as [|n]; [lia|].
  destruct (process_io_event_ready (envs k) e s n He (Hw k) Hj) as (s' & -> & Hj').
  apply (IH (S k) s' n Hj'). lia.
Qed.

(** ** Rounds leave the pipeline running *)

Section running.
Context (clock : nat → Z * Z).

Lemma bind_fields {A} (o : option A) (f : A → option EventPipeline) (b : bool) p' :
  (∀ x, match f x with Some p => ep_running p = b | None => True end) →
  (o ≫= f) = Some p' → ep_running p' = b.
Proof. intros H. destruct o as [x|]; [|done]. cbn. intros E. specialize (H x). by rewrite E in H. Qed.

Lemma io_next_running release env p p' :
  io_next release env p = Some p' → ep_running p' = ep_running p.
Proof.
  unfold io_next. apply bind_fields. intros [q [ptr|]]; [|done]. cbn [mbind option_bind].
  destruct (tq_pool q !! ptr) as [e|]; [|done]. cbn [mbind option_bind].
  destruct (process_io_event env e _); [|done]. cbn [mbind option_bind].
  by destruct (release q ptr).
Qed.

Lemma consumer_round_running env p :
  match consumer_round clock env p with Some (p', _) => ep_running p' = ep_running p | None => True end.
Proof.
  unfold consumer_round. destruct (feed_pop _) as [[feed msg]|]; [|done].
  cbn [mbind option_bind process_market_data ep_feed]. destruct msg as [ptr|]; [|done].
  cbn [process_market_data ep_feed]. destruct (fh_objects feed !! _) as [msg|]; [|done].
  cbn [mbind option_bind]. destruct (hot_message _ _ _ msg) as [[h ws]|]; [|done].
  cbn [mbind option_bind].
  destruct (emit_all _ _ ws) as [[q d]|]; [|done]. cbn [mbind option_bind].
  destruct (feed_return_msg _ _) as [[feed'|]|]; done.
Qed.

Lemma pipeline_step_running p a p' :
  pipeline_step clock p a = Some p' → ep_running p' = ep_running p.
Proof.
  destruct a as [ts|env|env|env]; cbn [pipeline_step].
  - by apply bind_fields.
  - pose proof (consumer_round_running env p) as H.
    destruct (consumer_round _ _ _) as [[p1 more]|]; [|done]. by intros [= <-].
  - apply io_next_running.
  - apply io_next_running.
Qed.

Lemma pipeline_rounds_running acts p p' :
  pipeline_rounds clock p acts = Some p' → ep_running p' = ep_running p.
Proof.
  revert p. induction acts as [|a acts IH]; intros p; cbn [pipeline_rounds]; [by intros [= <-]|].
  destruct (pipeline_step clock p a) as [p1|] eqn:E; [|done]. cbn [mbind option_bind].
  intros ->%IH. by apply (pipeline_step_running p a).
Qed.

End running.

(** ** The invariant *)

Section safe.
Context (clock : nat → Z * Z) (symbol : string).

Notation config := (pipeline_feed_config symbol).

(** [m] messages have been processed, and [n] more rounds of the I/O thread are
    to come. *)
Record spec_inv (m n : nat) (s : pipeline_spec) : Prop := {
  si_symbol : symbol_fits symbol;
  si_named : trades_named symbol (ht_book (sp_hot s));
  si_events : Forall printable (sp_events s);
  si_hot : hot_inv (sp_hot s);
  si_next : ht_next_order_id (sp_hot s) = 1 + 2 * Z.of_nat m;
  si_msgs : market_data_msgs (ht_stats (sp_hot s)) = Z.of_nat m;
  si_orders : orders_accepted (ht_stats (sp_hot s)) + orders_rejected (ht_stats (sp_hot s)) =
              2 * Z.of_nat m;
  si_price : feed_price_ok (fs_price (sp_feed s));
  si_quotes : Forall (sim_quote config) (fs_queue (sp_feed s));
  si_received : fs_received (sp_feed s) = u64 (Z.of_nat (m + length (fs_queue (sp_feed s))));
  si_journal : ∀ j, io_journal (sp_io s) = Some j → journal_ready n j;
}.

Lemma spec_inv_le m n n' s : (n' <= n)%nat → spec_inv m n s → spec_inv m n' s.
Proof.
  intros Hn []. split; try done. intros j Hj. apply (journal_ready_le n); [done|by apply si_journal0].
Qed.

(** What a schedule needs of its environment. *)
Definition action_ok (a : pipeline_action) : Prop :=
  match a with AIO env | ADrain env => io_env_works env | _ => True end.

Lemma spec_feed_inv m n s ts :
  spec_inv m n s → ∃ s', spec_round clock symbol s (AFeed ts) = Some s' ∧ spec_inv m n s'.
Proof.
  intros []. cbn [spec_round]. eexists. split; [reflexivity|].
  destruct (spec_step_quotes config (queue_room config) (pool_room config) (sp_feed s) (FSim ts) I
    si_price0 si_quotes0) as (? & ? & _).
  split; try done. cbn [sp_feed spec_step fst]. destruct (spec_object _ (sp_feed s));
    [|simpl; rewrite si_received0, u64_add_u64; f_equal; lia].
  unfold spec_publish. cbn [fs_queue fs_set_sim]. case_decide; simpl.
  - rewrite si_received0, length_app, u64_add_u64. f_equal. simpl. lia.
  - rewrite si_received0, u64_add_u64. f_equal. lia.
Qed.

Lemma spec_io_inv m n s k env :
  spec_inv m (S n) s → io_env_works env →
  ∃ s', spec_io k env s = Some s' ∧ spec_inv m n s'.
Proof.
  intros Hs Henv. unfold spec_io. destruct (sp_events s) as [|e es] eqn:Ees.
  - exists s. split; [done|]. by apply (spec_inv_le m (S n)); [lia|].
  - destruct Hs. rewrite Ees in si_events0. apply Forall_cons in si_events0 as [He Hes].
    destruct (process_io_event_ready env e (sp_io s) n He Henv si_journal0) as (io & -> & H).
    cbn [mbind option_bind]. eexists. split; [reflexivity|]. by split.
Qed.

Lemma spec_consume_inv m n s env :
  spec_inv m n s → Z.of_nat m < 2 ^ 30 - 2 →
  ∃ s' k, spec_consume clock env s = Some s' ∧ spec_inv (m + k) n s' ∧ (k <= 1)%nat.
Proof.
  intros Hs Hm. unfold spec_consume. destruct (fs_queue (sp_feed s)) as [|msg queue] eqn:Eq.
  - exists s, 0%nat. rewrite Nat.add_0_r. split_and!; [done..|lia].
  - destruct Hs. rewrite Eq in *. apply Forall_cons in si_quotes0 as [[Hmsg _] Hquotes].
    destruct (hot_message_inv clock env (sp_hot s) msg si_hot0 (sim_quotes_ok _ Hmsg)
      (sm_symbol _ Hmsg)) as (h & ws & t & Hr & Hh & Hid & Hc & _); [lia|].
    destruct (hot_message_named clock symbol _ _ _ _ _ Hr si_named0) as [Hn Hp].
    pose proof (spec_emit_printable (io_capacity - sp_lost s) (sp_events s) (sp_dropped s) ws
      si_events0 (Hp si_symbol0)) as He. rewrite Hr. cbn [mbind option_bind].
    destruct (spec_emit _ _ _ ws) as [es d]. eexists _, 1%nat. split; [reflexivity|]. split; [|lia].
    destruct Hc as [C1 _ (a1 & b1 & ? & ? & Hab & C2 & C3) _].
    split; cbn [sp_hot sp_feed sp_events sp_io sp_dropped fs_queue fs_price fs_set_lists]; try done.
    + rewrite Hid, si_next0. lia.
    + rewrite C1, si_msgs0, u64_id; [lia|]. unfold is_u64. lia.
    + destruct (hv_stats _ si_hot0) as (_ & _ & Ha & Hb & _). unfold is_u64 in *.
      rewrite C2, C3, !u64_id by (unfold is_u64; lia). lia.
    + cbn. rewrite si_received0. cbn [length]. f_equal. f_equal. lia.
Qed.

Lemma spec_round_inv m n s a :
  spec_inv m (S n) s → action_ok a → Z.of_nat m < 2 ^ 30 - 2 →
  ∃ s' k, spec_round clock symbol s a = Some s' ∧ spec_inv (m + k) n s' ∧ (k <= 1)%nat.
Proof.
  intros Hs Ha Hm. assert (spec_inv m n s) as Hs' by (apply (spec_inv_le m (S n)); [lia|done]).
  destruct a as [ts|env|env|env].
  - destruct (spec_feed_inv m n s ts Hs') as (s' & -> & H). exists s', 0%nat.
    rewrite Nat.add_0_r. split_and!; [done..|lia].
  - cbn [spec_round]. by apply spec_consume_inv.
  - cbn [spec_round]. destruct (spec_io_inv m n s 0 env Hs Ha) as (s' & -> & H). exists s', 0%nat.
    rewrite Nat.add_0_r. split_and!; [done..|lia].
  - cbn [spec_round]. destruct (spec_io_inv m n s 1 env Hs Ha) as (s' & -> & H). exists s', 0%nat.
    rewrite Nat.add_0_r. split_and!; [done..|lia].
Qed.

(** Any schedule, in the specification. *)
Lemma spec_rounds_inv acts m n s :
  spec_inv m (length acts + n) s → Forall action_ok acts →
  Z.of_nat (m + length acts) < 2 ^ 30 - 2 →
  ∃ s' m', spec_rounds clock symbol s acts = Some s' ∧ spec_inv m' n s' ∧
           (m' <= m + length acts)%nat.
Proof.
  intros Hs Hacts. revert m s Hs. induction Hacts as [|act acts Hact _ IH]; intros m s Hs Hm.
  - exists s, m. split; [done|]. split; [done|simpl; lia].
  - cbn [spec_rounds length Nat.add] in *.
    destruct (spec_round_inv m _ s act Hs Hact) as (s1 & k & -> & Hs1 & Hk); [lia|].
    cbn [mbind option_bind]. destruct (IH (m + k)%nat s1 Hs1) as (s' & m' & -> & H' & Hm'); [lia|].
    exists s', m'. split_and!; [done..|lia].
Qed.

(** Only the drain loop of the I/O thread keeps objects. *)
Definition is_drain (a : pipeline_action) : bool :=
  match a with ADrain _ => true | _ => false end.
Definition drain_rounds (acts : list pipeline_action) : nat := length (List.filter is_drain acts).

Lemma spec_rounds_lost acts s s' :
  spec_rounds clock symbol s acts = Some s' → (sp_lost s' <= sp_lost s + drain_rounds acts)%nat.
Proof.
  revert s. induction acts as [|act acts IH]; intros s; cbn [spec_rounds].
  - intros [= <-]. lia.
  - destruct (spec_round clock symbol s act) as [s1|] eqn:E; [|done]. cbn [mbind option_bind].
    intros H. specialize (IH s1 H). unfold drain_rounds in *. cbn [List.filter].
    assert (sp_lost s1 <= sp_lost s + if is_drain act then 1 else 0)%nat as Hl.
    { destruct act as [ts|env|env|env]; cbn [spec_round] in E; unfold spec_consume, spec_io in E;
        repeat (case_match; simplify_eq; cbn [mbind option_bind sp_lost] in *);
        try (destruct (process_io_event _ _ _); [|done]; injection E as <-);
        try (destruct (hot_message _ _ _ _) as [[h ws]|]; [|done]; cbn [mbind option_bind] in E;
             destruct (spec_emit _ _ _ ws); injection E as <-); cbn; lia. }
    destruct (is_drain act); cbn [length]; lia.
Qed.

Definition pipeline_inv m n p : Prop :=
  ∃ s, pipeline_rep symbol p s ∧ spec_inv m n s.

Lemma pipeline_inv_le m n n' p : (n' <= n)%nat → pipeline_inv m n p → pipeline_inv m n' p.
Proof.
  intros Hn (s & Hp & Hs). exists s. split; [done|]. by apply (spec_inv_le m n).
Qed.

(** Any schedule. *)
Lemma pipeline_rounds_inv acts m n p :
  pipeline_inv m (length acts + n) p → Forall action_ok acts →
  Z.of_nat (m + length acts) < 2 ^ 30 - 2 →
  ∃ p' m', pipeline_rounds clock p acts = Some p' ∧ pipeline_inv m' n p' ∧
           (m' <= m + length acts)%nat.
Proof.
  intros (s & Hp & Hs) Hacts Hm.
  destruct (spec_rounds_inv acts m n s Hs Hacts Hm) as (s' & m' & Hr & Hs' & Hm').
  pose proof (pipeline_rounds_rep clock symbol acts p s Hp) as H. rewrite Hr in H.
  destruct H as (p' & -> & Hp'). exists p', m'. split; [done|]. split; [by exists s'|done].
Qed.

(** ** From start to end *)

(** Every object of the pool is free or in the queue. *)
Lemma feed_objects fh a ptrs :
  pipeline_feed_rep symbol (fh, []) a ptrs →
  mempool_available (Some (fh_msg_pool fh)) + Z.of_nat (length (fs_queue a)) = 4096.
Proof.
  intros [_ (used & Hu & Hinv) Hcap Hqd _ _ _ _ _ _ _]. cbn in *. rewrite app_nil_r in Hu.
  rewrite <- (stored_length _ _ _ Hqd), Hu, length_fmap, Z.add_comm.
  rewrite (pool_inv_length _ _ Hinv), Hcap. reflexivity.
Qed.

Lemma spec_initial_inv env io n :
  symbol_fits symbol → (∀ j, io_journal io = Some j → journal_ready n j) →
  spec_inv 0 n (spec_initial symbol env io).
Proof.
  intros Hsym Hj. split; cbn; try done.
  - apply initial_hot_inv.
  - apply d_of_Z_le_10_1000.
Qed.

Lemma start_inv env senv p0 jrnl n :
  symbol_fits symbol → init_env_ok env symbol → pipeline_init env symbol = Some (Some p0, 0) →
  se_feed senv = true → se_io senv = true → se_consumer senv = true →
  (∀ j, jrnl = Some j → journal_ready n j) →
  ∃ p, start senv (set_journal p0 jrnl) = (p, 0) ∧ pipeline_inv 0 n p ∧ ep_running p = true.
Proof.
  intros Hsym Henv Hinit H1 H2 H3 Hj.
  destruct (start_rep symbol env senv p0 jrnl Henv Hinit H1 H2 H3) as (p & Hs & Hr & Hp & Hrep).
  exists p. split; [exact Hs|]. split; [|exact Hr]. eexists. split; [exact Hrep|].
  apply spec_initial_inv; [done|]. by rewrite Hp.
Qed.

(** The destructor finds every message in the pool it came from. *)
Lemma feed_drain_ok fuel fh n ptrs :
  q_rep (fh_output_queue fh) n (Some <$> ptrs) → holds (fh_msg_pool fh) ptrs →
  ∃ fh', feed_drain fuel fh = Some fh'.
Proof.
  revert fh ptrs. induction fuel as [|fuel IH]; intros fh ptrs Hq Hp; [by eexists|].
  cbn [feed_drain]. destruct (q_pop_rep _ _ _ Hq) as (q & Hpop & Hq').
  cbn [q_pop ring_buffer_ops] in Hpop. rewrite Hpop.
  destruct ptrs as [|p ptrs]; cbn [fmap list_fmap queue_pop fst snd mbind option_bind] in *;
    [by eexists|].
  cbn [fh_set_queue fh_msg_pool]. destruct (holds_free _ _ _ Hp) as (mp & -> & Hp' & _).
  by apply (IH _ ptrs).
Qed.

Lemma drain_queue_ok {A} fuel (q : ring_buffer_t A) n l :
  q_rep q n l → ∃ q', drain_queue fuel q = Some q'.
Proof.
  revert q l. induction fuel as [|fuel IH]; intros q l Hq; [by eexists|]. cbn [drain_queue].
  destruct (q_pop_rep _ _ _ Hq) as (q' & Hpop & Hq'). cbn [q_pop ring_buffer_ops] in Hpop.
  rewrite Hpop. cbn [mbind option_bind]. destruct (queue_pop l).2; [by eapply IH|by eexists].
Qed.

Lemma log_main_fields t text p :
  let p' := foldl (λ p text, log_main t LOG_INFO text p) p text in
  ep_feed p' = ep_feed p ∧ ep_queues p' = ep_queues p ∧ ep_hot p' = ep_hot p ∧
  ep_running p' = ep_running p ∧ io_journal (ep_io p') = io_journal (ep_io p) ∧
  io_gateway (ep_io p') = io_gateway (ep_io p).
Proof.
  revert p. induction text as [|x text IH]; intros p; [done|]. cbn [foldl].
  destruct (IH (log_main t LOG_INFO x p)) as (-> & -> & -> & -> & -> & ->). done.
Qed.

Lemma stop_end_fields t p :
  ep_feed (stop_end t p) = fh_set_running (ep_feed p) false ∧
  ep_queues (stop_end t p) = ep_queues p ∧
  ep_hot (stop_end t p) = ep_hot p ∧ ep_running (stop_end t p) = false ∧
  io_journal (ep_io (stop_end t p)) = io_journal (ep_io p) ∧
  io_gateway (ep_io (stop_end t p)) = gw_shutdown (io_gateway (ep_io p)).
Proof.
  unfold stop_end. cbv zeta.
  match goal with |- context [foldl _ ?p0 ?l] => destruct (log_main_fields t l p0) as (H1 & H2 & H3 & H4 & H5 & H6) end.
  by split_and!.
Qed.

Lemma destroy_ok p t :
  (∃ s, pipeline_rep symbol p s) →
  destroy (stop_end t p) = Some (gw_destroy (gw_shutdown (io_gateway (ep_io p)))).
Proof.
  intros (s & ptrs & fr & fi & lost & []). unfold destroy.
  destruct (stop_end_fields t p) as (-> & -> & _ & _ & _ & ->).
  destruct pr_feed as [Hq Hp]. cbn [fst snd app] in *. rewrite app_nil_r in Hp.
  set (fh0 := fh_set_running (ep_feed p) false). cbn [feed_destroy].
  destruct (feed_drain_ok (Z.to_nat (rb_capacity (fh_output_queue fh0))) fh0 _ ptrs Hq Hp)
    as (fh & ->).
  cbn [mbind option_bind]. destruct pr_queues.
  destruct (drain_queue_ok (Z.to_nat (rb_capacity (tq_free (ep_queues p)))) _ _ _ tr_free)
    as (q1 & Hq1).
  destruct (drain_queue_ok (Z.to_nat (rb_capacity (tq_filled (ep_queues p)))) _ _ _ tr_filled)
    as (q2 & Hq2).
  rewrite Hq1, Hq2. reflexivity.
Qed.

(** What [stop] does first changes no more than the log calls. *)
Definition stop_begin_spec t p (s : pipeline_spec) : pipeline_spec :=
  MkSpec (sp_feed s) (sp_hot s) (sp_events s) (sp_lost s) (sp_dropped s) (ep_io (stop_begin t p)).

Lemma stop_begin_rep p s t :
  pipeline_rep symbol p s →
  pipeline_rep symbol (stop_begin t p) (stop_begin_spec t p s) ∧
  io_journal (ep_io (stop_begin t p)) = io_journal (sp_io s).
Proof.
  intros (ptrs & fr & fi & lost & []). split; [exists ptrs, fr, fi, lost; by split|].
  cbn. by rewrite pr_io.
Qed.

Lemma stop_begin_inv p m n s t :
  pipeline_rep symbol p s → spec_inv m n s → spec_inv m n (stop_begin_spec t p s).
Proof.
  intros Hp []. destruct (stop_begin_rep p s t Hp) as [_ Hj]. split; try done. cbn [sp_io stop_begin_spec].
  by rewrite Hj.
Qed.

(** A stop after any last rounds of the threads leaves a pipeline to destroy. *)
Lemma stop_inv m n p t drain :
  ep_running p = true → pipeline_inv m (length drain + n) p → Forall action_ok drain →
  Z.of_nat (m + length drain) < 2 ^ 30 - 2 →
  ∃ p', stop clock t drain p = Some p' ∧ ep_running p' = false ∧ is_Some (destroy p').
Proof.
  intros Er Hp Hd Hm. unfold stop. rewrite Er. cbn [negb].
  assert (pipeline_inv m (length drain + n) (stop_begin t p)) as Hb.
  { destruct Hp as (s & Hs & Hi). exists (stop_begin_spec t p s).
    split; [by apply stop_begin_rep|by apply stop_begin_inv]. }
  destruct (pipeline_rounds_inv drain m n _ Hb Hd Hm) as (p' & m' & -> & (s & Hs & _) & _).
  cbn [mbind option_bind]. exists (stop_end t p'). split; [done|].
  split; [apply stop_end_fields|]. rewrite (destroy_ok p' t); [by eexists|by exists s].
Qed.

(** C3 -- The whole pipeline is safe, for a symbol of at most fifteen characters (with
    more, the log of a trade is undefined: [long_symbol_trade_undefined]): initialised,
    started and run for any number of rounds of the feed's thread, the hot path and the
    I/O thread in any order, with no journal, a file journal whatever its writes return,
    or a mapped one with room to grow, nothing undefined happens; every message the feed
    put into its queue is processed exactly once or still queued; two orders are created
    for each, accepted or rejected, with ids that increase; the book satisfies its
    invariant; no position exceeds its limits; no message and no event is leaked (the
    free messages and those queued are 4096; the free events and those on their way to
    the I/O thread are 4095, less at most one for each round of the drain loop after a
    stop, which returns none); and the destructor after a stop is defined and keeps the
    gateway's log. *)
Theorem pipeline_safe env senv jrnl acts sym t
    (Henv : init_env_ok env symbol) (Hsym : symbol_fits symbol)
    (Hstart : se_feed senv = true ∧ se_io senv = true ∧ se_consumer senv = true)
    (Hjrnl : ∀ j, jrnl = Some j → journal_ready (length acts) j)
    (Hacts : Forall action_ok acts) (Hfew : Z.of_nat (length acts) < 2 ^ 30 - 2) :
  ∃ p0 p1 p (m queued lost : nat),
    pipeline_init env symbol = Some (Some p0, 0) ∧
    start senv (set_journal p0 jrnl) = (p1, 0) ∧
    pipeline_rounds clock p1 acts = Some p ∧
    fh_msgs_received (ep_feed p) = u64 (Z.of_nat (m + queued)) ∧
    market_data_msgs (stats p).1 = Z.of_nat m ∧
    ht_next_order_id (ep_hot p) = 1 + 2 * Z.of_nat m ∧
    orders_accepted (stats p).1 + orders_rejected (stats p).1 = 2 * Z.of_nat m ∧
    book_wf (ht_book (ep_hot p)) ∧
    Z.abs (net_position (get_position (ht_risk (ep_hot p)) sym)) <= 10000000 ∧
    0 <= gross_exposure (get_position (ht_risk (ep_hot p)) sym) <= 50000000 ∧
    mempool_available (Some (fh_msg_pool (ep_feed p))) + Z.of_nat queued = 4096 ∧
    ring_buffer_count (Some (tq_free (ep_queues p))) +
      ring_buffer_count (Some (tq_filled (ep_queues p))) + Z.of_nat lost = 4095 ∧
    (lost <= drain_rounds acts)%nat ∧
    destroy (stop_end t p) = Some (gw_destroy (gw_shutdown (io_gateway (ep_io p)))).
Proof.
  destruct (pipeline_init_ok env symbol Henv) as (p0 & _ & _ & Hinit & _).
  destruct Hstart as (H1 & H2 & H3).
  destruct (start_rep symbol env senv p0 jrnl Henv Hinit H1 H2 H3) as (p1 & Hst & _ & Hj & Hrep).
  destruct (spec_rounds_inv acts 0 0 (spec_initial symbol env (ep_io p1)))
    as (s & m & Hs & [] & _); [|done|done|].
  { apply spec_initial_inv; [done|]. rewrite Nat.add_0_r, Hj. exact Hjrnl. }
  pose proof (spec_rounds_lost _ _ _ Hs) as Hlost.
  pose proof (pipeline_rounds_rep clock symbol acts _ _ Hrep) as H. rewrite Hs in H.
  destruct H as (p & Hr & Hp). pose proof (destroy_ok p t (ex_intro _ s Hp)) as Hd.
  destruct Hp as (ptrs & fr & fi & lost & []).
  exists p0, p1, p, m, (length (fs_queue (sp_feed s))), (sp_lost s).
  unfold stats. cbn [fst]. rewrite pr_hot.
  split; [exact Hinit|]. split; [exact Hst|].
  split; [exact Hr|]. split; [exact (eq_trans (fr_received _ _ _ _ _ _ _ pr_feed) si_received0)|].
  split; [exact si_msgs0|]. split; [exact si_next0|]. split; [exact si_orders0|].
  destruct si_hot0 as [[Hwf _ _] _ [_ Hpos] _].
  destruct (Hpos (SymbolKey_of_chars sym)) as [Hnet Hgross].
  split; [exact Hwf|]. split; [exact Hnet|]. split; [exact Hgross|].
  split; [exact (feed_objects _ _ _ pr_feed)|]. split; [|by split].
  destruct pr_queues. rewrite (q_rep_count _ _ _ tr_free), (q_rep_count _ _ _ tr_filled).
  rewrite !length_fmap. change 4095 with (Z.of_nat io_capacity). lia.
Qed.

End safe.

(** ** Witness *)

Lemma fresh_journal_ready n j : fresh_journal = Some j → journal_ready n j.
Proof. intros [= <-]. by left. Qed.

Lemma pipeline_safe_witness :
  ∃ p0 p1 p (m queued lost : nat),
    pipeline_init ex_init_env "AAPL" = Some (Some p0, 0) ∧
    start (MkStartEnv true true true (1, 1)) (set_journal p0 fresh_journal) = (p1, 0) ∧
    pipeline_rounds ex_clock p1 ex_actions = Some p ∧
    fh_msgs_received (ep_feed p) = u64 (Z.of_nat (m + queued)) ∧
    market_data_msgs (stats p).1 = Z.of_nat m ∧
    ht_next_order_id (ep_hot p) = 1 + 2 * Z.of_nat m ∧
    orders_accepted (stats p).1 + orders_rejected (stats p).1 = 2 * Z.of_nat m ∧
    book_wf (ht_book (ep_hot p)) ∧
    Z.abs (net_position (get_position (ht_risk (ep_hot p)) "AAPL")) <= 10000000 ∧
    0 <= gross_exposure (get_position (ht_risk (ep_hot p)) "AAPL") <= 50000000 ∧
    mempool_available (Some (fh_msg_pool (ep_feed p))) + Z.of_nat queued = 4096 ∧
    ring_buffer_count (Some (tq_free (ep_queues p))) +
      ring_buffer_count (Some (tq_filled (ep_queues p))) + Z.of_nat lost = 4095 ∧
    (lost <= drain_rounds ex_actions)%nat ∧
    destroy (stop_end (9, 9) p) = Some (gw_destroy (gw_shutdown (io_gateway (ep_io p)))).
Proof.
  apply (pipeline_safe ex_clock "AAPL" ex_init_env (MkStartEnv true true true (1, 1))
    fresh_journal ex_actions "AAPL" (9, 9) ex_init_env_ok aapl_fits).
  - by split_and!.
  - intros j. apply fresh_journal_ready.
  - repeat constructor.
  - cbn. lia.
Defined.
