(* ===== verification/PipelineCount.v ===== *)
(** * The event pipeline: every event is accounted for

    Orders and trades make one event each.  Along every run of the three threads an
    event is journaled, or still on its way to the I/O thread, or counted as dropped:
    no order and no trade disappears without being counted. *)

From S2P Require Export PipelineSafe.

(** ** The journal counts what it is given *)

Lemma fwrite_sequence j data k : j_sequence (fwrite j data k).1 = j_sequence j.
Proof. unfold fwrite. by repeat case_match. Qed.

Lemma extend_sequence env j size : j_sequence (extend_mapping env j size).1 = j_sequence j.
Proof. unfold extend_mapping. by repeat case_match. Qed.

Lemma write_mapping_sequence j bytes j' :
  write_mapping j bytes = Some j' → j_sequence j' = j_sequence j.
Proof. unfold write_mapping. case_decide; [|done]. by intros [= <-]. Qed.

(** Whether or not the record is written, its number is used up. *)
Lemma append_sequence env j type data size j' rc :
  journal_append_to env j type data size = Some (j', rc) →
  j_sequence j' = u64 (j_sequence j + 1).
Proof.
  unfold journal_append_to. cbv zeta. set (j1 := set_sequence j _).
  assert (j_sequence j1 = u64 (j_sequence j + 1)) as <- by done.
  destruct (payload_bytes data size) as [bytes|]; [|done]. cbn [mbind option_bind].
  destruct (crc32_update _ _) as [c1|]; [|done]. cbn [mbind option_bind].
  destruct (crc32_update _ _) as [c2|]; [|done]. cbn [mbind option_bind].
  set (hdr := set_crc _ _). destruct (j_use_mmap j1).
  - pose proof (extend_sequence env j1 (u64 (HEADER_SIZE + size))) as He.
    destruct (extend_mapping env j1 _) as [j2 ok]. cbn [fst] in He.
    destruct ok; cbn [negb]; [|by intros [= <- _]].
    destruct (write_mapping _ _) as [j3|] eqn:Hw; [|done].
    intros [= <- _]. cbn. by rewrite (write_mapping_sequence _ _ _ Hw).
  - pose proof (fwrite_sequence j1 (header_bytes hdr) (ae_fwrite_header env)) as H1.
    destruct (fwrite j1 _ _) as [j2 ok]. cbn [fst] in H1.
    destruct ok; cbn [negb]; [|by intros [= <- _]].
    case_bool_decide; [by intros [= <- _]|].
    pose proof (fwrite_sequence j2 bytes (ae_fwrite_payload env)) as H2.
    destruct (fwrite j2 _ _) as [j3 ok]. cbn [fst] in H2.
    destruct ok; cbn [negb]; intros [= <- _]; cbn [j_sequence set_bytes_written]; by rewrite H2.
Qed.

Definition next_sequence (k : Z) (q : Z) : Z := u64 (q + k).

Lemma process_io_event_sequence env e s s' :
  process_io_event env e s = Some s' →
  j_sequence <$> io_journal s' = next_sequence 1 <$> (j_sequence <$> io_journal s).
Proof.
  intros H. pose proof (process_io_event_printable _ _ _ _ H) as Hp.
  destruct (io_journal s) as [j|] eqn:Hj.
  - destruct (process_io_event_journal env e s j Hp Hj) as (F & HF & HP). rewrite HP in H.
    destruct (journal_append_to _ _ _ _ _) as [[j' rc]|] eqn:Ha; [|done].
    injection H as <-. rewrite HF. cbn. f_equal. by eapply append_sequence.
  - destruct (process_io_event_unjournaled env e s Hp Hj) as (s1 & H1 & Hs1).
    rewrite H in H1. injection H1 as <-. by rewrite Hs1.
Qed.

(** ** Counting *)

(** What the hot path has emitted. *)
Definition emitted (h : hot_state) : Z := orders_created (ht_stats h) + trades_generated (ht_stats h).

Lemma spec_emit_count room es d ws :
  u64 (Z.of_nat (length (spec_emit room es d ws).1) + (spec_emit room es d ws).2) =
  u64 (Z.of_nat (length es) + d + Z.of_nat (length ws)).
Proof.
  revert es d. induction ws as [|w ws IH]; intros es d; cbn [spec_emit length].
  - cbn. f_equal. lia.
  - destruct (decide (length es < room)%nat); rewrite IH.
    + rewrite length_app. cbn. f_equal. lia.
    + replace (Z.of_nat (length es) + u64 (d + 1) + Z.of_nat (length ws))
        with (u64 (d + 1) + (Z.of_nat (length es) + Z.of_nat (length ws))) by lia.
      rewrite u64_add_u64. f_equal. lia.
Qed.

Section counts.
Context (clock : nat → Z * Z) (symbol : string).

(** [k] events have been processed since the journal had [seq] as next number. *)
Record spec_counts (seq : option Z) (k : nat) (s : pipeline_spec) : Prop := {
  sc_events : u64 (emitted (sp_hot s)) =
              u64 (Z.of_nat (k + length (sp_events s)) + sp_dropped s);
  sc_journal : j_sequence <$> io_journal (sp_io s) = next_sequence (Z.of_nat k) <$> seq;
}.

(** Whether a round of the specification takes an event. *)
Definition spec_takes (s : pipeline_spec) (a : pipeline_action) : nat :=
  match a, sp_events s with AIO _, _ :: _ | ADrain _, _ :: _ => 1 | _, _ => 0 end.

Lemma spec_io_counts seq k n s s' env :
  spec_counts seq k s → spec_io n env s = Some s' →
  spec_counts seq (spec_takes s (AIO env) + k) s'.
Proof.
  intros [He Hj]. unfold spec_io, spec_takes. destruct (sp_events s) as [|e es] eqn:Ees.
  - intros [= <-]. split; [by rewrite Ees|done].
  - destruct (process_io_event env e (sp_io s)) as [io|] eqn:Hio; [|done].
    intros [= <-]. split; cbn.
    + rewrite He. f_equal. cbn. lia.
    + rewrite (process_io_event_sequence _ _ _ _ Hio), Hj.
      destruct seq as [q|]; [|done]. cbn. f_equal. unfold next_sequence.
      rewrite u64_add_u64. f_equal. lia.
Qed.

Lemma spec_consume_counts seq k m n s s' env :
  spec_inv symbol m n s → Z.of_nat m < 2 ^ 30 - 2 → spec_counts seq k s →
  spec_consume clock env s = Some s' → spec_counts seq k s'.
Proof.
  intros Hs Hm [He Hj]. unfold spec_consume.
  destruct (fs_queue (sp_feed s)) as [|msg queue] eqn:Eq; [by intros [= <-]|].
  destruct Hs. rewrite Eq in *. apply Forall_cons in si_quotes as [[Hmsg _] _].
  destruct (hot_message_inv clock env (sp_hot s) msg si_hot (sim_quotes_ok _ Hmsg)
    (sm_symbol _ Hmsg)) as (h & ws & t & -> & _ & _ & Hc & Hl); [lia|]. cbn [mbind option_bind].
  pose proof (spec_emit_count (io_capacity - sp_lost s) (sp_events s) (sp_dropped s) ws) as Hn.
  destruct (spec_emit _ _ _ ws) as [es d]. cbn [fst snd] in Hn.
  intros [= <-]. split; [|exact Hj]. cbn [sp_hot sp_events sp_dropped]. destruct Hc as [_ Cc _ Ct].
  unfold emitted in *. rewrite Cc, Ct, u64_add_u64, Z.add_comm, u64_add_u64.
  rewrite Hl in Hn.
  transitivity (u64 (u64 (orders_created (ht_stats (sp_hot s)) + trades_generated (ht_stats (sp_hot s)))
                     + (2 + Z.of_nat t))); [rewrite u64_add_u64; f_equal; lia|].
  rewrite He, u64_add_u64.
  transitivity (u64 (u64 (Z.of_nat (length es) + d) + Z.of_nat k));
    [rewrite Hn, u64_add_u64; f_equal; lia|rewrite u64_add_u64; f_equal; lia].
Qed.

Lemma spec_round_counts seq k m n s act s' :
  spec_inv symbol m n s → Z.of_nat m < 2 ^ 30 - 2 → spec_counts seq k s →
  spec_round clock symbol s act = Some s' → spec_counts seq (spec_takes s act + k) s'.
Proof.
  intros Hs Hm Hk H. destruct act as [ts|env|env|env]; cbn [spec_round] in H.
  - injection H as <-. by destruct Hk.
  - by apply (spec_consume_counts _ _ m n s s' env).
  - by apply (spec_io_counts _ _ _ _ _ _ Hk H).
  - by apply (spec_io_counts _ _ _ _ _ _ Hk H).
Qed.

(** *** The events the I/O thread takes *)

(** Whether a round finds an event to process. *)
Definition takes_event (p : EventPipeline) (a : pipeline_action) : nat :=
  match a with
  | AIO _ | ADrain _ =>
    if 0 <? ring_buffer_count (Some (tq_filled (ep_queues p))) then 1 else 0
  | AFeed _ | AConsume _ => 0
  end.

(** The events processed in a run. *)
Fixpoint events_processed (p : EventPipeline) (acts : list pipeline_action) : nat :=
  match acts with
  | [] => 0
  | a :: acts =>
    takes_event p a +
    match pipeline_step clock p a with Some p' => events_processed p' acts | None => 0 end
  end.

Lemma filled_count p s :
  pipeline_rep symbol p s →
  ring_buffer_count (Some (tq_filled (ep_queues p))) = Z.of_nat (length (sp_events s)).
Proof.
  intros (ptrs & fr & fi & lost & Hp). destruct (pr_queues _ _ _ _ _ _ _ Hp).
  rewrite (q_rep_count _ _ _ tr_filled), length_fmap.
  by rewrite (Forall2_length _ _ _ (pr_events _ _ _ _ _ _ _ Hp)).
Qed.

Lemma takes_event_rep p s a : pipeline_rep symbol p s → takes_event p a = spec_takes s a.
Proof.
  intros Hp. unfold takes_event, spec_takes. rewrite (filled_count p s Hp).
  by destruct a, (sp_events s).
Qed.

(** A sound pipeline that counts. *)
Definition counted (seq : option Z) (k m n : nat) (p : EventPipeline) : Prop :=
  ∃ s, pipeline_rep symbol p s ∧ spec_inv symbol m n s ∧ spec_counts seq k s.

Lemma counted_rounds seq acts m n k p :
  counted seq k m (length acts + n) p → Forall action_ok acts →
  Z.of_nat (m + length acts) < 2 ^ 30 - 2 →
  ∃ p' m', pipeline_rounds clock p acts = Some p' ∧
    counted seq (events_processed p acts + k) m' n p' ∧ (m' <= m + length acts)%nat.
Proof.
  intros Hp Hacts. revert m k p Hp.
  induction Hacts as [|act acts Hact _ IH]; intros m k p Hp Hm.
  - exists p, m. split; [done|]. split; [done|cbn; lia].
  - cbn [pipeline_rounds events_processed length Nat.add] in *. destruct Hp as (s & Hp & Hs & Hk).
    destruct (spec_round_inv clock symbol m _ s act Hs Hact) as (s1 & d & H1 & Hs1 & Hd); [lia|].
    pose proof (pipeline_round_rep clock symbol p s act Hp) as Hr. rewrite H1 in Hr.
    destruct Hr as (p1 & Hr & Hp1). rewrite Hr. cbn [mbind option_bind].
    destruct (IH (m + d)%nat (spec_takes s act + k)%nat p1) as (p' & m' & Hrun & Hc & Hm'); [|lia|].
    { exists s1. split; [exact Hp1|]. split; [exact Hs1|].
      apply (spec_round_counts _ _ m _ _ _ _ Hs); [lia|done..]. }
    exists p', m'. split; [exact Hrun|]. split; [|lia]. rewrite (takes_event_rep p s act Hp).
    by replace (spec_takes s act + events_processed p1 acts + k)%nat
      with (events_processed p1 acts + (spec_takes s act + k))%nat by lia.
Qed.

Lemma counted_start env senv p0 jrnl n :
  symbol_fits symbol → init_env_ok env symbol → pipeline_init env symbol = Some (Some p0, 0) →
  se_feed senv = true ∧ se_io senv = true ∧ se_consumer senv = true →
  (∀ j, jrnl = Some j → journal_ready n j ∧ is_u64 (j_sequence j)) →
  ∃ p1, start senv (set_journal p0 jrnl) = (p1, 0) ∧ ep_running p1 = true ∧
    counted (j_sequence <$> jrnl) 0 0 n p1.
Proof.
  intros Hsym Henv Hinit (H1 & H2 & H3) Hjrnl.
  destruct (start_rep symbol env senv p0 jrnl Henv Hinit H1 H2 H3) as (p1 & Hst & Hr & Hj & Hrep).
  exists p1. split; [exact Hst|]. split; [exact Hr|]. eexists. split; [exact Hrep|]. split.
  - apply spec_initial_inv; [done|]. rewrite Hj. intros j Hj'. by apply Hjrnl.
  - split; [done|]. cbn. rewrite Hj. destruct jrnl as [j|]; [|done]. cbn. unfold next_sequence.
    rewrite Z.add_0_r, u64_id; [done|]. by apply Hjrnl.
Qed.

Lemma counted_stop_begin seq k m n p t :
  counted seq k m n p → counted seq k m n (stop_begin t p).
Proof.
  intros (s & Hp & Hs & [He Hj]). exists (stop_begin_spec t p s).
  destruct (stop_begin_rep symbol p s t Hp) as [Hp' Hio].
  split; [exact Hp'|]. split; [by apply stop_begin_inv|]. split; [exact He|].
  cbn [sp_io stop_begin_spec]. by rewrite Hio.
Qed.

(** What the counters say, with [k] events processed. *)
Lemma counted_stats seq k m n p :
  counted seq k m n p →
  u64 (orders_created (stats p).1 + trades_generated (stats p).1) =
  u64 (Z.of_nat k + ring_buffer_count (Some (tq_filled (ep_queues p))) + (stats p).2) ∧
  j_sequence <$> io_journal (ep_io p) = next_sequence (Z.of_nat k) <$> seq.
Proof.
  intros (s & Hp & _ & [He Hq]). rewrite (filled_count p s Hp).
  destruct Hp as (ptrs & fr & fi & lost & []).
  unfold stats. cbn [fst snd]. rewrite pr_hot, pr_dropped, pr_io. split; [|exact Hq].
  unfold emitted in He. rewrite He. f_equal. lia.
Qed.

(** C13 -- Every event is accounted for: for a symbol of at most fifteen characters,
    initialised, started and run for any number of rounds of the three threads in any
    order, with or without a journal, the orders created and the trades generated are
    the events processed by the I/O thread, those on their way to it and those counted
    as dropped (modulo [2 ^ 64], the width of the counters); and the journal, if there
    is one, has used up exactly one number for each event processed. *)
Theorem events_accounted env senv jrnl acts
    (Henv : init_env_ok env symbol) (Hsym : symbol_fits symbol)
    (Hstart : se_feed senv = true ∧ se_io senv = true ∧ se_consumer senv = true)
    (Hjrnl : ∀ j, jrnl = Some j → journal_ready (length acts) j ∧ is_u64 (j_sequence j))
    (Hacts : Forall action_ok acts) (Hfew : Z.of_nat (length acts) < 2 ^ 30 - 2) :
  ∃ p0 p1 p,
    pipeline_init env symbol = Some (Some p0, 0) ∧
    start senv (set_journal p0 jrnl) = (p1, 0) ∧
    pipeline_rounds clock p1 acts = Some p ∧
    u64 (orders_created (stats p).1 + trades_generated (stats p).1) =
    u64 (Z.of_nat (events_processed p1 acts) +
         ring_buffer_count (Some (tq_filled (ep_queues p))) + (stats p).2) ∧
    j_sequence <$> io_journal (ep_io p) =
      (λ j, u64 (j_sequence j + Z.of_nat (events_processed p1 acts))) <$> jrnl.
Proof.
  destruct (pipeline_init_ok env symbol Henv) as (p0 & _ & _ & Hinit & _).
  destruct (counted_start env senv p0 jrnl (length acts + 0) Hsym Henv Hinit Hstart)
    as (p1 & Hst & _ & Hc); [by rewrite Nat.add_0_r|].
  destruct (counted_rounds _ acts 0 0 0 p1 Hc Hacts Hfew) as (p & m & Hr & Hc' & _).
  destruct (counted_stats _ _ _ _ _ Hc') as [He Hj]. rewrite Nat.add_0_r in He, Hj.
  exists p0, p1, p. do 4 (split; [done|]). rewrite Hj. by destruct jrnl.
Qed.

End counts.

(** ** Witness *)

Lemma events_accounted_witness :
  ∃ p0 p1 p,
    pipeline_init ex_init_env "AAPL" = Some (Some p0, 0) ∧
    start (MkStartEnv true true true (1, 1)) (set_journal p0 fresh_journal) = (p1, 0) ∧
    pipeline_rounds ex_clock p1 ex_actions = Some p ∧
    u64 (orders_created (stats p).1 + trades_generated (stats p).1) =
    u64 (Z.of_nat (events_processed ex_clock p1 ex_actions) +
         ring_buffer_count (Some (tq_filled (ep_queues p))) + (stats p).2) ∧
    j_sequence <$> io_journal (ep_io p) =
      Some (u64 (Z.of_nat (events_processed ex_clock p1 ex_actions))).
Proof.
  apply (events_accounted ex_clock "AAPL" ex_init_env (MkStartEnv true true true (1, 1))
    fresh_journal ex_actions ex_init_env_ok aapl_fits).
  - by split_and!.
  - intros j Hj. split; [by apply fresh_journal_ready|]. injection Hj as <-. by vm_compute.
  - repeat constructor.
  - cbn. lia.
Defined.
