(* ===== verification/PipelineThreads.v ===== *)
(** * The event pipeline: all three threads at the grain of their shared accesses

    PipelineSpec.v runs the threads round by round, FeedThreads.v has the feed's
    thread and its consumer alone, and PipelineIO.v the hot path and the I/O thread
    alone.  Here all of them run at once: the receive thread and the consumer by
    their accesses to the pool and the queue of messages, the hot path and the I/O
    thread by their accesses to the two queues of events, to the event objects and
    to the running flag.  The consumer is the hot path: when it has read a message it
    works out the orders, which only it sees, and writes the events one access at a
    time before it returns the message.

    A run of the whole is a run of each part: of [ft_run] and of [pipeline_run], with
    the writes of the hot path over the messages seen ([parts_ok]); and a run of the
    feed's threads is one of the whole ([feed_run_lifts]). *)

From S2P Require Export PipelineSafe FeedThreads.

Section threads.
Context (clock : nat → Z * Z) (envs : nat → io_env).

Notation io_handoff := (handoff (E:=IOEvent) (Q:=ring_buffer_t nat) (O:=nat * option io_state)).

(** [pt_msgs] is history: the messages processed, with the clocks read. *)
Record pipeline_threads := MkPT {
  pt_feed : feed_threads;
  pt_hot : hot_state;
  pt_io : io_handoff;
  pt_msgs : list (md_env * feed_msg_t);
}.

Definition set_feed_part (s : pipeline_threads) f : pipeline_threads :=
  MkPT f (pt_hot s) (pt_io s) (pt_msgs s).
Definition set_io_part (s : pipeline_threads) io : pipeline_threads :=
  MkPT (pt_feed s) (pt_hot s) io (pt_msgs s).

(** The hot path has events to write. *)
Definition writing (io : io_handoff) : bool :=
  match h_writer io, h_todo io with WIdle, [] => false | _, _ => true end.

(** A step of the hot path: of its writing, or of the consumer. *)
Definition hot_step (env : md_env) (s : pipeline_threads) : option pipeline_threads :=
  if writing (pt_io s) then io ← writer_step (pt_io s); Some (set_io_part s io)
  else
    f ← cons_step (pt_feed s);
    match ft_cons (pt_feed s) with
    | CRead p =>
      msg ← fh_objects (ft_feed (pt_feed s)) !! p;
      '(h, ws) ← hot_message clock env (pt_hot s) msg;
      Some (MkPT f h (more_writes (pt_io s) ws) (pt_msgs s ++ [(env, msg)]))
    | _ => Some (set_feed_part s f)
    end.

Inductive pt_action :=
  | PRecv (ts : Z * Z)
  | PHot (env : md_env)
  | PIO
  | PStop.

Definition pt_step (s : pipeline_threads) (a : pt_action) : option pipeline_threads :=
  match a with
  | PRecv ts => f ← recv_step ts (pt_feed s); Some (set_feed_part s f)
  | PHot env => hot_step env s
  | PIO => io ← io_loop_step envs (pt_io s); Some (set_io_part s io)
  | PStop => io ← handoff_step (io_process envs) (λ e, e) (pt_io s) Stop; Some (set_io_part s io)
  end.

Fixpoint pt_run (s : pipeline_threads) (sched : list pt_action) : option pipeline_threads :=
  match sched with [] => Some s | a :: sched => s ← pt_step s a; pt_run s sched end.

(** The threads of a pipeline that has just been started. *)
Definition threads_of (p : EventPipeline) : pipeline_threads :=
  MkPT (ft_start (ep_feed p)) (ep_hot p) (pipeline_start (ep_queues p) [] (ep_io p)) [].

(** ** The parts of a run *)

Section parts.
Context (p0 : EventPipeline) (n : nat) (fr : list nat) (symbol : string).
Context (Hq : tq_rep (ep_queues p0) n fr [] []).
Context (Hnamed : trades_named symbol (ht_book (ep_hot p0))).

(** The hot path and the I/O thread are where they can be with the messages seen. *)
Record parts_ok (s : pipeline_threads) : Prop := {
  po_run : ∃ ws, hot_run clock (pt_msgs s) (ep_hot p0) = Some (pt_hot s, ws) ∧
    ∃ sched, pipeline_run envs (pipeline_start (ep_queues p0) ws (ep_io p0)) sched = Some (pt_io s);
  po_seen : (pt_msgs s).*2 = ft_seen (pt_feed s);
}.

Lemma threads_of_ok : parts_ok (threads_of p0).
Proof. split; [|done]. exists []. split; [done|by exists []]. Qed.

Lemma hot_run_snoc ms env msg h h1 w1 h2 w2 :
  hot_run clock ms h = Some (h1, w1) → hot_message clock env h1 msg = Some (h2, w2) →
  hot_run clock (ms ++ [(env, msg)]) h = Some (h2, w1 ++ w2).
Proof.
  revert h w1. induction ms as [|[env' msg'] ms IH]; intros h w1 Hr Hm; cbn [app hot_run] in *.
  - injection Hr as -> <-. rewrite Hm. cbn. by rewrite app_nil_r.
  - destruct (hot_message clock env' h msg') as [[h3 w3]|]; [|done]. cbn [mbind option_bind] in *.
    destruct (hot_run clock ms h3) as [[h4 w4]|] eqn:E; [|done]. cbn [mbind option_bind] in Hr.
    injection Hr as -> <-. rewrite (IH _ _ E Hm). cbn. by rewrite app_assoc.
Qed.

(** The symbols of the messages are terminated. *)
Definition seen_fit (f : feed_threads) : Prop := Forall (λ m, symbol_fits (fm_symbol m)) (ft_seen f).

(** A step of the writer, of the I/O thread, or a stop. *)
Lemma io_part_ok s a :
  parts_ok s → ∃ io, handoff_step (io_process envs) (λ e, e) (pt_io s) a = Some io ∧
    parts_ok (set_io_part s io).
Proof.
  intros [(ws & Hh & sched & Hio) Hs].
  destruct (handoff_step_total _ _ _ _ _ _ _ _ _ a Hq Hio) as (io & Hst & Hrun).
  exists io. split; [exact Hst|]. split; [|done]. exists ws. split; [exact Hh|by eexists].
Qed.

(** The consumer has read a message. *)
Lemma message_ok s f env msg :
  parts_ok s → ft_seen f = ft_seen (pt_feed s) ++ [msg] → symbol_fits (fm_symbol msg) →
  ∃ h ws, hot_message clock env (pt_hot s) msg = Some (h, ws) ∧
    parts_ok (MkPT f h (more_writes (pt_io s) ws) (pt_msgs s ++ [(env, msg)])).
Proof.
  intros [(ws0 & Hh & sched & Hio) Hs] Hf Hmsg.
  destruct (hot_run_named clock symbol _ _ _ _ Hh Hnamed) as [Hn _].
  destruct (hot_message_symbols clock symbol env (pt_hot s) msg Hn Hmsg) as [[h ws] Hm].
  exists h, ws. split; [exact Hm|]. split; cbn [pt_msgs pt_io pt_hot pt_feed].
  - exists (ws0 ++ ws). split; [by eapply hot_run_snoc|].
    by apply (handoff_run_more _ _ _ _ _ ws) in Hio.
  - by rewrite fmap_app, Hs, Hf.
Qed.

Lemma feed_part_ok s f :
  parts_ok s → ft_seen f = ft_seen (pt_feed s) → parts_ok (set_feed_part s f).
Proof. intros [Hio Hs] Hf. split; [exact Hio|]. cbn. congruence. Qed.

(** A step of the hot path is one of the writer or one of the consumer. *)
Lemma hot_step_ok env s f :
  parts_ok s → cons_step (pt_feed s) = Some f → seen_fit f →
  ∃ s', hot_step env s = Some s' ∧ parts_ok s' ∧
    pt_feed s' = (if writing (pt_io s) then pt_feed s else f).
Proof.
  intros Hs Hf Hfit. unfold hot_step. destruct (writing (pt_io s)).
  - destruct (io_part_ok s Writer Hs) as (io & Hst & Hs'). cbn [handoff_step] in Hst.
    rewrite Hst. by eexists.
  - rewrite Hf. cbn [mbind option_bind].
    pose proof (cons_step_seen _ _ Hf) as Hseen. unfold seen_fit in Hfit.
    destruct (ft_cons (pt_feed s)) as [|p|p|pc] eqn:Hc.
    2:{ destruct Hseen as (msg & Hmsg & Hseen). rewrite Hmsg. cbn [mbind option_bind].
        rewrite Hseen in Hfit. apply Forall_app in Hfit as [_ [Hfit _]%Forall_cons].
        destruct (message_ok s f env msg Hs Hseen Hfit) as (h & ws & -> & H). by eexists. }
    all: eexists; split; [done|]; split; [|done]; by apply feed_part_ok.
Qed.

Lemma recv_part_ok ts s f :
  parts_ok s → recv_step ts (pt_feed s) = Some f → parts_ok (set_feed_part s f).
Proof. intros Hs [Hf _]%recv_step_seen. by apply feed_part_ok. Qed.

(** What bounds a run: the messages seen and the events processed. *)
Lemma pt_step_bounds s a s' :
  pt_step s a = Some s' →
  (length (pt_msgs s') <= S (length (pt_msgs s)))%nat ∧
  ((h_out (pt_io s')).1 <= S (h_out (pt_io s)).1)%nat.
Proof.
  destruct a as [ts|env| |]; cbn [pt_step].
  - destruct (recv_step ts _); [|done]. intros [= <-]. cbn. lia.
  - unfold hot_step. destruct (writing _).
    + destruct (writer_step _) as [io|] eqn:Hst; [|done]. intros [= <-]. cbn.
      destruct (handoff_step_out (io_process envs) (λ e, e) (pt_io s) Writer io Hst)
        as [->|[? _]]; [lia|done].
    + destruct (cons_step _) as [f|]; [|done]. cbn [mbind option_bind].
      destruct (ft_cons _) as [|p|p|pc]; try (intros [= <-]; cbn; lia).
      destruct (_ !! p) as [msg|]; [|done]. cbn [mbind option_bind].
      destruct (hot_message _ _ _ msg) as [[h ws]|]; [|done]. intros [= <-]. cbn. rewrite length_app. cbn. lia.
  - destruct (io_loop_step envs _) as [io|] eqn:Hst; [|done]. intros [= <-]. cbn.
    destruct (handoff_step_out (io_process envs) (λ e, e) (pt_io s) Reader io Hst)
      as [->|[_ [e ->]]]; cbn; lia.
  - intros [= <-]. cbn. lia.
Qed.

Lemma pt_run_bounds sched s s' :
  pt_run s sched = Some s' →
  (length (pt_msgs s') <= length (pt_msgs s) + length sched)%nat ∧
  ((h_out (pt_io s')).1 <= (h_out (pt_io s)).1 + length sched)%nat.
Proof.
  revert s. induction sched as [|a sched IH]; intros s; cbn [pt_run length].
  - intros [= <-]. lia.
  - destruct (pt_step s a) as [s1|] eqn:Ha; [|done]. cbn [mbind option_bind].
    intros [H1 H2]%IH. destruct (pt_step_bounds _ _ _ Ha). lia.
Qed.

(** ** Runs of the feed's threads are runs of the pipeline *)

Lemma pt_run_app s l1 l2 : pt_run s (l1 ++ l2) = s ← pt_run s l1; pt_run s l2.
Proof.
  revert s. induction l1 as [|a l1 IH]; intros s; [done|]. cbn [app pt_run].
  destruct (pt_step s a); [apply IH|done].
Qed.

(** The hot path, left alone, gets its events written. *)
Lemma writing_finishes (env : md_env) s :
  parts_ok s → ∃ k s', pt_run s (replicate k (PHot env)) = Some s' ∧
    pt_feed s' = pt_feed s ∧ pt_msgs s' = pt_msgs s ∧ parts_ok s' ∧ writing (pt_io s') = false.
Proof.
  remember (writer_fuel (pt_io s)) as m eqn:Hm.
  revert s Hm. induction m as [m IH] using lt_wf_ind. intros s Hm Hs.
  destruct (writing (pt_io s)) eqn:Hw; [|by exists 0%nat, s].
  destruct (io_part_ok s Writer Hs) as (io & Hst & Hs'). cbn [handoff_step] in Hst.
  assert (0 < writer_fuel (pt_io s))%nat as Hpos.
  { clear -Hw Hst. destruct (pt_io s) as [t w todo dropped r out running].
    unfold writer_fuel. destruct w, todo; cbn in *; try done; lia. }
  pose proof (writer_step_fuel _ _ Hst Hpos) as Hlt.
  destruct (IH _ ltac:(by rewrite Hm) (set_io_part s io) eq_refl Hs') as (k & s' & Hr & H).
  exists (S k), s'. split; [|exact H]. cbn [replicate pt_run pt_step]. unfold hot_step.
  by rewrite Hw, Hst.
Qed.

(** The messages seen stay seen. *)
Lemma ft_run_seen fsched s f : ft_run s fsched = Some f → ft_seen s `prefix_of` ft_seen f.
Proof.
  revert s. induction fsched as [|a fsched IH]; intros s; cbn [ft_run]; [by intros [= <-]|].
  destruct (ft_step s a) as [s1|] eqn:H1; [|done]. cbn [mbind option_bind].
  intros Hr%IH. etrans; [|exact Hr]. destruct a as [ts|]; cbn [ft_step] in H1.
  - destruct (recv_step_seen _ _ _ H1) as [-> _]. done.
  - pose proof (cons_step_seen _ _ H1) as Hs.
    destruct (ft_cons s); try (by rewrite Hs). destruct Hs as (msg & _ & ->). by apply prefix_app_r.
Qed.

Lemma seen_fit_before fsched s f : ft_run s fsched = Some f → seen_fit f → seen_fit s.
Proof.
  intros [l Hl]%ft_run_seen. unfold seen_fit. rewrite Hl. by intros [? _]%Forall_app.
Qed.

(** Every run of the feed's threads happens in the pipeline. *)
Lemma feed_run_lifts (env : md_env) fsched s f :
  parts_ok s → writing (pt_io s) = false → ft_run (pt_feed s) fsched = Some f → seen_fit f →
  ∃ sched s', pt_run s sched = Some s' ∧ pt_feed s' = f ∧ parts_ok s' ∧
    writing (pt_io s') = false.
Proof.
  revert s. induction fsched as [|a fsched IH]; intros s Hs Hw; cbn [ft_run].
  - intros [= <-] _. by exists [], s.
  - destruct (ft_step (pt_feed s) a) as [f1|] eqn:Hf; [|done]. cbn [mbind option_bind].
    intros Hr Hfit. pose proof (seen_fit_before _ _ _ Hr Hfit) as Hfit1.
    destruct a as [ts|]; cbn [ft_step] in Hf.
    + destruct (IH (set_feed_part s f1)) as (sched & s' & Hrun & H);
        [by eapply recv_part_ok|done..|].
      exists (PRecv ts :: sched), s'. split; [|exact H]. cbn [pt_run pt_step]. by rewrite Hf.
    + destruct (hot_step_ok env s f1 Hs Hf Hfit1) as (s1 & H1 & Hs1 & Hf1). rewrite Hw in Hf1.
      destruct (writing_finishes env s1 Hs1) as (k & s2 & H2 & Hf2 & _ & Hs2 & Hw2).
      destruct (IH s2 Hs2 Hw2) as (sched & s' & Hrun & H); [by rewrite Hf2, Hf1|done|].
      exists (PHot env :: replicate k (PHot env) ++ sched), s'. split; [|exact H].
      cbn [pt_run pt_step]. rewrite H1. cbn [mbind option_bind]. by rewrite pt_run_app, H2.
Qed.

(** ** A hot path that keeps up *)

(** Whenever the receive thread begins to take an object, no message waits and the
    hot path is done with the last one. *)
Fixpoint pt_keeps_up (s : pipeline_threads) (sched : list pt_action) : bool :=
  match sched with
  | [] => true
  | a :: sched =>
    match a, ft_recv (pt_feed s) with PRecv _, RAlloc => consumer_idle (pt_feed s) | _, _ => true end &&
    match pt_step s a with Some s => pt_keeps_up s sched | None => true end
  end.

Section feed.
Context (mp0 : mempool_t) (room : nat) (a : Z).
Context (Hmp : pool_inv mp0 []) (Hroom : (0 < room)%nat).
Context (Ha : arr_get (free_list mp0) (mp_capacity mp0 - 1) = Some a).

Definition pt_inv (s : pipeline_threads) : Prop :=
  parts_ok s ∧ ft_inv mp0 room a (pt_feed s) ∧ sent_ok (pt_feed s).

(** What has been seen was sent, and is a simulated message. *)
Lemma ft_inv_seen f : ft_inv mp0 room a f → sent_ok f → Forall sim_msg_ok (ft_seen f).
Proof.
  intros [(q & top & pend & _ & _ & _ & Hsent & _) _] [_ Hms]. rewrite Hsent in Hms.
  by apply Forall_app in Hms as [? _].
Qed.

Lemma sim_seen_fit f : Forall sim_msg_ok (ft_seen f) → seen_fit f.
Proof. intros H. eapply Forall_impl; [exact H|]. apply sm_symbol. Qed.

Lemma pt_step_inv s act :
  pt_inv s →
  match act, ft_recv (pt_feed s) with PRecv _, RAlloc => consumer_idle (pt_feed s) | _, _ => true end
    = true →
  ∃ s', pt_step s act = Some s' ∧ pt_inv s'.
Proof.
  intros (Hs & Hf & Hok) Hidle. destruct act as [ts|env| |]; cbn [pt_step].
  - destruct (recv_step_inv mp0 room a Hmp Hroom Ha ts (pt_feed s) Hf) as (f & Hst & Hf').
    { intros E. by rewrite E in Hidle. }
    rewrite Hst. eexists. split; [done|]. split; [by eapply recv_part_ok|].
    split; [exact Hf'|]. by apply (recv_step_sent_ok ts (pt_feed s)).
  - destruct (cons_step_inv mp0 room a Hmp Hroom Ha (pt_feed s) Hf) as (f & Hst & Hf').
    pose proof (cons_step_sent_ok (pt_feed s) f Hok Hst) as Hok'.
    destruct (hot_step_ok env s f Hs Hst (sim_seen_fit f (ft_inv_seen f Hf' Hok')))
      as (s' & H' & Hs' & Hfeed). exists s'.
    split; [exact H'|]. split; [exact Hs'|]. rewrite Hfeed. by destruct (writing (pt_io s)).
  - destruct (io_part_ok s Reader Hs) as (io & Hst & Hs'). cbn [handoff_step] in Hst.
    unfold io_loop_step. rewrite Hst. by eexists.
  - destruct (io_part_ok s Stop Hs) as (io & Hst & Hs'). rewrite Hst. by eexists.
Qed.

Lemma pt_run_inv sched s :
  pt_inv s → pt_keeps_up s sched = true → ∃ s', pt_run s sched = Some s' ∧ pt_inv s'.
Proof.
  revert s. induction sched as [|act sched IH]; intros s Hs Hk; [by exists s|].
  cbn [pt_keeps_up pt_run] in *. apply andb_true_iff in Hk as [Hi Hk].
  destruct (pt_step_inv s act Hs Hi) as (s1 & H1 & Hs1). rewrite H1 in *.
  cbn [mbind option_bind]. by apply IH.
Qed.

End feed.

End parts.
(** ** From the start *)

(** What [start] leaves to the threads. *)
Lemma threads_start env symbol senv p0 jrnl p :
  init_env_ok env symbol → pipeline_init env symbol = Some (Some p0, 0) →
  se_feed senv = true ∧ se_io senv = true ∧ se_consumer senv = true →
  start senv (set_journal p0 jrnl) = (p, 0) →
  (∃ fr, tq_rep (ep_queues p) io_capacity fr [] []) ∧ ep_hot p = initial_hot symbol ∧
  io_journal (ep_io p) = jrnl ∧
  ∃ mp0 a, pool_inv mp0 [] ∧ (0 < queue_room (pipeline_feed_config symbol))%nat ∧
    arr_get (free_list mp0) (mp_capacity mp0 - 1) = Some a ∧
    ft_inv mp0 (queue_room (pipeline_feed_config symbol)) a (ft_start (ep_feed p)) ∧
    sent_ok (ft_start (ep_feed p)).
Proof.
  intros Henv Hinit (H1 & H2 & H3) Hst.
  destruct (start_rep symbol env senv p0 jrnl Henv Hinit H1 H2 H3)
    as (p' & Hst' & _ & Hj & ptrs & fr & fi & lost & [Hfeed Hhot Hq _ Hlost Hev _ _]).
  rewrite Hst in Hst'. injection Hst' as <-. cbn [sp_events sp_lost spec_initial] in Hev, Hlost.
  apply Forall2_nil_inv_r in Hev as ->. apply nil_length_inv in Hlost as ->.
  split; [by exists fr|]. split; [exact Hhot|]. split; [exact Hj|].
  assert (ptrs = []) as ->.
  { destruct Hfeed as [_ _ _ Hqd _ _ _ _ _ _ _]. by apply Forall2_nil_inv_r in Hqd. }
  pose proof (fr_price _ _ _ _ _ _ _ Hfeed) as Hprice.
  destruct (ft_start_rep (pipeline_feed_config symbol) (ep_feed p)
    (spec_start (iv_feed env) (pipeline_feed_config symbol)) ltac:(cbn; lia) eq_refl Hfeed)
    as (mp0 & a & Hmp & Hroom & Ha & _ & Hinv).
  exists mp0, a. split_and!; try done. cbn [sent_ok ft_feed ft_start]. cbn [fst] in Hprice.
  split; [|constructor]. cbn [ft_feed ft_start]. rewrite Hprice. apply d_of_Z_le_10_1000.
Qed.

(** C5 -- The whole pipeline at the grain of its shared accesses: for a symbol of at
    most fifteen characters, initialised and started, with or without a journal, and run
    under any interleaving of the receive thread, the hot path and the I/O thread, with
    a stop of the I/O thread at any point, in which the hot path keeps up (no message
    waits whenever the receive thread begins to take an object), no access is undefined;
    the hot path processes every message exactly once and in order, at most one behind,
    and none is dropped; its book, its positions and its order ids are sound, with two
    orders for each message; and the I/O thread has processed, in order and as the hot
    path made them, the events of the first [k] of the writes that found a free object;
    the others of these, at most 4095, are in the queue or in the hands of one of the
    two threads, and every other write tried so far was counted as dropped. *)
Theorem pipeline_threads_exact env symbol senv jrnl p0 p sched
    (Henv : init_env_ok env symbol) (Hinit : pipeline_init env symbol = Some (Some p0, 0))
    (Hsym : symbol_fits symbol)
    (Hthreads : se_feed senv = true ∧ se_io senv = true ∧ se_consumer senv = true)
    (Hstart : start senv (set_journal p0 jrnl) = (p, 0))
    (Hjrnl : ∀ j, jrnl = Some j → journal_ready (length sched) j)
    (Hworks : ∀ k, io_env_works (envs k))
    (Hfew : Z.of_nat (length sched) < 2 ^ 30 - 1)
    (Hup : pt_keeps_up (threads_of p) sched = true) :
  ∃ s hot ws tried kept k st,
    pt_run (threads_of p) sched = Some s ∧
    ft_seen (pt_feed s) `prefix_of` ft_sent (pt_feed s) ∧
    (length (ft_sent (pt_feed s)) <= S (length (ft_seen (pt_feed s))))%nat ∧
    fh_msgs_dropped (ft_feed (pt_feed s)) = 0 ∧
    (pt_msgs s).*2 = ft_seen (pt_feed s) ∧
    hot_run clock (pt_msgs s) (initial_hot symbol) = Some (hot, ws) ∧ pt_hot s = hot ∧ hot_inv hot ∧
    orders_created (ht_stats hot) = 2 * Z.of_nat (length (ft_seen (pt_feed s))) ∧
    ws = tried ++ h_todo (pt_io s) ∧ kept `sublist_of` tried ∧
    length tried = (length kept + h_dropped (pt_io s))%nat ∧
    (k <= length kept <= k + io_capacity)%nat ∧
    Z.of_nat (length kept) = Z.of_nat k + in_flight (pt_io s) ∧
    h_out (pt_io s) = (k, Some st) ∧
    io_run envs 0 (event_of <$> take k kept) (ep_io p) = Some st.
Proof.
  destruct (threads_start env symbol senv p0 jrnl p Henv Hinit Hthreads Hstart)
    as ([fr Hq] & Hhot & Hj & mp0 & a & Hmp & Hroom & Ha & Hft & Hok).
  assert (trades_named symbol (ht_book (ep_hot p))) as Hnamed
    by (rewrite Hhot; apply initial_hot_named).
  destruct (pt_run_inv p io_capacity fr symbol Hq Hnamed mp0 _ a Hmp Hroom Ha sched (threads_of p))
    as (s & Hrun & [(ws & Hr & hsched & Hio) Hseen] & Hfi & Hso);
    [by split; [apply threads_of_ok|]|done|].
  pose proof (ft_inv_seen mp0 _ a _ Hfi Hso) as Hms.
  destruct Hfi as [(q & top & pend & _ & _ & _ & Hsent & _) Hd].
  destruct (pt_run_bounds _ _ _ Hrun) as [Hlen Hk]. cbn in Hlen, Hk.
  destruct (io_handoff_exact _ _ _ envs _ hsched (ep_io p) Hq (hot_run_fresh _ _ _ _ _ Hr))
    as (s' & tried & kept & k & Hs' & Htried & Hkept & Hdrop & Hle & Hfl & Hout).
  rewrite Hio in Hs'. injection Hs' as <-. rewrite Hout in Hk. cbn in Hk.
  assert (Forall (λ m, quotes_ok m.2 ∧ symbol_fits (fm_symbol m.2)) (pt_msgs s)) as Hquotes.
  { apply (Forall_fmap snd (λ m, quotes_ok m ∧ symbol_fits (fm_symbol m))). rewrite Hseen.
    eapply Forall_impl; [exact Hms|]. intros m Hm. split; [by apply sim_quotes_ok|apply Hm]. }
  rewrite Hhot in Hr. pose proof (hot_run_printable _ _ _ _ _ Hsym Hr) as Hprint.
  destruct (hot_run_inv clock (pt_msgs s) _ (initial_hot_inv symbol) Hquotes)
    as (hot & ws' & t & Hhr & Hinv & _ & [_ Hc _ _] & _); [cbn; lia|].
  rewrite Hr in Hhr. injection Hhr as <- <-.
  destruct (io_run_ready envs 0 (event_of <$> take k kept) (ep_io p) (length sched))
    as [st Hst]; [|done|by rewrite Hj|rewrite length_fmap, length_take; lia|].
  { apply events_printable, Forall_take, (sublist_Forall _ _ _ Hkept).
    rewrite Htried in Hprint. by apply Forall_app in Hprint as [? _]. }
  exists s, (pt_hot s), ws, tried, kept, k, st. rewrite <- Hseen, length_fmap, Hout, Hst.
  split_and!; try done; try lia.
  - rewrite Hseen, Hsent. by apply prefix_app_r.
  - rewrite Hsent, length_app, <- Hseen, length_fmap. destruct pend; cbn; lia.
  - rewrite Hc. cbn. apply u64_id. unfold is_u64. lia.
Qed.

End threads.

(** ** A hot path that is behind *)

Definition ex_threads_env : start_env := MkStartEnv true true true (1, 1).

(** The feed of the started pipeline is the one that [feed_init] made. *)
Lemma pipeline_feed_started env symbol senv p0 jrnl p :
  pipeline_init env symbol = Some (Some p0, 0) →
  se_feed senv = true ∧ se_io senv = true ∧ se_consumer senv = true →
  start senv (set_journal p0 jrnl) = (p, 0) →
  feed_init (iv_feed env) (Some (pipeline_feed_config symbol)) = Some (ep_feed p0) ∧
  ep_feed p = started (ep_feed p0).
Proof.
  intros Hinit (H1 & H2 & H3) Hst.
  assert (feed_init (iv_feed env) (Some (pipeline_feed_config symbol)) = Some (ep_feed p0) ∧
          ep_running p0 = false) as [Hf Hrun].
  { clear -Hinit. unfold pipeline_init in Hinit.
    destruct (iv_logger env); [|done].
    destruct (gw_init _ _ _ _) as [gw|]; [|done].
    destruct (feed_init _ _) as [feed|]; [|done].
    destruct (ring_buffer_init (iv_free_queue env) _ _) as [[free|] rc1]; [|discriminate Hinit].
    destruct (ring_buffer_init (iv_filled_queue env) _ _) as [[filled|] rc2]; [|by destruct rc1].
    destruct rc1, rc2; try done. destruct (iv_event_pool env); [|done]. cbn [negb] in Hinit.
    destruct (push_all _ _); [|done]. by injection Hinit as <-. }
  split; [exact Hf|]. unfold start, set_journal in Hst.
  cbn [ep_running ep_feed log_main feed_start] in Hst. rewrite Hrun, H1, H2, H3 in Hst.
  cbn [negb] in Hst. by injection Hst as <-.
Qed.

(** C38 -- The race of the feed's pool reaches the book: in the pipeline as it is started,
    with any journal and any clocks, there is an interleaving of the receive thread and
    the hot path, with one more message waiting, in which the receive thread makes three
    messages and none counts as dropped, but the hot path trades on the first and
    twice on the third: six orders are created, none of them for the second message,
    and all their events are written. *)
Theorem pipeline_threads_behind clock envs jrnl :
  ∃ p0 p sched s m1 m2 m3 ws,
    pipeline_init ex_init_env "AAPL" = Some (Some p0, 0) ∧
    start ex_threads_env (set_journal p0 jrnl) = (p, 0) ∧
    pt_run clock envs (threads_of p) sched = Some s ∧
    fm_timestamp_ns <$> [m1; m2; m3] = [1000000000; 2000000000; 3000000000] ∧
    ft_sent (pt_feed s) = [m1; m2; m3] ∧ (pt_msgs s).*2 = [m1; m3; m3] ∧
    fh_msgs_dropped (ft_feed (pt_feed s)) = 0 ∧
    hot_run clock (pt_msgs s) (ep_hot p) = Some (pt_hot s, ws) ∧
    orders_created (ht_stats (pt_hot s)) = 6 ∧ writing (pt_io s) = false.
Proof.
  destruct (pipeline_init_ok ex_init_env "AAPL" ex_init_env_ok) as (p0 & _ & _ & Hinit & _).
  destruct (start_rep "AAPL" ex_init_env ex_threads_env p0 jrnl ex_init_env_ok Hinit
    eq_refl eq_refl eq_refl) as (p & Hst & _).
  destruct (threads_start ex_init_env "AAPL" ex_threads_env p0 jrnl p ex_init_env_ok Hinit
    ltac:(by split_and!) Hst) as ([fr Hq] & Hhot & _ & mp0 & a & _ & _ & _ & _ & Hok).
  destruct (pipeline_feed_started ex_init_env "AAPL" ex_threads_env p0 jrnl p Hinit
    ltac:(by split_and!) Hst) as [Hfeed Hp].
  destruct feed_threads_behind as (fh & fh1 & f & m1 & m2 & m3 & Hfh & Hfh1 & Hf & T1 & T2 & T3 &
    Hsent & Hseen & Hstats & _).
  change (feed_init (iv_feed ex_init_env) (Some (pipeline_feed_config "AAPL")))
    with (feed_init demo_feed_env (Some behind_config)) in Hfeed.
  rewrite Hfh in Hfeed. injection Hfeed as ->. injection Hfh1 as <-.
  change (feed_thread_start (fh_set_running (ep_feed p0) true)) with (started (ep_feed p0)) in Hf.
  rewrite <- Hp in Hf.
  pose proof (ft_run_sent_ok _ _ _ Hok Hf) as [_ Hmsgs]. rewrite Hsent in Hmsgs.
  assert (Forall sim_msg_ok (ft_seen f)) as Hsim.
  { rewrite Hseen. apply Forall_cons in Hmsgs as [H1 [_ [H3 _]%Forall_cons]%Forall_cons].
    repeat (apply Forall_cons; split; [assumption|]). apply Forall_nil_2. }
  assert (trades_named "AAPL" (ht_book (ep_hot p))) as Hnamed
    by (rewrite Hhot; apply initial_hot_named).
  destruct (feed_run_lifts clock envs p io_capacity fr "AAPL" Hq Hnamed ex_md_env behind_sched
    (threads_of p) f (threads_of_ok clock envs p) eq_refl Hf (sim_seen_fit f Hsim))
    as (sched & s & Hrun & Hpf & [(ws & Hr & _) Hms] & Hw).
  rewrite Hpf in Hms. injection Hstats as _ Hd _.
  assert (Forall (λ m, quotes_ok m.2 ∧ symbol_fits (fm_symbol m.2)) (pt_msgs s)) as Hquotes.
  { apply (Forall_fmap snd (λ m, quotes_ok m ∧ symbol_fits (fm_symbol m))). rewrite Hms.
    eapply Forall_impl; [exact Hsim|]. intros m Hm. split; [by apply sim_quotes_ok|apply Hm]. }
  rewrite Hseen in Hms.
  assert (length (pt_msgs s) = 3%nat) as Hlen by by rewrite <- (length_fmap snd), Hms.
  destruct (hot_run_inv clock (pt_msgs s) _ (initial_hot_inv "AAPL") Hquotes)
    as (hot & ws' & t & Hhr & _ & _ & [_ Hc _ _] & _); [cbn; lia|].
  rewrite <- Hhot, Hr in Hhr. injection Hhr as <- <-.
  exists p0, p, sched, s, m1, m2, m3, ws. rewrite Hpf.
  split; [exact Hinit|]. split; [exact Hst|]. split; [exact Hrun|]. split; [cbn; by rewrite T1, T2, T3|].
  split; [exact Hsent|]. split; [exact Hms|]. split; [exact Hd|]. split; [exact Hr|].
  split; [|exact Hw]. rewrite Hc, Hlen. by vm_compute.
Qed.

(** ** Witness *)

(** Once the receive thread stops, nothing more has to be kept up with. *)
Definition no_recv (a : pt_action) : bool := match a with PRecv _ => false | _ => true end.

Lemma pt_keeps_up_after clock envs s tss sched :
  keeps_up (pt_feed s) (Recv <$> tss) = true → forallb no_recv sched = true →
  pt_keeps_up clock envs s ((PRecv <$> tss) ++ sched) = true.
Proof.
  intros Hk Hn. revert s Hk. induction tss as [|ts tss IH]; intros s Hk.
  - cbn [fmap list_fmap app]. revert s Hk. induction sched as [|a sched IH]; intros s _; [done|].
    cbn [forallb pt_keeps_up] in *. apply andb_true_iff in Hn as [Ha Hn].
    apply andb_true_iff. split; [by destruct a|].
    destruct (pt_step clock envs s a); [|done]. by apply IH.
  - cbn [fmap list_fmap app keeps_up pt_keeps_up pt_step ft_step] in *.
    apply andb_true_iff in Hk as [Hi Hk]. apply andb_true_iff. split; [exact Hi|].
    destruct (recv_step ts (pt_feed s)) as [f|]; [|done]. cbn [mbind option_bind]. by apply IH.
Qed.

(** A message is made, the hot path works on it, and the I/O thread on its events. *)
Definition ex_threads_rest : list pt_action :=
  let hot := PHot ex_md_env in
  replicate 8 hot ++ concat (replicate 4 [PIO; hot]) ++ [PStop] ++ replicate 4 PIO.

Definition ex_threads_sched : list pt_action :=
  (PRecv <$> replicate 4 (1, 0)) ++ ex_threads_rest.

Lemma ex_io_env_works k : io_env_works (ex_io_env k).
Proof. done. Qed.

Lemma ex_feed_keeps_up :
  (λ fh, keeps_up (ft_start (started fh)) (Recv <$> replicate 4 (1, 0))) <$>
    feed_init demo_feed_env (Some behind_config) = Some true.
Proof. vm_compute. reflexivity. Qed.

Lemma pipeline_threads_exact_witness :
  ∃ p0 p s kept k st,
    pipeline_init ex_init_env "AAPL" = Some (Some p0, 0) ∧
    start ex_threads_env (set_journal p0 fresh_journal) = (p, 0) ∧
    pt_run ex_clock ex_io_env (threads_of p) ex_threads_sched = Some s ∧
    fh_msgs_dropped (ft_feed (pt_feed s)) = 0 ∧ hot_inv (pt_hot s) ∧
    h_out (pt_io s) = (k, Some st) ∧
    io_run ex_io_env 0 (event_of <$> take k kept) (ep_io p) = Some st.
Proof.
  destruct (pipeline_init_ok ex_init_env "AAPL" ex_init_env_ok) as (p0 & _ & _ & Hinit & _).
  destruct (start_rep "AAPL" ex_init_env ex_threads_env p0 fresh_journal ex_init_env_ok Hinit
    eq_refl eq_refl eq_refl) as (p & Hst & _).
  destruct (pipeline_feed_started ex_init_env "AAPL" ex_threads_env p0 fresh_journal p Hinit
    ltac:(by split_and!) Hst) as [Hfeed Hp].
  pose proof ex_feed_keeps_up as Hk.
  change (feed_init demo_feed_env (Some behind_config))
    with (feed_init (iv_feed ex_init_env) (Some (pipeline_feed_config "AAPL"))) in Hk.
  rewrite Hfeed in Hk. cbn [fmap option_fmap option_map] in Hk.
  apply (inj Some) in Hk. rewrite <- Hp in Hk.
  pose proof (pt_keeps_up_after ex_clock ex_io_env (threads_of p) (replicate 4 (1, 0))
    ex_threads_rest Hk eq_refl) as Hup.
  destruct (pipeline_threads_exact ex_clock ex_io_env ex_init_env "AAPL" ex_threads_env
    fresh_journal p0 p ex_threads_sched ex_init_env_ok Hinit aapl_fits ltac:(by split_and!) Hst
    (fresh_journal_ready _) ex_io_env_works ltac:(cbn; lia) Hup)
    as (s & hot & ws & tried & kept & k & st & Hrun & _ & _ & Hd & _ & _ & Hh & Hinv & _ & _ & _ & _ & _ & _ &
      Ho & Hio).
  exists p0, p, s, kept, k, st. rewrite Hh.
  split; [exact Hinit|]. split; [exact Hst|]. split; [exact Hrun|]. split; [exact Hd|].
  split; [exact Hinv|]. split; [exact Ho|exact Hio].
Defined.
