(* ===== verification/Main.v ===== *)
(** * The main program (src/main.cpp)

    What [main] does with its options, the journal and the pipeline.  The options
    are given as [getopt_long] returns them; the wake-ups of the main loop say
    what [time] returns then and whether a signal came before.  What is printed is
    kept, for each of the two streams, as the list of the texts printed, one for
    each group of calls of [printf].  [g_journal] and the pipeline share the
    journal, which is in the I/O state of the pipeline here; what is on disk after
    it is closed is [ms_file]. *)

From stdpp Require Import pretty.
From S2P Require Export PipelineSafe.

(** ** Options *)

Inductive main_option :=
  | OptDuration (arg : string)
  | OptSymbol (arg : string)
  | OptLog (arg : string)
  | OptJournal (arg : string)
  | OptHelp
  | OptOther.

Record settings := MkSettings {
  st_duration_sec : Z;
  st_symbol : string;
  st_log_path : string;
  st_journal_path : string;
}.

Definition default_settings : settings :=
  MkSettings 10 "AAPL" "trading_engine.log" "trading_engine.jrnl".

Definition char_code (c : Ascii.ascii) : Z := Z.of_nat (Ascii.nat_of_ascii c).

(** [isspace] in the C locale. *)
Definition is_space (c : Ascii.ascii) : bool :=
  (char_code c =? 32) || ((9 <=? char_code c) && (char_code c <=? 13)).
Definition is_digit (c : Ascii.ascii) : bool := (48 <=? char_code c) && (char_code c <=? 57).

Fixpoint skip_spaces (s : string) : string :=
  match s with String c s' => if is_space c then skip_spaces s' else s | EmptyString => s end.

Fixpoint digits_value (acc : Z) (s : string) : Z :=
  match s with
  | String c s => if is_digit c then digits_value (10 * acc + (char_code c - 48)) s else acc
  | EmptyString => acc
  end.

(** [atoi]; undefined if the value does not fit. *)
Definition atoi (s : string) : option Z :=
  let z := match skip_spaces s with
           | String c s' => if char_code c =? 45 then - digits_value 0 s'
                            else if char_code c =? 43 then digits_value 0 s'
                            else digits_value 0 (String c s')
           | EmptyString => 0
           end in
  if decide (is_i32 z) then Some z else None.

(** The settings, or the exit status. *)
Fixpoint parse_options (opts : list main_option) (st : settings) : option (settings + Z) :=
  let '(MkSettings duration symbol log journal) := st in
  match opts with
  | [] => Some (inl st)
  | OptDuration arg :: opts =>
    duration ← atoi arg; parse_options opts (MkSettings duration symbol log journal)
  | OptSymbol arg :: opts => parse_options opts (MkSettings duration arg log journal)
  | OptLog arg :: opts => parse_options opts (MkSettings duration symbol arg journal)
  | OptJournal arg :: opts => parse_options opts (MkSettings duration symbol log arg)
  | OptHelp :: _ => Some (inr 0)
  | OptOther :: _ => Some (inr 1)
  end.

(** ** Output *)

(** [%nlu] and the like *)
Fixpoint spaces (n : nat) : string :=
  match n with O => EmptyString | S n => String (Ascii.ascii_of_nat 32) (spaces n) end.
Definition fmt_pad (n : nat) (s : string) : string := spaces (n - String.length s) +:+ s.

Definition carriage_return : string := String (Ascii.ascii_of_nat 13) EmptyString.

(** Each line with its end. *)
Fixpoint text (lines : list string) : string :=
  match lines with [] => "" | l :: lines => l +:+ newline +:+ text lines end.

Definition print_banner : string := text [
  "";
  "╔══════════════════════════════════════════════════════╗";
  "║         Aspira High-Performance Trading Engine        ║";
  "║                    Version 1.0.0                       ║";
  "╠══════════════════════════════════════════════════════╣";
  "║  Architecture:                                        ║";
  "║    Market Data → Strategy → Risk → Book → Execution   ║";
  "║                                                       ║";
  "║  Key Features:                                        ║";
  "║    • Lock-free SPSC ring buffers                      ║";
  "║    • Price-time priority order book                   ║";
  "║    • Pre-trade risk validation                        ║";
  "║    • Async logging & persistence journal              ║";
  "║    • Event-driven pipeline architecture               ║";
  "╚══════════════════════════════════════════════════════╝";
  ""].

Definition print_usage (prog : string) : string := text [
  "Usage: " +:+ prog +:+ " [OPTIONS]";
  "";
  "Options:";
  "  -d, --duration <sec>   Run duration in seconds (default: 10, 0 = infinite)";
  "  -s, --symbol <sym>     Trading symbol (default: AAPL)";
  "  -l, --log <path>       Log file path (default: trading_engine.log)";
  "  -j, --journal <path>   Journal file path (default: trading_engine.jrnl)";
  "  -h, --help             Show this help message";
  "";
  "Press Ctrl+C to stop gracefully.";
  ""].

Definition print_configuration (st : settings) : string := text [
  "Configuration:";
  "  Symbol:     " +:+ st_symbol st;
  "  Duration:   " +:+ fmt_d (st_duration_sec st) +:+ " seconds" +:+
    (if st_duration_sec st =? 0 then " (infinite)" else "");
  "  Log:        " +:+ st_log_path st;
  "  Journal:    " +:+ st_journal_path st;
  ""].

Definition running_text (st : settings) : string :=
  "Trading engine is running. " +:+
  text [if 0 <? st_duration_sec st
        then "Will run for " +:+ fmt_d (st_duration_sec st) +:+ " seconds..."
        else "Running indefinitely (Ctrl+C to stop)..."; ""].

Definition print_stats (p : EventPipeline) : string :=
  let st := (stats p).1 in
  carriage_return +:+
  "  Market Data: " +:+ fmt_pad 8 (fmt_d (market_data_msgs st)) +:+
  " | Orders: " +:+ fmt_pad 6 (fmt_d (orders_created st)) +:+
  " | Accepted: " +:+ fmt_pad 6 (fmt_d (orders_accepted st)) +:+
  " | Rejected: " +:+ fmt_pad 4 (fmt_d (orders_rejected st)) +:+
  " | Trades: " +:+ fmt_pad 6 (fmt_d (trades_generated st)) +:+
  " | Drop: " +:+ fmt_pad 4 (fmt_d (stats p).2) +:+
  " | Latency: " +:+ fmt_pad 7 (fmt_f 2 (avg_latency_us st)) +:+ " µs".

Definition throughput (st : PipelineStats) (duration : Z) : Z :=
  if 0 <? duration then market_data_msgs st / duration else 0.

Definition final_report (duration : Z) (p : EventPipeline) : string :=
  let st := (stats p).1 in
  let line label n := "║  " +:+ label +:+ fmt_pad 10 (fmt_d n) +:+ "                  ║" in
  text [
    "";
    "╔══════════════════════════════════════════════════════╗";
    "║              Final Performance Report                 ║";
    "╠══════════════════════════════════════════════════════╣";
    line "Market Data Messages:  " (market_data_msgs st);
    line "Orders Created:        " (orders_created st);
    line "Orders Accepted:       " (orders_accepted st);
    line "Orders Rejected:       " (orders_rejected st);
    line "Orders Executed:       " (orders_executed st);
    line "Trades Generated:      " (trades_generated st);
    line "I/O Events Dropped:   " (stats p).2;
    "║  Average Latency:       " +:+ fmt_pad 8 (fmt_f 2 (avg_latency_us st)) +:+ " µs               ║";
    "╠══════════════════════════════════════════════════════╣";
    "║  Throughput:            " +:+ fmt_pad 8 (fmt_d (throughput st duration)) +:+ " msgs/sec          ║";
    "╚══════════════════════════════════════════════════════╝";
    ""].

Definition journal_report (j : option journal_t) : string :=
  text ["Journal closed: " +:+ fmt_d (journal_bytes_written j) +:+ " bytes, " +:+
        fmt_d (journal_sequence j) +:+ " records"].

Definition goodbye : string := text [""; "Trading engine shut down successfully."; ""].

Definition duration_text : string := text [""; ""; "Duration reached — shutting down..."].

Definition signal_text : string :=
  text [""; ""; "*** Signal received — shutting down gracefully ***"; ""].

(** What has been printed, on each stream, when the pipeline is initialised. *)
Definition opening (st : settings) (journal : option journal_t) : list string * list string :=
  let '(opened, err) :=
    match journal with
    | None => ([], [text ["Warning: failed to open journal at " +:+ st_journal_path st]])
    | Some _ => ([text ["Journal opened: " +:+ st_journal_path st +:+ " (mmap mode)"]], [])
    end in
  (print_banner :: print_configuration st :: opened ++ [text ["Initializing pipeline..."]], err).

Definition starting_text : string := text ["Starting trading engine..."; ""].

(** ** The running program *)

Record main_state := MkMain {
  ms_pipeline : EventPipeline;
  ms_g_journal : bool;          (* [g_journal] is not null *)
  ms_file : option file_t;
  ms_stdout : list string;
  ms_stderr : list string;
}.

Definition set_pipeline (s : main_state) p : main_state :=
  MkMain p (ms_g_journal s) (ms_file s) (ms_stdout s) (ms_stderr s).
Definition print (s : main_state) (t : string) : main_state :=
  MkMain (ms_pipeline s) (ms_g_journal s) (ms_file s) (ms_stdout s ++ [t]) (ms_stderr s).
Definition print_err (s : main_state) (t : string) : main_state :=
  MkMain (ms_pipeline s) (ms_g_journal s) (ms_file s) (ms_stdout s) (ms_stderr s ++ [t]).

(** [if (g_journal) { journal_close(g_journal); g_journal = nullptr; }] *)
Definition close_journal (truncated : bool) (s : main_state) : main_state :=
  if ms_g_journal s then
    MkMain (ms_pipeline s) false (journal_close truncated (io_journal (ep_io (ms_pipeline s))))
      (ms_stdout s) (ms_stderr s)
  else s.

(** The close at the end, which says what was written. *)
Definition report_journal (truncated : bool) (s : main_state) : main_state :=
  if ms_g_journal s
  then print (close_journal truncated s) (journal_report (io_journal (ep_io (ms_pipeline s))))
  else s.

Section main.
Context (clock : nat → Z * Z).

(** A signal: the clock, the last rounds of the threads, and whether the
    [ftruncate] of the close works. *)
Record signal_env := MkSignal {
  sg_time : Z * Z;
  sg_drain : list pipeline_action;
  sg_truncated : bool;
}.

Definition signal_handler (env : signal_env) (s : main_state) : option main_state :=
  let s := print_err s signal_text in
  p ← stop clock (sg_time env) (sg_drain env) (ms_pipeline s);
  Some (close_journal (sg_truncated env) (set_pipeline s p)).

(** One round of the main loop: the rounds of the threads during [sleep], a signal
    or none, and the time afterwards. *)
Record wakeup := MkWakeup {
  wk_rounds : list pipeline_action;
  wk_signal : option signal_env;
  wk_now : Z;
}.

(** The state and whether the loop has ended. *)
Fixpoint main_loop (duration start_time : Z) (wakeups : list wakeup) (s : main_state)
    : option (main_state * bool) :=
  match wakeups with
  | [] => Some (s, false)
  | w :: wakeups =>
    p ← (if ep_running (ms_pipeline s)
         then pipeline_rounds clock (ms_pipeline s) (wk_rounds w) else Some (ms_pipeline s));
    let s := set_pipeline s p in
    s ← (match wk_signal w with Some env => signal_handler env s | None => Some s end);
    let s := print s (print_stats (ms_pipeline s)) in
    if (0 <? duration) && (duration <=? wk_now w - start_time)
    then Some (print s duration_text, true)
    else main_loop duration start_time wakeups s
  end.

Record main_env := MkMainEnv {
  mv_prog : string;             (* [argv[0]] *)
  mv_open : open_env;
  mv_init : init_env;
  mv_start : start_env;
  mv_start_time : Z;
  mv_end : signal_env;          (* the stop and the close after the loop *)
}.

Inductive main_result :=
  | Exited (status : Z) (file : option file_t) (out err : list string)
  | Running (s : main_state).

(** After the loop; the pipeline is destroyed when main returns. *)
Definition main_end (env : signal_env) (duration : Z) (s : main_state) : option main_result :=
  let s := print s newline in
  p ← stop clock (sg_time env) (sg_drain env) (ms_pipeline s);
  let s := print (set_pipeline s p) (final_report duration p) in
  let s := print (report_journal (sg_truncated env) s) goodbye in
  _ ← destructor false (ms_pipeline s);
  Some (Exited 0 (ms_file s) (ms_stdout s) (ms_stderr s)).

Definition main (env : main_env) (opts : list main_option) (wakeups : list wakeup)
    : option main_result :=
  r ← parse_options opts default_settings;
  match r with
  | inr status => Some (Exited status None [print_usage (mv_prog env)] [])
  | inl st =>
    let journal := journal_open (mv_open env) true true in
    let closed := journal_close (sg_truncated (mv_end env)) journal in
    let '(out, err) := opening st journal in
    match pipeline_init (mv_init env) (st_symbol st) with
    | Some (Some p, 0) =>
      let p := match journal with Some _ => set_journal p journal | None => p end in
      let out := out ++ [starting_text] in
      let '(p, rc) := start (mv_start env) p in
      if negb (rc =? 0) then
        _ ← destructor true p;
        Some (Exited 1 closed out (err ++ [text ["FATAL: Pipeline start failed"]]))
      else
      let out := out ++ [running_text st] in
      '(s, ended) ← main_loop (st_duration_sec st) (mv_start_time env) wakeups
                      (MkMain p (bool_decide (is_Some journal)) None out err);
      if negb ended then Some (Running s) else main_end (mv_end env) (st_duration_sec st) s
    | Some _ =>
      _ ← destructor_failed (mv_init env);
      Some (Exited 1 closed out (err ++ [text ["FATAL: Pipeline initialization failed"]]))
    | None => None
    end
  end.

(** ** Properties *)

(** The rounds of the threads in a wake-up. *)
Definition wake_rounds (w : wakeup) : list pipeline_action :=
  wk_rounds w ++ match wk_signal w with Some env => sg_drain env | None => [] end.

Definition all_rounds (ws : list wakeup) : list pipeline_action := concat (wake_rounds <$> ws).

Definition time_is_up (duration start_time : Z) (w : wakeup) : bool :=
  (0 <? duration) && (duration <=? wk_now w - start_time).

(** A running pipeline is sound, with room for [n] more rounds; a stopped one can be
    destroyed. *)
Definition main_inv (symbol : string) (n : nat) (s : main_state) : Prop :=
  if ep_running (ms_pipeline s)
  then ∃ m, pipeline_inv symbol m n (ms_pipeline s) ∧ Z.of_nat (m + n) < 2 ^ 30 - 2
  else is_Some (destroy (ms_pipeline s)).

Lemma main_stop_ok symbol n s t drain :
  main_inv symbol (length drain + n) s → Forall action_ok drain →
  ∃ p', stop clock t drain (ms_pipeline s) = Some p' ∧ ep_running p' = false ∧
    is_Some (destroy p').
Proof.
  unfold main_inv. intros Hs Hd. destruct (ep_running (ms_pipeline s)) eqn:E.
  - destruct Hs as (m & Hp & Hm). apply (stop_inv clock symbol m n); [done..|lia].
  - unfold stop. rewrite E. by eexists.
Qed.

Lemma signal_handler_ok symbol n env s :
  main_inv symbol (length (sg_drain env) + n) s → Forall action_ok (sg_drain env) →
  ∃ s', signal_handler env s = Some s' ∧ ep_running (ms_pipeline s') = false ∧
    is_Some (destroy (ms_pipeline s')) ∧ ms_g_journal s' = false ∧ ms_stdout s' = ms_stdout s.
Proof.
  intros Hs Hd. unfold signal_handler. cbn [ms_pipeline print_err].
  destruct (main_stop_ok symbol n s (sg_time env) _ Hs Hd) as (p' & -> & Hp' & Hdes).
  cbn [mbind option_bind]. eexists. split; [done|]. unfold close_journal.
  cbn [ms_g_journal set_pipeline print_err]. by destruct (ms_g_journal s) eqn:E; cbn; rewrite ?E.
Qed.

(** One wake-up. *)
Lemma main_loop_cons symbol n duration start_time w ws s :
  main_inv symbol (length (wake_rounds w) + n) s → Forall action_ok (wake_rounds w) →
  ∃ s', main_loop duration start_time (w :: ws) s =
      (if time_is_up duration start_time w then Some (print s' duration_text, true)
       else main_loop duration start_time ws s') ∧
    main_inv symbol n s' ∧ (∃ line, ms_stdout s' = ms_stdout s ++ [line]) ∧
    (ep_running (ms_pipeline s) = false → ep_running (ms_pipeline s') = false) ∧
    (is_Some (wk_signal w) → ep_running (ms_pipeline s') = false ∧ ms_g_journal s' = false).
Proof.
  intros Hs Hw. unfold wake_rounds in *. rewrite length_app in Hs.
  apply Forall_app in Hw as [Hw1 Hw2]. cbn [main_loop]. fold (time_is_up duration start_time w).
  set (extra := match wk_signal w with Some env => sg_drain env | None => [] end) in *.
  assert (∃ p, (if ep_running (ms_pipeline s)
                then pipeline_rounds clock (ms_pipeline s) (wk_rounds w)
                else Some (ms_pipeline s)) = Some p ∧
               main_inv symbol (length extra + n) (set_pipeline s p) ∧
               (ep_running (ms_pipeline s) = false → ep_running p = false)) as (p & -> & Hp & Hrun).
  { unfold main_inv in *. cbn [ms_pipeline set_pipeline]. destruct (ep_running (ms_pipeline s)) eqn:E.
    - destruct Hs as (m & Hm & Hb). rewrite <- Nat.add_assoc in Hm.
      destruct (pipeline_rounds_inv clock symbol _ _ _ _ Hm Hw1) as (p & m' & Hr & Hp & Hm'); [lia|].
      exists p. split; [done|]. split; [|done].
      rewrite (pipeline_rounds_running clock _ _ _ Hr), E. exists m'. split; [done|lia].
    - exists (ms_pipeline s). split; [done|]. split; [|done]. by rewrite E. }
  cbn [mbind option_bind].
  destruct (wk_signal w) as [env|]; cbn [extra] in *.
  - destruct (signal_handler_ok symbol n env (set_pipeline s p) Hp Hw2) as (s' & -> & H1 & Hdes & H2 & H3).
    cbn [mbind option_bind]. eexists. split; [reflexivity|].
    split; [unfold main_inv; cbn [ms_pipeline print]; by rewrite H1|]. cbn [ms_stdout ms_pipeline ms_g_journal print].
    split; [rewrite H3; by eexists|]. by split.
  - cbn [mbind option_bind]. eexists. split; [reflexivity|].
    split; [exact Hp|]. cbn [ms_stdout ms_pipeline ms_g_journal set_pipeline print].
    split; [by eexists|]. split; [done|]. by intros [? [=]].
Qed.

(** What the main loop has done when the time is not up. *)
Definition loop_goes_on (duration start_time : Z) (ws : list wakeup) : Prop :=
  Forall (λ w, time_is_up duration start_time w = false) ws.

Lemma main_loop_runs symbol n duration start_time ws s :
  main_inv symbol (length (all_rounds ws) + n) s → Forall action_ok (all_rounds ws) →
  ∃ s', main_loop duration start_time ws s =
        Some (s', existsb (time_is_up duration start_time) ws) ∧ main_inv symbol n s' ∧
    (loop_goes_on duration start_time ws →
     (∃ lines, ms_stdout s' = ms_stdout s ++ lines ∧ length lines = length ws) ∧
     (ep_running (ms_pipeline s) = false ∨ Exists (λ w, is_Some (wk_signal w)) ws →
      ep_running (ms_pipeline s') = false)).
Proof.
  revert s. induction ws as [|w ws IH]; intros s Hs Hw.
  - exists s. split; [done|]. split; [done|]. intros _.
    split; [exists []; by rewrite app_nil_r|]. by intros [?|?%Exists_nil].
  - unfold all_rounds in *. cbn [fmap list_fmap concat] in *. rewrite length_app, <- Nat.add_assoc in Hs.
    apply Forall_app in Hw as [Hw1 Hw2].
    destruct (main_loop_cons symbol _ duration start_time w ws s Hs Hw1)
      as (s1 & -> & Hs1 & [line Hl] & Hr & Hsig).
    cbn [existsb]. destruct (time_is_up duration start_time w) eqn:Et.
    + exists (print s1 duration_text). split; [done|].
      split; [|by intros [Hf _]%Forall_cons; congruence].
      unfold main_inv in Hs1 |- *. cbn [ms_pipeline print].
      destruct (ep_running (ms_pipeline s1)); [|done]. destruct Hs1 as (m & Hp & Hb). exists m.
      split; [|lia]. apply (pipeline_inv_le symbol m (length (concat (wake_rounds <$> ws)) + n)); [lia|done].
    + destruct (IH s1 Hs1 Hw2) as (s' & -> & Hs' & Hgo). exists s'. split; [done|]. split; [done|].
      intros [_ Hws]%Forall_cons. destruct (Hgo Hws) as [(lines & H1 & Hn) H2].
      split; [exists (line :: lines); rewrite H1, Hl, <- app_assoc; split; [done|cbn; congruence]|].
      intros [H|[H|H]%Exists_cons]; apply H2; [left; by apply Hr|left; by apply Hsig|by right].
Qed.

(** *** The whole program *)

(** All system calls of [main] work but, perhaps, those that open the journal; the
    journal found is smaller than [2 ^ 61] bytes. *)
Record main_env_ok (env : main_env) (symbol : string) : Prop := {
  mo_init : init_env_ok (mv_init env) symbol;
  mo_feed : se_feed (mv_start env) = true;
  mo_io : se_io (mv_start env) = true;
  mo_consumer : se_consumer (mv_start env) = true;
  mo_file : ∀ f, oe_open (mv_open env) = Some f → 0 <= f_size f < 2 ^ 61;
}.

Lemma journal_open_ready env n j :
  (∀ f, oe_open env = Some f → 0 <= f_size f < 2 ^ 61) → Z.of_nat n < 2 ^ 31 →
  journal_open env true true = Some j → journal_ready n j.
Proof.
  intros Hf Hn. unfold journal_open. cbn [negb]. destruct (oe_calloc env); [|done]. cbn [negb].
  destruct (oe_open env) as [f|]; [|done]. specialize (Hf f eq_refl).
  set (size := if oe_fstat env then f_size f else 0).
  assert (size = f_size f ∨ size = 0) as Hsize by (unfold size; destruct (oe_fstat env); auto).
  destruct (_ && negb (oe_ftruncate env)); [done|]. destruct (oe_mmap env); [|done]. cbn [negb].
  unfold DEFAULT_MMAP_SIZE. intros [= <-]. right. unfold mapped_ok, DEFAULT_MMAP_SIZE.
  cbn [j_use_mmap j_mapped j_mmap_offset j_mmap_size j_file].
  destruct (Z.ltb_spec size (256 * 1024 * 1024)); [cbn [f_truncate f_size]|];
    (split; [split_and!|]); try done; try lia; rewrite (proj2 (Z.ltb_lt _ _)) by lia; lia.
Qed.

(** Up to the loop. *)
Definition started_output (st : settings) (journal : option journal_t) : list string :=
  (opening st journal).1 ++ [starting_text; running_text st].

Lemma main_starts env opts wakeups st n :
  parse_options opts default_settings = Some (inl st) → main_env_ok env (st_symbol st) →
  symbol_fits (st_symbol st) → Z.of_nat n < 2 ^ 31 →
  let journal := journal_open (mv_open env) true true in
  (∀ j, journal = Some j → journal_ready n j) ∧
  ∃ p0 p1, pipeline_init (mv_init env) (st_symbol st) = Some (Some p0, 0) ∧
    start (mv_start env) (set_journal p0 journal) = (p1, 0) ∧
    pipeline_inv (st_symbol st) 0 n p1 ∧ ep_running p1 = true ∧
    main env opts wakeups =
      ('(s, ended) ← main_loop (st_duration_sec st) (mv_start_time env) wakeups
         (MkMain p1 (bool_decide (is_Some journal)) None (started_output st journal)
            (opening st journal).2);
       if negb ended then Some (Running s) else main_end (mv_end env) (st_duration_sec st) s).
Proof.
  intros Hparse [Hinit H1 H2 H3 Hfile] Hsym Hn journal. unfold main. rewrite Hparse.
  cbn [mbind option_bind]. fold journal.
  assert (∀ j, journal = Some j → journal_ready n j) as Hj
    by (intros j; apply journal_open_ready; [done|lia]).
  split; [exact Hj|]. clearbody journal.
  destruct (pipeline_init_ok (mv_init env) (st_symbol st) Hinit)
    as (p0 & fr & gw & Hp0 & _ & _ & _ & _ & Hnone & _).
  assert (match journal with Some _ => set_journal p0 journal | None => p0 end =
          set_journal p0 journal) as Hset.
  { destruct journal; [done|]. destruct p0 as [? ? ? ? [? ? ?] ?]. cbn in *. by rewrite Hnone. }
  destruct (start_inv (st_symbol st) (mv_init env) (mv_start env) p0 journal n Hsym Hinit Hp0
    H1 H2 H3 Hj) as (p1 & Hp1 & Hinv & Hrun).
  exists p0, p1. do 4 (split; [done|]). rewrite Hp0, Hset, Hp1. unfold started_output.
  destruct (opening st journal) as [out err]. cbn [negb Z.eqb fst snd].
  by rewrite <- app_assoc.
Qed.

Lemma report_journal_pipeline truncated s :
  ms_pipeline (report_journal truncated s) = ms_pipeline s.
Proof. unfold report_journal, close_journal. by destruct (ms_g_journal s). Qed.

Lemma main_runs env opts wakeups st :
  parse_options opts default_settings = Some (inl st) → main_env_ok env (st_symbol st) →
  symbol_fits (st_symbol st) → Forall action_ok (all_rounds wakeups ++ sg_drain (mv_end env)) →
  Z.of_nat (length (all_rounds wakeups ++ sg_drain (mv_end env))) < 2 ^ 30 - 2 →
  ∃ s', (loop_goes_on (st_duration_sec st) (mv_start_time env) wakeups →
     (∃ lines, ms_stdout s' =
        started_output st (journal_open (mv_open env) true true) ++ lines ∧
        length lines = length wakeups) ∧
     (Exists (λ w, is_Some (wk_signal w)) wakeups → ep_running (ms_pipeline s') = false)) ∧
    if existsb (time_is_up (st_duration_sec st) (mv_start_time env)) wakeups
    then ∃ file out err, main env opts wakeups = Some (Exited 0 file (out ++ [goodbye]) err)
    else main env opts wakeups = Some (Running s').
Proof.
  intros Hparse Henv Hsym Hacts Hfew. apply Forall_app in Hacts as [Hacts Hdrain].
  set (N := length (all_rounds wakeups ++ sg_drain (mv_end env))) in *.
  destruct (main_starts env opts wakeups st N Hparse Henv Hsym ltac:(lia))
    as (_ & p0 & p1 & _ & _ & Hp1 & Hr1 & ->). cbv zeta.
  set (s0 := MkMain p1 _ None _ _).
  assert (main_inv (st_symbol st) N s0) as Hs0
    by (unfold main_inv; cbn [ms_pipeline s0]; rewrite Hr1; exists 0%nat; split; [done|lia]).
  unfold N in Hs0. rewrite length_app in Hs0.
  destruct (main_loop_runs (st_symbol st) _ (st_duration_sec st) (mv_start_time env) wakeups s0
    Hs0 Hacts) as (s' & -> & Hs' & Hgo).
  cbn [mbind option_bind]. exists s'.
  split; [intros Hws; destruct (Hgo Hws) as [Hl Hr]; split; [exact Hl|]; intros Hx; apply Hr; by right|].
  destruct (existsb _ _); cbn [negb]; [|done].
  rewrite <- (Nat.add_0_r (length _)) in Hs'.
  destruct (main_stop_ok _ 0 s' (sg_time (mv_end env)) _ Hs' Hdrain) as (p' & Hstop & _ & [log Hdes]).
  unfold main_end. cbn [ms_pipeline print]. rewrite Hstop. cbn [mbind option_bind].
  cbn [ms_pipeline print]. rewrite report_journal_pipeline.
  cbn [ms_pipeline print set_pipeline destructor].
  rewrite Hdes. cbn [mbind option_bind]. by do 3 eexists.
Qed.


(** A signal stops the pipeline but not the program: with duration 0 (or
    negative), documented as stopped by Ctrl+C, and before the end of any other
    duration, the loop goes on after a signal, however many wake-ups follow: it
    has printed one more line at each of them, with the pipeline stopped. *)
Theorem main_goes_on_after_signal env opts wakeups st
    (Hparse : parse_options opts default_settings = Some (inl st))
    (Henv : main_env_ok env (st_symbol st)) (Hsym : symbol_fits (st_symbol st))
    (Hacts : Forall action_ok (all_rounds wakeups ++ sg_drain (mv_end env)))
    (Hfew : Z.of_nat (length (all_rounds wakeups ++ sg_drain (mv_end env))) < 2 ^ 30 - 2)
    (Hwait : Forall (λ w, st_duration_sec st <= 0 ∨
                          wk_now w - mv_start_time env < st_duration_sec st) wakeups)
    (Hsignal : Exists (λ w, is_Some (wk_signal w)) wakeups) :
  ∃ s lines, main env opts wakeups = Some (Running s) ∧ ep_running (ms_pipeline s) = false ∧
    ms_stdout s = started_output st (journal_open (mv_open env) true true) ++ lines ∧
    length lines = length wakeups.
Proof.
  assert (loop_goes_on (st_duration_sec st) (mv_start_time env) wakeups) as Hgo.
  { eapply Forall_impl; [exact Hwait|]. intros w Hw. cbn beta in Hw. unfold time_is_up.
    destruct (Z.ltb_spec 0 (st_duration_sec st)); [|done]. apply Z.leb_gt. lia. }
  destruct (main_runs env opts wakeups st Hparse Henv Hsym Hacts Hfew) as (s' & H & Hm).
  destruct (H Hgo) as [(lines & Hl & Hn) Hr]. exists s', lines. split; [|split; [by apply Hr|done]].
  replace (existsb _ _) with false in Hm; [exact Hm|]. symmetry. apply not_true_iff_false.
  intros (w & Hin & Hw)%existsb_exists. apply list_elem_of_In in Hin.
  pose proof (proj1 (Forall_forall _ _) Hgo w Hin) as Hf. cbn in Hf. congruence.
Qed.

End main.

(** ** Witnesses *)

Definition ex_main_env : main_env :=
  MkMainEnv "./trading_engine" (MkOpenEnv true (Some empty_file) true true true) ex_init_env
    (MkStartEnv true true true (1, 1)) 100 (MkSignal (9, 9) [AConsume ex_md_env] true).

Definition ex_wakeups : list wakeup :=
  [MkWakeup [AFeed (1, 0); AConsume ex_md_env] None 101;
   MkWakeup [AIO (ex_io_env 0)] (Some (MkSignal (8, 8) [ADrain (ex_io_env 1)] true)) 102;
   MkWakeup [] None 103].

Lemma ex_main_env_ok : main_env_ok ex_main_env "AAPL".
Proof. split; try done. intros f [= <-]. cbn. lia. Qed.

Lemma ex_rounds_ok : Forall action_ok (all_rounds ex_wakeups ++ sg_drain (mv_end ex_main_env)).
Proof. repeat constructor. Qed.

Example ex_atoi : atoi " -12x" = Some (-12) ∧ atoi "" = Some 0 ∧ atoi "9999999999" = None.
Proof. vm_compute. by split_and!. Qed.


Lemma main_goes_on_after_signal_witness :
  ∃ s lines, main ex_clock ex_main_env [OptDuration "0"] ex_wakeups = Some (Running s) ∧
    ep_running (ms_pipeline s) = false ∧
    ms_stdout s = started_output (MkSettings 0 "AAPL" "trading_engine.log" "trading_engine.jrnl")
      (journal_open (mv_open ex_main_env) true true) ++ lines ∧ length lines = 3%nat.
Proof.
  apply (main_goes_on_after_signal ex_clock ex_main_env [OptDuration "0"] ex_wakeups
    (MkSettings 0 "AAPL" "trading_engine.log" "trading_engine.jrnl"));
    [reflexivity|exact ex_main_env_ok|exact aapl_fits|exact ex_rounds_ok|cbn; lia| |].
  - apply Forall_forall. intros w _. left. cbn. lia.
  - right. left. by eexists.
Defined.
