(* ===== verification/MainReport.v ===== *)
(** * The main program: what its report says

    A run of main without signals, from the start of the pipeline to the journal's
    last line: the numbers it prints are those of the events processed. *)

From S2P Require Export Main PipelineCount.

(** ** Rounds one after another *)

Section rounds.
Context (clock : nat → Z * Z).

Lemma pipeline_rounds_app acts acts' p :
  pipeline_rounds clock p (acts ++ acts') =
  p ← pipeline_rounds clock p acts; pipeline_rounds clock p acts'.
Proof.
  revert p. induction acts as [|a acts IH]; intros p; [done|]. cbn [app pipeline_rounds].
  destruct (pipeline_step clock p a) as [p1|]; [|done]. cbn [mbind option_bind]. apply IH.
Qed.

Lemma events_processed_le acts p : (events_processed clock p acts <= length acts)%nat.
Proof.
  revert p. induction acts as [|a acts IH]; intros p; [done|]. cbn [events_processed length].
  assert (takes_event p a <= 1)%nat by (destruct a; cbn; [lia|lia|case_match; lia..]).
  destruct (pipeline_step clock p a) as [p1|]; [specialize (IH p1)|]; lia.
Qed.

(** ** The main loop without signals *)

Lemma main_loop_quiet duration start_time ws w more p p' g f out err :
  ep_running p = true → Forall (λ w, wk_signal w = None) (ws ++ [w]) →
  loop_goes_on duration start_time ws → time_is_up duration start_time w = true →
  pipeline_rounds clock p (all_rounds (ws ++ [w])) = Some p' →
  ∃ lines, length lines = S (length ws) ∧
    main_loop clock duration start_time (ws ++ w :: more) (MkMain p g f out err) =
    Some (MkMain p' g f (out ++ lines ++ [duration_text]) err, true).
Proof.
  intros Hrun Hq Hgo Hdue. revert p out Hrun.
  induction ws as [|x ws IH]; intros p out Hrun Hp; cbn [app main_loop] in *.
  all: apply Forall_cons in Hq as [Hx Hq]; unfold all_rounds in Hp; cbn [fmap list_fmap concat] in Hp.
  all: unfold wake_rounds at 1 in Hp; rewrite Hx, app_nil_r in Hp.
  all: rewrite pipeline_rounds_app in Hp; cbn [ms_pipeline]; rewrite Hrun.
  all: destruct (pipeline_rounds clock p (wk_rounds _)) as [p1|] eqn:E; [|done]; cbn [mbind option_bind] in *.
  all: rewrite Hx; cbn [mbind option_bind].
  - cbn in Hp. injection Hp as ->. exists [print_stats p']. split; [done|].
    unfold time_is_up in Hdue. rewrite Hdue. unfold print, set_pipeline.
    cbn [ms_pipeline ms_g_journal ms_file ms_stdout ms_stderr].
    by rewrite <- app_assoc.
  - apply Forall_cons in Hgo as [Hnot Hgo]. unfold time_is_up in Hnot. rewrite Hnot.
    apply pipeline_rounds_running in E. rewrite Hrun in E.
    destruct (IH Hq Hgo p1 (out ++ [print_stats p1]) E Hp) as (lines & Hl & H).
    exists (print_stats p1 :: lines). split; [cbn; by rewrite Hl|].
    unfold print. cbn [set_pipeline ms_pipeline ms_g_journal ms_file ms_stdout ms_stderr].
    rewrite H. by rewrite <- app_assoc.
Qed.

(** ** The report *)

Lemma journal_open_sequence env path use_mmap j :
  journal_open env path use_mmap = Some j → j_sequence j = 0.
Proof. unfold journal_open. repeat case_match; by intros [= <-]. Qed.

(** [stop] of a running pipeline. *)
Lemma stop_running t drain p :
  ep_running p = true →
  stop clock t drain p = (p ← pipeline_rounds clock (stop_begin t p) drain; Some (stop_end t p)).
Proof. intros H. unfold stop. by rewrite H. Qed.

Lemma stats_stop_end t p :
  stats (stop_end t p) = stats p ∧ ep_queues (stop_end t p) = ep_queues p ∧
  io_journal (ep_io (stop_end t p)) = io_journal (ep_io p).
Proof.
  destruct (stop_end_fields t p) as (_ & Hq & Hh & _ & Hj & _).
  split; [|by rewrite Hq, Hj]. unfold stats. by rewrite Hh.
Qed.

(** The events processed until a stop has ended. *)
Definition processed_until_stop (p : EventPipeline) (t : Z * Z) (acts drain : list pipeline_action)
    : nat :=
  events_processed clock p acts +
  match pipeline_rounds clock p acts with
  | Some p' => events_processed clock (stop_begin t p') drain
  | None => 0
  end.

Lemma counted_until_stop symbol p1 t acts drain :
  counted symbol (Some 0) 0 0 (length acts + length drain) p1 → ep_running p1 = true →
  Forall action_ok acts → Forall action_ok drain →
  Z.of_nat (length acts + length drain) < 2 ^ 30 - 2 →
  ∃ p2 p3 j3, pipeline_rounds clock p1 acts = Some p2 ∧ stop clock t drain p2 = Some p3 ∧
    io_journal (ep_io p3) = Some j3 ∧ is_Some (destroy p3) ∧
    j_sequence j3 = Z.of_nat (processed_until_stop p1 t acts drain) ∧
    u64 (orders_created (stats p3).1 + trades_generated (stats p3).1) =
    u64 (Z.of_nat (processed_until_stop p1 t acts drain) +
         ring_buffer_count (Some (tq_filled (ep_queues p3))) + (stats p3).2).
Proof.
  intros Hc Hrun Hacts Hdrain Hfew. unfold processed_until_stop.
  destruct (counted_rounds clock _ _ acts 0 (length drain) 0 p1 Hc Hacts) as (p2 & m & Hr & Hc2 & Hm);
    [lia|].
  apply (counted_stop_begin _ _ _ _ _ _ t) in Hc2. rewrite <- (Nat.add_0_r (length drain)) in Hc2.
  destruct (counted_rounds clock _ _ drain m 0 _ (stop_begin t p2) Hc2 Hdrain)
    as (p3 & m' & Hr3 & Hc3 & _); [lia|].
  destruct (counted_stats _ _ _ _ _ _ Hc3) as [He Hjn]. rewrite Hr.
  destruct (stats_stop_end t p3) as (Hst & Hqs & Hjs).
  cbn [fmap option_fmap option_map] in Hjn. destruct (io_journal (ep_io p3)) as [j3|]; [|done].
  injection Hjn as Hjn. unfold next_sequence in Hjn.
  rewrite Nat.add_0_r, (Nat.add_comm (events_processed _ (stop_begin t p2) _)) in He, Hjn.
  pose proof (events_processed_le acts p1). pose proof (events_processed_le drain (stop_begin t p2)).
  rewrite u64_id in Hjn by (unfold is_u64; lia).
  exists p2, (stop_end t p3), j3. split; [done|].
  split; [rewrite stop_running, Hr3; [done|by rewrite (pipeline_rounds_running clock _ _ _ Hr)]|].
  rewrite Hst, Hqs. destruct Hc3 as (s3 & Hp3 & _).
  split; [congruence|]. split; [|done].
  rewrite (destroy_ok symbol p3 t (ex_intro _ s3 Hp3)). by eexists.
Qed.

(** The end of main when the journal is open. *)
Lemma main_end_output env duration p p' file out err :
  stop clock (sg_time env) (sg_drain env) p = Some p' → is_Some (destroy p') →
  main_end clock env duration (MkMain p true file out err) =
  Some (Exited 0 (journal_close (sg_truncated env) (io_journal (ep_io p')))
          (out ++ [newline; final_report duration p'; journal_report (io_journal (ep_io p')); goodbye])
          err).
Proof.
  intros Hs [log Hd]. unfold main_end. cbn [ms_pipeline print]. rewrite Hs. cbn [mbind option_bind].
  cbn [ms_pipeline print]. rewrite report_journal_pipeline.
  cbn [ms_pipeline print set_pipeline destructor].
  rewrite Hd. cbn [mbind option_bind].
  unfold report_journal, close_journal, print, set_pipeline.
  cbn [ms_pipeline ms_g_journal ms_file ms_stdout ms_stderr].
  by rewrite <- !app_assoc.
Qed.

(** C14 -- What main reports: with a symbol of at most fifteen characters, a journal and
    no signals, when its time is up at a wake-up, main has printed one line of
    statistics for each wake-up and, after the threads have run their last rounds, the
    report; the number of records in its last line is exactly the number of events that
    the I/O thread processed from the start to the end of the program, and the orders
    created and the trades generated that it reports are those events, those left in the
    queue and those reported as dropped (modulo [2 ^ 64]). *)
Theorem main_report_accounts env opts ws w more st
    (Hparse : parse_options opts default_settings = Some (inl st))
    (Henv : main_env_ok env (st_symbol st)) (Hsym : symbol_fits (st_symbol st))
    (Hacts : Forall action_ok (all_rounds (ws ++ [w]) ++ sg_drain (mv_end env)))
    (Hfew : Z.of_nat (length (all_rounds (ws ++ [w]) ++ sg_drain (mv_end env))) < 2 ^ 30 - 2)
    (Hjrnl : is_Some (journal_open (mv_open env) true true))
    (Hquiet : Forall (λ w, wk_signal w = None) (ws ++ [w]))
    (Hgo : loop_goes_on (st_duration_sec st) (mv_start_time env) ws)
    (Hdue : time_is_up (st_duration_sec st) (mv_start_time env) w = true) :
  ∃ p0 p1 p2 p3 lines bytes file,
    pipeline_init (mv_init env) (st_symbol st) = Some (Some p0, 0) ∧
    start (mv_start env) (set_journal p0 (journal_open (mv_open env) true true)) = (p1, 0) ∧
    pipeline_rounds clock p1 (all_rounds (ws ++ [w])) = Some p2 ∧
    stop clock (sg_time (mv_end env)) (sg_drain (mv_end env)) p2 = Some p3 ∧
    let processed := processed_until_stop p1 (sg_time (mv_end env)) (all_rounds (ws ++ [w]))
                       (sg_drain (mv_end env)) in
    length lines = S (length ws) ∧
    main clock env opts (ws ++ w :: more) =
      Some (Exited 0 file
        (started_output st (journal_open (mv_open env) true true) ++ lines ++
         [duration_text; newline; final_report (st_duration_sec st) p3;
          text ["Journal closed: " +:+ fmt_d bytes +:+ " bytes, " +:+
                fmt_d (Z.of_nat processed) +:+ " records"]; goodbye])
        (opening st (journal_open (mv_open env) true true)).2) ∧
    u64 (orders_created (stats p3).1 + trades_generated (stats p3).1) =
    u64 (Z.of_nat processed + ring_buffer_count (Some (tq_filled (ep_queues p3))) + (stats p3).2).
Proof.
  apply Forall_app in Hacts as [Hacts Hdrain]. rewrite length_app in Hfew.
  destruct (main_starts clock env opts (ws ++ w :: more) st
    (length (all_rounds (ws ++ [w])) + length (sg_drain (mv_end env))) Hparse Henv Hsym ltac:(lia))
    as (Hready & p0 & p1' & Hinit & Hstart' & _ & _ & Hmain).
  destruct Hjrnl as [j Hj]. rewrite Hj in *. pose proof (journal_open_sequence _ _ _ _ Hj) as Hseq.
  destruct (counted_start (st_symbol st) (mv_init env) (mv_start env) p0 (Some j)
    (length (all_rounds (ws ++ [w])) + length (sg_drain (mv_end env))) Hsym (mo_init _ _ Henv) Hinit)
    as (p1 & Hstart & Hrun & Hc); [by destruct Henv| |].
  { intros j' Hj'. split; [by apply Hready|]. injection Hj' as <-. by rewrite Hseq. }
  rewrite Hstart in Hstart'. injection Hstart' as <-.
  cbn [fmap option_fmap option_map] in Hc. rewrite Hseq in Hc.
  destruct (counted_until_stop _ p1 (sg_time (mv_end env)) _ _ Hc Hrun Hacts Hdrain Hfew)
    as (p2 & p3 & j3 & Hr & Hstop & Hj3 & Hdes & Hn & He).
  destruct (main_loop_quiet (st_duration_sec st) (mv_start_time env) ws w more p1 p2 true None
    (started_output st (Some j)) (opening st (Some j)).2 Hrun Hquiet Hgo Hdue Hr)
    as (lines & Hlines & Hloop).
  exists p0, p1, p2, p3, lines, (j_bytes_written j3), (journal_close (sg_truncated (mv_end env)) (Some j3)).
  do 4 (split; [done|]). cbv zeta. split; [done|]. split; [|exact He].
  rewrite Hmain. change (bool_decide (is_Some (Some j))) with true. rewrite Hloop.
  cbn [mbind option_bind negb]. rewrite (main_end_output _ _ _ _ _ _ _ Hstop Hdes), Hj3.
  unfold journal_report. cbn [journal_bytes_written journal_sequence]. rewrite Hn.
  by rewrite <- !app_assoc.
Qed.

End rounds.

(** ** Witness *)

Definition ex_report_wakeup (t : Z) : wakeup :=
  MkWakeup [AFeed (1, 0); AConsume ex_md_env; AIO (ex_io_env 0)] None t.

Lemma main_report_accounts_witness :
  ∃ p0 p1 p2 p3 lines bytes file,
    pipeline_init ex_init_env "AAPL" = Some (Some p0, 0) ∧
    start (mv_start ex_main_env) (set_journal p0 (journal_open (mv_open ex_main_env) true true)) =
      (p1, 0) ∧
    pipeline_rounds ex_clock p1 (all_rounds [ex_report_wakeup 101; ex_report_wakeup 102]) = Some p2 ∧
    stop ex_clock (9, 9) [AConsume ex_md_env] p2 = Some p3 ∧
    let processed := processed_until_stop ex_clock p1 (9, 9)
      (all_rounds [ex_report_wakeup 101; ex_report_wakeup 102]) [AConsume ex_md_env] in
    length lines = 2%nat ∧
    main ex_clock ex_main_env [OptDuration "2"] [ex_report_wakeup 101; ex_report_wakeup 102] =
      Some (Exited 0 file
        (started_output (MkSettings 2 "AAPL" "trading_engine.log" "trading_engine.jrnl")
           (journal_open (mv_open ex_main_env) true true) ++ lines ++
         [duration_text; newline; final_report 2 p3;
          text ["Journal closed: " +:+ fmt_d bytes +:+ " bytes, " +:+
                fmt_d (Z.of_nat processed) +:+ " records"]; goodbye])
        (opening (MkSettings 2 "AAPL" "trading_engine.log" "trading_engine.jrnl")
           (journal_open (mv_open ex_main_env) true true)).2) ∧
    u64 (orders_created (stats p3).1 + trades_generated (stats p3).1) =
    u64 (Z.of_nat processed + ring_buffer_count (Some (tq_filled (ep_queues p3))) + (stats p3).2).
Proof.
  apply (main_report_accounts ex_clock ex_main_env [OptDuration "2"] [ex_report_wakeup 101]
    (ex_report_wakeup 102) [] (MkSettings 2 "AAPL" "trading_engine.log" "trading_engine.jrnl")
    eq_refl ex_main_env_ok aapl_fits).
  - repeat constructor.
  - cbn. lia.
  - by eexists.
  - repeat constructor.
  - repeat constructor.
  - reflexivity.
Defined.
